(* ===== verification/_CoqProject ===== *)
-Q . S2P
Prelude.v
PyData.v
World.v
Mock.v
Mailbox.v
Batch.v
Labels.v
Search.v
Auth.v
Pipeline.v
Gate.v
Partial.v
EndToEnd.v
Interrupted.v
Faults.v
