(* ===== verification/Prelude.v ===== *)
(** * Verification of gmail-label-automation (src/label_rejections.py)

    The program is a single Python script that (1) obtains an OAuth
    credential, (2) finds or creates the Gmail label "rejections",
    (3) searches the inbox, page by page, for messages that match a fixed
    query and (4) adds the label to every match in batches of at most
    1000 message ids.  Everything it does is an effect on the outside
    world: two local files, the OAuth endpoints, the Gmail REST API and
    the console.  The development models the script as programs of a
    state-and-exception monad over an explicit world and proves what each
    function of the script does to that world, on every branch, and what
    the whole script does to a reference model of a mailbox.

    ** Files, in dependency order

    - [Prelude] (this file): the outcome type [result] (a value, a Python
      exception, or the fuel of a loop running out), the monad [prog] of
      programs over a state, its loop combinators ([for_each], [foldM]),
      the loop rule [for_each_invariant], the list lemmas the components
      share (slices, chunking), and two properties of programs that are
      proved by following their structure: [preserves R c] (every run of
      [c] keeps the relation [R], tactic [frame]) and [total c] ([c]
      never runs out of fuel, tactic [totality]).
    - [PyData]: the dynamically typed data the script handles.  A JSON
      document is a [pyval], with decidable equality; the Python
      operations the script applies to it ([d.get(k, default)], [d[k]],
      [s.lower()], iteration, truthiness, [range(start, stop, step)]) are
      functions that return [Raise] with the exception Python raises.
    - [World]: the environment.  Requests of the API methods the script
      calls, OAuth credentials, the local files, the console, and the
      record [world] that holds them with a log of the API calls issued.
      The remote side is abstract: a carrier [P] with the classes
      [GmailApi P] (what [execute()] answers) and [OAuth P] (refresh and
      interactive consent).  The schema of well-formed responses is a
      boolean predicate, and a provider that respects it is a
      [GmailSchema] instance.  The classes [Frame] and [LoginFrame] say
      which relations between worlds the requests, the prints and the
      login keep, for requests and printed lines of given kinds;
      [sends], [prints], [local] and [writes_only] are instances.
      [emits Q c] says that the requests [c] appends to the log satisfy
      [Q], whatever its outcome; [at_most] and [within] are the bounds on
      their number and on the size of a batch request.  [completes c]
      says that [c] prints the last line of the script exactly when it
      returns.
    - [Mock]: two providers for scenarios.  [script] replays a list of
      canned answers; [forever] answers every listing with a page and a
      page token.
    - [Mailbox]: a reference model of a Gmail account: labels, messages,
      a search predicate, offset-based page tokens, [batchModify] with
      its limit of 1000 ids, access and refresh tokens with scopes.  Its
      invariant is [mailbox_wf]; every request and every login keeps it.
      [ensure_label] and [apply_label] say what the requests of the
      script do to it.  Mailboxes are compared up to the tokens they
      have granted ([≡], with [Proper] instances for the functions
      above): a login changes a mailbox up to this equivalence.
    - [Batch]: [add_label_to_messages] (src lines 87-105) and the
      chunking theorems.
    - [Labels]: [get_or_create_label] (lines 39-61), its typed
      specification [resolve_label] and the refinement between the two.
    - [Search]: [search_messages] (lines 64-84); the [while] loop takes
      fuel, and the theorems say how much fuel is enough.
    - [Auth]: [get_gmail_service] (lines 11-36).
    - [Pipeline]: [main] (lines 108-135), split into the login and
      [label_rejections], the rest of its body, the entry point
      [run_module] (lines 138-139) and the exit status of the process
      ([exit_status]); the phases of a run as the step
      relation [step]; the order of the requests as an invariant of the
      machine; the bounds [budget] on the requests of a run.
    - [Gate]: a provider behind a gate.  A gate ([Gate G]) decides for
      each call to the provider, a Gmail request or a call of the login
      to one of the two OAuth endpoints, whether the provider answers
      it, refuses it, or applies it and loses the answer ([fault],
      [gated_call]); [gated G P] is the provider [P] behind a gate,
      with its instances of the four classes.  A quota of calls
      ([quota_gate], 429 once it is used up) and a schedule of
      transient faults ([schedule_gate]) are the two gates.  The
      relation [behind] between a program run behind a gate and the
      same program run without is proved for each function of the
      script by following its structure (tactic [behind]);
      [Auth.login_asks] says when the login reaches the authorization
      server, and [login_fault] what a login that is stopped leaves.
    - [Partial]: the batch when a request is stopped between two
      chunks.
    - [EndToEnd]: [main] against [Mailbox]: the mailbox a run leaves
      ([labelled]), the requests of a complete run, a second run, the
      invariant, the first run with the interactive login, a credential
      the mailbox refuses.
    - [Interrupted]: the states of the mailbox between the start and the
      end of a run ([progress]), which every request of the script keeps
      ([scripted]); the run after a run that has stopped half way; the
      last line of the console.
    - [Faults]: the script run again and again ([rerun]) at any times
      against a provider that follows a schedule of faults, with the
      credential each run leaves in [token.json] for the next
      ([stored]), from a stored credential or from the first
      interactive login ([can_login]).

    ** How state and effects correspond to the code

    A Python function [f(service, x)] becomes [f service x : prog (world P) A]:
    a function from the world before the call to an outcome and the world
    after it.  [request.execute()] is [execute], which appends the request
    to [w_calls] and lets the provider answer; [print(...)] is [print],
    which appends a structured line to [w_console] ([render] gives its
    text).  A Python exception is the outcome [Raise e]; the script
    catches none, so [mbind] propagates it and keeps the world as it was
    when the exception was raised (labels already applied stay applied).

    ** What the theorems show

    - [Batch]: a run that returns has sent one request per chunk of 1000
      ids, in order, and the chunks partition the ids; a run that raises
      stopped at the provider's first error, and the function stops at
      the first request the provider refuses; it returns when the
      provider accepts the requests.
    - [Labels]: on answers of the documented shape the function is its
      typed specification (first match up to case, otherwise one create
      request); on other answers it raises the Python exception of the
      first ill-formed label.
    - [Search]: against a provider that serves a finite list of pages the
      function returns the ids of all pages in order with one request
      per page; a failed page ends the search with the error of the
      provider, and a page with a message whose id cannot be read ends
      it with the Python exception of that read; against a provider
      that never ends a listing no fuel is enough.
    - [Auth]: the outcome on each branch (cached, refresh, login, and
      the failures), the postcondition of a successful call, and that
      the credential a call has returned is the one the next call
      loads from [token.json].
    - [Pipeline]: [main] and the machine of the phases agree; the
      requests go out in the order labels, searches, batches; on every
      run there are at most two requests on labels and one search per
      unit of fuel, and every batch request carries 1 to 1000 ids;
      [main] writes no file but [token.json]; against a provider
      whose answers have the documented shape every line a run prints
      has a text ([render], which is defined when the ids the
      f-strings interpolate are strings).
    - [Gate]: for every provider and every gate, [main] behind the gate
      is [main] without it while the gate lets its calls pass, and
      otherwise stops with the error of the fault after a prefix of the
      calls of the complete run: before any request and without
      writing [token.json] when the fault is at the login, after a
      prefix of the requests otherwise.
    - [Partial]: on the mailbox, a batch stopped after [n] chunks has
      labelled the messages among the first [1000 * n] ids and no
      other, or among the first [1000 * (n + 1)] when the answer of the
      request was lost, and has printed [n] lines.
    - [EndToEnd]: with a credential the mailbox accepts, [main] leaves
      the label [rejections] on the messages that match, keeps what was
      there, and prints, as texts, the line of the label, the number of
      matches, one line per batch and the last line; a second run
      changes nothing; the invariant of the mailbox is kept on every
      run.
    - [Interrupted]: whatever a run has done behind whatever gate, a
      later run that completes on the mailbox it has left reaches the
      mailbox an uninterrupted run reaches: the script needs neither a
      rollback nor a record of what it has done.  Whatever a run does,
      it only adds: the label [rejections] to the labels when there
      was none, and that label to some of the messages that match;
      nothing is removed and no other message is touched.  A run
      prints its last line exactly when it returns, and then the
      messages that match are labelled, whatever the credential, the
      fuel and the faults.
      With fuel for the pages of the search the script ends, behind
      any gate, with status 0 exactly when it has printed that line.
    - [Faults]: with a stored credential the mailbox honours, or with
      the client secrets and a user who consents to the first login, at
      most as many runs fail as the schedule has faults; the run after
      them returns, and the mailbox stays labelled through every later
      run.  The runs may start at any times: a run that finds the
      stored credential expired refreshes it and stores the new one.

    ** Fuel

    Only [search_messages] has an unbounded loop (one iteration per page
    of results).  [Search.search_loop] takes the number of iterations it
    may run as fuel and answers [OutOfFuel] when it needs more; [main]
    passes its fuel on.  The fuel that is enough is the number of pages
    the provider serves: against [Mailbox], any [fuel] with
    [length matches < fuel * page_size].  All other loops iterate over a
    list that is already in hand and have no path that runs out of
    fuel ([total], a fact about the encoding); more fuel changes no
    outcome that was reached ([Search.search_messages_fuel_mono]).

    The quota of a gate and the schedule of faults are chosen by the
    statement: the theorems hold for every gate, and the witnesses use a
    quota of three calls for a run that makes four, and schedules
    with a lost answer or two faults, at the login or at a request.  [Faults.rerun] takes the number
    of runs and the time of each; the theorem bounds the number of runs
    that fail by the number of faults of the schedule.

    ** Not modelled

    Every statement of the script is modelled but the imports (lines
    1-9), which only bind names.  Of its environment the development
    leaves out: the HTTP transport; JSON parsing and printing (a file
    holds a JSON value, and a file that is not JSON is not modelled);
    failures of the file system other than a missing file; the
    discovery step of [build]; the local callback server of the
    interactive login; the Unicode part of [str.lower] (the model
    lower-cases ASCII letters only); floating-point JSON numbers; rate
    limits over time (the quota of [Gate] counts calls); changes of the
    mailbox by other clients during a run; the evaluation of a search
    query on the text of a message (which message matches a query is a
    parameter of the mailbox); and time other than as a number read
    once per call (no clock skew in [expired]).  Of a stored
    credential the model keeps the access token, the refresh token,
    the scopes and the expiry; the client id, the client secret and
    the token URI that google-auth also stores, and requires at the
    load, are left out.  A line whose interpolated id is not a string
    has no text in the model ([render]), where Python prints its
    [repr].  The branches [ValueError "no credentials"] of
    [get_gmail_service] and [AttributeError "refresh"] of [renew]
    only close a [match] on an option and cannot be reached. *)

From stdpp Require Import base tactics option list strings relations.

(** ** Outcomes *)

(** The exceptions the script can meet.  The first four are raised by
    Python itself on ill-typed data; the others come from the libraries
    the script calls. *)
Inductive exn : Type :=
| KeyError (key : string)
| TypeError (what : string)
| AttributeError (what : string)
| ValueError (what : string)
| FileNotFoundError (path : string)
| HttpError (status : nat)
| RefreshError
| FlowError.

#[export] Instance exn_eq_dec : EqDecision exn.
Proof. solve_decision. Defined.

Inductive result (A : Type) : Type :=
| Ok (a : A)
| Raise (e : exn)
| OutOfFuel.
Arguments Ok {A} a.
Arguments Raise {A} e.
Arguments OutOfFuel {A}.

#[export] Instance result_eq_dec `{EqDecision A} : EqDecision (result A).
Proof. solve_decision. Defined.

Definition is_ok {A} (r : result A) : bool :=
  match r with Ok _ => true | _ => false end.

Definition is_raise {A} (r : result A) : bool :=
  match r with Raise _ => true | _ => false end.

Definition result_bind {A B} (r : result A) (f : A → result B) : result B :=
  match r with
  | Ok a => f a
  | Raise e => Raise e
  | OutOfFuel => OutOfFuel
  end.

Definition result_map {A B} (f : A → B) (r : result A) : result B :=
  result_bind r (λ a, Ok (f a)).

#[export] Instance result_ret : MRet result := λ A a, Ok a.
#[export] Instance result_mbind : MBind result := λ A B f r, result_bind r f.
#[export] Instance result_fmap : FMap result := λ A B f r, result_map f r.

(** ** Programs: state and exceptions *)

Definition prog (S A : Type) : Type := S → result A * S.

#[export] Instance prog_ret {S} : MRet (prog S) := λ A a s, (Ok a, s).

#[export] Instance prog_bind {S} : MBind (prog S) := λ A B f c s,
  match c s with
  | (Ok a, s') => f a s'
  | (Raise e, s') => (Raise e, s')
  | (OutOfFuel, s') => (OutOfFuel, s')
  end.

Definition raise {S A} (e : exn) : prog S A := λ s, (Raise e, s).
Definition out_of_fuel {S A} : prog S A := λ s, (OutOfFuel, s).
Definition get_state {S} : prog S S := λ s, (Ok s, s).
Definition modify_state {S} (f : S → S) : prog S unit := λ s, (Ok tt, f s).

(** A pure computation that may raise, run inside a program. *)
Definition lift {S A} (r : result A) : prog S A := λ s, (r, s).

(** [for x in l: body(x)].  The loop stops at the first exception. *)
Fixpoint for_each {S A} (l : list A) (body : A → prog S unit) : prog S unit :=
  match l with
  | [] => mret tt
  | x :: l' => body x ;; for_each l' body
  end.

(** A loop that threads an accumulator through a pure body that may raise. *)
Fixpoint foldM {A B} (f : B → A → result B) (acc : B) (l : list A) : result B :=
  match l with
  | [] => Ok acc
  | x :: l' => acc' ← f acc x; foldM f acc' l'
  end.

(** Every element through a function that may raise, left to right. *)
Fixpoint mapM_result {A B} (f : A → result B) (l : list A) : result (list B) :=
  match l with
  | [] => Ok []
  | x :: l' => y ← f x; ys ← mapM_result f l'; Ok (y :: ys)
  end.

(** The first value stored under a key in a list of pairs. *)
Fixpoint assoc {A} (k : string) (l : list (string * A)) : option A :=
  match l with
  | [] => None
  | (k', v) :: l' => if decide (k' = k) then Some v else assoc k l'
  end.

(** ** Slices and chunks *)

(** Python's [l[i:j]] for [0 <= i]: out-of-range bounds are clipped. *)
Definition slice {A} (l : list A) (i j : nat) : list A :=
  take (j - i) (drop i l).

(** The reference chunking: cut [l] into consecutive pieces of [n]
    elements, the last one possibly shorter.  [fuel] bounds the number of
    pieces; [length l] is always enough. *)
Fixpoint chunks_fuel {A} (fuel n : nat) (l : list A) : list (list A) :=
  match fuel with
  | 0 => []
  | S fuel' =>
      match l with
      | [] => []
      | _ => take n l :: chunks_fuel fuel' n (drop n l)
      end
  end.

Definition chunks {A} (n : nat) (l : list A) : list (list A) :=
  chunks_fuel (length l) n l.

(** ** Hint databases and tactics *)

Create HintDb prog discriminated.
Create Rewrite HintDb prog.

(** Case analysis on the outcome of the first computation of a bind. *)
Ltac case_run c s :=
  let r := fresh "r" in
  let s' := fresh "s" in
  let E := fresh "E" in
  destruct (c s) as [r s'] eqn:E; destruct r.

(** Unfold one monadic step.  The instances are unfolded by name so that
    the bodies of the programs stay folded. *)
Ltac prog_unfold :=
  unfold mbind, mret, prog_bind, prog_ret, result_mbind, result_ret,
    result_bind, result_map, lift, raise, out_of_fuel, get_state,
    modify_state in *.

Ltac prog_simpl := repeat (prog_unfold; simpl in *).

(** ** Laws of the monad *)

Lemma bind_run {S A B} (c : prog S A) (f : A → prog S B) s :
  (c ≫= f) s =
  match c s with
  | (Ok a, s') => f a s'
  | (Raise e, s') => (Raise e, s')
  | (OutOfFuel, s') => (OutOfFuel, s')
  end.
Proof. reflexivity. Qed.

Section prog_laws.
Context {S A B C : Type}.
Implicit Types (c : prog S A) (f : A → prog S B) (g : B → prog S C) (s : S).

Lemma bind_ok c f s a s' : c s = (Ok a, s') → (c ≫= f) s = f a s'.
Proof. intros H. by rewrite bind_run, H. Qed.

Lemma bind_raise c f s e s' : c s = (Raise e, s') → (c ≫= f) s = (Raise e, s').
Proof. intros H. by rewrite bind_run, H. Qed.

Lemma bind_out_of_fuel c f s s' :
  c s = (OutOfFuel, s') → (c ≫= f) s = (OutOfFuel, s').
Proof. intros H. by rewrite bind_run, H. Qed.

Lemma ret_bind (a : A) f s : (mret a ≫= f) s = f a s.
Proof. reflexivity. Qed.

Lemma bind_ret c s : (c ≫= mret) s = c s.
Proof. rewrite bind_run. by destruct (c s) as [[]]. Qed.

Lemma bind_assoc c f g s : ((c ≫= f) ≫= g) s = (c ≫= λ a, f a ≫= g) s.
Proof. rewrite !bind_run. by destruct (c s) as [[]]. Qed.

Lemma lift_bind (r : result A) f s :
  (lift r ≫= f) s =
  match r with
  | Ok a => f a s
  | Raise e => (Raise e, s)
  | OutOfFuel => (OutOfFuel, s)
  end.
Proof. rewrite bind_run. unfold lift. by destruct r. Qed.

(** An [Ok] outcome of a bind splits into an [Ok] run of each half. *)
Lemma bind_ok_inv c f s b s2 :
  (c ≫= f) s = (Ok b, s2) →
  ∃ a s1, c s = (Ok a, s1) ∧ f a s1 = (Ok b, s2).
Proof.
  rewrite bind_run. destruct (c s) as [[a|e|] s1]; [eauto | done..].
Qed.

End prog_laws.

#[export] Hint Rewrite @ret_bind @lift_bind : prog.

(** ** Boolean tests over lists *)

Lemma forallb_fmap_true {A B} (f : B → bool) (g : A → B) (l : list A) :
  (∀ x, f (g x) = true) → forallb f (g <$> l) = true.
Proof. intros Hf. induction l as [|x l IH]; [done|]. cbn. by rewrite Hf, IH. Qed.

Lemma forallb_fmap_Forall {A B} (f : B → bool) (g : A → B) (l : list A) :
  Forall (λ x, f (g x) = true) l → forallb f (g <$> l) = true.
Proof. induction 1 as [|x l Hx _ IH]; [done|]. cbn. by rewrite Hx, IH. Qed.

Lemma forallb_take {A} (f : A → bool) k (l : list A) :
  forallb f l = true → forallb f (take k l) = true.
Proof.
  revert k. induction l as [|x l IH]; intros [|k]; try done. cbn.
  intros [-> Hl]%andb_prop. by apply IH.
Qed.

Lemma omap_fmap_Some {A B C} (f : B → option C) (g : A → B) (h : A → C) (l : list A) :
  (∀ x, f (g x) = Some (h x)) → omap f (g <$> l) = h <$> l.
Proof.
  intros Hf. induction l as [|x l IH]; [done|].
  rewrite !fmap_cons. cbn [omap list_omap]. rewrite Hf. by f_equal.
Qed.

(** ** Lists of pairs *)

Section assoc.
Context {A : Type}.
Implicit Types (l : list (string * A)) (k : string).

Lemma assoc_Some_elem k l v : assoc k l = Some v → (k, v) ∈ l.
Proof.
  induction l as [|[k' v'] l IH]; simpl; [done|].
  case_decide; [intros [= ->]; subst; left | right; auto].
Qed.

Lemma assoc_None k l : assoc k l = None ↔ k ∉ l.*1.
Proof.
  induction l as [|[k' v'] l IH]; simpl.
  - split; [intros _; apply not_elem_of_nil | done].
  - rewrite not_elem_of_cons, <-IH. case_decide; subst; intuition congruence.
Qed.

Lemma assoc_app k l1 l2 :
  assoc k (l1 ++ l2) = match assoc k l1 with Some v => Some v | None => assoc k l2 end.
Proof. induction l1 as [|[k' v'] l1 IH]; simpl; [done|]. by case_decide. Qed.

Lemma assoc_NoDup k l v : NoDup l.*1 → (k, v) ∈ l → assoc k l = Some v.
Proof.
  induction l as [|[k' v'] l IH]; simpl; [by intros _ ?%elem_of_nil|].
  intros [Hk Hl]%NoDup_cons [[= <- <-]|Hin]%elem_of_cons.
  - by rewrite decide_True.
  - rewrite decide_False; [by apply IH|].
    intros ->. apply Hk. apply list_elem_of_fmap. by exists (k, v).
Qed.

End assoc.

(** ** Pure loops *)

Section loops.
Context {A B : Type}.

Lemma mapM_result_ok_length (f : A → result B) l ys :
  mapM_result f l = Ok ys → length ys = length l.
Proof.
  revert ys. induction l as [|x l IH]; intros ys; simpl.
  - by intros [= <-].
  - unfold mbind, result_mbind, result_bind.
    destruct (f x); [|done..]. destruct (mapM_result f l); [|done..].
    intros [= <-]. simpl. f_equal. by apply IH.
Qed.

Lemma mapM_result_app (f : A → result B) l1 l2 :
  mapM_result f (l1 ++ l2) =
  (ys1 ← mapM_result f l1; ys2 ← mapM_result f l2; Ok (ys1 ++ ys2)).
Proof.
  induction l1 as [|x l1 IH]; simpl.
  - unfold mbind, result_mbind, result_bind. by destruct (mapM_result f l2).
  - unfold mbind, result_mbind, result_bind in *. destruct (f x); [|done..].
    rewrite IH. destruct (mapM_result f l1); [|done..].
    by destruct (mapM_result f l2).
Qed.

(** Appending the images one by one is [mapM_result] followed by one append. *)
Lemma foldM_snoc_mapM (f : A → result B) (acc : list B) l :
  foldM (λ acc x, y ← f x; Ok (acc ++ [y])) acc l =
  (ys ← mapM_result f l; Ok (acc ++ ys)).
Proof.
  revert acc. induction l as [|x l IH]; intros acc; simpl.
  - unfold mbind, result_mbind, result_bind. by rewrite app_nil_r.
  - unfold mbind, result_mbind, result_bind in *. destruct (f x) as [y| |]; [|done..].
    rewrite IH. destruct (mapM_result f l); [|done..].
    by rewrite <-app_assoc.
Qed.

End loops.

(** ** Slices and chunks: the shared lemmas *)

Section slices.
Context {A : Type}.
Implicit Types (l : list A) (i j n : nat).

Lemma slice_0 l n : slice l 0 n = take n l.
Proof. unfold slice. by rewrite Nat.sub_0_r, drop_0. Qed.

Lemma slice_length l i j : length (slice l i j) = (j - i) `min` (length l - i).
Proof. unfold slice. by rewrite length_take, length_drop. Qed.

Lemma slice_drop l i n k : slice (drop k l) i (i + n) = slice l (k + i) (k + i + n).
Proof.
  unfold slice. rewrite drop_drop.
  by replace (i + n - i) with n by lia; replace (k + i + n - (k + i)) with n by lia.
Qed.

Lemma slice_ge l i j : length l ≤ i → slice l i j = [].
Proof. intros. unfold slice. rewrite drop_ge by done. apply take_nil. Qed.

Lemma chunks_fuel_nil fuel n : chunks_fuel fuel n (@nil A) = [].
Proof. by destruct fuel. Qed.

(** Any two fuels that cover the list give the same chunks, for a positive
    chunk size. *)
Lemma chunks_fuel_irrel n f1 f2 l :
  0 < n → length l ≤ f1 → length l ≤ f2 →
  chunks_fuel f1 n l = chunks_fuel f2 n l.
Proof.
  intros Hn. revert f2 l. induction f1 as [|f1 IH]; intros f2 l H1 H2.
  - destruct l; [by rewrite !chunks_fuel_nil | simpl in H1; lia].
  - destruct l as [|x l]; [by rewrite !chunks_fuel_nil|].
    destruct f2 as [|f2]; [simpl in H2; lia|].
    cbn [chunks_fuel]. f_equal.
    apply IH; rewrite length_drop; simpl in *; lia.
Qed.

Lemma chunks_fuel_enough fuel n l :
  0 < n → length l ≤ fuel → chunks_fuel fuel n l = chunks n l.
Proof. intros. by apply chunks_fuel_irrel. Qed.

Lemma chunks_cons n x l :
  0 < n → chunks n (x :: l) = take n (x :: l) :: chunks n (drop n (x :: l)).
Proof.
  intros Hn. unfold chunks at 1. cbn [chunks_fuel length]. f_equal.
  apply chunks_fuel_enough; [done|]. rewrite length_drop. simpl. lia.
Qed.

Lemma chunks_nil n : chunks n (@nil A) = [].
Proof. done. Qed.

End slices.

Section chunks.
Context {A : Type}.
Implicit Types (l : list A) (n : nat).

Lemma chunks_unfold n l :
  0 < n → l ≠ [] → chunks n l = take n l :: chunks n (drop n l).
Proof. destruct l; [done|]. intros. by apply chunks_cons. Qed.

(** The chunks, put back together, are the list. *)
Lemma concat_chunks_fuel fuel n l :
  0 < n → length l ≤ fuel → concat (chunks_fuel fuel n l) = l.
Proof.
  intros Hn. revert l. induction fuel as [|fuel IH]; intros l Hl.
  - destruct l; [done | simpl in Hl; lia].
  - destruct l as [|x l]; [done|]. cbn [chunks_fuel concat].
    rewrite IH by (rewrite length_drop; simpl in *; lia).
    apply take_drop.
Qed.

Lemma concat_chunks n l : 0 < n → concat (chunks n l) = l.
Proof. intros. by apply concat_chunks_fuel. Qed.

(** The first [k] chunks, put back together, are the first [k * n]
    elements. *)
Lemma concat_take_chunks n k l :
  0 < n → concat (take k (chunks n l)) = take (k * n) l.
Proof.
  intros Hn. revert l. induction k as [|k IH]; intros l; [done|].
  destruct (decide (l = [])) as [->|Hl]; [by rewrite take_nil|].
  rewrite chunks_unfold by done. cbn [take concat]. rewrite IH.
  apply take_take_drop.
Qed.

(** The first [k] chunks are full when the list has [k * n] elements. *)
Lemma take_chunks_full n k l :
  0 < n → k * n ≤ length l → length <$> take k (chunks n l) = replicate k n.
Proof.
  intros Hn. revert l. induction k as [|k IH]; intros l Hl; [done|].
  destruct (decide (l = [])) as [->|Hne]; [simpl in Hl; lia|].
  rewrite chunks_unfold by done. cbn [take fmap list_fmap replicate].
  rewrite length_take, IH by (rewrite length_drop; lia). f_equal. lia.
Qed.

(** No chunk is empty and none is longer than the chunk size. *)
Lemma chunks_fuel_bounds fuel n l :
  0 < n → Forall (λ c, 0 < length c ≤ n) (chunks_fuel fuel n l).
Proof.
  intros Hn. revert l. induction fuel as [|fuel IH]; intros l; [constructor|].
  destruct l as [|x l]; [constructor|]. cbn [chunks_fuel].
  constructor; [|apply IH].
  rewrite length_take. simpl. lia.
Qed.

Lemma chunks_bounds n l : 0 < n → Forall (λ c, 0 < length c ≤ n) (chunks n l).
Proof. apply chunks_fuel_bounds. Qed.

(** All chunks but the last are full. *)
Lemma chunks_fuel_full fuel n l i c :
  0 < n → length l ≤ fuel →
  chunks_fuel fuel n l !! i = Some c → S i < length (chunks_fuel fuel n l) →
  length c = n.
Proof.
  intros Hn. revert l i. induction fuel as [|fuel IH]; intros l i Hl; [done|].
  destruct l as [|x l]; [done|]. cbn [chunks_fuel].
  assert (length (drop n (x :: l)) ≤ fuel) by (rewrite length_drop; simpl in *; lia).
  destruct i as [|i]; simpl.
  - intros [= <-] Hlen. rewrite length_take.
    destruct (drop n (x :: l)) as [|y l'] eqn:E.
    { rewrite chunks_fuel_nil in Hlen. simpl in Hlen. lia. }
    assert (length (drop n (x :: l)) = S (length l')) as Hd by by rewrite E.
    rewrite length_drop in Hd. lia.
  - intros Hc Hlen. eapply IH; [done..|lia].
Qed.

(** There are [ceil (length l / n)] chunks. *)
Lemma chunks_fuel_length fuel n l :
  0 < n → length l ≤ fuel →
  length (chunks_fuel fuel n l) = (length l + n - 1) `div` n.
Proof.
  intros Hn. revert l. induction fuel as [|fuel IH]; intros l Hl.
  - destruct l; [|simpl in Hl; lia]. simpl.
    symmetry. apply Nat.div_small. lia.
  - destruct l as [|x l]; [simpl; symmetry; apply Nat.div_small; lia|].
    cbn [chunks_fuel length]. rewrite IH by (rewrite length_drop; simpl in *; lia).
    rewrite length_drop. cbn [length].
    destruct (decide (S (length l) ≤ n)) as [Hle|Hgt].
    + replace (S (length l) - n) with 0 by lia.
      rewrite (Nat.div_small (0 + n - 1)) by lia.
      apply Nat.div_unique with (r := length l); lia.
    + replace (S (length l) + n - 1) with ((S (length l) - n + n - 1) + 1 * n) by lia.
      rewrite Nat.div_add by lia. lia.
Qed.

Lemma chunks_length n l :
  0 < n → length (chunks n l) = (length l + n - 1) `div` n.
Proof. intros. by apply chunks_fuel_length. Qed.

(** More than [k * n] elements make more than [k] chunks. *)
Lemma chunks_length_lt n k l : 0 < n → k * n < length l → k < length (chunks n l).
Proof.
  intros Hn Hk. rewrite chunks_length by done.
  apply (Nat.div_le_lower_bound _ n (S k)); lia.
Qed.

Lemma chunks_fuel_fmap {B} (f : A → B) fuel n l :
  chunks_fuel fuel n (f <$> l) = fmap (M:=list) f <$> chunks_fuel fuel n l.
Proof.
  revert l. induction fuel as [|fuel IH]; intros [|x l]; try done.
  change (chunks_fuel (S fuel) n (f <$> x :: l))
    with (take n (f <$> x :: l) :: chunks_fuel fuel n (drop n (f <$> x :: l))).
  change (chunks_fuel (S fuel) n (x :: l))
    with (take n (x :: l) :: chunks_fuel fuel n (drop n (x :: l))).
  by rewrite (fmap_cons (fmap f)), <-fmap_take, <-fmap_drop, IH.
Qed.

Lemma chunks_fmap {B} (f : A → B) n l :
  chunks n (f <$> l) = fmap (M:=list) f <$> chunks n l.
Proof. unfold chunks. by rewrite length_fmap, chunks_fuel_fmap. Qed.

Lemma chunks_eq_nil n l : 0 < n → chunks n l = [] ↔ l = [].
Proof.
  intros Hn. split; [|by intros ->].
  intros Hc. rewrite <-(concat_chunks n l) by done. by rewrite Hc.
Qed.

End chunks.

(** ** The [for] loop *)

Section for_each.
Context {S A : Type}.
Implicit Types (body : A → prog S unit) (l : list A) (s : S).

Lemma for_each_nil body s : for_each [] body s = (Ok tt, s).
Proof. done. Qed.

Lemma for_each_cons body x l s :
  for_each (x :: l) body s =
  match body x s with
  | (Ok _, s') => for_each l body s'
  | (Raise e, s') => (Raise e, s')
  | (OutOfFuel, s') => (OutOfFuel, s')
  end.
Proof. done. Qed.

(** The loop rule.  [I k s] holds of the state before iteration [k]
    starts; [J k r s] holds of the outcome [r] and the state in which
    iteration [k] stopped the loop.  A loop that returns ends in
    [I (length l)]; a loop that stops ends in [J k] for the iteration
    that stopped it. *)
Lemma for_each_invariant (I : nat → S → Prop) (J : nat → result unit → S → Prop)
    body l s :
  I 0 s →
  (∀ k x s1, l !! k = Some x → I k s1 →
     match body x s1 with
     | (Ok _, s2) => I (Datatypes.S k) s2
     | (r, s2) => J k r s2
     end) →
  match for_each l body s with
  | (Ok _, s') => I (length l) s'
  | (r, s') => ∃ k, k < length l ∧ J k r s'
  end.
Proof.
  revert I J s. induction l as [|x l IH]; intros I J s H0 Hstep; [done|].
  rewrite for_each_cons.
  pose proof (Hstep 0 x s eq_refl H0) as H1.
  destruct (body x s) as [[[]|e|] s1] eqn:E.
  - specialize (IH (λ k, I (Datatypes.S k)) (λ k, J (Datatypes.S k)) s1 H1).
    destruct (for_each l body s1) as [[[]|e|] s2]; simpl.
    + apply IH. intros k y s3 Hy. by apply (Hstep (Datatypes.S k)).
    + destruct IH as (k & ? & ?); [|exists (Datatypes.S k); split; [lia|done]].
      intros k y s3 Hy. by apply (Hstep (Datatypes.S k)).
    + destruct IH as (k & ? & ?); [|exists (Datatypes.S k); split; [lia|done]].
      intros k y s3 Hy. by apply (Hstep (Datatypes.S k)).
  - exists 0. simpl. split; [lia|done].
  - exists 0. simpl. split; [lia|done].
Qed.

(** A loop whose iterations never run out of fuel does not either. *)
Lemma for_each_fuel body l s :
  (∀ x s1, (body x s1).1 ≠ OutOfFuel) → (for_each l body s).1 ≠ OutOfFuel.
Proof.
  intros Hb. revert s. induction l as [|x l IH]; intros s; [done|].
  rewrite for_each_cons. specialize (Hb x s).
  destruct (body x s) as [[[]|e|] s1]; simpl in *; [apply IH|done|done].
Qed.

End for_each.

(** ** Frames: relations every run of a computation keeps *)

(** [preserves R c]: whatever [c] returns or raises, the state it leaves
    is related by [R] to the state it started in. *)
Definition preserves {S A} (R : relation S) (c : prog S A) : Prop :=
  ∀ s, R s (c s).2.

Section preserves.
Context {S : Type} (R : relation S) `{!PreOrder R}.

Lemma preserves_ret {A} (a : A) : preserves R (mret a : prog S A).
Proof. intros s. reflexivity. Qed.

Lemma preserves_lift {A} (r : result A) : preserves R (lift r : prog S A).
Proof. intros s. reflexivity. Qed.

Lemma preserves_raise {A} e : preserves R (raise e : prog S A).
Proof. intros s. reflexivity. Qed.

Lemma preserves_out_of_fuel {A} : preserves R (out_of_fuel : prog S A).
Proof. intros s. reflexivity. Qed.

Lemma preserves_get_state : preserves R (get_state : prog S S).
Proof. intros s. reflexivity. Qed.

Lemma preserves_modify_state f : (∀ s, R s (f s)) → preserves R (modify_state f).
Proof. intros Hf s. apply Hf. Qed.

Lemma preserves_bind {A B} (c : prog S A) (f : A → prog S B) :
  preserves R c → (∀ a, preserves R (f a)) → preserves R (c ≫= f).
Proof.
  intros Hc Hf s. rewrite bind_run. specialize (Hc s).
  destruct (c s) as [[a| |] s1]; [|done..].
  etrans; [exact Hc|apply Hf].
Qed.

(** The same when the continuation needs to know what [c] returned. *)
Lemma preserves_bind_ok {A B} (c : prog S A) (f : A → prog S B) :
  preserves R c → (∀ s a s1, c s = (Ok a, s1) → R s1 (f a s1).2) →
  preserves R (c ≫= f).
Proof.
  intros Hc Hf s. rewrite bind_run. specialize (Hc s).
  destruct (c s) as [[a| |] s1] eqn:E; [|done..].
  etrans; [exact Hc|by eapply Hf].
Qed.

Lemma preserves_for_each {A} (l : list A) (body : A → prog S unit) :
  (∀ x, preserves R (body x)) → preserves R (for_each l body).
Proof.
  intros Hb. induction l as [|x l IH]; [apply (preserves_ret tt)|].
  apply preserves_bind; [apply Hb|by intros []].
Qed.

End preserves.

(** A computation that leaves the state alone keeps every preorder. *)
Lemma preserves_pure {S A} (R : relation S) `{!Reflexive R} (c : prog S A) :
  (∀ s, (c s).2 = s) → preserves R c.
Proof. intros Hc s. by rewrite Hc. Qed.

Lemma preserves_weaken {S A} (R R' : relation S) (c : prog S A) :
  (∀ s s', R s s' → R' s s') → preserves R c → preserves R' c.
Proof. intros HR Hc s. apply HR, Hc. Qed.

#[export] Hint Resolve preserves_ret preserves_lift preserves_raise
  preserves_out_of_fuel preserves_get_state preserves_bind preserves_for_each : prog.

(** [frame] proves [preserves R c] by following the structure of [c]. *)
Ltac frame_step :=
  match goal with
  | |- preserves _ (_ ≫= _) => apply preserves_bind; [tc_solve| |intros ?]
  | |- preserves _ (mret _) => apply preserves_ret; tc_solve
  | |- preserves _ (lift _) => apply preserves_lift; tc_solve
  | |- preserves _ (raise _) => apply preserves_raise; tc_solve
  | |- preserves _ out_of_fuel => apply preserves_out_of_fuel; tc_solve
  | |- preserves _ (for_each _ _) => apply preserves_for_each; [tc_solve|intros ?]
  | |- preserves _ (match ?x with _ => _ end) => destruct x
  | |- preserves _ (if ?b then _ else _) => destruct b
  | |- preserves _ (let _ := _ in _) => cbv zeta
  | |- preserves _ _ => solve [eauto with prog]
  end.

Ltac frame := repeat frame_step.

(** ** Totality: computations that never run out of fuel *)

Definition total {S A} (c : prog S A) : Prop := ∀ s, (c s).1 ≠ OutOfFuel.

Section total.
Context {S : Type}.

Lemma total_ret {A} (a : A) : total (mret a : prog S A).
Proof. by intros s. Qed.

Lemma total_raise {A} e : total (raise e : prog S A).
Proof. by intros s. Qed.

Lemma total_lift {A} (r : result A) : r ≠ OutOfFuel → total (lift r : prog S A).
Proof. by intros Hr s. Qed.

Lemma total_get_state : total (get_state : prog S S).
Proof. by intros s. Qed.

Lemma total_modify_state (f : S → S) : total (modify_state f).
Proof. by intros s. Qed.

Lemma total_bind {A B} (c : prog S A) (f : A → prog S B) :
  total c → (∀ a, total (f a)) → total (c ≫= f).
Proof.
  intros Hc Hf s. rewrite bind_run. specialize (Hc s).
  destruct (c s) as [[a| |] s1]; [apply Hf|done..].
Qed.

Lemma total_for_each {A} (l : list A) (body : A → prog S unit) :
  (∀ x, total (body x)) → total (for_each l body).
Proof. intros Hb s. apply for_each_fuel. intros x s1. apply Hb. Qed.

End total.

#[export] Hint Resolve total_ret total_raise total_lift total_get_state
  total_modify_state total_bind total_for_each : prog.

(** [totality] proves [total c] by following the structure of [c]. *)
Ltac totality_step :=
  match goal with
  | |- total (_ ≫= _) => apply total_bind; [|intros ?]
  | |- total (mret _) => apply total_ret
  | |- total (lift _) => apply total_lift
  | |- total (raise _) => apply total_raise
  | |- total (for_each _ _) => apply total_for_each; intros ?
  | |- total (match ?x with _ => _ end) => destruct x
  | |- total (if ?b then _ else _) => destruct b
  | |- total (let _ := _ in _) => cbv zeta
  | |- _ => solve [eauto with prog]
  end.

Ltac totality := repeat totality_step.

(** ** Deterministic machines *)

(** A deterministic relation leads to one final state at most. *)
Lemma rtc_nf_unique {A} (R : relation A) x y z :
  (∀ a b c, R a b → R a c → b = c) →
  rtc R x y → rtc R x z → nf R y → nf R z → y = z.
Proof.
  intros Hdet Hy. revert z. induction Hy as [x|x x' y Hx Hy IH]; intros z Hz Hny Hnz.
  - destruct Hz as [x|x x' z Hx Hz]; [done|]. destruct Hny. by exists x'.
  - destruct Hz as [x|x x'' z Hx' Hz]; [destruct Hnz; by exists x'|].
    rewrite <-(Hdet _ _ _ Hx Hx') in Hz. by apply IH.
Qed.
