(* ===== verification/PyData.v ===== *)
(** * PyData: the Python values the script handles

    Every value the script receives from the API client is a decoded
    JSON document: [None], a bool, an int, a [str], a [list] or a [dict]
    with string keys.  [pyval] is that type.  The operations below are
    the ones the script applies to such values; each returns the
    exception Python raises when the value has the wrong shape, so that
    the absence of these exceptions is a theorem and not an assumption.

    Strings are sequences of bytes; [lower] changes the ASCII capital
    letters only. *)

From Stdlib Require Import Ascii.
From stdpp Require Import base tactics option list strings numbers.
From S2P Require Import Prelude.

(** ** Values *)

(** A dict is kept as the list of its items in insertion order, as
    Python keeps it; lookup takes the first item with the key. *)
#[warnings="-register-all"] Inductive pyval : Type :=
| PNone
| PBool (b : bool)
| PInt (z : Z)
| PStr (s : string)
| PList (l : list pyval)
| PDict (d : list (string * pyval)).

#[export] Instance pyval_inhabited : Inhabited pyval := populate PNone.

(** Equality of values is decidable: two answers, two request bodies or
    two logs of requests can be compared by [decide]. *)
#[export] Instance pyval_eq_dec : EqDecision pyval.
Proof.
  refine (fix go (x y : pyval) {struct x} : Decision (x = y) :=
    let _ : EqDecision pyval := go in
    match x, y with
    | PNone, PNone => left _
    | PBool a, PBool b => cast_if (decide (a = b))
    | PInt a, PInt b => cast_if (decide (a = b))
    | PStr a, PStr b => cast_if (decide (a = b))
    | PList a, PList b => cast_if (decide (a = b))
    | PDict a, PDict b => cast_if (decide (a = b))
    | _, _ => right _
    end); congruence.
Defined.

(** ** str.lower() *)

Definition is_upper (c : ascii) : bool :=
  let n := nat_of_ascii c in (65 <=? n) && (n <=? 90).

Definition lower_ascii (c : ascii) : ascii :=
  if is_upper c then ascii_of_nat (nat_of_ascii c + 32) else c.

Fixpoint lower (s : string) : string :=
  match s with
  | EmptyString => EmptyString
  | String c s' => String (lower_ascii c) (lower s')
  end.

(** Two names are the same label name when they differ in case only. *)
Definition same_name (a b : string) : Prop := lower a = lower b.

#[export] Instance same_name_dec a b : Decision (same_name a b).
Proof. unfold same_name. apply _. Defined.

(** ** Operations on values *)

Fixpoint dict_lookup (d : list (string * pyval)) (k : string) : option pyval :=
  match d with
  | [] => None
  | (k', v) :: d' => if decide (k' = k) then Some v else dict_lookup d' k
  end.

(** [v.get(k, dflt)] *)
Definition py_get (v : pyval) (k : string) (dflt : pyval) : result pyval :=
  match v with
  | PDict d => Ok (default dflt (dict_lookup d k))
  | _ => Raise (AttributeError "get")
  end.

(** [v[k]] for a string key [k] *)
Definition py_getitem (v : pyval) (k : string) : result pyval :=
  match v with
  | PDict d =>
      match dict_lookup d k with
      | Some x => Ok x
      | None => Raise (KeyError k)
      end
  | PList _ | PStr _ => Raise (TypeError "indices must be integers")
  | _ => Raise (TypeError "object is not subscriptable")
  end.

(** [v.lower()] *)
Definition py_lower (v : pyval) : result string :=
  match v with
  | PStr s => Ok (lower s)
  | _ => Raise (AttributeError "lower")
  end.

Fixpoint chars (s : string) : list pyval :=
  match s with
  | EmptyString => []
  | String c s' => PStr (String c EmptyString) :: chars s'
  end.

(** The items [for x in v] visits. *)
Definition py_iter (v : pyval) : result (list pyval) :=
  match v with
  | PList l => Ok l
  | PDict d => Ok (PStr <$> d.*1)
  | PStr s => Ok (chars s)
  | _ => Raise (TypeError "object is not iterable")
  end.

(** Truth value, as [if v:] and [not v] test it. *)
Definition py_truthy (v : pyval) : bool :=
  match v with
  | PNone => false
  | PBool b => b
  | PInt z => negb (Z.eqb z 0)
  | PStr s => negb (String.eqb s "")
  | PList l => negb (bool_decide (l = []))
  | PDict d => negb (bool_decide (d = []))
  end.

(** An optional string as [None] or a [str]. *)
Definition of_opt_str (o : option string) : pyval :=
  match o with Some s => PStr s | None => PNone end.

(** ** range(start, stop, step) for non-negative arguments *)

Fixpoint range_from (fuel i stop step : nat) : list nat :=
  match fuel with
  | 0 => []
  | S fuel' =>
      if decide (i < stop) then i :: range_from fuel' (i + step) stop step
      else []
  end.

(** [stop - start] iterations are enough, since a positive step moves
    [i] forward by at least one. *)
Definition py_range (start stop step : nat) : result (list nat) :=
  if decide (step = 0) then Raise (ValueError "range() arg 3 must not be zero")
  else Ok (range_from (stop - start) start stop step).

(** ** Lemmas: lower *)

Lemma lower_ascii_idemp c : lower_ascii (lower_ascii c) = lower_ascii c.
Proof. by destruct c as [[] [] [] [] [] [] [] []]. Qed.

Lemma lower_idemp s : lower (lower s) = lower s.
Proof. induction s as [|c s IH]; simpl; [done|]. by rewrite lower_ascii_idemp, IH. Qed.

Lemma lower_length s : String.length (lower s) = String.length s.
Proof. induction s; simpl; congruence. Qed.

Lemma lower_app s t : lower (s +:+ t) = lower s +:+ lower t.
Proof. induction s as [|c s IH]; simpl; [done|]. by rewrite IH. Qed.

#[export] Instance same_name_equiv : Equivalence same_name.
Proof.
  unfold same_name. split.
  - by intros ?.
  - by intros ???.
  - intros ???. congruence.
Qed.

Lemma same_name_lower s : same_name (lower s) s.
Proof. apply lower_idemp. Qed.

#[export] Instance lower_proper : Proper (same_name ==> (=)) lower.
Proof. by intros ???. Qed.

(** ** Lemmas: dicts *)

Lemma dict_lookup_cons_eq k v d : dict_lookup ((k, v) :: d) k = Some v.
Proof. simpl. by rewrite decide_True. Qed.

Lemma dict_lookup_cons_ne k k' v d :
  k' ≠ k → dict_lookup ((k', v) :: d) k = dict_lookup d k.
Proof. intros. simpl. by rewrite decide_False. Qed.

Lemma dict_lookup_Some_elem d k v : dict_lookup d k = Some v → (k, v) ∈ d.
Proof.
  induction d as [|[k' v'] d IH]; simpl; [done|].
  case_decide; [intros [= ->]; subst; left | right; auto].
Qed.

Lemma dict_lookup_None d k : dict_lookup d k = None ↔ k ∉ d.*1.
Proof.
  induction d as [|[k' v'] d IH]; simpl.
  - split; [intros _; apply not_elem_of_nil | done].
  - rewrite not_elem_of_cons, <-IH. case_decide; subst; intuition congruence.
Qed.

Lemma py_get_dict d k dflt : py_get (PDict d) k dflt = Ok (default dflt (dict_lookup d k)).
Proof. done. Qed.

Lemma py_getitem_ok_inv v k x :
  py_getitem v k = Ok x → ∃ d, v = PDict d ∧ dict_lookup d k = Some x.
Proof.
  destruct v as [| | | | |d]; simpl; try done.
  destruct (dict_lookup d k) eqn:E; [|done]. intros [= ->]. eauto.
Qed.

Lemma py_lower_ok_inv v s : py_lower v = Ok s → ∃ t, v = PStr t ∧ s = lower t.
Proof. destruct v; simpl; try done. intros [= <-]. eauto. Qed.

(** None of the operations runs a loop, so none runs out of fuel. *)
Lemma py_get_fuel v k dflt : py_get v k dflt ≠ OutOfFuel.
Proof. by destruct v. Qed.

Lemma py_getitem_fuel v k : py_getitem v k ≠ OutOfFuel.
Proof. destruct v as [| | | | |d]; simpl; try done. by destruct (dict_lookup d k). Qed.

Lemma py_lower_fuel v : py_lower v ≠ OutOfFuel.
Proof. by destruct v. Qed.

Lemma py_iter_fuel v : py_iter v ≠ OutOfFuel.
Proof. by destruct v. Qed.

(** ** Lemmas: range *)

Section range.
Implicit Types (i stop step fuel : nat).

Lemma range_from_ge fuel i stop step : stop ≤ i → range_from fuel i stop step = [].
Proof. intros. destruct fuel; simpl; [done|]. by rewrite decide_False by lia. Qed.

Lemma range_from_lt fuel i stop step :
  i < stop → range_from (S fuel) i stop step = i :: range_from fuel (i + step) stop step.
Proof. intros. simpl. by rewrite decide_True. Qed.

(** Fuel beyond [stop - i] is not consumed. *)
Lemma range_from_fuel_irrel f1 f2 i stop step :
  0 < step → stop - i ≤ f1 → stop - i ≤ f2 →
  range_from f1 i stop step = range_from f2 i stop step.
Proof.
  intros Hs. revert f2 i. induction f1 as [|f1 IH]; intros f2 i H1 H2.
  - rewrite !range_from_ge by lia. done.
  - destruct (decide (i < stop)) as [Hlt|Hge]; [|by rewrite !range_from_ge by lia].
    destruct f2 as [|f2]; [lia|].
    rewrite !range_from_lt by done. f_equal. apply IH; lia.
Qed.

(** Every index of the range is a multiple of the step from the start,
    below the stop. *)
Lemma range_from_elem fuel i stop step x :
  x ∈ range_from fuel i stop step → i ≤ x < stop ∧ ∃ k, x = i + k * step.
Proof.
  revert i. induction fuel as [|fuel IH]; intros i; simpl; [by intros ?%elem_of_nil|].
  case_decide; [|by intros ?%elem_of_nil].
  intros [->|Hin]%elem_of_cons.
  - split; [lia|]. exists 0. lia.
  - apply IH in Hin as [? [k ->]]. split; [lia|]. exists (S k). lia.
Qed.

Lemma py_range_step0 start stop :
  py_range start stop 0 = Raise (ValueError "range() arg 3 must not be zero").
Proof. done. Qed.

Lemma py_range_pos start stop step :
  0 < step → py_range start stop step = Ok (range_from (stop - start) start stop step).
Proof. intros. unfold py_range. by rewrite decide_False by lia. Qed.

End range.

#[export] Hint Rewrite dict_lookup_cons_eq : prog.
Lemma py_range_fuel start stop step : py_range start stop step ≠ OutOfFuel.
Proof. unfold py_range. by case_decide. Qed.

#[export] Hint Resolve py_get_fuel py_getitem_fuel py_lower_fuel py_iter_fuel
  py_range_fuel : prog.
