(* ===== verification/World.v ===== *)
(** * World: what the script talks to

    The requests of the Gmail API methods the script calls, OAuth
    credentials, and the record [world]: the local files, the clock, the
    remote side, the log of API calls issued and the console.  The remote
    side is a carrier [P] with two interfaces, [GmailApi] and [OAuth];
    the programs of the components are written against them, and [Mock]
    and [Mailbox] implement them.  The file also holds the relations
    between worlds that the components keep ([sends], [local],
    [writes_only]), the classes [Frame] and [LoginFrame] that say
    which effects keep a relation, and the predicates on the requests a
    computation sends ([emits], [at_most], [within]).

    The library calls of the script whose code is not in the repository
    ([creds.valid], [creds.expired], [Credentials.to_json],
    [Credentials.from_authorized_user_file], [list_next]) are modelled
    here from their documented behaviour. *)

From stdpp Require Import base tactics option list strings pretty gmap.
From S2P Require Import Prelude PyData.

(** ** Requests *)

(** [service.users().labels().list(userId=..)] and the other request
    builders: a request is data until [execute()] sends it. *)
Inductive request : Type :=
| LabelsList (userId : string)
| LabelsCreate (userId : string) (body : pyval)
| MessagesList (userId : string) (q : string) (pageToken : option string)
| MessagesBatchModify (userId : string) (body : pyval).

#[export] Instance request_eq_dec : EqDecision request.
Proof. solve_decision. Defined.

Definition user_of (req : request) : string :=
  match req with
  | LabelsList u | LabelsCreate u _ | MessagesList u _ _ | MessagesBatchModify u _ => u
  end.

(** [service.users().messages().list_next(previous_request, previous_response)]:
    the continuation request, or [None] when the response carries no
    page token. *)
Definition list_next (previous_request : request) (previous_response : pyval)
    : result (option request) :=
  tok ← py_get previous_response "nextPageToken" PNone;
  if py_truthy tok then
    match previous_request, tok with
    | MessagesList u q _, PStr t => Ok (Some (MessagesList u q (Some t)))
    | _, _ => Raise (TypeError "nextPageToken")
    end
  else Ok None.

(** The page token of a response, when it has one that is not empty. *)
Definition next_page_token (v : pyval) : option string :=
  match v with
  | PDict d =>
      match dict_lookup d "nextPageToken" with
      | Some (PStr t) => if String.eqb t "" then None else Some t
      | _ => None
      end
  | _ => None
  end.

(** ** The schema of the responses *)

Definition label_ok (v : pyval) : bool :=
  match v with
  | PDict d =>
      match dict_lookup d "name", dict_lookup d "id" with
      | Some (PStr _), Some (PStr _) => true
      | _, _ => false
      end
  | _ => false
  end.

Definition labels_list_ok (v : pyval) : bool :=
  match v with
  | PDict d =>
      match dict_lookup d "labels" with
      | None => true
      | Some (PList l) => forallb label_ok l
      | Some _ => false
      end
  | _ => false
  end.

Definition message_ok (v : pyval) : bool :=
  match v with
  | PDict d => match dict_lookup d "id" with Some (PStr _) => true | _ => false end
  | _ => false
  end.

Definition messages_list_ok (v : pyval) : bool :=
  match v with
  | PDict d =>
      match dict_lookup d "messages" with
      | None => true
      | Some (PList l) => forallb message_ok l
      | Some _ => false
      end &&
      match dict_lookup d "nextPageToken" with
      | None | Some (PStr _) => true
      | Some _ => false
      end
  | _ => false
  end.

Definition response_ok (req : request) (v : pyval) : bool :=
  match req with
  | LabelsList _ => labels_list_ok v
  | LabelsCreate _ _ => label_ok v
  | MessagesList _ _ _ => messages_list_ok v
  | MessagesBatchModify _ _ => true
  end.

(** ** Labels by name *)

(** The id of the first entry with the name, up to case. *)
Definition resolve (es : list (string * string)) (label_name : string) : option string :=
  snd <$> List.find (λ e, bool_decide (same_name e.1 label_name)) es.

(** ** Credentials *)

Record credentials : Type := Credentials {
  token : option string;
  refresh_token : option string;
  expiry : option Z;
  scopes : list string;
}.

#[export] Instance credentials_eq_dec : EqDecision credentials.
Proof. solve_decision. Defined.

(** [creds.expired]: there is an expiry and it has passed. *)
Definition expired (c : credentials) (now : Z) : bool :=
  match expiry c with
  | Some t => bool_decide (t ≤ now)%Z
  | None => false
  end.

(** [creds.valid]: there is an access token and it has not expired. *)
Definition valid (c : credentials) (now : Z) : bool :=
  bool_decide (is_Some (token c)) && negb (expired c now).

(** [creds.refresh_token] as a condition: present and not empty. *)
Definition has_refresh_token (c : credentials) : bool :=
  py_truthy (of_opt_str (refresh_token c)).

(** [creds.to_json()]: the fields that are not [None]. *)
Definition to_json (c : credentials) : pyval :=
  PDict (
    match token c with Some t => [("token", PStr t)] | None => [] end ++
    match refresh_token c with Some t => [("refresh_token", PStr t)] | None => [] end ++
    [("scopes", PList (PStr <$> scopes c))] ++
    match expiry c with Some t => [("expiry", PInt t)] | None => [] end).

Definition as_opt_str (o : option pyval) : option string :=
  match o with Some (PStr s) => Some s | _ => None end.

(** [Credentials.from_authorized_user_info(info, scopes)]: the document
    must be an object with a [refresh_token]; the scopes asked for
    replace the stored ones; a missing expiry counts as expired. *)
Definition from_authorized_user_info (info : pyval) (scopes : list string) (now : Z)
    : result credentials :=
  match info with
  | PDict d =>
      match dict_lookup d "refresh_token" with
      | None => Raise (ValueError "missing fields refresh_token")
      | Some rt =>
          Ok {| token := as_opt_str (dict_lookup d "token");
                refresh_token := as_opt_str (Some rt);
                expiry := match dict_lookup d "expiry" with
                          | Some (PInt t) => Some t
                          | _ => Some now
                          end;
                scopes := scopes |}
      end
  | _ => Raise (ValueError "not an authorized user file")
  end.

(** The handle [build('gmail', 'v1', credentials=creds)] returns. *)
Record service : Type := Service { svc_credentials : credentials }.

(** ** The remote side *)

(** What the Gmail endpoint answers to a request sent with a credential. *)
Class GmailApi (P : Type) : Type :=
  gmail_execute : credentials → request → P → (exn + pyval) * P.

(** The OAuth endpoints: token refresh, and the interactive consent of
    [flow.run_local_server], given the client configuration and the
    scopes asked for.  Both see the clock. *)
Class OAuth (P : Type) : Type := {
  oauth_refresh : Z → credentials → P → (exn + credentials) * P;
  oauth_authorize : Z → pyval → list string → P → (exn + credentials) * P;
}.

(** The provider after it has answered a sequence of requests. *)
Definition serve `{GmailApi P} (c : credentials) (p : P) (reqs : list request) : P :=
  foldl (λ p req, (gmail_execute c req p).2) p reqs.

(** A provider whose answers have the documented shape. *)
Class GmailSchema (P : Type) `{GmailApi P} : Prop :=
  gmail_schema c req p v p' :
    gmail_execute c req p = (inr v, p') → response_ok req v = true.

(** An OAuth provider that hands out usable credentials: a refreshed or
    newly granted credential is valid now, and a granted one carries the
    scopes that were asked for. *)
Class OAuthLawful (P : Type) `{OAuth P} : Prop := {
  refresh_valid now c p c' p' :
    oauth_refresh now c p = (inr c', p') → valid c' now = true;
  refresh_scopes now c p c' p' :
    oauth_refresh now c p = (inr c', p') → scopes c' = scopes c;
  authorize_valid now cfg sc p c' p' :
    oauth_authorize now cfg sc p = (inr c', p') → valid c' now = true;
  authorize_scopes now cfg sc p c' p' :
    oauth_authorize now cfg sc p = (inr c', p') → scopes c' = sc;
}.

(** ** The console *)

(** One constructor per [print] of the script, with the values its
    f-string interpolates. *)
Inductive line : Type :=
| FoundExistingLabel (label_name : string) (id : pyval)
| CreatedLabel (label_name : string) (id : pyval)
| FoundMessages (n : nat)
| NoMessagesToLabel
| LabeledBatch (n : nat)
| AllDone.

#[export] Instance line_eq_dec : EqDecision line.
Proof. solve_decision. Defined.

(** The text of a line, when the interpolated values are strings. *)
Definition render (l : line) : option string :=
  match l with
  | FoundExistingLabel name (PStr id) =>
      Some ("Found existing label '" +:+ name +:+ "' with ID: " +:+ id)
  | CreatedLabel name (PStr id) =>
      Some ("Created label '" +:+ name +:+ "' with ID: " +:+ id)
  | FoundMessages n =>
      Some ("Found " +:+ pretty n +:+ " messages matching the query.")
  | NoMessagesToLabel => Some "No messages to label."
  | LabeledBatch n =>
      Some ("Labeled " +:+ pretty n +:+ " messages in this batch.")
  | AllDone => Some "Done! All matching emails have been labeled as 'rejections'."
  | _ => None
  end.

(** ** The world *)

Record world (P : Type) : Type := World {
  w_files : gmap string pyval;
  w_clock : Z;
  w_remote : P;
  w_calls : list request;
  w_console : list line;
}.
Arguments World {P} _ _ _ _ _.
Arguments w_files {P} _.
Arguments w_clock {P} _.
Arguments w_remote {P} _.
Arguments w_calls {P} _.
Arguments w_console {P} _.

Definition to_result {A} (r : exn + A) : result A :=
  match r with inl e => Raise e | inr a => Ok a end.

Section effects.
Context {P : Type}.

Definition set_remote (p : P) (w : world P) : world P :=
  World (w_files w) (w_clock w) p (w_calls w) (w_console w).

Definition log_call (req : request) (w : world P) : world P :=
  World (w_files w) (w_clock w) (w_remote w) (w_calls w ++ [req]) (w_console w).

Definition put_line (l : line) (w : world P) : world P :=
  World (w_files w) (w_clock w) (w_remote w) (w_calls w) (w_console w ++ [l]).

Definition put_file (path : string) (content : pyval) (w : world P) : world P :=
  World (<[path := content]> (w_files w)) (w_clock w) (w_remote w) (w_calls w)
    (w_console w).

(** [request.execute()]: the request is logged, the provider answers and
    moves to its next state, an error answer is raised. *)
Definition execute `{GmailApi P} (svc : service) (req : request) : prog (world P) pyval :=
  λ w,
    let '(r, p') := gmail_execute (svc_credentials svc) req (w_remote w) in
    (to_result r, set_remote p' (log_call req w)).

(** [print(...)] *)
Definition print (l : line) : prog (world P) unit := modify_state (put_line l).

(** [os.path.exists(path)] *)
Definition path_exists (path : string) : prog (world P) bool :=
  λ w, (Ok (bool_decide (is_Some (w_files w !! path))), w).

(** [open(path).read()] followed by [json.loads] *)
Definition read_json (path : string) : prog (world P) pyval :=
  λ w, match w_files w !! path with
       | Some v => (Ok v, w)
       | None => (Raise (FileNotFoundError path), w)
       end.

(** [with open(path, 'w') as f: f.write(content)] *)
Definition write_file (path : string) (content : pyval) : prog (world P) unit :=
  modify_state (put_file path content).

Definition now : prog (world P) Z := λ w, (Ok (w_clock w), w).

(** [creds.refresh(Request())] *)
Definition refresh `{OAuth P} (c : credentials) : prog (world P) credentials :=
  λ w,
    let '(r, p') := oauth_refresh (w_clock w) c (w_remote w) in
    (to_result r, set_remote p' w).

(** [flow.run_local_server(port=0)] for a flow made of a client
    configuration and scopes. *)
Definition run_local_server `{OAuth P} (config : pyval) (sc : list string)
    : prog (world P) credentials :=
  λ w,
    let '(r, p') := oauth_authorize (w_clock w) config sc (w_remote w) in
    (to_result r, set_remote p' w).

(** [quiet w w']: from [w] to [w'] nothing happened but printing. *)
Definition quiet (w w' : world P) : Prop :=
  w_calls w' = w_calls w ∧ w_remote w' = w_remote w ∧
  w_files w' = w_files w ∧ w_clock w' = w_clock w.

End effects.

(** ** Lemmas: labels by name *)

Lemma resolve_nil label_name : resolve [] label_name = None.
Proof. done. Qed.

Lemma resolve_cons n i es label_name :
  resolve ((n, i) :: es) label_name =
  if decide (same_name n label_name) then Some i else resolve es label_name.
Proof. unfold resolve. simpl. by case_bool_decide; case_decide. Qed.

(** [resolve] reads names up to case. *)
#[export] Instance resolve_proper : Proper ((=) ==> same_name ==> (=)) resolve.
Proof.
  intros es ? <- a b Hab. induction es as [|[n i] es IH]; [done|].
  rewrite !resolve_cons, IH.
  destruct (decide (same_name n a)) as [Ha|Ha], (decide (same_name n b)) as [Hb|Hb];
    try done; exfalso.
  - apply Hb. by rewrite <-Hab.
  - apply Ha. by rewrite Hab.
Qed.

Lemma resolve_Some es label_name i :
  resolve es label_name = Some i →
  ∃ n, (n, i) ∈ es ∧ same_name n label_name.
Proof.
  induction es as [|[n' i'] es IH]; [done|]. rewrite resolve_cons.
  case_decide.
  - intros [= ->]. exists n'. split; [left|done].
  - intros (n & ? & ?)%IH. exists n. split; [by right|done].
Qed.

Lemma resolve_None es label_name :
  resolve es label_name = None ↔ ∀ n i, (n, i) ∈ es → ¬ same_name n label_name.
Proof.
  induction es as [|[n' i'] es IH].
  - split; [intros _ ?? ?%elem_of_nil; done | done].
  - rewrite resolve_cons. case_decide as Hn.
    + split; [done|]. intros Hall. destruct (Hall n' i'); [left|done].
    + rewrite IH. split.
      * intros Hall n i Hin.
        apply elem_of_cons in Hin as [Heq|Hin]; [by simplify_eq|by eapply Hall].
      * intros Hall n i ?. apply (Hall n i). by right.
Qed.

(** ** Lemmas: the effects, one equation each *)

Section effect_lemmas.
Context {P : Type}.
Implicit Types (w : world P) (l : line) (req : request).

Lemma print_run l w : print l w = (Ok tt, put_line l w).
Proof. done. Qed.

#[export] Instance quiet_refl : Reflexive (@quiet P).
Proof. by intros w. Qed.

#[export] Instance quiet_trans : Transitive (@quiet P).
Proof. intros w1 w2 w3 (?&?&?&?) (?&?&?&?). unfold quiet. by repeat split; etrans. Qed.

Lemma quiet_put_line l w : quiet w (put_line l w).
Proof. done. Qed.

Lemma execute_run `{GmailApi P} svc req w :
  execute svc req w =
  (to_result (gmail_execute (svc_credentials svc) req (w_remote w)).1,
   set_remote (gmail_execute (svc_credentials svc) req (w_remote w)).2 (log_call req w)).
Proof. unfold execute. by destruct gmail_execute. Qed.

Lemma execute_remote `{GmailApi P} svc req w :
  w_remote (execute svc req w).2 = serve (svc_credentials svc) (w_remote w) [req].
Proof. by rewrite execute_run. Qed.

Lemma serve_snoc `{GmailApi P} c (p : P) reqs req :
  serve c p (reqs ++ [req]) = (gmail_execute c req (serve c p reqs)).2.
Proof. unfold serve. by rewrite foldl_snoc. Qed.

Lemma serve_app `{GmailApi P} c (p : P) reqs1 reqs2 :
  serve c p (reqs1 ++ reqs2) = serve c (serve c p reqs1) reqs2.
Proof. unfold serve. by rewrite foldl_app. Qed.

Lemma execute_calls `{GmailApi P} svc req w :
  w_calls (execute svc req w).2 = w_calls w ++ [req].
Proof. by rewrite execute_run. Qed.

Lemma execute_console `{GmailApi P} svc req w :
  w_console (execute svc req w).2 = w_console w.
Proof. by rewrite execute_run. Qed.

Lemma execute_files `{GmailApi P} svc req w :
  w_files (execute svc req w).2 = w_files w.
Proof. by rewrite execute_run. Qed.

Lemma execute_fuel `{GmailApi P} svc req w : (execute svc req w).1 ≠ OutOfFuel.
Proof. rewrite execute_run. simpl. by destruct (gmail_execute _ _ _).1. Qed.

(** An answer that passes through [execute] has the documented shape. *)
Lemma execute_ok_schema `{GmailSchema P} svc req w v w' :
  execute svc req w = (Ok v, w') → response_ok req v = true.
Proof.
  rewrite execute_run. destruct gmail_execute as [[e|v'] p'] eqn:E; simpl; [done|].
  intros [= <- _]. by eapply gmail_schema.
Qed.

End effect_lemmas.

(** ** Lemmas: the schema and the operations of [PyData] *)

Lemma label_ok_inv v :
  label_ok v = true →
  ∃ d name id, v = PDict d ∧ dict_lookup d "name" = Some (PStr name)
    ∧ dict_lookup d "id" = Some (PStr id).
Proof.
  destruct v as [| | | | |d]; simpl; try done.
  destruct (dict_lookup d "name") as [[| | |name| |]|] eqn:E1; try done.
  destruct (dict_lookup d "id") as [[| | |id| |]|] eqn:E2; try done.
  eauto 6.
Qed.

Lemma message_ok_inv v :
  message_ok v = true → ∃ d id, v = PDict d ∧ dict_lookup d "id" = Some (PStr id).
Proof.
  destruct v as [| | | | |d]; simpl; try done.
  destruct (dict_lookup d "id") as [[| | |id| |]|] eqn:E; try done. eauto.
Qed.

Lemma labels_list_ok_inv v :
  labels_list_ok v = true →
  ∃ ls, py_get v "labels" (PList []) = Ok (PList ls) ∧ forallb label_ok ls = true.
Proof.
  destruct v as [| | | | |d]; simpl; try done.
  destruct (dict_lookup d "labels") as [[| | | |ls|]|]; try done; simpl; eauto.
Qed.

Lemma messages_list_ok_inv v :
  messages_list_ok v = true →
  ∃ ms, py_get v "messages" (PList []) = Ok (PList ms) ∧ forallb message_ok ms = true.
Proof.
  destruct v as [| | | | |d]; simpl; try done. intros [Hm _]%andb_prop.
  destruct (dict_lookup d "messages") as [[| | | |ms|]|]; try done; simpl; eauto.
Qed.

(** On a well-formed page, [list_next] continues exactly when the page
    carries a non-empty token, and keeps the user and the query. *)
Lemma list_next_schema u q pt v :
  messages_list_ok v = true →
  list_next (MessagesList u q pt) v =
  Ok ((λ t, MessagesList u q (Some t)) <$> next_page_token v).
Proof.
  destruct v as [| | | | |d]; simpl; try done. intros [_ Ht]%andb_prop.
  unfold list_next, next_page_token. simpl.
  destruct (dict_lookup d "nextPageToken") as [[| | |t| |]|]; try done; simpl.
  by destruct (String.eqb t "").
Qed.

Lemma list_next_fuel req v : list_next req v ≠ OutOfFuel.
Proof.
  unfold list_next. destruct v as [| | | | |d]; simpl; try done.
  destruct (py_truthy _); [|done]. destruct req; try done.
  by destruct (default PNone _).
Qed.

(** ** What a run sends *)

(** The kinds of request: on labels, searches, batch modifications. *)
Definition is_label_request (req : request) : bool :=
  match req with LabelsList _ | LabelsCreate _ _ => true | _ => false end.

Definition is_search_request (req : request) : bool :=
  match req with MessagesList _ _ _ => true | _ => false end.

Definition is_batch_request (req : request) : bool :=
  match req with MessagesBatchModify _ _ => true | _ => false end.

Definition no_request (req : request) : bool := false.

(** [sends Q w w']: from [w] to [w'] the requests sent are of kind [Q],
    and the files and the clock are as they were. *)
Definition sends {P} (Q : request → bool) (w w' : world P) : Prop :=
  (∃ new, w_calls w' = w_calls w ++ new ∧ forallb Q new = true) ∧
  w_files w' = w_files w ∧ w_clock w' = w_clock w.

(** [local w w']: from [w] to [w'] no request was sent and nothing was
    printed. *)
Definition local {P} (w w' : world P) : Prop :=
  w_calls w' = w_calls w ∧ w_console w' = w_console w ∧ w_clock w' = w_clock w.

Section sends.
Context {P : Type}.
Implicit Types (w : world P) (Q : request → bool).

#[export] Instance sends_preorder Q : PreOrder (@sends P Q).
Proof.
  split.
  - intros w. split; [|done]. exists []. by rewrite app_nil_r.
  - intros w1 w2 w3 [(n1 & E1 & Q1) [F1 C1]] [(n2 & E2 & Q2) [F2 C2]].
    split; [|split; congruence]. exists (n1 ++ n2).
    by rewrite E2, E1, app_assoc, forallb_app, Q1, Q2.
Qed.

#[export] Instance local_preorder : PreOrder (@local P).
Proof.
  split; [done|].
  intros w1 w2 w3 (?&?&?) (?&?&?). unfold local. split_and!; congruence.
Qed.

Lemma quiet_sends Q w w' : quiet w w' → sends Q w w'.
Proof.
  intros (E & _ & F & C). split; [|done]. exists []. by rewrite app_nil_r.
Qed.

Lemma sends_print Q l : preserves (sends Q) (print l : prog (world P) unit).
Proof. intros w. by apply quiet_sends. Qed.

Lemma sends_execute `{GmailApi P} Q svc req :
  Q req = true → preserves (sends Q) (execute svc req).
Proof.
  intros HQ w. rewrite execute_run. split; [|done].
  exists [req]. simpl. by rewrite HQ.
Qed.

Lemma sends_calls Q w w' :
  sends Q w w' → ∃ new, w_calls w' = w_calls w ++ new ∧ forallb Q new = true.
Proof. by intros [? _]. Qed.

Lemma sends_none w w' : sends no_request w w' → w_calls w' = w_calls w.
Proof.
  intros [(new & E & HQ) _]. destruct new; [|done]. by rewrite E, app_nil_r.
Qed.

End sends.

(** ** Frames of the login *)

Lemma path_exists_pure {P} path (w : world P) : (path_exists path w).2 = w.
Proof. done. Qed.

Lemma read_json_pure {P} path (w : world P) : (read_json path w).2 = w.
Proof. unfold read_json. by destruct (w_files w !! path). Qed.

Lemma now_pure {P} (w : world P) : (now w).2 = w.
Proof. done. Qed.

#[export] Hint Extern 1 (preserves _ (path_exists _)) =>
  (apply preserves_pure; [tc_solve|apply path_exists_pure]) : prog.
#[export] Hint Extern 1 (preserves _ (read_json _)) =>
  (apply preserves_pure; [tc_solve|apply read_json_pure]) : prog.
#[export] Hint Extern 1 (preserves _ now) =>
  (apply preserves_pure; [tc_solve|apply now_pure]) : prog.

(** [LoginFrame R]: the relation [R] between worlds is kept by the
    calls to the authorization server and by saving the token. *)
Class LoginFrame {P} `{OAuth P} (R : relation (world P)) : Prop := {
  login_preorder :: PreOrder R;
  login_refresh c : preserves R (refresh c);
  login_run_local_server config sc : preserves R (run_local_server config sc);
  login_write_token v : preserves R (write_file "token.json" v);
}.

#[export] Hint Extern 1 (preserves _ (refresh _)) => (apply login_refresh) : prog.
#[export] Hint Extern 1 (preserves _ (run_local_server _ _)) =>
  (apply login_run_local_server) : prog.
#[export] Hint Extern 1 (preserves _ (write_file _ _)) => (apply login_write_token) : prog.

#[export] Instance local_login `{OAuth P} : LoginFrame (local (P:=P)).
Proof.
  split; [apply _|intros c w|intros config sc w|by intros v w].
  - unfold refresh. by destruct oauth_refresh.
  - unfold run_local_server. by destruct oauth_authorize.
Qed.

(** [writes_only path w w']: from [w] to [w'] no file but [path] was
    written. *)
Definition writes_only {P} (path : string) (w w' : world P) : Prop :=
  ∀ p, p ≠ path → w_files w' !! p = w_files w !! p.

#[export] Instance writes_only_preorder {P} path : PreOrder (writes_only (P:=P) path).
Proof.
  split; [done|]. intros w1 w2 w3 H12 H23 p Hp. by rewrite H23, H12.
Qed.

#[export] Instance writes_only_login `{OAuth P} :
  LoginFrame (writes_only (P:=P) "token.json").
Proof.
  split; [apply _|intros c w p _|intros config sc w p _|intros v w p Hp].
  - unfold refresh. by destruct oauth_refresh.
  - unfold run_local_server. by destruct oauth_authorize.
  - simpl. by rewrite lookup_insert_ne.
Qed.

(** ** Frames of the requests *)

(** The kinds of line: on the label, on the search, on the batches; the
    last line of a run is of none of these kinds. *)
Definition is_label_line (l : line) : bool :=
  match l with FoundExistingLabel _ _ | CreatedLabel _ _ => true | _ => false end.

Definition is_search_line (l : line) : bool :=
  match l with FoundMessages _ => true | _ => false end.

Definition is_batch_line (l : line) : bool :=
  match l with NoMessagesToLabel | LabeledBatch _ => true | _ => false end.

Definition is_progress_line (l : line) : bool :=
  is_label_line l || is_search_line l || is_batch_line l.

(** The lines that have a text. *)
Definition renders (l : line) : bool :=
  match render l with Some _ => true | None => false end.

Lemma forallb_renders (new : list line) :
  forallb renders new = true → ∃ texts, render <$> new = Some <$> texts.
Proof.
  induction new as [|l new IH]; [by exists []|]. simpl.
  intros [Hl [texts Ht]%IH]%andb_prop. unfold renders in Hl.
  destruct (render l) as [t|]; [|done]. exists (t :: texts).
  by rewrite fmap_cons, <-Ht.
Qed.

(** [prints L w w']: from [w] to [w'] the lines printed are of kind
    [L]. *)
Definition prints {P} (L : line → bool) (w w' : world P) : Prop :=
  ∃ new, w_console w' = w_console w ++ new ∧ forallb L new = true.

#[export] Instance prints_preorder {P} L : PreOrder (prints (P:=P) L).
Proof.
  split; [intros w; exists []; by rewrite app_nil_r|].
  intros w1 w2 w3 (n1 & E1 & L1) (n2 & E2 & L2). exists (n1 ++ n2).
  by rewrite E2, E1, app_assoc, forallb_app, L1, L2.
Qed.

(** Where nothing is printed, the lines printed are of every kind. *)
Lemma silent_prints {P} L (w w' : world P) : w_console w' = w_console w → prints L w w'.
Proof. intros Hc. exists []. by rewrite app_nil_r. Qed.

Lemma local_prints {P} L (w w' : world P) : local w w' → prints L w w'.
Proof. intros (_ & Hc & _). by apply silent_prints. Qed.

(** [Frame Q L R]: the relation [R] between worlds is kept by every
    request of kind [Q] and by printing a line of kind [L].  What a
    function of the script keeps is proved once, for every frame of its
    requests and lines. *)
Class Frame {P} `{GmailApi P} (Q : request → bool) (L : line → bool)
    (R : relation (world P)) : Prop := {
  frame_preorder :: PreOrder R;
  frame_execute svc req : Q req = true → preserves R (execute svc req);
  frame_print l : L l = true → preserves R (print l);
}.

#[export] Instance writes_only_frame `{GmailApi P} Q L path :
  Frame Q L (writes_only (P:=P) path).
Proof.
  split; [apply _|intros svc req _ w p _|by intros l _ w p _].
  by rewrite execute_files.
Qed.

#[export] Instance sends_frame `{GmailApi P} Q L : Frame Q L (sends (P:=P) Q).
Proof. split; [apply _|apply sends_execute|intros l _; apply sends_print]. Qed.

#[export] Instance prints_frame `{GmailApi P} Q L : Frame Q L (prints (P:=P) L).
Proof.
  split; [apply _|intros svc req _ w|intros l Hl w].
  - exists []. by rewrite execute_console, app_nil_r.
  - exists [l]. simpl. by rewrite Hl.
Qed.

Lemma frame_weaken `{GmailApi P} (Q Q' : request → bool) (L L' : line → bool)
    (R : relation (world P)) :
  (∀ req, Q' req = true → Q req = true) → (∀ l, L' l = true → L l = true) →
  Frame Q L R → Frame Q' L' R.
Proof.
  intros HQ HL [? Hx Hp]. split; [done|intros svc req ?; apply Hx; auto|].
  intros l ?. apply Hp. auto.
Qed.

(** The lines of one kind are lines of a wider kind. *)
Lemma prints_frame_weaken `{GmailApi P} Q (L L' : line → bool) :
  (∀ l, L l = true → L' l = true) → Frame Q L (prints (P:=P) L').
Proof. intros HL. by apply (frame_weaken Q Q L' L); [| |apply _]. Qed.

#[export] Hint Extern 1 (preserves _ (print _)) =>
  (eapply frame_print; [tc_solve..|done]) : prog.
#[export] Hint Extern 1 (preserves _ (execute _ _)) =>
  (eapply frame_execute; [tc_solve..|done]) : prog.

(** The continuation of a search is a search. *)
Lemma list_next_search req v r :
  list_next req v = Ok (Some r) → is_search_request r = true.
Proof.
  unfold list_next. destruct (py_get _ _ _) as [tok| |]; simpl; [|done..].
  destruct (py_truthy tok); [|done].
  by destruct req, tok; intros [= <-].
Qed.

Lemma from_authorized_user_info_fuel info sc t :
  from_authorized_user_info info sc t ≠ OutOfFuel.
Proof.
  destruct info as [| | | | |d]; simpl; try done. by destruct (dict_lookup d _).
Qed.

(** ** The effects never run out of fuel *)

Section total_effects.
Context {P : Type}.

Lemma total_execute `{GmailApi P} svc req : total (execute (P:=P) svc req).
Proof. intros w. apply execute_fuel. Qed.

Lemma total_print l : total (print l : prog (world P) unit).
Proof. by intros w. Qed.

Lemma total_path_exists path : total (path_exists path : prog (world P) bool).
Proof. by intros w. Qed.

Lemma total_read_json path : total (read_json path : prog (world P) pyval).
Proof. intros w. unfold read_json. by destruct (w_files w !! path). Qed.

Lemma total_write_file path v : total (write_file path v : prog (world P) unit).
Proof. by intros w. Qed.

Lemma total_now : total (now : prog (world P) Z).
Proof. by intros w. Qed.

Lemma total_refresh `{OAuth P} c : total (refresh (P:=P) c).
Proof.
  intros w. unfold refresh. by destruct oauth_refresh as [[] ?].
Qed.

Lemma total_run_local_server `{OAuth P} config sc :
  total (run_local_server (P:=P) config sc).
Proof.
  intros w. unfold run_local_server. by destruct oauth_authorize as [[] ?].
Qed.

End total_effects.

#[export] Hint Resolve total_execute total_print total_path_exists total_read_json
  total_write_file total_now total_refresh total_run_local_server list_next_fuel
  from_authorized_user_info_fuel : prog.

(** ** Requests the provider accepts *)

(** [accepts c p reqs]: sent in this order, none of the requests is
    answered with an error. *)
Fixpoint accepts `{GmailApi P} (c : credentials) (p : P) (reqs : list request) : bool :=
  match reqs with
  | [] => true
  | req :: rest =>
      match gmail_execute c req p with
      | (inr _, p') => accepts c p' rest
      | (inl _, _) => false
      end
  end.

Lemma serve_cons `{GmailApi P} c (p : P) req reqs :
  serve c p (req :: reqs) = serve c (gmail_execute c req p).2 reqs.
Proof. done. Qed.

Lemma accepts_lookup `{GmailApi P} c (p : P) reqs k req :
  accepts c p reqs = true → reqs !! k = Some req →
  ∃ v, (gmail_execute c req (serve c p (take k reqs))).1 = inr v.
Proof.
  revert p k. induction reqs as [|r reqs IH]; intros p k Ha Hk; [done|].
  simpl in Ha. destruct (gmail_execute c r p) as [[e|v] p'] eqn:E; [done|].
  destruct k as [|k].
  - injection Hk as ->. simpl. rewrite E. eauto.
  - change (serve c p (take (S k) (r :: reqs)))
      with (serve c (gmail_execute c r p).2 (take k reqs)).
    rewrite E. by apply IH.
Qed.

Lemma accepts_snoc `{GmailApi P} c (p : P) reqs req v :
  accepts c p reqs = true → (gmail_execute c req (serve c p reqs)).1 = inr v →
  accepts c p (reqs ++ [req]) = true.
Proof.
  revert p. induction reqs as [|r reqs IH]; intros p Ha Hv; cbn [accepts app] in *.
  - change (serve c p []) with p in Hv. by destruct (gmail_execute c req p) as [[e|v'] p'].
  - rewrite serve_cons in Hv.
    destruct (gmail_execute c r p) as [[e|v'] p'] eqn:E; [done|by apply IH].
Qed.

(** A request among accepted ones was not refused. *)
Lemma accepts_not_refused `{GmailApi P} c (p : P) reqs n k req e :
  accepts c p (take n reqs) = true → k < n → reqs !! k = Some req →
  (gmail_execute c req (serve c p (take k reqs))).1 = inl e → False.
Proof.
  intros Ha Hk Hreq He.
  destruct (accepts_lookup c p (take n reqs) k req Ha) as [v Hv].
  { by rewrite lookup_take_lt. }
  rewrite take_take, Nat.min_l in Hv by lia. congruence.
Qed.

(** ** Errors of the provider *)

(** [provider_error c e]: [e] is an answer of the provider to a
    request made with the credential [c]. *)
Definition provider_error `{GmailApi P} (c : credentials) (e : exn) : Prop :=
  ∃ req (p : P), (gmail_execute c req p).1 = inl e.

Lemma execute_raise `{GmailApi P} svc req (w : world P) e w' :
  execute svc req w = (Raise e, w') → provider_error (svc_credentials svc) e.
Proof.
  rewrite execute_run. intros [= He _]. exists req, (w_remote w).
  by destruct (gmail_execute _ _ _).1; simplify_eq/=.
Qed.

(** ** The size of a batch request *)

(** The number of ids a [batchModify] request carries. *)
Definition batch_size (req : request) : option nat :=
  match req with
  | MessagesBatchModify _ (PDict d) =>
      match dict_lookup d "ids" with
      | Some (PList ids) => Some (length ids)
      | _ => None
      end
  | _ => None
  end.

(** [within lo hi req]: [req] is a batch request of [lo] to [hi] ids. *)
Definition within (lo hi : nat) (req : request) : bool :=
  match batch_size req with
  | Some n => bool_decide (lo ≤ n ≤ hi)
  | None => false
  end.

(** ** What a computation sends *)

(** [emits Q c]: whatever its outcome, [c] appends to the log of
    requests a list that satisfies [Q], and leaves the requests sent
    before as they were. *)
Definition emits {P A} (Q : list request → Prop) (c : prog (world P) A) : Prop :=
  ∀ w, ∃ new, w_calls (c w).2 = w_calls w ++ new ∧ Q new.

Section emits.
Context {P : Type}.
Implicit Types (Q : list request → Prop).

Lemma emits_weaken {A} Q Q' (c : prog (world P) A) :
  (∀ new, Q new → Q' new) → emits Q c → emits Q' c.
Proof. intros HQ Hc w. destruct (Hc w) as (new & ? & ?). eauto. Qed.

(** A computation that sends nothing. *)
Lemma emits_silent {A} Q (c : prog (world P) A) :
  Q [] → (∀ w, w_calls (c w).2 = w_calls w) → emits Q c.
Proof. intros HQ Hc w. exists []. by rewrite app_nil_r. Qed.

(** The requests of a sequence are those of its first part followed by
    those of its second part, when that one runs. *)
Lemma emits_bind {A B} Q1 Q2 Q (c : prog (world P) A) (f : A → prog (world P) B) :
  emits Q1 c → (∀ a, emits Q2 (f a)) → Q2 [] →
  (∀ n1 n2, Q1 n1 → Q2 n2 → Q (n1 ++ n2)) →
  emits Q (c ≫= f).
Proof.
  intros Hc Hf Hnil HQ w. rewrite bind_run.
  destruct (Hc w) as (n1 & E1 & H1). destruct (c w) as [[a|e|] w1]; simpl in E1.
  - destruct (Hf a w1) as (n2 & E2 & H2). exists (n1 ++ n2).
    split; [by rewrite E2, E1, app_assoc|auto].
  - exists (n1 ++ []). split; [by rewrite app_nil_r|auto].
  - exists (n1 ++ []). split; [by rewrite app_nil_r|auto].
Qed.

Lemma emits_print Q l : Q [] → emits Q (print l : prog (world P) unit).
Proof. intros. by apply emits_silent. Qed.

End emits.

(** [at_most Q n new]: at most [n] requests, all of kind [Q]. *)
Definition at_most (Q : request → bool) (n : nat) (new : list request) : Prop :=
  forallb Q new = true ∧ length new ≤ n.

Lemma at_most_nil Q n : at_most Q n [].
Proof. split; [done|simpl; lia]. Qed.

Lemma at_most_singleton Q n req : Q req = true → 0 < n → at_most Q n [req].
Proof. intros HQ Hn. split; [simpl; by rewrite HQ|simpl; lia]. Qed.

Lemma at_most_cons Q n req new :
  Q req = true → at_most Q n new → at_most Q (S n) (req :: new).
Proof. intros HQ [Hq Hlen]. split; [simpl; by rewrite HQ|simpl; lia]. Qed.

Lemma at_most_take Q k l : forallb Q l = true → at_most Q (length l) (take k l).
Proof.
  intros HQ. split; [by apply forallb_take|]. rewrite length_take. lia.
Qed.

#[export] Hint Resolve at_most_nil at_most_singleton at_most_cons : prog.

(** ** The last line *)

(** [completes c]: a run of [c] prints the last line of the script,
    [AllDone], exactly when it returns. *)
Definition completes {P A} (c : prog (world P) A) : Prop :=
  ∀ w, ∃ new, w_console (c w).2 = w_console w ++ new ∧
    (AllDone ∈ new ↔ is_ok (c w).1 = true).

Section completes.
Context {P : Type}.

Lemma prints_progress (w w' : world P) :
  prints is_progress_line w w' →
  ∃ new, w_console w' = w_console w ++ new ∧ AllDone ∉ new.
Proof.
  intros (new & E & Hnew). exists new. split; [done|]. intros Hin.
  rewrite forallb_forall in Hnew. by specialize (Hnew AllDone (proj1 (list_elem_of_In _ _) Hin)).
Qed.

Lemma completes_print : completes (print AllDone : prog (world P) unit).
Proof. intros w. exists [AllDone]. split; [done|]. split; [done|]. intros _. by left. Qed.

(** A computation that prints lines of progress, then one that prints
    the last line exactly when it returns. *)
Lemma completes_bind {A B} (c : prog (world P) A) (f : A → prog (world P) B) :
  preserves (prints is_progress_line) c → (∀ a, completes (f a)) → completes (c ≫= f).
Proof.
  intros Hc Hf w. rewrite bind_run.
  destruct (prints_progress _ _ (Hc w)) as (n1 & E1 & H1).
  destruct (c w) as [[a|e|] w1]; simpl in E1; [|by exists n1..].
  destruct (Hf a w1) as (n2 & E2 & H2). exists (n1 ++ n2).
  split; [by rewrite E2, E1, app_assoc|]. rewrite <-H2, elem_of_app. tauto.
Qed.

End completes.

