(* ===== verification/Mock.v ===== *)
(** * Mock: providers to run the script against

    [script] is the mock provider of the test scenarios: it answers the
    requests it receives with a list of canned answers, in order,
    whatever the requests are.  It implements [GmailApi] and nothing
    more, so a theorem proved for every [GmailApi] can be run on it.
    [forever] answers every request with a page that carries a page
    token: a listing that never ends. *)

From stdpp Require Import base tactics option list strings pretty gmap.
From S2P Require Import Prelude PyData World.

(** ** The scripted provider *)

Record script : Type := Script { answers : list (exn + pyval) }.

(** The next canned answer; a script that has run out answers with a
    server error. *)
#[export] Instance script_api : GmailApi script := λ _ _ p,
  match answers p with
  | [] => (inl (HttpError 500), p)
  | a :: rest => (a, Script rest)
  end.

(** A world with no files, no calls made and nothing printed. *)
Definition init_world {P} (p : P) : world P := World ∅ 0 p [] [].

(** [n] answers of an empty body, as [batchModify] gives. *)
Definition accept (n : nat) : script := Script (replicate n (inr (PStr ""))).

(** Message ids [m0], [m1], ... *)
Definition ids (n : nat) : list pyval := (λ i, PStr ("m" +:+ pretty i)) <$> seq 0 n.

(** A page of a message listing. *)
Definition page (ms : list string) (next : option string) : pyval :=
  PDict ([("messages", PList ((λ m, PDict [("id", PStr m)]) <$> ms))] ++
         match next with Some t => [("nextPageToken", PStr t)] | None => [] end).

(** A label resource and a label listing. *)
Definition label (name id : string) : pyval :=
  PDict [("id", PStr id); ("name", PStr name)].

Definition label_list (ls : list (string * string)) : pyval :=
  PDict [("labels", PList ((λ l, label l.1 l.2) <$> ls))].

Lemma script_api_nil c req : gmail_execute c req (Script []) = (inl (HttpError 500), Script []).
Proof. done. Qed.

Lemma script_api_cons c req a rest :
  gmail_execute c req (Script (a :: rest)) = (a, Script rest).
Proof. done. Qed.

(** ** A provider that never stops *)

(** Every answer is a page of one message with a page token. *)
Inductive forever : Type := Forever.

#[export] Instance forever_api : GmailApi forever := λ _ _ p,
  (inr (page ["m"] (Some "more")), p).
