(* ===== verification/Mailbox.v ===== *)
(** * Mailbox: a reference model of the remote side

    A Gmail account as the script sees it: the labels of the mailbox, the
    messages with the labels they carry, a search relation, pages of a
    fixed size with the offset as page token, and the OAuth grants that
    decide whether a request is accepted.  It implements [GmailApi] and
    [OAuth], respects the schema and the OAuth laws, and keeps the
    invariant [mailbox_wf].  Two mailboxes that differ only in the
    tokens they have granted are equivalent ([≡]).

    The model follows the documented behaviour of the five methods; it
    is the environment the end-to-end theorems are stated in, not a part
    of the script. *)

From Stdlib Require Import DecimalString DecimalNat.
From stdpp Require Import base tactics option list strings gmap.
From S2P Require Import Prelude PyData World Mock.

(** ** Numbers as decimal strings *)

Definition string_of_nat (n : nat) : string := NilEmpty.string_of_uint (Nat.to_uint n).

Definition nat_of_string (s : string) : option nat :=
  Nat.of_uint <$> NilEmpty.uint_of_string s.

(** ** State *)

Definition modify_scope : string := "https://www.googleapis.com/auth/gmail.modify".

Record message : Type := Message {
  msg_id : string;
  msg_labels : gset string;
}.

Record mailbox : Type := Mailbox {
  mb_labels : list (string * string);          (* name, id; in listing order *)
  mb_next_label : nat;                         (* number of the next label id *)
  mb_messages : list message;
  mb_matches : string → string → bool;         (* query, message id *)
  mb_page_pred : nat;                          (* page size, minus one *)
  mb_grants : list (string * list string);     (* access token, scopes granted *)
  mb_refresh_grants : list (string * list string);
  mb_next_token : nat;
  mb_consent : bool;                           (* the user grants what is asked *)
}.

Definition with_labels (ls : list (string * string)) (n : nat) (mb : mailbox) : mailbox :=
  Mailbox ls n (mb_messages mb) (mb_matches mb) (mb_page_pred mb) (mb_grants mb)
    (mb_refresh_grants mb) (mb_next_token mb) (mb_consent mb).

Definition with_messages (ms : list message) (mb : mailbox) : mailbox :=
  Mailbox (mb_labels mb) (mb_next_label mb) ms (mb_matches mb) (mb_page_pred mb)
    (mb_grants mb) (mb_refresh_grants mb) (mb_next_token mb) (mb_consent mb).

Definition with_grants (gs rs : list (string * list string)) (n : nat) (mb : mailbox)
    : mailbox :=
  Mailbox (mb_labels mb) (mb_next_label mb) (mb_messages mb) (mb_matches mb)
    (mb_page_pred mb) gs rs n (mb_consent mb).

Definition page_size (mb : mailbox) : nat := S (mb_page_pred mb).

Definition label_id (k : nat) : string := "Label_" +:+ string_of_nat k.
Definition access_token (k : nat) : string := "ya29." +:+ string_of_nat k.
Definition refresh_token_of (k : nat) : string := "1//" +:+ string_of_nat k.

(** ** Access control *)

(** A request is accepted when it carries a live access token that was
    granted the modify scope. *)
Definition authorized (c : credentials) (mb : mailbox) : exn + unit :=
  match token c with
  | None => inl (HttpError 401)
  | Some t =>
      match assoc t (mb_grants mb) with
      | None => inl (HttpError 401)
      | Some sc => if decide (modify_scope ∈ sc) then inr tt else inl (HttpError 403)
      end
  end.

(** ** The five methods *)

(** [labels.list] *)
Definition labels_list (mb : mailbox) : pyval := label_list (mb_labels mb).

(** [labels.create]: the name must be new up to case. *)
Definition labels_create (body : pyval) (mb : mailbox) : (exn + pyval) * mailbox :=
  match body with
  | PDict d =>
      match dict_lookup d "name" with
      | Some (PStr name) =>
          match resolve (mb_labels mb) name with
          | Some _ => (inl (HttpError 409), mb)
          | None =>
              let id := label_id (mb_next_label mb) in
              (inr (label name id),
               with_labels (mb_labels mb ++ [(name, id)]) (S (mb_next_label mb)) mb)
          end
      | _ => (inl (HttpError 400), mb)
      end
  | _ => (inl (HttpError 400), mb)
  end.

(** The ids of the messages that match a query, in mailbox order. *)
Definition matching (mb : mailbox) (q : string) : list string :=
  msg_id <$> List.filter (λ m, mb_matches mb q (msg_id m)) (mb_messages mb).

(** The page that starts at an offset.  A page with no message has no
    ["messages"] key. *)
Definition list_page (mb : mailbox) (q : string) (offset : nat) : pyval :=
  let all := matching mb q in
  let ms := take (page_size mb) (drop offset all) in
  let next := if decide (offset + page_size mb < length all)
              then Some (string_of_nat (offset + page_size mb)) else None in
  match ms with
  | [] => PDict [("resultSizeEstimate", PInt 0)]
  | _ => page ms next
  end.

(** [messages.list] and its continuation. *)
Definition messages_list (q : string) (pageToken : option string) (mb : mailbox)
    : exn + pyval :=
  match pageToken with
  | None => inr (list_page mb q 0)
  | Some t =>
      match nat_of_string t with
      | Some offset => inr (list_page mb q offset)
      | None => inl (HttpError 400)
      end
  end.

Definition as_str (v : pyval) : option string :=
  match v with PStr s => Some s | _ => None end.

Definition str_list (o : option pyval) : option (list string) :=
  match o with
  | None => Some []
  | Some (PList l) => mapM as_str l
  | Some _ => None
  end.

Definition relabel (ids : list string) (add remove : list string) (m : message) : message :=
  if decide (msg_id m ∈ ids)
  then Message (msg_id m) ((msg_labels m ∪ list_to_set add) ∖ list_to_set remove)
  else m.

(** [messages.batchModify]: between 1 and 1000 ids, labels that exist. *)
Definition batch_modify (body : pyval) (mb : mailbox) : (exn + pyval) * mailbox :=
  match body with
  | PDict d =>
      match str_list (dict_lookup d "ids"), str_list (dict_lookup d "addLabelIds"),
            str_list (dict_lookup d "removeLabelIds") with
      | Some ids, Some add, Some remove =>
          if decide (0 < length ids ≤ 1000 ∧ add ⊆ (mb_labels mb).*2
                     ∧ remove ⊆ (mb_labels mb).*2)
          then (inr (PStr ""), with_messages (relabel ids add remove <$> mb_messages mb) mb)
          else (inl (HttpError 400), mb)
      | _, _, _ => (inl (HttpError 400), mb)
      end
  | _ => (inl (HttpError 400), mb)
  end.

Definition mailbox_execute (c : credentials) (req : request) (mb : mailbox)
    : (exn + pyval) * mailbox :=
  match authorized c mb with
  | inl e => (inl e, mb)
  | inr _ =>
      if decide (user_of req = "me") then
        match req with
        | LabelsList _ => (inr (labels_list mb), mb)
        | LabelsCreate _ body => labels_create body mb
        | MessagesList _ q tok => (messages_list q tok mb, mb)
        | MessagesBatchModify _ body => batch_modify body mb
        end
      else (inl (HttpError 404), mb)
  end.

#[export] Instance mailbox_api : GmailApi mailbox := mailbox_execute.

(** ** OAuth *)

(** A new access token with the scopes of the grant, good for an hour. *)
Definition mint (now : Z) (c : credentials) (sc : list string) (mb : mailbox)
    : credentials * mailbox :=
  let t := access_token (mb_next_token mb) in
  (Credentials (Some t) (refresh_token c) (Some (now + 3600)%Z) (scopes c),
   with_grants ((t, sc) :: mb_grants mb) (mb_refresh_grants mb) (S (mb_next_token mb)) mb).

Definition mailbox_refresh (now : Z) (c : credentials) (mb : mailbox)
    : (exn + credentials) * mailbox :=
  match refresh_token c with
  | None => (inl RefreshError, mb)
  | Some rt =>
      match assoc rt (mb_refresh_grants mb) with
      | None => (inl RefreshError, mb)
      | Some sc => let '(c', mb') := mint now c sc mb in (inr c', mb')
      end
  end.

Definition mailbox_authorize (now : Z) (config : pyval) (sc : list string) (mb : mailbox)
    : (exn + credentials) * mailbox :=
  if mb_consent mb then
    let rt := refresh_token_of (mb_next_token mb) in
    let mb1 := with_grants (mb_grants mb) ((rt, sc) :: mb_refresh_grants mb)
                 (mb_next_token mb) mb in
    let '(c', mb') := mint now (Credentials None (Some rt) None sc) sc mb1 in
    (inr c', mb')
  else (inl FlowError, mb).

#[export] Instance mailbox_oauth : OAuth mailbox :=
  {| oauth_refresh := mailbox_refresh; oauth_authorize := mailbox_authorize |}.

(** ** The invariant *)

Record mailbox_wf (mb : mailbox) : Prop := {
  wf_label_ids : NoDup (mb_labels mb).*2;
  wf_label_names : NoDup (lower <$> (mb_labels mb).*1);
  wf_label_fresh k : mb_next_label mb ≤ k → label_id k ∉ (mb_labels mb).*2;
  wf_message_ids : NoDup (msg_id <$> mb_messages mb);
  wf_message_labels m l :
    m ∈ mb_messages mb → l ∈ msg_labels m → l ∈ (mb_labels mb).*2;
  wf_token_fresh k : mb_next_token mb ≤ k → access_token k ∉ (mb_grants mb).*1;
}.

(** ** Lemmas: identifiers *)

Lemma nat_of_string_of_nat n : nat_of_string (string_of_nat n) = Some n.
Proof.
  unfold nat_of_string, string_of_nat. rewrite NilEmpty.usu. simpl.
  by rewrite Unsigned.of_to.
Qed.

#[export] Instance string_of_nat_inj : Inj (=) (=) string_of_nat.
Proof.
  intros a b Hab. apply (f_equal nat_of_string) in Hab.
  rewrite !nat_of_string_of_nat in Hab. congruence.
Qed.

#[export] Instance label_id_inj : Inj (=) (=) label_id.
Proof. intros a b Hab. by apply String.app_inj, string_of_nat_inj in Hab. Qed.

#[export] Instance access_token_inj : Inj (=) (=) access_token.
Proof. intros a b Hab. by apply String.app_inj, string_of_nat_inj in Hab. Qed.

(** ** Lemmas: the answers have the documented shape *)

Lemma label_ok_label n i : label_ok (label n i) = true.
Proof. done. Qed.

Lemma labels_list_ok_label_list ls : labels_list_ok (label_list ls) = true.
Proof.
  unfold label_list, labels_list_ok. rewrite dict_lookup_cons_eq.
  by apply forallb_fmap_true.
Qed.

Lemma messages_list_ok_page ms next : messages_list_ok (page ms next) = true.
Proof.
  unfold page, messages_list_ok. cbn [app]. rewrite dict_lookup_cons_eq.
  rewrite forallb_fmap_true by done. by destruct next.
Qed.

Lemma messages_list_ok_list_page mb q offset :
  messages_list_ok (list_page mb q offset) = true.
Proof.
  unfold list_page. cbv zeta.
  destruct (take _ _) eqn:E; [done|]. apply messages_list_ok_page.
Qed.

Lemma labels_create_ok body mb v mb' :
  labels_create body mb = (inr v, mb') → label_ok v = true.
Proof.
  unfold labels_create. destruct body as [| | | | |d]; try done.
  destruct (dict_lookup d "name") as [[| | |name| |]|]; try done.
  destruct (resolve _ _); [done|]. by intros [= <- _].
Qed.

#[export] Instance mailbox_schema : GmailSchema mailbox.
Proof.
  intros c req mb v mb'. unfold gmail_execute, mailbox_api, mailbox_execute.
  destruct (authorized c mb); [done|]. case_decide; [|done].
  destruct req as [uid|uid body|uid q tok|uid body]; simpl; try done.
  - intros [= <- _]. apply labels_list_ok_label_list.
  - apply labels_create_ok.
  - unfold messages_list. destruct tok as [t|].
    + destruct (nat_of_string t); [|done]. intros [= <- _].
      apply messages_list_ok_list_page.
    + intros [= <- _]. apply messages_list_ok_list_page.
Qed.

(** ** Lemmas: OAuth *)

Lemma valid_hour t rt now sc :
  valid (Credentials (Some t) rt (Some (now + 3600)%Z) sc) now = true.
Proof.
  unfold valid, expired. simpl. apply negb_true_iff, bool_decide_eq_false. lia.
Qed.

Lemma mint_valid now c sc mb : valid (mint now c sc mb).1 now = true.
Proof. apply valid_hour. Qed.

#[export] Instance mailbox_oauth_lawful : OAuthLawful mailbox.
Proof.
  split; simpl.
  - intros now c p c' p'. unfold mailbox_refresh.
    destruct (refresh_token c); [|done]. destruct (assoc _ _); [|done].
    intros [= <- _]. apply valid_hour.
  - intros now c p c' p'. unfold mailbox_refresh.
    destruct (refresh_token c); [|done]. destruct (assoc _ _); [|done].
    by intros [= <- _].
  - intros now cfg sc p c' p'. unfold mailbox_authorize.
    destruct (mb_consent p); [|done]. intros [= <- _]. apply valid_hour.
  - intros now cfg sc p c' p'. unfold mailbox_authorize.
    destruct (mb_consent p); [|done]. by intros [= <- _].
Qed.

Lemma string_of_nat_nonempty n : string_of_nat n ≠ "".
Proof.
  intros Heq. pose proof (nat_of_string_of_nat n) as Hn. rewrite Heq in Hn.
  injection Hn as <-. discriminate Heq.
Qed.

(** ** Lemmas: the listing methods *)

Section listing.
Implicit Types (mb : mailbox) (c : credentials) (q : string) (offset : nat).

Lemma mailbox_execute_authorized c req mb :
  authorized c mb = inr tt → user_of req = "me" →
  gmail_execute c req mb =
  match req with
  | LabelsList _ => (inr (labels_list mb), mb)
  | LabelsCreate _ body => labels_create body mb
  | MessagesList _ q tok => (messages_list q tok mb, mb)
  | MessagesBatchModify _ body => batch_modify body mb
  end.
Proof.
  intros Ha Hu. unfold gmail_execute, mailbox_api, mailbox_execute.
  by rewrite Ha, decide_True.
Qed.

(** The token that asks for the page at an offset. *)
Definition page_token (offset : nat) : option string :=
  match offset with 0 => None | _ => Some (string_of_nat offset) end.

Lemma messages_list_page_token q offset mb :
  messages_list q (page_token offset) mb = inr (list_page mb q offset).
Proof.
  destruct offset as [|n]; [done|]. unfold page_token, messages_list.
  by rewrite nat_of_string_of_nat.
Qed.

Lemma page_token_pos offset : 0 < offset → page_token offset = Some (string_of_nat offset).
Proof. destruct offset; [lia|done]. Qed.

(** The messages of the page at an offset. *)
Lemma messages_list_page mb q offset :
  py_get (list_page mb q offset) "messages" (PList []) =
  Ok (PList ((λ m, PDict [("id", PStr m)])
               <$> take (page_size mb) (drop offset (matching mb q)))).
Proof.
  unfold list_page. cbv zeta. destruct (take _ _) as [|m ms] eqn:E; [done|].
  unfold page. cbn [app]. by rewrite py_get_dict, dict_lookup_cons_eq.
Qed.

(** Listing does not change the mailbox. *)
Lemma mailbox_list_state c u q tok mb : (gmail_execute c (MessagesList u q tok) mb).2 = mb.
Proof.
  unfold gmail_execute, mailbox_api, mailbox_execute.
  destruct (authorized c mb); [done|]. by case_decide.
Qed.

Lemma mailbox_labels_list_state c u mb : (gmail_execute c (LabelsList u) mb).2 = mb.
Proof.
  unfold gmail_execute, mailbox_api, mailbox_execute.
  destruct (authorized c mb); [done|]. by case_decide.
Qed.

(** The page at an offset has a token exactly when matches remain after
    it, and the token is the offset of the next page. *)
Lemma next_page_token_list_page mb q offset :
  next_page_token (list_page mb q offset) =
  if decide (offset + page_size mb < length (matching mb q))
  then Some (string_of_nat (offset + page_size mb)) else None.
Proof.
  unfold list_page. cbv zeta. destruct (take _ _) as [|m ms] eqn:E.
  - apply (f_equal length) in E. rewrite length_take, length_drop in E.
    unfold page_size in *. cbn [length] in E. rewrite decide_False by lia. done.
  - unfold page, next_page_token. case_decide; cbn [app].
    + rewrite dict_lookup_cons_ne, dict_lookup_cons_eq by done.
      destruct (String.eqb_spec (string_of_nat (offset + page_size mb)) ""); [|done].
      by destruct (string_of_nat_nonempty (offset + page_size mb)).
    + by rewrite dict_lookup_cons_ne by done.
Qed.

End listing.

(** ** A mailbox to run the scenarios on *)

(** Five messages, of which [m1], [m3] and [m4] match any query; the
    label "Rejections" exists; pages of two; one live token with the
    modify scope and one with a read-only scope. *)
Definition sample_mailbox : mailbox :=
  Mailbox [("INBOX", "INBOX"); ("Rejections", "Label_1")] 2
    [Message "m1" {["INBOX"]}; Message "m2" {["INBOX"]}; Message "m3" {["INBOX"]};
     Message "m4" {["INBOX"]}; Message "m5" ∅]
    (λ _ m, bool_decide (m ∈ ["m1"; "m3"; "m4"])) 1
    [("ya29.0", [modify_scope]);
     ("ya29.ro", ["https://www.googleapis.com/auth/gmail.readonly"])]
    [("1//0", [modify_scope])] 1 true.

(** The credential of the live token, good until 5000. *)
Definition sample_credentials : credentials :=
  Credentials (Some "ya29.0") (Some "1//0") (Some 5000%Z) [modify_scope].

Definition sample_service : service := Service sample_credentials.

(** The same account with no label named "rejections" yet. *)
Definition fresh_mailbox : mailbox :=
  with_labels [("INBOX", "INBOX")] 1 sample_mailbox.

(** ** The effect of the requests of the script *)

(** The label with a name, created when there is none: the id, and the
    mailbox that has it. *)
Definition ensure_label (name : string) (mb : mailbox) : string * mailbox :=
  match resolve (mb_labels mb) name with
  | Some i => (i, mb)
  | None =>
      let i := label_id (mb_next_label mb) in
      (i, with_labels (mb_labels mb ++ [(name, i)]) (S (mb_next_label mb)) mb)
  end.

(** The mailbox in which the messages with the ids carry a label. *)
Definition apply_label (l : string) (ids : list string) (mb : mailbox) : mailbox :=
  with_messages (relabel ids [l] [] <$> mb_messages mb) mb.

Lemma resolve_snoc es n i name :
  resolve (es ++ [(n, i)]) name =
  match resolve es name with
  | Some j => Some j
  | None => if decide (same_name n name) then Some i else None
  end.
Proof.
  induction es as [|[n' i'] es IH]; cbn [app].
  - by rewrite resolve_cons, !resolve_nil.
  - rewrite !resolve_cons, IH. by destruct (decide (same_name n' name)).
Qed.

Lemma resolve_None_names es name :
  resolve es name = None ↔ lower name ∉ lower <$> es.*1.
Proof.
  induction es as [|[n i] es IH]; cbn [fmap list_fmap fst].
  - split; [intros _ []%elem_of_nil|done].
  - rewrite resolve_cons, not_elem_of_cons, <-IH. unfold same_name.
    case_decide; intuition congruence.
Qed.

Lemma resolve_elem es name i : resolve es name = Some i → i ∈ es.*2.
Proof.
  intros (n & Hin & _)%resolve_Some. apply list_elem_of_fmap. by exists (n, i).
Qed.

Section ensure_label.
Implicit Types (mb : mailbox) (name : string).

Lemma ensure_label_resolve name mb :
  resolve (mb_labels (ensure_label name mb).2) name = Some (ensure_label name mb).1.
Proof.
  unfold ensure_label. destruct (resolve (mb_labels mb) name) as [i|] eqn:E; simpl; [done|].
  rewrite resolve_snoc, E. by rewrite decide_True by done.
Qed.

Lemma ensure_label_elem name mb :
  (ensure_label name mb).1 ∈ (mb_labels (ensure_label name mb).2).*2.
Proof. eapply resolve_elem, ensure_label_resolve. Qed.

Lemma ensure_label_Some name mb i :
  resolve (mb_labels mb) name = Some i → ensure_label name mb = (i, mb).
Proof. intros E. unfold ensure_label. by rewrite E. Qed.

(** Once the label is there, asking again changes nothing. *)
Lemma ensure_label_idemp name mb :
  ensure_label name (ensure_label name mb).2 = ensure_label name mb.
Proof.
  rewrite (ensure_label_Some _ _ _ (ensure_label_resolve name mb)).
  by destruct (ensure_label name mb).
Qed.

Lemma ensure_label_messages name mb :
  mb_messages (ensure_label name mb).2 = mb_messages mb.
Proof. unfold ensure_label. by destruct (resolve _ _). Qed.

Lemma ensure_label_matching name mb q :
  matching (ensure_label name mb).2 q = matching mb q.
Proof. unfold ensure_label. by destruct (resolve _ _). Qed.

Lemma ensure_label_page_size name mb : page_size (ensure_label name mb).2 = page_size mb.
Proof. unfold ensure_label. by destruct (resolve _ _). Qed.

Lemma ensure_label_authorized c name mb :
  authorized c (ensure_label name mb).2 = authorized c mb.
Proof. unfold ensure_label. by destruct (resolve _ _). Qed.

(** At most one label is added, at the end, and none is lost. *)
Lemma ensure_label_labels name mb :
  mb_labels (ensure_label name mb).2 =
  mb_labels mb ++ match resolve (mb_labels mb) name with
                  | Some _ => []
                  | None => [(name, label_id (mb_next_label mb))]
                  end.
Proof.
  unfold ensure_label. destruct (resolve _ _); simpl; [|done]. by rewrite app_nil_r.
Qed.

Lemma ensure_label_wf name mb : mailbox_wf mb → mailbox_wf (ensure_label name mb).2.
Proof.
  intros [Hids Hnames Hfresh Hmids Hmls Htok].
  unfold ensure_label. destruct (resolve _ _) as [i|] eqn:E; simpl; [done|].
  split; simpl; try done.
  - rewrite fmap_app. simpl. apply NoDup_app. split_and!; [done| |apply NoDup_singleton].
    intros i Hi ->%list_elem_of_singleton. by eapply Hfresh.
  - rewrite !fmap_app. simpl. apply NoDup_app. split_and!; [done| |apply NoDup_singleton].
    intros n Hn ->%list_elem_of_singleton. by apply resolve_None_names in E.
  - intros k Hk. rewrite fmap_app, not_elem_of_app. simpl. split.
    + apply Hfresh. lia.
    + intros Heq%list_elem_of_singleton. apply (inj label_id) in Heq. lia.
  - intros m l Hm Hl. rewrite fmap_app. apply elem_of_app. left. eauto.
Qed.

End ensure_label.

Section apply_label.
Implicit Types (mb : mailbox) (l : string) (ids : list string) (m : message).

Lemma str_list_strs ids : str_list (Some (PList (PStr <$> ids))) = Some ids.
Proof. simpl. apply mapM_Some, Forall2_fmap_l, Forall_Forall2_diag. by apply Forall_true. Qed.

(** Adding one label and removing none. *)
Lemma relabel_add ids l m :
  relabel ids [l] [] m =
  if decide (msg_id m ∈ ids) then Message (msg_id m) (msg_labels m ∪ {[l]}) else m.
Proof.
  unfold relabel. case_decide; [|done]. simpl.
  by rewrite !union_empty_r_L, difference_empty_L.
Qed.

Lemma relabel_id ids add remove m : msg_id (relabel ids add remove m) = msg_id m.
Proof. unfold relabel. by case_decide. Qed.

Lemma relabel_app ids1 ids2 l m :
  relabel ids2 [l] [] (relabel ids1 [l] [] m) = relabel (ids1 ++ ids2) [l] [] m.
Proof.
  rewrite !relabel_add.
  destruct (decide (msg_id m ∈ ids1)) as [H1|H1]; simpl;
    destruct (decide (msg_id m ∈ ids2)) as [H2|H2]; simpl;
    [rewrite decide_True by (apply elem_of_app; tauto)..
    |rewrite decide_False by (rewrite elem_of_app; tauto)]; try done.
  by rewrite <-(assoc_L (∪)), (idemp_L (∪)).
Qed.

Lemma relabel_nil l m : relabel [] [l] [] m = m.
Proof. rewrite relabel_add. case_decide as Hin; [by apply elem_of_nil in Hin|done]. Qed.

Lemma apply_label_app l ids1 ids2 mb :
  apply_label l ids2 (apply_label l ids1 mb) = apply_label l (ids1 ++ ids2) mb.
Proof.
  unfold apply_label, with_messages. simpl. f_equal.
  rewrite <-list_fmap_compose. apply list_fmap_ext. intros _ m _. apply relabel_app.
Qed.

Lemma apply_label_nil l mb : apply_label l [] mb = mb.
Proof.
  destruct mb. unfold apply_label, with_messages. simpl. f_equal.
  rewrite <-(list_fmap_id mb_messages0) at 2. apply list_fmap_ext. intros _ m _.
  apply relabel_nil.
Qed.

(** Only the set of the ids matters. *)
Lemma apply_label_ext l ids1 ids2 mb :
  (∀ i, i ∈ ids1 ↔ i ∈ ids2) → apply_label l ids1 mb = apply_label l ids2 mb.
Proof.
  intros Hids. unfold apply_label. f_equal. apply list_fmap_ext. intros _ m _.
  rewrite !relabel_add. by rewrite (decide_ext _ _ _ _ (Hids (msg_id m))).
Qed.

(** Labelling the same messages again changes nothing. *)
Lemma apply_label_idemp l ids mb :
  apply_label l ids (apply_label l ids mb) = apply_label l ids mb.
Proof.
  rewrite apply_label_app. apply apply_label_ext. intros i. rewrite elem_of_app. tauto.
Qed.

(** Labelling a part of the ids first changes nothing in the end. *)
Lemma apply_label_take l k ids mb :
  apply_label l ids (apply_label l (take k ids) mb) = apply_label l ids mb.
Proof.
  rewrite apply_label_app. apply apply_label_ext. intros i. rewrite elem_of_app.
  pose proof (subseteq_take k ids i). tauto.
Qed.

Lemma apply_label_messages l ids mb :
  mb_messages (apply_label l ids mb) =
  (λ m, if decide (msg_id m ∈ ids) then Message (msg_id m) (msg_labels m ∪ {[l]}) else m)
    <$> mb_messages mb.
Proof. simpl. apply list_fmap_ext. intros _ m _. apply relabel_add. Qed.

Lemma filter_ids_fmap (f : message → message) (p : string → bool) ms :
  (∀ m, msg_id (f m) = msg_id m) →
  msg_id <$> List.filter (λ m, p (msg_id m)) (f <$> ms)
  = msg_id <$> List.filter (λ m, p (msg_id m)) ms.
Proof.
  intros Hf. induction ms as [|m ms IH]; [done|]. csimpl. rewrite Hf.
  destruct (p (msg_id m)); csimpl; by rewrite ?Hf, IH.
Qed.

Lemma apply_label_matching l ids mb q : matching (apply_label l ids mb) q = matching mb q.
Proof. apply filter_ids_fmap. intros m. apply relabel_id. Qed.

(** The ids that match are the ids of the messages that match. *)
Lemma elem_of_matching mb q i :
  i ∈ matching mb q ↔ i ∈ msg_id <$> mb_messages mb ∧ mb_matches mb q i = true.
Proof.
  unfold matching. rewrite !list_elem_of_fmap. split.
  - intros (m & -> & Hm). apply list_elem_of_In, filter_In in Hm as [Hm ?].
    split; [|done]. exists m. by rewrite list_elem_of_In.
  - intros [(m & -> & Hm) Hq]. exists m. split; [done|].
    apply list_elem_of_In, filter_In. by rewrite <-list_elem_of_In.
Qed.

(** A batch request of the script, for a label that exists and between
    1 and 1000 ids, is accepted and labels the messages. *)
Lemma batch_modify_add c l ids mb :
  authorized c mb = inr tt → l ∈ (mb_labels mb).*2 → 0 < length ids ≤ 1000 →
  gmail_execute c
    (MessagesBatchModify "me"
       (PDict [("ids", PList (PStr <$> ids)); ("addLabelIds", PList [PStr l]);
               ("removeLabelIds", PList [])])) mb
  = (inr (PStr ""), apply_label l ids mb).
Proof.
  intros Ha Hl Hn. unfold gmail_execute, mailbox_api, mailbox_execute. rewrite Ha.
  rewrite decide_True by done. unfold batch_modify.
  change (dict_lookup _ "ids") with (Some (PList (PStr <$> ids))).
  change (dict_lookup _ "addLabelIds") with (Some (PList [PStr l])).
  change (dict_lookup _ "removeLabelIds") with (Some (PList [])).
  rewrite str_list_strs.
  change (str_list (Some (PList [PStr l]))) with (Some [l]).
  change (str_list (Some (PList []))) with (Some (@nil string)).
  cbv iota beta. rewrite decide_True; [done|].
  split_and!; [lia..| |]; [|by intros ? ?%elem_of_nil].
  by intros ? ->%list_elem_of_singleton.
Qed.

(** A batch request that adds one label labels the messages when it is
    accepted, and changes nothing when it is not. *)
Lemma batch_modify_state l ids mb :
  (batch_modify
     (PDict [("ids", PList (PStr <$> ids)); ("addLabelIds", PList [PStr l]);
             ("removeLabelIds", PList [])]) mb).2 =
  if decide (0 < length ids ≤ 1000 ∧ l ∈ (mb_labels mb).*2)
  then apply_label l ids mb else mb.
Proof.
  unfold batch_modify.
  change (dict_lookup _ "ids") with (Some (PList (PStr <$> ids))).
  change (dict_lookup _ "addLabelIds") with (Some (PList [PStr l])).
  change (dict_lookup _ "removeLabelIds") with (Some (PList [])).
  rewrite str_list_strs.
  change (str_list (Some (PList [PStr l]))) with (Some [l]).
  change (str_list (Some (PList []))) with (Some (@nil string)).
  cbv iota beta.
  rewrite (decide_ext _ (0 < length ids ≤ 1000 ∧ l ∈ (mb_labels mb).*2));
    [by case_decide|].
  split.
  - intros (Hn & Hl & _). split; [exact Hn|]. apply Hl. by apply list_elem_of_singleton.
  - intros [Hn Hl]. split; [exact Hn|]. split; [|by intros ? ?%elem_of_nil].
    by intros ? ->%list_elem_of_singleton.
Qed.

(** A request changes the mailbox only when its method does. *)
Lemma mailbox_execute_state c req mb :
  (gmail_execute c req mb).2 = mb ∨
  (gmail_execute c req mb).2 =
    match req with
    | LabelsCreate _ body => (labels_create body mb).2
    | MessagesBatchModify _ body => (batch_modify body mb).2
    | _ => mb
    end.
Proof.
  unfold gmail_execute, mailbox_api, mailbox_execute.
  destruct (authorized c mb); [by left|]. case_decide; [|by left].
  right. by destruct req.
Qed.

Lemma apply_label_wf l ids mb :
  mailbox_wf mb → l ∈ (mb_labels mb).*2 → mailbox_wf (apply_label l ids mb).
Proof.
  intros [Hids Hnames Hfresh Hmids Hmls Htok] Hl. split; simpl; try done.
  - rewrite <-list_fmap_compose.
    erewrite list_fmap_ext; [done|]. intros _ m _. apply relabel_id.
  - intros m l' (m0 & -> & Hm0)%list_elem_of_fmap. rewrite relabel_add.
    case_decide; simpl; [|by eauto]. rewrite elem_of_union, elem_of_singleton.
    intros [?| ->]; eauto.
Qed.

End apply_label.

(** ** The invariant is kept *)

Section mailbox_wf.
Implicit Types (mb : mailbox) (c : credentials).

Lemma with_grants_wf gs rs n mb :
  mailbox_wf mb → (∀ k, n ≤ k → access_token k ∉ gs.*1) →
  mailbox_wf (with_grants gs rs n mb).
Proof. intros [] Hn. by split. Qed.

Lemma mint_wf now c sc mb : mailbox_wf mb → mailbox_wf (mint now c sc mb).2.
Proof.
  intros Hwf. unfold mint. simpl. apply with_grants_wf; [done|]. intros k Hk. simpl.
  rewrite not_elem_of_cons. split.
  - intros Heq. apply (inj access_token) in Heq. lia.
  - apply (wf_token_fresh mb Hwf). lia.
Qed.

Lemma mailbox_refresh_wf now c mb : mailbox_wf mb → mailbox_wf (mailbox_refresh now c mb).2.
Proof.
  intros Hwf. unfold mailbox_refresh. destruct (refresh_token c) as [rt|]; [|done].
  destruct (assoc rt _) as [sc|]; [|done].
  pose proof (mint_wf now c sc mb Hwf). by destruct (mint now c sc mb).
Qed.

Lemma mailbox_authorize_wf now config sc mb :
  mailbox_wf mb → mailbox_wf (mailbox_authorize now config sc mb).2.
Proof.
  intros Hwf. unfold mailbox_authorize. destruct (mb_consent mb); [|done].
  set (c := Credentials _ _ _ _). set (mb1 := with_grants _ _ _ _).
  assert (mailbox_wf mb1) as Hwf1.
  { apply with_grants_wf; [done|]. apply (wf_token_fresh mb Hwf). }
  pose proof (mint_wf now c sc mb1 Hwf1). by destruct (mint now c sc mb1).
Qed.

Lemma labels_create_wf body mb : mailbox_wf mb → mailbox_wf (labels_create body mb).2.
Proof.
  intros Hwf. unfold labels_create. destruct body as [| | | | |d]; try done.
  destruct (dict_lookup d "name") as [[| | |name| |]|]; try done.
  pose proof (ensure_label_wf name mb Hwf) as Hwf'. unfold ensure_label in Hwf'.
  by destruct (resolve (mb_labels mb) name).
Qed.

Lemma batch_modify_wf body mb : mailbox_wf mb → mailbox_wf (batch_modify body mb).2.
Proof.
  intros Hwf. unfold batch_modify. destruct body as [| | | | |d]; try done.
  destruct (str_list (dict_lookup d "ids")) as [ids|]; [|done].
  destruct (str_list (dict_lookup d "addLabelIds")) as [add|]; [|done].
  destruct (str_list (dict_lookup d "removeLabelIds")) as [remove|]; [|done].
  case_decide as Hok; [|done]. destruct Hok as (_ & Hadd & _), Hwf. split; simpl; try done.
  - rewrite <-list_fmap_compose. erewrite list_fmap_ext; [done|].
    intros _ m _. apply relabel_id.
  - intros m l (m0 & -> & Hm0)%list_elem_of_fmap. unfold relabel.
    case_decide; simpl; [|by eauto].
    rewrite elem_of_difference, elem_of_union, elem_of_list_to_set.
    intros [[?|?] _]; eauto.
Qed.

(** Every request, accepted or not, leaves a well-formed mailbox
    well-formed. *)
Lemma mailbox_execute_wf c req mb : mailbox_wf mb → mailbox_wf (gmail_execute c req mb).2.
Proof.
  intros Hwf. unfold gmail_execute, mailbox_api, mailbox_execute.
  destruct (authorized c mb); [done|]. case_decide; [|done].
  destruct req; auto using labels_create_wf, batch_modify_wf.
Qed.

(** A token that was just minted with the modify scope is accepted. *)
Lemma mint_authorized now c sc mb :
  modify_scope ∈ sc → authorized (mint now c sc mb).1 (mint now c sc mb).2 = inr tt.
Proof.
  intros Hsc. unfold authorized, mint. simpl.
  rewrite decide_True by done. by rewrite decide_True.
Qed.

End mailbox_wf.

(** A login the user consents to yields a credential the mailbox
    accepts, and touches neither the labels nor the messages. *)
Lemma mailbox_authorize_consent now config sc (mb : mailbox) :
  mb_consent mb = true → modify_scope ∈ sc →
  ∃ c' mb', mailbox_authorize now config sc mb = (inr c', mb') ∧
    authorized c' mb' = inr tt ∧ is_Some (refresh_token c') ∧
    with_grants (mb_grants mb) (mb_refresh_grants mb) (mb_next_token mb) mb' = mb.
Proof.
  intros Hc Hsc. unfold mailbox_authorize. rewrite Hc.
  set (c := Credentials _ _ _ _). set (mb1 := with_grants _ _ _ _).
  pose proof (mint_authorized now c sc mb1 Hsc) as Ha.
  exists (mint now c sc mb1).1, (mint now c sc mb1).2.
  split_and!; [done..|by destruct mb].
Qed.

(** ** The mailbox up to the grants *)

(** Two mailboxes are equivalent when they have the same labels and
    messages and answer the searches alike; the tokens they have granted
    may differ.  The login changes a mailbox up to this equivalence. *)
#[export] Instance same_mail : Equiv mailbox := λ mb mb',
  mb_labels mb = mb_labels mb' ∧ mb_next_label mb = mb_next_label mb' ∧
  mb_messages mb = mb_messages mb' ∧ mb_matches mb = mb_matches mb' ∧
  mb_page_pred mb = mb_page_pred mb'.

#[export] Instance same_mail_equivalence : Equivalence (≡@{mailbox}).
Proof.
  split.
  - by intros mb.
  - by intros mb1 mb2 (?&?&?&?&?).
  - intros mb1 mb2 mb3 (?&?&?&?&?) (?&?&?&?&?). split_and!; congruence.
Qed.

#[export] Instance matching_proper : Proper ((≡) ==> (=) ==> (=)) matching.
Proof. intros mb mb' (_ & _ & Hm & Hq & _) q ? <-. unfold matching. by rewrite Hm, Hq. Qed.

#[export] Instance page_size_proper : Proper ((≡) ==> (=)) page_size.
Proof. intros mb mb' (_ & _ & _ & _ & Hp). unfold page_size. by rewrite Hp. Qed.

#[export] Instance ensure_label_proper name :
  Proper ((≡) ==> prod_relation (=) (≡)) (ensure_label name).
Proof.
  intros mb mb' (Hl & Hn & Hm & Hq & Hp). unfold ensure_label. rewrite Hl, Hn.
  by destruct (resolve _ _).
Qed.

#[export] Instance apply_label_proper l ids : Proper ((≡) ==> (≡)) (apply_label l ids).
Proof. intros mb mb' (Hl & Hn & Hm & Hq & Hp). unfold apply_label. by rewrite Hm. Qed.

Lemma mailbox_refresh_equiv now c (mb : mailbox) : (mailbox_refresh now c mb).2 ≡ mb.
Proof.
  unfold mailbox_refresh. destruct (refresh_token c); [|done].
  by destruct (assoc _ _).
Qed.

Lemma mailbox_authorize_equiv now config sc (mb : mailbox) :
  (mailbox_authorize now config sc mb).2 ≡ mb.
Proof. unfold mailbox_authorize. by destruct (mb_consent mb). Qed.

(** The labels and the messages do not depend on the grants. *)
Lemma with_grants_labelled gs rs n (mb mb' : mailbox) :
  with_grants gs rs n mb' = mb →
  mb_labels mb' = mb_labels mb ∧ mb_next_label mb' = mb_next_label mb ∧
  mb_messages mb' = mb_messages mb ∧ mb_matches mb' = mb_matches mb ∧
  mb_page_pred mb' = mb_page_pred mb.
Proof. by intros <-. Qed.

(** ** The sample mailbox is well-formed *)

Lemma access_token_digits k s : access_token k = "ya29." +:+ s → nat_of_string s = Some k.
Proof. intros Heq%String.app_inj. by rewrite <-Heq, nat_of_string_of_nat. Qed.

Lemma sample_mailbox_wf : mailbox_wf sample_mailbox.
Proof.
  split; simpl.
  - apply (bool_decide_unpack _). by vm_compute.
  - apply (bool_decide_unpack _). by vm_compute.
  - intros k Hk. rewrite !not_elem_of_cons. split_and!; [done| |apply not_elem_of_nil].
    intros Heq. apply (inj label_id k 1) in Heq. lia.
  - apply (bool_decide_unpack _). by vm_compute.
  - intros m l Hm Hl. repeat (apply elem_of_cons in Hm as [->|Hm]); simpl in Hl;
      try (apply elem_of_singleton in Hl as ->; by left);
      [by apply elem_of_empty in Hl|by apply elem_of_nil in Hm].
  - intros k Hk. rewrite !not_elem_of_cons. split_and!; [..|apply not_elem_of_nil].
    + intros Heq. apply (inj access_token k 0) in Heq. lia.
    + by intros Heq%access_token_digits.
Qed.

(** A refresh with a refresh token that was granted the modify scope
    yields a credential the mailbox accepts, and touches neither the
    labels nor the messages. *)
Lemma mailbox_refresh_granted now c rt sc (mb : mailbox) :
  refresh_token c = Some rt → assoc rt (mb_refresh_grants mb) = Some sc →
  modify_scope ∈ sc →
  ∃ c' mb', mailbox_refresh now c mb = (inr c', mb') ∧
    authorized c' mb' = inr tt ∧ refresh_token c' = Some rt ∧
    with_grants (mb_grants mb) (mb_refresh_grants mb) (mb_next_token mb) mb' = mb.
Proof.
  intros Hrt Hg Hsc. unfold mailbox_refresh. rewrite Hrt, Hg.
  pose proof (mint_authorized now c sc mb Hsc) as Ha.
  exists (mint now c sc mb).1, (mint now c sc mb).2.
  split_and!; [done..|by destruct mb].
Qed.
