(* ===== verification/Batch.v ===== *)
(** * Batch: add_label_to_messages (src/label_rejections.py, lines 87-105)

    The function sends the message ids to [batchModify] in slices of
    [chunk_size = 1000] ids, one request per slice, and prints the size
    of each slice.  The loop runs over [range(0, len(message_ids),
    chunk_size)] and cuts the slice [message_ids[i:i + chunk_size]] at
    each index; [Prelude.chunks] is the reference it is compared with. *)

From stdpp Require Import base tactics option list strings gmap.
From S2P Require Import Prelude PyData World Mock Mailbox.

Section batch.
Context {P : Type} `{GmailApi P}.
Implicit Types (svc : service) (message_ids chunk : list pyval) (label_id : pyval).
Implicit Types (w : world P) (chunk_size i : nat).

(** ** The program *)

(** The request body for one slice (lines 97-101). *)
Definition batch_body chunk label_id : pyval :=
  PDict [("ids", PList chunk);
         ("addLabelIds", PList [label_id]);
         ("removeLabelIds", PList [])].

(** One iteration of the loop, at index [i] (lines 96-105). *)
Definition label_chunk svc message_ids label_id chunk_size i : prog (world P) unit :=
  let chunk := slice message_ids i (i + chunk_size) in
  let body := batch_body chunk label_id in
  execute svc (MessagesBatchModify "me" body) ;;
  print (LabeledBatch (length chunk)).

(** The loop, for a chunk size (lines 95-105). *)
Definition label_chunks svc message_ids label_id chunk_size : prog (world P) unit :=
  indices ← lift (py_range 0 (length message_ids) chunk_size);
  for_each indices (label_chunk svc message_ids label_id chunk_size).

(** The function (lines 87-105). *)
Definition add_label_to_messages svc message_ids label_id : prog (world P) unit :=
  match message_ids with
  | [] => print NoMessagesToLabel
  | _ :: _ =>
      let chunk_size := 1000 in
      label_chunks svc message_ids label_id chunk_size
  end.

(** ** The reference *)

(** The requests a complete run issues: one per chunk, in order. *)
Definition batch_calls message_ids label_id chunk_size : list request :=
  (λ chunk, MessagesBatchModify "me" (batch_body chunk label_id))
    <$> chunks chunk_size message_ids.

(** The lines a complete run prints. *)
Definition batch_lines message_ids chunk_size : list line :=
  (λ chunk, LabeledBatch (length chunk)) <$> chunks chunk_size message_ids.

End batch.

(** ** The slices of the loop are the chunks *)

Section slices_chunks.
Context {A : Type}.
Implicit Types (l : list A) (n k fuel : nat).

Lemma slices_chunks_from fuel n l k :
  0 < n → length l - k ≤ fuel →
  (λ i, slice l i (i + n)) <$> range_from fuel k (length l) n = chunks n (drop k l).
Proof.
  intros Hn. revert k. induction fuel as [|fuel IH]; intros k Hk.
  - rewrite range_from_ge by lia. rewrite drop_ge by lia. done.
  - destruct (decide (k < length l)) as [Hlt|Hge].
    + rewrite range_from_lt by done. rewrite fmap_cons, IH by lia.
      rewrite (chunks_unfold n (drop k l)), drop_drop; [|done|].
      * unfold slice. by replace (k + n - k) with n by lia.
      * intros Hnil. apply (f_equal length) in Hnil.
        rewrite length_drop in Hnil. simpl in Hnil. lia.
    + rewrite range_from_ge by lia. rewrite drop_ge by lia. done.
Qed.

(** Cutting [l[i:i+n]] at every index of [range(0, len(l), n)] gives
    the chunks of [l]. *)
Lemma slices_chunks n l :
  0 < n →
  (λ i, slice l i (i + n)) <$> range_from (length l - 0) 0 (length l) n = chunks n l.
Proof. intros. rewrite slices_chunks_from by lia. by rewrite drop_0. Qed.

End slices_chunks.

(** ** What a run does *)

Section batch_run.
Context {P : Type} `{GmailApi P}.
Implicit Types (svc : service) (message_ids chunk : list pyval) (label_id : pyval).
Implicit Types (w : world P) (chunk_size i k : nat).

Lemma label_chunk_run svc message_ids label_id chunk_size i w :
  let req := MessagesBatchModify "me"
               (batch_body (slice message_ids i (i + chunk_size)) label_id) in
  label_chunk svc message_ids label_id chunk_size i w =
  match execute svc req w with
  | (Ok _, w') =>
      (Ok tt, put_line (LabeledBatch (length (slice message_ids i (i + chunk_size)))) w')
  | (Raise e, w') => (Raise e, w')
  | (OutOfFuel, w') => (OutOfFuel, w')
  end.
Proof. simpl. unfold label_chunk. rewrite bind_run. by destruct execute as [[]]. Qed.

Lemma label_chunk_fuel svc message_ids label_id chunk_size i w :
  (label_chunk svc message_ids label_id chunk_size i w).1 ≠ OutOfFuel.
Proof.
  rewrite label_chunk_run. cbv zeta.
  pose proof (execute_fuel svc
    (MessagesBatchModify "me" (batch_body (slice message_ids i (i + chunk_size)) label_id)) w).
  by destruct execute as [[]].
Qed.

(** The world before iteration [k]: the first [k] requests were sent
    and accepted, and a line was printed for each. *)
Definition batch_sent svc message_ids label_id chunk_size w k (w' : world P) : Prop :=
  let calls := take k (batch_calls message_ids label_id chunk_size) in
  w_calls w' = w_calls w ++ calls ∧
  w_console w' = w_console w ++ take k (batch_lines message_ids chunk_size) ∧
  w_remote w' = serve (svc_credentials svc) (w_remote w) calls ∧
  w_files w' = w_files w ∧ w_clock w' = w_clock w ∧
  accepts (svc_credentials svc) (w_remote w) calls = true.

(** The world when iteration [k] stopped the loop: the requests before
    it were accepted, request [k] was sent, the provider answered it with
    the error that is raised, and its line was not printed. *)
Definition batch_stopped svc message_ids label_id chunk_size w k
    (r : result unit) (w' : world P) : Prop :=
  let calls := batch_calls message_ids label_id chunk_size in
  w_calls w' = w_calls w ++ take (S k) calls ∧
  w_console w' = w_console w ++ take k (batch_lines message_ids chunk_size) ∧
  w_remote w' = serve (svc_credentials svc) (w_remote w) (take (S k) calls) ∧
  w_files w' = w_files w ∧ w_clock w' = w_clock w ∧
  accepts (svc_credentials svc) (w_remote w) (take k calls) = true ∧
  ∃ e req, r = Raise e ∧ calls !! k = Some req ∧
    (gmail_execute (svc_credentials svc) req
       (serve (svc_credentials svc) (w_remote w) (take k calls))).1 = inl e.

Lemma label_chunk_step svc message_ids label_id chunk_size w k i w1 :
  0 < chunk_size →
  range_from (length message_ids - 0) 0 (length message_ids) chunk_size !! k = Some i →
  batch_sent svc message_ids label_id chunk_size w k w1 →
  match label_chunk svc message_ids label_id chunk_size i w1 with
  | (Ok _, w2) => batch_sent svc message_ids label_id chunk_size w (S k) w2
  | (r, w2) => batch_stopped svc message_ids label_id chunk_size w k r w2
  end.
Proof.
  intros Hn Hi (Hcalls & Hcons & Hrem & Hfiles & Hclock & Hacc).
  assert (chunks chunk_size message_ids !! k = Some (slice message_ids i (i + chunk_size)))
    as Hchunk.
  { rewrite <-(slices_chunks chunk_size message_ids) by done.
    by rewrite list_lookup_fmap, Hi. }
  rewrite label_chunk_run. cbv zeta. set (req := MessagesBatchModify _ _).
  assert (batch_calls message_ids label_id chunk_size !! k = Some req) as Hreq.
  { unfold batch_calls. by rewrite list_lookup_fmap, Hchunk. }
  assert (batch_lines message_ids chunk_size !! k
          = Some (LabeledBatch (length (slice message_ids i (i + chunk_size))))) as Hline.
  { unfold batch_lines. by rewrite list_lookup_fmap, Hchunk. }
  rewrite execute_run.
  destruct (gmail_execute _ req (w_remote w1)) as [[e|v] p'] eqn:E; simpl;
    unfold batch_sent, batch_stopped; cbv zeta; simpl;
    rewrite (take_S_r _ _ _ Hreq), ?(take_S_r _ _ _ Hline), serve_snoc, <-Hrem, E,
      Hcalls, ?Hcons, <-?app_assoc; repeat split; try done.
  - exists e, req. by rewrite E.
  - eapply accepts_snoc; [done|]. by rewrite <-Hrem, E.
Qed.

(** The loop, for every positive chunk size and every provider. *)
Lemma label_chunks_spec svc message_ids label_id chunk_size w :
  0 < chunk_size →
  match label_chunks svc message_ids label_id chunk_size w with
  | (Ok _, w') =>
      batch_sent svc message_ids label_id chunk_size w
        (length (chunks chunk_size message_ids)) w'
  | (r, w') =>
      ∃ k, k < length (chunks chunk_size message_ids) ∧
        batch_stopped svc message_ids label_id chunk_size w k r w'
  end.
Proof.
  intros Hn. unfold label_chunks. rewrite py_range_pos, lift_bind by done.
  pose proof (for_each_invariant
    (batch_sent svc message_ids label_id chunk_size w)
    (batch_stopped svc message_ids label_id chunk_size w)
    (label_chunk svc message_ids label_id chunk_size)
    (range_from (length message_ids - 0) 0 (length message_ids) chunk_size) w) as Hloop.
  rewrite <-(slices_chunks chunk_size message_ids), length_fmap by done.
  apply Hloop.
  - unfold batch_sent. simpl. by rewrite !app_nil_r.
  - intros k i w1 Hi Hk. by apply label_chunk_step.
Qed.

End batch_run.

(** ** The theorems *)

Section batch_theorems.
Context {P : Type} `{GmailApi P}.
Implicit Types (svc : service) (message_ids chunk : list pyval) (label_id : pyval).
Implicit Types (w : world P) (k : nat).

Lemma batch_calls_length message_ids label_id n :
  length (batch_calls message_ids label_id n) = length (chunks n message_ids).
Proof. unfold batch_calls. by rewrite length_fmap. Qed.

Lemma batch_lines_length message_ids n :
  length (batch_lines message_ids n) = length (chunks n message_ids).
Proof. unfold batch_lines. by rewrite length_fmap. Qed.

(** A loop that returns has sent every request of the reference. *)
Lemma label_chunks_ok svc message_ids label_id chunk_size w w' :
  0 < chunk_size →
  label_chunks svc message_ids label_id chunk_size w = (Ok tt, w') →
  w_calls w' = w_calls w ++ batch_calls message_ids label_id chunk_size ∧
  w_console w' = w_console w ++ batch_lines message_ids chunk_size ∧
  w_remote w' = serve (svc_credentials svc) (w_remote w)
                  (batch_calls message_ids label_id chunk_size) ∧
  w_files w' = w_files w ∧ w_clock w' = w_clock w.
Proof.
  intros Hpos Hrun.
  pose proof (label_chunks_spec svc message_ids label_id chunk_size w Hpos) as Hspec.
  rewrite Hrun in Hspec. destruct Hspec as (Hc & Hl & Hr & Hf & Hk & _). cbv zeta in *.
  rewrite take_ge in Hc by (rewrite batch_calls_length; lia).
  rewrite take_ge in Hl by (rewrite batch_lines_length; lia).
  rewrite take_ge in Hr by (rewrite batch_calls_length; lia).
  done.
Qed.

(** [C2] A run of [add_label_to_messages] that returns has sent one
    [batchModify] request per chunk of 1000 ids, in order, has printed one
    line per chunk, has left the provider in the state these requests
    lead to and has not touched the files. *)
Theorem add_label_to_messages_ok svc message_ids label_id w w' :
  message_ids ≠ [] →
  add_label_to_messages svc message_ids label_id w = (Ok tt, w') →
  w_calls w' = w_calls w ++ batch_calls message_ids label_id 1000 ∧
  w_console w' = w_console w ++ batch_lines message_ids 1000 ∧
  w_remote w' = serve (svc_credentials svc) (w_remote w)
                  (batch_calls message_ids label_id 1000) ∧
  w_files w' = w_files w.
Proof.
  intros Hne Hrun. destruct message_ids as [|m ms]; [done|].
  apply label_chunks_ok in Hrun; [tauto|lia].
Qed.

(** [C7] The requests of a run that returns partition the ids: the
    [ids] fields of the requests, concatenated, are [message_ids]; every
    request carries between 1 and 1000 ids, adds [label_id] and removes no
    label; there are [ceil (len / 1000)] requests. *)
Theorem add_label_to_messages_partition svc message_ids label_id w w' :
  add_label_to_messages svc message_ids label_id w = (Ok tt, w') →
  ∃ cs, w_calls w' = w_calls w ++
          ((λ c, MessagesBatchModify "me"
                   (PDict [("ids", PList c); ("addLabelIds", PList [label_id]);
                           ("removeLabelIds", PList [])])) <$> cs) ∧
    concat cs = message_ids ∧
    Forall (λ c, 0 < length c ≤ 1000) cs ∧
    length cs = (length message_ids + 999) `div` 1000.
Proof.
  intros Hrun. destruct (decide (message_ids = [])) as [->|Hne].
  - injection Hrun as <-. exists []. simpl. by rewrite app_nil_r.
  - destruct message_ids as [|m ms]; [done|].
    apply label_chunks_ok in Hrun as (Hc & _); [|lia].
    exists (chunks 1000 (m :: ms)). split; [done|].
    split; [apply concat_chunks; lia|].
    split; [apply chunks_bounds; lia|].
    rewrite chunks_length by lia. f_equal. lia.
Qed.

(** [C25] When [add_label_to_messages] raises, it is the provider's
    error for one of the requests: the chunks before it were sent and
    printed, the failing request is the last one in the log, and no later
    chunk was sent. *)
Theorem add_label_to_messages_abort svc message_ids label_id w e w' :
  add_label_to_messages svc message_ids label_id w = (Raise e, w') →
  ∃ k req,
    batch_calls message_ids label_id 1000 !! k = Some req ∧
    w_calls w' = w_calls w ++ take (S k) (batch_calls message_ids label_id 1000) ∧
    w_console w' = w_console w ++ take k (batch_lines message_ids 1000) ∧
    (gmail_execute (svc_credentials svc) req
       (serve (svc_credentials svc) (w_remote w)
          (take k (batch_calls message_ids label_id 1000)))).1 = inl e.
Proof.
  intros Hrun. destruct message_ids as [|m ms]; [done|].
  pose proof (label_chunks_spec svc (m :: ms) label_id 1000 w) as Hspec.
  unfold add_label_to_messages in Hrun. cbv zeta in Hrun. rewrite Hrun in Hspec.
  destruct Hspec as (k & _ & Hc & Hl & _ & _ & _ & _ & e' & req & [= <-] & Hreq & He); [lia|].
  by exists k, req.
Qed.

(** [add_label_to_messages] has no path that runs out of fuel: its
    loop goes through a list. *)
Theorem add_label_to_messages_total svc message_ids label_id w :
  (add_label_to_messages svc message_ids label_id w).1 ≠ OutOfFuel.
Proof.
  destruct message_ids as [|m ms]; [done|].
  unfold add_label_to_messages, label_chunks. cbv zeta.
  rewrite py_range_pos, lift_bind by lia.
  apply for_each_fuel. intros. apply label_chunk_fuel.
Qed.

(** With no ids, nothing is sent and one line is printed. *)
Lemma add_label_to_messages_empty svc label_id w :
  add_label_to_messages svc [] label_id w = (Ok tt, put_line NoMessagesToLabel w).
Proof. done. Qed.

(** A zero chunk size is an error of [range], before any request. *)
Lemma label_chunks_zero svc message_ids label_id w :
  label_chunks svc message_ids label_id 0 w =
  (Raise (ValueError "range() arg 3 must not be zero"), w).
Proof. done. Qed.

End batch_theorems.

(** ** The sizes of the chunks *)

Section sizes.
Context {A : Type}.
Implicit Types (l : list A) (n : nat).

(** [len / n] full chunks, then the remainder if there is one. *)
Lemma chunks_sizes n l :
  0 < n →
  length <$> chunks n l =
  replicate (length l `div` n) n ++
  (if decide (length l `mod` n = 0) then [] else [length l `mod` n]).
Proof.
  intros Hn. remember (length l `div` n) as q eqn:Hq.
  revert l Hq. induction q as [|q IH]; intros l Hq.
  - symmetry in Hq. apply Nat.div_small_iff in Hq; [|lia].
    rewrite Nat.mod_small by done. destruct l as [|x l]; [done|].
    rewrite chunks_cons by done. rewrite drop_ge, take_ge by lia.
    rewrite decide_False by (simpl; lia). done.
  - assert (n ≤ length l) as Hge.
    { destruct (decide (n ≤ length l)); [done|].
      rewrite Nat.div_small in Hq by lia. done. }
    rewrite chunks_unfold; [|done|by intros ->; simpl in Hge; lia].
    rewrite fmap_cons, length_take, (IH (drop n l)).
    + rewrite length_drop. simpl.
      replace (length l `min`  n) with n by lia.
      replace (n `min` length l) with n by lia.
      replace ((length l - n) `mod` n) with (length l `mod` n); [done|].
      rewrite <-(Nat.Div0.mod_add (length l - n) 1 n). f_equal. lia.
    + rewrite length_drop.
      assert (length l = (length l - n) + 1 * n) as Hl by lia.
      rewrite Hl, Nat.div_add in Hq by lia. lia.
Qed.

End sizes.

(** ** The test scenarios of the specification *)

(** 2500 ids: three requests, of 1000, 1000 and 500 ids. *)
Definition ids_of (req : request) : list pyval :=
  match req with
  | MessagesBatchModify _ (PDict (("ids", PList c) :: _)) => c
  | _ => []
  end.

Example batch_2500 :
  let r := add_label_to_messages (Service (Credentials None None None []))
             (ids 2500) (PStr "Label_1") (init_world (accept 3)) in
  r.1 = Ok tt ∧
  (length ∘ ids_of) <$> w_calls r.2 = [1000; 1000; 500] ∧
  w_console r.2 = [LabeledBatch 1000; LabeledBatch 1000; LabeledBatch 500] ∧
  answers (w_remote r.2) = [].
Proof. vm_compute. done. Qed.

Lemma add_label_to_messages_ok_witness :
  let svc := Service (Credentials None None None []) in
  let w := init_world (accept 2) in
  let w' := (add_label_to_messages svc (ids 1500) (PStr "L") w).2 in
  w_calls w' = w_calls w ++ batch_calls (ids 1500) (PStr "L") 1000 ∧
  w_console w' = w_console w ++ batch_lines (ids 1500) 1000 ∧
  w_remote w' = serve (svc_credentials svc) (w_remote w)
                  (batch_calls (ids 1500) (PStr "L") 1000) ∧
  w_files w' = w_files w.
Proof.
  intros svc w w'.
  apply (add_label_to_messages_ok svc (ids 1500) (PStr "L") w w'); [|by vm_compute].
  vm_compute. discriminate.
Defined.

Lemma add_label_to_messages_partition_witness :
  let svc := Service (Credentials None None None []) in
  let w := init_world (accept 2) in
  let w' := (add_label_to_messages svc (ids 1500) (PStr "L") w).2 in
  ∃ cs, w_calls w' = w_calls w ++
          ((λ c, MessagesBatchModify "me"
                   (PDict [("ids", PList c); ("addLabelIds", PList [PStr "L"]);
                           ("removeLabelIds", PList [])])) <$> cs) ∧
    concat cs = ids 1500 ∧
    Forall (λ c, 0 < length c ≤ 1000) cs ∧
    length cs = (length (ids 1500) + 999) `div` 1000.
Proof.
  intros svc w w'.
  apply (add_label_to_messages_partition svc (ids 1500) (PStr "L") w w').
  by vm_compute.
Defined.

(** The second of three chunks is refused: two requests sent, one line
    printed, the third chunk never sent. *)
Lemma add_label_to_messages_abort_witness :
  let svc := Service (Credentials None None None []) in
  let w := init_world (Script [inr (PStr ""); inl (HttpError 500)]) in
  let w' := (add_label_to_messages svc (ids 2500) (PStr "L") w).2 in
  ∃ k req,
    batch_calls (ids 2500) (PStr "L") 1000 !! k = Some req ∧
    w_calls w' = w_calls w ++ take (S k) (batch_calls (ids 2500) (PStr "L") 1000) ∧
    w_console w' = w_console w ++ take k (batch_lines (ids 2500) 1000) ∧
    (gmail_execute (svc_credentials svc) req
       (serve (svc_credentials svc) (w_remote w)
          (take k (batch_calls (ids 2500) (PStr "L") 1000)))).1 = inl (HttpError 500).
Proof.
  intros svc w w'.
  apply (add_label_to_messages_abort svc (ids 2500) (PStr "L") w (HttpError 500) w').
  by vm_compute.
Defined.

(** ** The requests of a run *)

(** The function keeps every frame of the batch requests. *)
Lemma add_label_to_messages_frame `{GmailApi P} (R : relation (world P))
    `{!Frame is_batch_request is_batch_line R} svc message_ids label_id :
  preserves R (add_label_to_messages (P:=P) svc message_ids label_id).
Proof. unfold add_label_to_messages, label_chunks, label_chunk. frame. Qed.

(** Whatever it returns or raises, the function sends batch requests
    only and leaves the files alone. *)
Lemma add_label_to_messages_sends `{GmailApi P} svc message_ids label_id :
  preserves (sends is_batch_request) (add_label_to_messages (P:=P) svc message_ids label_id).
Proof. apply add_label_to_messages_frame; tc_solve. Qed.

#[export] Hint Resolve add_label_to_messages_frame : prog.

(** The function returns or raises: the loop runs once per chunk. *)
Lemma total_add_label_to_messages `{GmailApi P} svc message_ids label_id :
  total (add_label_to_messages (P:=P) svc message_ids label_id).
Proof. unfold add_label_to_messages, label_chunks, label_chunk. totality. Qed.

#[export] Hint Resolve total_add_label_to_messages : prog.

(** ** A provider that accepts the requests *)

Section batch_accepted.
Context {P : Type} `{GmailApi P}.
Implicit Types (svc : service) (message_ids chunk : list pyval) (label_id : pyval).
Implicit Types (w : world P).

(** The loop returns when the provider accepts the requests of the
    reference. *)
Lemma label_chunks_accepted svc message_ids label_id chunk_size w :
  0 < chunk_size →
  accepts (svc_credentials svc) (w_remote w)
    (batch_calls message_ids label_id chunk_size) = true →
  ∃ w', label_chunks svc message_ids label_id chunk_size w = (Ok tt, w').
Proof.
  intros Hn Hacc.
  pose proof (label_chunks_spec svc message_ids label_id chunk_size w Hn) as Hspec.
  destruct (label_chunks _ _ _ _ _) as [[[]|e|] w']; [by eauto|exfalso..];
    destruct Hspec as (k & _ & _ & _ & _ & _ & _ & _ & e' & req & _ & Hreq & Herr);
    destruct (accepts_lookup _ _ _ _ _ Hacc Hreq) as [v Hv]; congruence.
Qed.

(** When the provider accepts the requests, one per chunk of 1000
    ids, [add_label_to_messages] returns: it sends them all, and prints a
    line for each. *)
Theorem add_label_to_messages_accepted svc message_ids label_id w :
  accepts (svc_credentials svc) (w_remote w) (batch_calls message_ids label_id 1000) = true →
  ∃ w', add_label_to_messages svc message_ids label_id w = (Ok tt, w') ∧
    length (w_calls w') = length (w_calls w) + (length message_ids + 999) `div` 1000.
Proof.
  intros Hacc. destruct message_ids as [|m ms].
  { eexists. split; [done|]. simpl. lia. }
  destruct (label_chunks_accepted svc (m :: ms) label_id 1000 w) as [w' Hrun]; [lia|done|].
  exists w'. split; [done|].
  apply label_chunks_ok in Hrun as (-> & _); [|lia].
  rewrite length_app, batch_calls_length, chunks_length by lia. do 2 f_equal. lia.
Qed.

End batch_accepted.

(** ** A provider that refuses a request *)

Section batch_refused.
Context {P : Type} `{GmailApi P}.
Implicit Types (svc : service) (message_ids chunk : list pyval) (label_id : pyval).
Implicit Types (w : world P) (k : nat).

(** The loop stops at the first request the provider refuses. *)
Lemma label_chunks_refused svc message_ids label_id chunk_size w k req e :
  0 < chunk_size →
  batch_calls message_ids label_id chunk_size !! k = Some req →
  accepts (svc_credentials svc) (w_remote w)
    (take k (batch_calls message_ids label_id chunk_size)) = true →
  (gmail_execute (svc_credentials svc) req
     (serve (svc_credentials svc) (w_remote w)
        (take k (batch_calls message_ids label_id chunk_size)))).1 = inl e →
  ∃ w', label_chunks svc message_ids label_id chunk_size w = (Raise e, w') ∧
    batch_stopped svc message_ids label_id chunk_size w k (Raise e) w'.
Proof.
  intros Hn Hreq Hacc He.
  pose proof (lookup_lt_Some _ _ _ Hreq) as Hk. rewrite batch_calls_length in Hk.
  pose proof (label_chunks_spec svc message_ids label_id chunk_size w Hn) as Hspec.
  destruct (label_chunks _ _ _ _ _) as [[[]|e'|] w'].
  - destruct Hspec as (_ & _ & _ & _ & _ & Hall). cbv zeta in Hall.
    by destruct (accepts_not_refused _ _ _ _ _ _ _ Hall Hk Hreq He).
  - destruct Hspec as (k' & Hk' & Hstop). exists w'.
    pose proof Hstop as (_ & _ & _ & _ & _ & Hacc' & e1 & req' & [= <-] & Hreq' & He').
    destruct (Nat.lt_total k k') as [Hlt|[->|Hlt]].
    + by destruct (accepts_not_refused _ _ _ _ _ _ _ Hacc' Hlt Hreq He).
    + cbv zeta in Hreq', He'. rewrite Hreq in Hreq'. injection Hreq' as <-.
      rewrite He in He'. by injection He' as <-.
    + by destruct (accepts_not_refused _ _ _ _ _ _ _ Hacc Hlt Hreq' He').
  - by destruct Hspec as (k' & _ & _ & _ & _ & _ & _ & _ & e1 & req' & [=] & _).
Qed.

(** [C26] The function stops at the first request the provider refuses:
    when the provider accepts the requests for the first [k] chunks and
    answers the next one with an error, the function raises this error
    after [k + 1] requests and [k] lines, and the provider is left as
    these requests have made it: the chunks sent before stay applied, the
    chunks after are never sent. *)
Theorem add_label_to_messages_refused svc message_ids label_id w k req e :
  batch_calls message_ids label_id 1000 !! k = Some req →
  accepts (svc_credentials svc) (w_remote w)
    (take k (batch_calls message_ids label_id 1000)) = true →
  (gmail_execute (svc_credentials svc) req
     (serve (svc_credentials svc) (w_remote w)
        (take k (batch_calls message_ids label_id 1000)))).1 = inl e →
  ∃ w', add_label_to_messages svc message_ids label_id w = (Raise e, w') ∧
    w_calls w' = w_calls w ++ take (S k) (batch_calls message_ids label_id 1000) ∧
    w_console w' = w_console w ++ take k (batch_lines message_ids 1000) ∧
    w_remote w' = serve (svc_credentials svc) (w_remote w)
                    (take (S k) (batch_calls message_ids label_id 1000)).
Proof.
  intros Hreq Hacc He. destruct message_ids as [|m ms]; [done|].
  destruct (label_chunks_refused svc (m :: ms) label_id 1000 w k req e)
    as (w' & Hrun & Hc & Hl & Hr & _); [lia|done..|].
  by exists w'.
Qed.

End batch_refused.

(** The second of three chunks is refused: the function raises the
    error of the provider after two requests and one line. *)
Lemma add_label_to_messages_refused_witness :
  let svc := Service (Credentials None None None []) in
  let w := init_world (Script [inr (PStr ""); inl (HttpError 403)]) in
  ∃ w', add_label_to_messages svc (ids 2500) (PStr "L") w = (Raise (HttpError 403), w') ∧
    w_calls w' = w_calls w ++ take 2 (batch_calls (ids 2500) (PStr "L") 1000) ∧
    w_console w' = w_console w ++ take 1 (batch_lines (ids 2500) 1000) ∧
    w_remote w' = serve (svc_credentials svc) (w_remote w)
                    (take 2 (batch_calls (ids 2500) (PStr "L") 1000)).
Proof.
  intros svc w.
  eapply (add_label_to_messages_refused svc (ids 2500) (PStr "L") w 1).
  - vm_compute. reflexivity.
  - by vm_compute.
  - by vm_compute.
Defined.

(** ** The function against the reference mailbox *)

Section batch_mailbox.
Implicit Types (svc : service) (c : credentials) (w : world mailbox) (mb : mailbox).
Implicit Types (l : string) (ids : list string).

(** The requests for chunks of ids, as the script builds them. *)
Definition chunk_requests l (cs : list (list string)) : list request :=
  (λ chunk, MessagesBatchModify "me" (batch_body (PStr <$> chunk) (PStr l))) <$> cs.

Lemma batch_calls_strs ids l n :
  batch_calls (PStr <$> ids) (PStr l) n = chunk_requests l (chunks n ids).
Proof.
  unfold batch_calls, chunk_requests. by rewrite chunks_fmap, <-list_fmap_compose.
Qed.

(** The mailbox accepts the requests for chunks of 1 to 1000 ids and a
    label it has, and labels the messages of all the chunks. *)
Lemma serve_chunk_requests c l cs mb :
  authorized c mb = inr tt → l ∈ (mb_labels mb).*2 →
  Forall (λ chunk, 0 < length chunk ≤ 1000) cs →
  accepts c mb (chunk_requests l cs) = true ∧
  serve c mb (chunk_requests l cs) = apply_label l (concat cs) mb.
Proof.
  intros Ha Hl Hcs. revert mb Ha Hl.
  induction Hcs as [|chunk cs Hchunk _ IH]; intros mb Ha Hl.
  { by rewrite apply_label_nil. }
  unfold chunk_requests. rewrite fmap_cons, serve_cons. cbn [accepts].
  unfold batch_body. rewrite (batch_modify_add c l chunk mb Ha Hl Hchunk).
  destruct (IH (apply_label l chunk mb)) as [Hacc Hserve]; [done..|].
  split; [done|]. cbn [snd concat]. by rewrite <-apply_label_app.
Qed.

(** The lines the function prints for a list of ids. *)
Definition label_lines ids : list line :=
  match ids with
  | [] => [NoMessagesToLabel]
  | _ => (λ chunk, LabeledBatch (length chunk)) <$> chunks 1000 ids
  end.

Lemma batch_lines_strs ids n :
  batch_lines (PStr <$> ids) n = (λ chunk, LabeledBatch (length chunk)) <$> chunks n ids.
Proof.
  unfold batch_lines. rewrite chunks_fmap, <-list_fmap_compose.
  apply list_fmap_ext. intros _ chunk _. simpl. by rewrite length_fmap.
Qed.

(** With a credential the mailbox accepts and a label it has, the
    function returns, and the messages with the ids carry the label. *)
Lemma add_label_to_messages_apply svc ids l w :
  authorized (svc_credentials svc) (w_remote w) = inr tt →
  l ∈ (mb_labels (w_remote w)).*2 →
  ∃ w', add_label_to_messages svc (PStr <$> ids) (PStr l) w = (Ok tt, w') ∧
    w_remote w' = apply_label l ids (w_remote w) ∧
    w_console w' = w_console w ++ label_lines ids ∧
    sends is_batch_request w w' ∧
    w_calls w' = w_calls w ++ chunk_requests l (chunks 1000 ids).
Proof.
  intros Ha Hl.
  pose proof (add_label_to_messages_sends svc (PStr <$> ids) (PStr l) w) as Hs.
  destruct ids as [|i ids].
  { eexists. split; [done|]. split_and!; [|done..|by rewrite app_nil_r].
    simpl. by rewrite apply_label_nil. }
  destruct (serve_chunk_requests (svc_credentials svc) l (chunks 1000 (i :: ids))
              (w_remote w) Ha Hl) as [Hacc Hserve]; [apply chunks_bounds; lia|].
  rewrite concat_chunks in Hserve by lia. rewrite <-batch_calls_strs in Hacc, Hserve.
  destruct (label_chunks_accepted svc _ _ 1000 w ltac:(lia) Hacc) as [w' Hrun].
  destruct (label_chunks_ok svc _ _ 1000 w w' ltac:(lia) Hrun) as (Hcalls & Hc & Hr & _).
  change (label_chunks svc (PStr <$> i :: ids) (PStr l) 1000)
    with (add_label_to_messages svc (PStr <$> i :: ids) (PStr l)) in Hrun.
  rewrite Hrun in Hs. exists w'.
  by rewrite Hr, Hserve, Hc, Hcalls, batch_lines_strs, batch_calls_strs.
Qed.

End batch_mailbox.

Lemma add_label_to_messages_accepted_witness :
  ∃ w', add_label_to_messages sample_service [PStr "m1"; PStr "m3"] (PStr "Label_1")
          (init_world sample_mailbox) = (Ok tt, w') ∧
    length (w_calls w') = length (w_calls (init_world sample_mailbox)) + (2 + 999) `div` 1000.
Proof.
  apply (add_label_to_messages_accepted sample_service [PStr "m1"; PStr "m3"]
           (PStr "Label_1") (init_world sample_mailbox)).
  by vm_compute.
Defined.

(** ** The exceptions of the function *)

(** What the function raises is an answer of the provider. *)
Lemma add_label_to_messages_raises `{GmailApi P} svc message_ids label_id (w : world P) e w' :
  add_label_to_messages svc message_ids label_id w = (Raise e, w') →
  provider_error (svc_credentials svc) e.
Proof.
  destruct message_ids as [|m ms]; [done|]. intros Hrun.
  pose proof (label_chunks_spec svc (m :: ms) label_id 1000 w ltac:(lia)) as Hspec.
  unfold add_label_to_messages in Hrun. cbv zeta in Hrun. rewrite Hrun in Hspec.
  destruct Hspec as (k & _ & _ & _ & _ & _ & _ & _ & e' & req & [= <-] & _ & Herr).
  by eexists _, _.
Qed.

(** ** The number and the size of the requests *)

Section batch_bound.
Context {P : Type} `{GmailApi P}.
Implicit Types (svc : service) (message_ids : list pyval) (label_id : pyval) (w : world P).

(** Whatever the provider answers, the requests sent are the first
    requests of the reference: no chunk is skipped or sent twice. *)
Lemma add_label_to_messages_requests svc message_ids label_id w :
  ∃ k, w_calls (add_label_to_messages svc message_ids label_id w).2
       = w_calls w ++ take k (batch_calls message_ids label_id 1000).
Proof.
  destruct message_ids as [|m ms]; [exists 0; by rewrite app_nil_r|].
  pose proof (label_chunks_spec svc (m :: ms) label_id 1000 w ltac:(lia)) as Hspec.
  unfold add_label_to_messages. cbv zeta.
  destruct (label_chunks _ _ _ _ _) as [[[]|e|] w'];
    [destruct Hspec as (Hc & _)|destruct Hspec as (k & _ & Hc & _)..]; by eauto.
Qed.

(** Every request of the reference carries between 1 and [n] ids. *)
Lemma batch_calls_within message_ids label_id n :
  0 < n → forallb (within 1 n) (batch_calls message_ids label_id n) = true.
Proof.
  intros Hn. apply forallb_fmap_Forall.
  eapply Forall_impl; [by apply chunks_bounds|]. intros chunk Hchunk. cbv beta in Hchunk.
  unfold within, batch_size, batch_body.
  change (dict_lookup _ "ids") with (Some (PList chunk)). cbv iota beta.
  apply bool_decide_eq_true. lia.
Qed.

(** Whatever the provider answers, the function sends at most one
    request per chunk, each a batch request of 1 to 1000 ids. *)
Lemma add_label_to_messages_emits svc message_ids label_id :
  emits (P:=P) (at_most (within 1 1000) ((length message_ids + 999) `div` 1000))
    (add_label_to_messages svc message_ids label_id).
Proof.
  intros w. destruct (add_label_to_messages_requests svc message_ids label_id w) as [k Hk].
  eexists. split; [done|].
  replace ((length message_ids + 999) `div` 1000)
    with (length (batch_calls message_ids label_id 1000)).
  - apply at_most_take, batch_calls_within. lia.
  - unfold batch_calls. rewrite length_fmap, chunks_length by lia. f_equal. lia.
Qed.

End batch_bound.
