(* ===== verification/Labels.v ===== *)
(** * Labels: get_or_create_label (src/label_rejections.py, lines 39-61)

    The function lists the labels of the mailbox, scans the list for the
    first label whose name is [label_name] up to case, and returns its
    id; when no label matches it creates one and returns the new id.

    The code works on decoded JSON.  [resolve] is the same lookup on
    typed entries (name, id); the theorems relate the two on responses
    that have the documented shape, and say what the code raises on
    responses that do not. *)

From stdpp Require Import base tactics option list strings gmap.
From S2P Require Import Prelude PyData World Mock Mailbox.

(** ** The program *)

Section labels.
Context {P : Type} `{GmailApi P}.
Implicit Types (svc : service) (label_name : string) (w : world P).

(** The loop over the labels (lines 44-47); [None] when it falls through. *)
Fixpoint find_label (labels : list pyval) label_name : prog (world P) (option pyval) :=
  match labels with
  | [] => mret None
  | label :: rest =>
      name ← lift (py_getitem label "name");
      lname ← lift (py_lower name);
      if decide (lname = lower label_name) then
        id ← lift (py_getitem label "id");
        print (FoundExistingLabel label_name id);;
        id' ← lift (py_getitem label "id");
        mret (Some id')
      else find_label rest label_name
  end.

(** The body of the create request (lines 50-54). *)
Definition label_body label_name : pyval :=
  PDict [("name", PStr label_name);
         ("labelListVisibility", PStr "labelShow");
         ("messageListVisibility", PStr "show")].

(** The function (lines 39-61). *)
Definition get_or_create_label svc label_name : prog (world P) pyval :=
  results ← execute svc (LabelsList "me");
  labels ← lift (py_get results "labels" (PList []));
  items ← lift (py_iter labels);
  found ← find_label items label_name;
  match found with
  | Some id => mret id
  | None =>
      created_label ← execute svc (LabelsCreate "me" (label_body label_name));
      id ← lift (py_getitem created_label "id");
      print (CreatedLabel label_name id);;
      lift (py_getitem created_label "id")
  end.

End labels.

(** ** The typed specification *)

(** A label resource as the pair of its name and id. *)
Definition entry_of (v : pyval) : option (string * string) :=
  match v with
  | PDict d =>
      match dict_lookup d "name", dict_lookup d "id" with
      | Some (PStr n), Some (PStr i) => Some (n, i)
      | _, _ => None
      end
  | _ => None
  end.

(** The labels of a listing. *)
Definition entries (results : pyval) : list (string * string) :=
  match py_get results "labels" (PList []) with
  | Ok (PList vs) => omap entry_of vs
  | _ => []
  end.

(** ** Lemmas *)

Lemma entry_of_label_ok v : label_ok v = true ↔ is_Some (entry_of v).
Proof.
  destruct v as [| | | | |d]; simpl; try (split; [done|by intros []]).
  destruct (dict_lookup d "name") as [[| | |n| |]|],
    (dict_lookup d "id") as [[| | |i| |]|];
    split; first [done | by intros [] | eauto].
Qed.

Lemma entry_of_Some v n i :
  entry_of v = Some (n, i) →
  py_getitem v "name" = Ok (PStr n) ∧ py_getitem v "id" = Ok (PStr i).
Proof.
  destruct v as [| | | | |d]; simpl; try done.
  destruct (dict_lookup d "name") as [[| | |n'| |]|]; try done.
  destruct (dict_lookup d "id") as [[| | |i'| |]|]; try done.
  by intros [= -> ->].
Qed.

Section label_lemmas.
Context {P : Type} `{GmailApi P}.
Implicit Types (svc : service) (label_name : string) (w : world P).

(** On well-formed labels the loop is [resolve]: it returns the id of
    the first match and prints its line, or falls through silently. *)
Lemma find_label_resolve (vs : list pyval) label_name w :
  forallb label_ok vs = true →
  find_label vs label_name w =
  match resolve (omap entry_of vs) label_name with
  | Some i => (Ok (Some (PStr i)), put_line (FoundExistingLabel label_name (PStr i)) w)
  | None => (Ok None, w)
  end.
Proof.
  induction vs as [|v vs IH]; [done|]. simpl.
  intros [Hv Hvs]%andb_prop.
  apply entry_of_label_ok in Hv as [[n i] Hv]. rewrite Hv. simpl.
  apply entry_of_Some in Hv as [Hn Hi].
  rewrite resolve_cons, bind_run. unfold lift at 1. rewrite Hn.
  rewrite bind_run. unfold lift at 1. simpl.
  unfold same_name. destruct (decide (lower n = lower label_name)); [|by apply IH].
  rewrite bind_run. unfold lift at 1. rewrite Hi.
  by rewrite bind_run, print_run, bind_run.
Qed.

(** What reading one value as a label gives, for the specification of
    the loop on values of any shape: nothing when its name is another,
    its id when it is the name looked for, and the exception of the
    first read that fails. *)
Definition check_label (label : pyval) label_name : result (option pyval) :=
  name ← py_getitem label "name";
  lname ← py_lower name;
  if decide (lname = lower label_name) then Some <$> py_getitem label "id" else Ok None.

(** The exceptions of a label that cannot be read. *)
Lemma check_label_raises label label_name e :
  check_label label label_name = Raise e →
  e = KeyError "name" ∨ e = KeyError "id" ∨ e = AttributeError "lower" ∨
  e = TypeError "indices must be integers" ∨ e = TypeError "object is not subscriptable".
Proof.
  unfold check_label. destruct label as [| | | | |d]; try (intros [= <-]; tauto).
  simpl. destruct (dict_lookup d "name") as [[| | |n| |]|]; try (intros [= <-]; tauto).
  simpl. case_decide; [|done].
  destruct (dict_lookup d "id"); [done|]. intros [= <-]. tauto.
Qed.

(** The loop on any list of values: the labels whose name is another
    are passed over in silence, and the first label that is the one
    looked for, or that cannot be read, decides. *)
Lemma find_label_passes (vs1 vs2 : list pyval) label_name w :
  Forall (λ v, check_label v label_name = Ok None) vs1 →
  find_label (vs1 ++ vs2) label_name w = find_label vs2 label_name w.
Proof.
  induction 1 as [|v vs1 Hv _ IH]; [done|]. simpl. rewrite lift_bind.
  unfold check_label in Hv. destruct (py_getitem v "name") as [name| |]; [|done..].
  rewrite lift_bind. simpl in Hv. destruct (py_lower name) as [lname| |]; [|done..].
  simpl in Hv. case_decide; [|done]. by destruct (py_getitem v "id").
Qed.

Lemma find_label_stops (v : pyval) (vs : list pyval) label_name e w :
  check_label v label_name = Raise e → find_label (v :: vs) label_name w = (Raise e, w).
Proof.
  intros Hv. simpl. rewrite lift_bind.
  unfold check_label, mbind, result_mbind, result_bind, fmap, result_fmap, result_map in Hv.
  destruct (py_getitem v "name") as [name| |]; [|by simplify_eq..].
  rewrite lift_bind. destruct (py_lower name) as [lname| |]; [|by simplify_eq..].
  case_decide; [|done]. rewrite lift_bind.
  destruct (py_getitem v "id"); simpl in Hv; by simplify_eq.
Qed.

(** The loop makes no request. *)
Lemma find_label_quiet (vs : list pyval) label_name w :
  quiet w (find_label vs label_name w).2.
Proof.
  induction vs as [|v vs IH]; [done|]. simpl.
  rewrite bind_run. unfold lift at 1.
  destruct (py_getitem v "name") as [name| |]; [|done..].
  rewrite bind_run. unfold lift at 1.
  destruct (py_lower name) as [lname| |]; [|done..].
  case_decide; [|apply IH].
  rewrite bind_run. unfold lift at 1.
  destruct (py_getitem v "id") as [id| |]; [|done..].
  by rewrite bind_run, print_run, bind_run.
Qed.

End label_lemmas.

(** ** The specification of the function *)

Section label_spec.
Context {P : Type} `{GmailApi P}.
Implicit Types (svc : service) (label_name : string) (w : world P).

(** What the function promises, on typed entries: list the labels; if
    one has the name up to case, answer the id of the first such and say
    so; otherwise create a label with the name, shown in both lists, and
    answer the id the provider assigned.  A provider error ends the run
    with that error. *)
Definition resolve_label svc label_name w : result pyval * world P :=
  match execute svc (LabelsList "me") w with
  | (Ok results, w1) =>
      match resolve (entries results) label_name with
      | Some i => (Ok (PStr i), put_line (FoundExistingLabel label_name (PStr i)) w1)
      | None =>
          match execute svc (LabelsCreate "me" (label_body label_name)) w1 with
          | (Ok created, w2) =>
              match entry_of created with
              | Some (_, i) => (Ok (PStr i), put_line (CreatedLabel label_name (PStr i)) w2)
              | None => (Raise (KeyError "id"), w2)
              end
          | (r, w2) => (r, w2)
          end
      end
  | (r, w1) => (r, w1)
  end.

(** The requests of a run of the specification. *)
Lemma resolve_label_calls svc label_name w :
  let w' := (resolve_label svc label_name w).2 in
  w_calls w' = w_calls w ++ [LabelsList "me"] ∨
  w_calls w' = w_calls w ++ [LabelsList "me"; LabelsCreate "me" (label_body label_name)].
Proof.
  cbv zeta. unfold resolve_label.
  pose proof (execute_calls svc (LabelsList "me") w) as Hc1.
  destruct (execute svc (LabelsList "me") w) as [[results|e|] w1]; simpl in *; auto.
  destruct (resolve _ _); simpl; [auto|].
  pose proof (execute_calls svc (LabelsCreate "me" (label_body label_name)) w1) as Hc2.
  destruct (execute svc (LabelsCreate _ _) w1) as [[created|e|] w2]; simpl in *;
    rewrite ?Hc2, ?Hc1, <-?app_assoc; auto.
  destruct (entry_of created) as [[]|]; simpl; rewrite Hc2, Hc1, <-app_assoc; auto.
Qed.

Context `{!GmailSchema P}.

(** After the listing, on answers of the documented shape: the scan of
    the decoded JSON finds what the typed lookup finds. *)
Lemma get_or_create_label_listing svc label_name w results w1 :
  execute svc (LabelsList "me") w = (Ok results, w1) →
  get_or_create_label svc label_name w =
  match resolve (entries results) label_name with
  | Some i => (Ok (PStr i), put_line (FoundExistingLabel label_name (PStr i)) w1)
  | None =>
      match execute svc (LabelsCreate "me" (label_body label_name)) w1 with
      | (Ok created, w2) =>
          match entry_of created with
          | Some (_, i) => (Ok (PStr i), put_line (CreatedLabel label_name (PStr i)) w2)
          | None => (Raise (KeyError "id"), w2)
          end
      | (r, w2) => (r, w2)
      end
  end.
Proof.
  intros E1. unfold get_or_create_label. rewrite bind_run, E1.
  apply execute_ok_schema in E1. simpl in E1.
  apply labels_list_ok_inv in E1 as (ls & Hget & Hls).
  unfold entries. rewrite Hget, lift_bind. simpl. rewrite lift_bind.
  rewrite bind_run, find_label_resolve by done.
  destruct (resolve _ _) as [i|]; [done|].
  rewrite bind_run.
  destruct (execute svc (LabelsCreate _ _) w1) as [[created|e|] w2] eqn:E2; [|done..].
  apply execute_ok_schema in E2. simpl in E2.
  apply entry_of_label_ok in E2 as [[n i] Hc]. rewrite Hc.
  apply entry_of_Some in Hc as [_ Hi].
  by rewrite lift_bind, Hi, bind_run, print_run.
Qed.

(** [C4] Refinement.  Against a provider whose answers have the
    documented shape, [get_or_create_label] is [resolve_label]: the scan
    of the decoded JSON finds what the typed lookup finds, and the
    outcome, the requests, the console and the provider state agree. *)
Theorem get_or_create_label_refines svc label_name w :
  get_or_create_label svc label_name w = resolve_label svc label_name w.
Proof.
  unfold resolve_label.
  destruct (execute svc (LabelsList "me") w) as [[results|e|] w1] eqn:E1;
    [by apply get_or_create_label_listing|unfold get_or_create_label..];
    by rewrite bind_run, E1.
Qed.

End label_spec.

(** ** Consequences, and the behaviour on malformed answers *)

Section label_theorems.
Context {P : Type} `{GmailApi P}.
Implicit Types (svc : service) (label_name : string) (w : world P).

(** The head of the function: the listing request and the decoding of
    its answer, up to the call of the loop. *)
Lemma get_or_create_label_listed svc label_name w results w1 vs :
  execute svc (LabelsList "me") w = (Ok results, w1) →
  py_get results "labels" (PList []) = Ok (PList vs) →
  get_or_create_label svc label_name w =
  match find_label vs label_name w1 with
  | (Ok (Some id), w2) => (Ok id, w2)
  | (Ok None, w2) =>
      (created_label ← execute svc (LabelsCreate "me" (label_body label_name));
       id ← lift (py_getitem created_label "id");
       print (CreatedLabel label_name id);;
       lift (py_getitem created_label "id")) w2
  | (Raise e, w2) => (Raise e, w2)
  | (OutOfFuel, w2) => (OutOfFuel, w2)
  end.
Proof.
  intros E1 Hget. unfold get_or_create_label.
  rewrite bind_run, E1, lift_bind, Hget. simpl. rewrite lift_bind, bind_run.
  by destruct (find_label vs label_name w1) as [[[id|]|e|] w2].
Qed.

(** [C23] Case-insensitive lookup.  When the listing is well formed and
    holds a label whose name is [label_name] up to case, the function
    returns the id of the first such label, prints the line that says so
    and sends no other request. *)
Theorem get_or_create_label_found svc label_name w results w1 i :
  execute svc (LabelsList "me") w = (Ok results, w1) →
  labels_list_ok results = true →
  resolve (entries results) label_name = Some i →
  get_or_create_label svc label_name w =
  (Ok (PStr i), put_line (FoundExistingLabel label_name (PStr i)) w1).
Proof.
  intros E1 (vs & Hget & Hvs)%labels_list_ok_inv Hres.
  rewrite (get_or_create_label_listed _ _ _ _ _ _ E1 Hget).
  unfold entries in Hres. rewrite Hget in Hres.
  by rewrite find_label_resolve, Hres.
Qed.

(** [C24] Creation.  When the listing is well formed and holds no label
    with the name up to case, the function sends one create request whose
    body has the name as given and both visibility flags set to shown,
    and returns the id of the label the provider answers with. *)
Theorem get_or_create_label_created svc label_name w results w1 created w2 n i :
  execute svc (LabelsList "me") w = (Ok results, w1) →
  labels_list_ok results = true →
  resolve (entries results) label_name = None →
  execute svc (LabelsCreate "me"
    (PDict [("name", PStr label_name); ("labelListVisibility", PStr "labelShow");
            ("messageListVisibility", PStr "show")])) w1 = (Ok created, w2) →
  entry_of created = Some (n, i) →
  get_or_create_label svc label_name w =
  (Ok (PStr i), put_line (CreatedLabel label_name (PStr i)) w2).
Proof.
  intros E1 (vs & Hget & Hvs)%labels_list_ok_inv Hres E2 [_ Hi]%entry_of_Some.
  rewrite (get_or_create_label_listed _ _ _ _ _ _ E1 Hget).
  unfold entries in Hres. rewrite Hget in Hres.
  rewrite find_label_resolve, Hres by done.
  unfold label_body. by rewrite bind_run, E2, lift_bind, Hi, bind_run, print_run.
Qed.

(** A label without a ["name"] stops the scan with [KeyError]:
    the function raises before it looks at the labels after it, and
    sends no create request. *)
Theorem get_or_create_label_keyerror svc label_name w results w1 d vs :
  execute svc (LabelsList "me") w = (Ok results, w1) →
  py_get results "labels" (PList []) = Ok (PList (PDict d :: vs)) →
  dict_lookup d "name" = None →
  get_or_create_label svc label_name w = (Raise (KeyError "name"), w1).
Proof.
  intros E1 Hget Hd.
  rewrite (get_or_create_label_listed _ _ _ _ _ _ E1 Hget).
  simpl. by rewrite lift_bind, Hd.
Qed.

(** [C36] Malformed answers.  Whatever the listing holds under
    ["labels"], a list, or a dict or a string through which the loop
    iterates as well: when the loop meets a value it cannot read as a
    label (it has no ["name"], its name is not a string, it is not a
    dict, or it has the name looked for and no ["id"]) after values
    whose names are other names, the function raises the exception of
    that read, one of five, without a look at the values after it,
    without printing and without a create request. *)
Theorem get_or_create_label_malformed svc label_name w results w1 labels vs1 v vs2 e :
  execute svc (LabelsList "me") w = (Ok results, w1) →
  py_get results "labels" (PList []) = Ok labels →
  py_iter labels = Ok (vs1 ++ v :: vs2) →
  Forall (λ u, check_label u label_name = Ok None) vs1 →
  check_label v label_name = Raise e →
  get_or_create_label svc label_name w = (Raise e, w1) ∧
  (e = KeyError "name" ∨ e = KeyError "id" ∨ e = AttributeError "lower" ∨
   e = TypeError "indices must be integers" ∨ e = TypeError "object is not subscriptable").
Proof.
  intros E1 Hget Hiter Hvs1 Hv. split; [|by eapply check_label_raises].
  unfold get_or_create_label.
  rewrite bind_run, E1, lift_bind, Hget, lift_bind, Hiter, bind_run.
  by rewrite (find_label_passes _ _ _ _ Hvs1), (find_label_stops _ _ _ _ _ Hv).
Qed.

Context `{!GmailSchema P}.

(** Against a provider whose answers have the documented shape, the
    line the function prints has a text: the id it formats is a
    string. *)
Lemma get_or_create_label_renders svc label_name :
  preserves (prints renders) (get_or_create_label svc label_name).
Proof.
  intros w. pose proof (execute_console svc (LabelsList "me") w) as Hc1.
  destruct (execute svc (LabelsList "me") w) as [[results|e|] w1] eqn:E1; cbn [snd] in Hc1;
    [|unfold get_or_create_label; rewrite bind_run, E1; by apply silent_prints..].
  rewrite (get_or_create_label_listing _ _ _ _ _ E1).
  apply (transitivity (y:=w1)); [by apply silent_prints|].
  destruct (resolve _ _) as [i|]; [by exists [FoundExistingLabel label_name (PStr i)]|].
  pose proof (execute_console svc (LabelsCreate "me" (label_body label_name)) w1) as Hc2.
  destruct (execute svc (LabelsCreate _ _) w1) as [[created|e|] w2]; cbn [snd] in Hc2;
    [|by apply silent_prints..].
  destruct (entry_of created) as [[n i]|]; [|by apply silent_prints].
  exists [CreatedLabel label_name (PStr i)]. simpl. by rewrite Hc2.
Qed.

(** Against a provider whose answers have the documented shape,
    the function returns a string or raises an error the provider
    answered with; its own handling of the data raises nothing, and it
    does not run out of fuel. *)
Theorem get_or_create_label_typed svc label_name w :
  match (get_or_create_label svc label_name w).1 with
  | Ok v => ∃ i, v = PStr i
  | Raise e => ∃ req p, (gmail_execute (svc_credentials svc) req p).1 = inl e
  | OutOfFuel => False
  end.
Proof.
  destruct (execute svc (LabelsList "me") w) as [[results|e|] w1] eqn:E1.
  2,3: unfold get_or_create_label; rewrite bind_run, E1; simpl.
  2: { rewrite execute_run in E1. exists (LabelsList "me"), (w_remote w).
       destruct (gmail_execute _ _ _) as [[]]; by simplify_eq/=. }
  2: { by destruct (execute_fuel svc (LabelsList "me") w); rewrite E1. }
  rewrite (get_or_create_label_listing _ _ _ _ _ E1).
  destruct (resolve _ _) as [i|]; simpl; [eauto|].
  rewrite execute_run. simpl.
  destruct (gmail_execute _ (LabelsCreate _ _) _) as [[e|created] p2] eqn:E2; simpl.
  { exists (LabelsCreate "me" (label_body label_name)), (w_remote w1). by rewrite E2. }
  apply gmail_schema in E2. simpl in E2.
  apply entry_of_label_ok in E2 as [[n i] ->]. simpl. eauto.
Qed.

(** No duplicate.  The function sends the listing request and at
    most one create request, and it sends the create request exactly when
    the listing it got has no label with the name up to case. *)
Theorem get_or_create_label_calls svc label_name w results w1 :
  execute svc (LabelsList "me") w = (Ok results, w1) →
  w_calls (get_or_create_label svc label_name w).2 =
  w_calls w ++ LabelsList "me" ::
    match resolve (entries results) label_name with
    | Some _ => []
    | None => [LabelsCreate "me" (label_body label_name)]
    end.
Proof.
  intros E1. rewrite (get_or_create_label_listing _ _ _ _ _ E1).
  pose proof (execute_calls svc (LabelsList "me") w) as Hc1. rewrite E1 in Hc1.
  simpl in Hc1.
  destruct (resolve _ _) as [i|]; simpl; [done|].
  pose proof (execute_calls svc (LabelsCreate "me" (label_body label_name)) w1) as Hc2.
  destruct (execute svc (LabelsCreate _ _) w1) as [[created|e|] w2]; simpl in *;
    rewrite ?Hc2, ?Hc1, <-?app_assoc; try done.
  destruct (entry_of created) as [[]|]; simpl; by rewrite Hc2, Hc1, <-app_assoc.
Qed.

End label_theorems.

(** ** The test scenarios of the specification *)

Definition test_service : service := Service (Credentials (Some "t") None None []).

(** A label named "Rejections" answers a request for "rejections". *)
Example label_case_insensitive :
  let ls := label_list [("INBOX", "INBOX"); ("Rejections", "Label_7")] in
  let r := get_or_create_label test_service "rejections" (init_world (Script [inr ls])) in
  r.1 = Ok (PStr "Label_7") ∧ w_calls r.2 = [LabelsList "me"] ∧
  render <$> w_console r.2 = [Some "Found existing label 'rejections' with ID: Label_7"].
Proof. vm_compute. done. Qed.

(** A listing without the ["labels"] key is an empty listing. *)
Example label_created_on_empty :
  let r := get_or_create_label test_service "rejections"
             (init_world (Script [inr (PDict []); inr (label "rejections" "Label_1")])) in
  r.1 = Ok (PStr "Label_1") ∧
  w_calls r.2 = [LabelsList "me"; LabelsCreate "me" (label_body "rejections")] ∧
  render <$> w_console r.2 = [Some "Created label 'rejections' with ID: Label_1"].
Proof. vm_compute. done. Qed.

Lemma get_or_create_label_found_witness :
  let results := label_list [("INBOX", "INBOX"); ("Rejections", "Label_7")] in
  let w := init_world (Script [inr results]) in
  get_or_create_label test_service "rejections" w =
  (Ok (PStr "Label_7"),
   put_line (FoundExistingLabel "rejections" (PStr "Label_7"))
     (execute test_service (LabelsList "me") w).2).
Proof.
  intros results w.
  by apply (get_or_create_label_found test_service "rejections" w results
              (execute test_service (LabelsList "me") w).2 "Label_7").
Defined.

Lemma get_or_create_label_created_witness :
  let results := label_list [("INBOX", "INBOX")] in
  let created := label "rejections" "Label_1" in
  let w := init_world (Script [inr results; inr created]) in
  let w1 := (execute test_service (LabelsList "me") w).2 in
  let w2 := (execute test_service (LabelsCreate "me" (label_body "rejections")) w1).2 in
  get_or_create_label test_service "rejections" w =
  (Ok (PStr "Label_1"), put_line (CreatedLabel "rejections" (PStr "Label_1")) w2).
Proof.
  intros results created w w1 w2.
  by apply (get_or_create_label_created test_service "rejections" w results w1
              created w2 "rejections" "Label_1").
Defined.

Lemma get_or_create_label_keyerror_witness :
  let results := PDict [("labels", PList [PDict [("id", PStr "Label_3")]; label "rejections" "L"])] in
  let w := init_world (Script [inr results]) in
  get_or_create_label test_service "rejections" w =
  (Raise (KeyError "name"), (execute test_service (LabelsList "me") w).2).
Proof.
  intros results w.
  by apply (get_or_create_label_keyerror test_service "rejections" w results
              (execute test_service (LabelsList "me") w).2
              [("id", PStr "Label_3")] [label "rejections" "L"]).
Defined.

(** A listing whose second label is a string: the loop passes over the
    first label and raises at the second, before the label looked
    for. *)
Lemma get_or_create_label_malformed_witness :
  let results :=
    PDict [("labels", PList [label "INBOX" "INBOX"; PStr "junk"; label "rejections" "L"])] in
  let w := init_world (Script [inr results]) in
  get_or_create_label test_service "rejections" w =
  (Raise (TypeError "indices must be integers"), (execute test_service (LabelsList "me") w).2) ∧
  (TypeError "indices must be integers" = KeyError "name" ∨
   TypeError "indices must be integers" = KeyError "id" ∨
   TypeError "indices must be integers" = AttributeError "lower" ∨
   TypeError "indices must be integers" = TypeError "indices must be integers" ∨
   TypeError "indices must be integers" = TypeError "object is not subscriptable").
Proof.
  intros results w.
  apply (get_or_create_label_malformed test_service "rejections" w results
           (execute test_service (LabelsList "me") w).2
           (PList [label "INBOX" "INBOX"; PStr "junk"; label "rejections" "L"])
           [label "INBOX" "INBOX"] (PStr "junk") [label "rejections" "L"]);
    [done..|by repeat constructor|done].
Defined.

(** A listing whose ["labels"] is a dict: the loop iterates through its
    keys, which are strings, and raises at the first. *)
Example labels_dict :
  let results := PDict [("labels", PDict [("a", PNone)])] in
  (get_or_create_label test_service "rejections" (init_world (Script [inr results]))).1
  = Raise (TypeError "indices must be integers").
Proof. done. Qed.

(** The same runs against the reference mailbox, which respects the
    schema. *)
Lemma get_or_create_label_refines_witness :
  get_or_create_label sample_service "rejections" (init_world fresh_mailbox) =
  resolve_label sample_service "rejections" (init_world fresh_mailbox).
Proof.
  apply (get_or_create_label_refines sample_service "rejections" (init_world fresh_mailbox)).
Defined.

Lemma get_or_create_label_typed_witness :
  match (get_or_create_label sample_service "rejections" (init_world fresh_mailbox)).1 with
  | Ok v => ∃ i, v = PStr i
  | Raise e => ∃ req p, (gmail_execute (svc_credentials sample_service) req p).1 = inl e
  | OutOfFuel => False
  end.
Proof.
  apply (get_or_create_label_typed sample_service "rejections" (init_world fresh_mailbox)).
Defined.

Lemma get_or_create_label_calls_witness :
  let w := init_world sample_mailbox in
  let results := label_list (mb_labels sample_mailbox) in
  w_calls (get_or_create_label sample_service "rejections" w).2 =
  w_calls w ++ LabelsList "me" ::
    match resolve (entries results) "rejections" with
    | Some _ => []
    | None => [LabelsCreate "me" (label_body "rejections")]
    end.
Proof.
  intros w results.
  by apply (get_or_create_label_calls sample_service "rejections" w results
              (execute sample_service (LabelsList "me") w).2).
Defined.

(** ** The requests of a run *)

Section labels_frame.
Context {P : Type} `{GmailApi P}.
Context (R : relation (world P)) `{!Frame is_label_request is_label_line R}.

Lemma find_label_frame (vs : list pyval) label_name :
  preserves R (find_label (P:=P) vs label_name).
Proof. induction vs as [|v vs IH]; simpl; frame. Qed.

(** The function keeps every frame of the requests on labels. *)
Lemma get_or_create_label_frame svc label_name :
  preserves R (get_or_create_label (P:=P) svc label_name).
Proof. unfold get_or_create_label. pose proof find_label_frame. frame. Qed.

End labels_frame.

(** Whatever it returns or raises, the function sends requests on
    labels only and leaves the files alone. *)
Lemma get_or_create_label_sends `{GmailApi P} svc label_name :
  preserves (sends is_label_request) (get_or_create_label (P:=P) svc label_name).
Proof. apply get_or_create_label_frame; tc_solve. Qed.

#[export] Hint Resolve get_or_create_label_frame : prog.

(** ** Termination *)

Lemma total_find_label `{GmailApi P} (vs : list pyval) label_name :
  total (find_label (P:=P) vs label_name).
Proof. induction vs as [|v vs IH]; simpl; totality. Qed.

(** The function returns or raises: the loop is over a finite list. *)
Lemma total_get_or_create_label `{GmailApi P} svc label_name :
  total (get_or_create_label (P:=P) svc label_name).
Proof. unfold get_or_create_label. pose proof total_find_label. totality. Qed.

#[export] Hint Resolve total_get_or_create_label : prog.

(** ** The function against the reference mailbox *)

Lemma entries_label_list ls : entries (label_list ls) = ls.
Proof.
  unfold entries, label_list. simpl. induction ls as [|[n i] ls IH]; [done|].
  csimpl. by rewrite IH.
Qed.

(** The line the function prints: found, or created. *)
Definition label_line (label_name : string) (mb : mailbox) : line :=
  match resolve (mb_labels mb) label_name with
  | Some i => FoundExistingLabel label_name (PStr i)
  | None => CreatedLabel label_name (PStr (label_id (mb_next_label mb)))
  end.

(** With a credential the mailbox accepts, the function returns the id
    of the label with the name, which the mailbox has from then on:
    the one that was there, or a new one. *)
Lemma get_or_create_label_ensure svc label_name (w : world mailbox) :
  authorized (svc_credentials svc) (w_remote w) = inr tt →
  get_or_create_label svc label_name w =
  (Ok (PStr (ensure_label label_name (w_remote w)).1),
   put_line (label_line label_name (w_remote w))
     (set_remote (ensure_label label_name (w_remote w)).2
        (World (w_files w) (w_clock w) (w_remote w)
           (w_calls w ++ LabelsList "me" ::
              match resolve (mb_labels (w_remote w)) label_name with
              | Some _ => []
              | None => [LabelsCreate "me" (label_body label_name)]
              end) (w_console w)))).
Proof.
  intros Ha.
  erewrite get_or_create_label_listing;
    [|by rewrite execute_run, mailbox_execute_authorized].
  unfold labels_list, ensure_label, label_line. rewrite entries_label_list.
  destruct (resolve _ _) as [i|] eqn:E; [by destruct w|].
  rewrite execute_run. simpl w_remote.
  rewrite mailbox_execute_authorized by done.
  unfold labels_create, label_body.
  change (dict_lookup _ "name") with (Some (PStr label_name)). cbv iota beta.
  rewrite E. simpl.
  unfold put_line, set_remote, log_call. simpl. by rewrite <-app_assoc.
Qed.

(** ** The exceptions of the function *)

(** Against a provider whose answers have the documented shape, what
    the function raises is an answer of the provider. *)
Lemma get_or_create_label_raises `{GmailSchema P} svc label_name (w : world P) e w' :
  get_or_create_label svc label_name w = (Raise e, w') →
  provider_error (svc_credentials svc) e.
Proof.
  destruct (execute svc (LabelsList "me") w) as [[results|e1|] w1] eqn:E1.
  2,3: unfold get_or_create_label; rewrite bind_run, E1; intros [= <- _];
    by eapply execute_raise.
  rewrite (get_or_create_label_listing _ _ _ _ _ E1).
  destruct (resolve _ _) as [i|]; [done|].
  destruct (execute svc (LabelsCreate _ _) w1) as [[created|e2|] w2] eqn:E2;
    [|intros [= <- _]; by eapply execute_raise|done].
  apply execute_ok_schema in E2. simpl in E2.
  by apply entry_of_label_ok in E2 as [[n i] ->].
Qed.

(** [C19] Idempotence.  Against the reference mailbox with no label of
    the name, a first call creates exactly one label, with the name as
    given; a second call returns the same id, sends only the listing
    request and leaves the mailbox as the first call left it. *)
Theorem get_or_create_label_idempotent svc label_name (w : world mailbox) :
  authorized (svc_credentials svc) (w_remote w) = inr tt →
  resolve (mb_labels (w_remote w)) label_name = None →
  ∃ i w1 w2,
    get_or_create_label svc label_name w = (Ok (PStr i), w1) ∧
    get_or_create_label svc label_name w1 = (Ok (PStr i), w2) ∧
    mb_labels (w_remote w1) = mb_labels (w_remote w) ++ [(label_name, i)] ∧
    w_remote w2 = w_remote w1 ∧
    w_calls w2 = w_calls w ++ [LabelsList "me"; LabelsCreate "me" (label_body label_name);
                               LabelsList "me"].
Proof.
  intros Ha Hnone. eexists _, _, _. split; [by apply get_or_create_label_ensure|].
  set (w1 := put_line _ _).
  assert (w_remote w1 = (ensure_label label_name (w_remote w)).2) as Hr1 by done.
  pose proof (ensure_label_resolve label_name (w_remote w)) as Hres. rewrite <-Hr1 in Hres.
  rewrite get_or_create_label_ensure by by rewrite Hr1, ensure_label_authorized.
  rewrite (ensure_label_Some _ _ _ Hres), Hres. split; [done|].
  subst w1. simpl. rewrite ensure_label_labels, Hnone. simpl.
  unfold ensure_label. rewrite Hnone. simpl. by rewrite <-app_assoc.
Qed.

Lemma get_or_create_label_idempotent_witness :
  ∃ i w1 w2,
    get_or_create_label sample_service "rejections" (init_world fresh_mailbox)
      = (Ok (PStr i), w1) ∧
    get_or_create_label sample_service "rejections" w1 = (Ok (PStr i), w2) ∧
    mb_labels (w_remote w1) = mb_labels fresh_mailbox ++ [("rejections", i)] ∧
    w_remote w2 = w_remote w1 ∧
    w_calls w2 = [] ++ [LabelsList "me"; LabelsCreate "me" (label_body "rejections");
                        LabelsList "me"].
Proof.
  apply (get_or_create_label_idempotent sample_service "rejections"
           (init_world fresh_mailbox)); reflexivity.
Defined.

(** ** The number of requests *)

(** Whatever the provider answers and whatever the function returns or
    raises, it has sent the listing request and at most one create
    request, for the name as given. *)
Lemma get_or_create_label_requests `{GmailApi P} svc label_name :
  emits (P:=P)
    (λ new, new = [LabelsList "me"] ∨
            new = [LabelsList "me"; LabelsCreate "me" (label_body label_name)])
    (get_or_create_label svc label_name).
Proof.
  intros w. unfold get_or_create_label. rewrite bind_run.
  pose proof (execute_calls svc (LabelsList "me") w) as Hc1.
  destruct (execute svc (LabelsList "me") w) as [[results|e|] w1]; simpl in Hc1;
    [|by eauto..].
  rewrite lift_bind. destruct (py_get _ _ _) as [labels| |]; [|by eauto..].
  rewrite lift_bind. destruct (py_iter _) as [items| |]; [|by eauto..].
  rewrite bind_run. destruct (find_label_quiet items label_name w1) as (Hc2 & _).
  destruct (find_label items label_name w1) as [[[id|]| |] w2]; simpl in Hc2;
    rewrite <-Hc2 in Hc1; [by eauto| |by eauto..].
  rewrite bind_run.
  pose proof (execute_calls svc (LabelsCreate "me" (label_body label_name)) w2) as Hc3.
  rewrite Hc1, <-app_assoc in Hc3.
  destruct (execute svc (LabelsCreate _ _) w2) as [[created|e|] w3]; simpl in Hc3;
    [|by eauto..].
  rewrite lift_bind. destruct (py_getitem created "id") as [id| |]; [|by eauto..].
  rewrite bind_run, print_run. simpl. by eauto.
Qed.

(** At most two requests, both on labels. *)
Lemma get_or_create_label_emits `{GmailApi P} svc label_name :
  emits (P:=P) (at_most is_label_request 2) (get_or_create_label svc label_name).
Proof.
  eapply emits_weaken; [|apply get_or_create_label_requests].
  by intros new [->| ->]; split; simpl; try lia.
Qed.

