(* ===== verification/Search.v ===== *)
(** * Search: search_messages (src/label_rejections.py, lines 64-84)

    The function sends the search request, collects the ids of the page
    it gets, asks [list_next] for the continuation and goes on until
    there is none.  The [while] loop has no bound of its own: it runs as
    long as the provider hands out page tokens.  [search_loop] takes the
    number of iterations it may run as fuel; the theorems give the fuel
    that is enough for a provider that serves a finite list of pages, and
    show that no fuel is enough for one that never stops. *)

From stdpp Require Import base tactics option list strings gmap.
From S2P Require Import Prelude PyData World Mock Mailbox.

(** ** The program *)

(** The inner loop (lines 75-76): the id of every message of the page,
    appended to the ids collected so far. *)
Definition collect_ids (message_ids messages : list pyval) : result (list pyval) :=
  foldM (λ acc m, id ← py_getitem m "id"; Ok (acc ++ [id])) message_ids messages.

Section search.
Context {P : Type} `{GmailApi P}.
Implicit Types (svc : service) (query : string) (w : world P) (fuel : nat).
Implicit Types (message_ids : list pyval).

(** One iteration of the [while] loop (lines 73-81): the next request,
    if any, and the ids collected so far. *)
Definition search_page svc (request : request) message_ids
    : prog (world P) (option World.request * list pyval) :=
  response ← execute svc request;
  messages ← lift (py_get response "messages" (PList []));
  items ← lift (py_iter messages);
  message_ids' ← lift (collect_ids message_ids items);
  next ← lift (list_next request response);
  mret (next, message_ids').

(** The [while] loop (lines 72-81). *)
Fixpoint search_loop fuel svc (request : option World.request) message_ids
    : prog (world P) (list pyval) :=
  match request with
  | None => mret message_ids
  | Some req =>
      match fuel with
      | 0 => out_of_fuel
      | S fuel' =>
          '(next, message_ids') ← search_page svc req message_ids;
          search_loop fuel' svc next message_ids'
      end
  end.

(** The function (lines 64-84). *)
Definition search_messages fuel svc query : prog (world P) (list pyval) :=
  let message_ids := [] in
  let request := MessagesList "me" query None in
  message_ids ← search_loop fuel svc (Some request) message_ids;
  print (FoundMessages (length message_ids));;
  mret message_ids.

End search.

(** ** The typed view of a page *)

(** The ids a well-formed page lists. *)
Definition page_ids (page : pyval) : list pyval :=
  match py_get page "messages" (PList []) with
  | Ok (PList ms) =>
      omap (λ m, match py_getitem m "id" with Ok v => Some v | _ => None end) ms
  | _ => []
  end.

(** The request that follows [req] with a page token. *)
Definition continue (req : request) (t : string) : request :=
  match req with
  | MessagesList u q _ => MessagesList u q (Some t)
  | _ => req
  end.

Section serves.
Context {P : Type} `{GmailApi P}.

(** [serves c req p pages stop]: from state [p], the provider answers
    [req] and its continuations with the well-formed pages [pages].  With
    [stop = None] the last page is the one without a token; with
    [stop = Some e] every page has a token and the request after the last
    page is answered with the error [e]. *)
Fixpoint serves (c : credentials) (req : request) (p : P) (pages : list pyval)
    (stop : option exn) : Prop :=
  match pages with
  | [] =>
      match stop with
      | Some e => (gmail_execute c req p).1 = inl e
      | None => False
      end
  | page :: rest =>
      (gmail_execute c req p).1 = inr page ∧ messages_list_ok page = true ∧
      match next_page_token page with
      | None => rest = [] ∧ stop = None
      | Some t => serves c (continue req t) (gmail_execute c req p).2 rest stop
      end
  end.

End serves.

(** The requests that fetch the pages: one per page, and the
    continuation of the last page when it has a token. *)
Fixpoint page_requests (req : request) (pages : list pyval) : list request :=
  req :: match pages with
         | [] => []
         | page :: rest =>
             match next_page_token page with
             | Some t => page_requests (continue req t) rest
             | None => []
             end
         end.

(** All the ids of the pages, in page order. *)
Definition pages_ids (pages : list pyval) : list pyval := concat (page_ids <$> pages).

(** [leads c req p pages req' p']: from state [p], the provider answers
    [req] and its continuations with the well-formed pages [pages], each
    with a page token; [req'] is the request that follows the last of
    them and [p'] the state in which the provider receives it. *)
Fixpoint leads `{GmailApi P} (c : credentials) (req : request) (p : P) (pages : list pyval)
    (req' : request) (p' : P) : Prop :=
  match pages with
  | [] => req' = req ∧ p' = p
  | page :: rest =>
      (gmail_execute c req p).1 = inr page ∧ messages_list_ok page = true ∧
      ∃ t, next_page_token page = Some t ∧
        leads c (continue req t) (gmail_execute c req p).2 rest req' p'
  end.

(** ** Lemmas *)

Lemma collect_ids_mapM message_ids messages :
  collect_ids message_ids messages =
  (ids ← mapM_result (λ m, py_getitem m "id") messages; Ok (message_ids ++ ids)).
Proof. apply foldM_snoc_mapM. Qed.

Lemma collect_ids_ok message_ids ms :
  forallb message_ok ms = true →
  collect_ids message_ids ms =
  Ok (message_ids ++
      omap (λ m, match py_getitem m "id" with Ok v => Some v | _ => None end) ms).
Proof.
  revert message_ids. induction ms as [|m ms IH]; intros message_ids; simpl.
  - by rewrite app_nil_r.
  - intros [Hm Hms]%andb_prop. apply message_ok_inv in Hm as (d & i & -> & Hi).
    unfold collect_ids in *. simpl. rewrite Hi. simpl.
    rewrite IH by done. by rewrite <-app_assoc.
Qed.

Lemma collect_ids_fuel message_ids ms : collect_ids message_ids ms ≠ OutOfFuel.
Proof.
  rewrite collect_ids_mapM. induction ms as [|m ms IH]; [done|]. simpl.
  pose proof (py_getitem_fuel m "id").
  destruct (py_getitem m "id"); simpl; try done.
  unfold mbind, result_mbind, result_bind in *.
  by destruct (mapM_result _ ms).
Qed.

(** The first message whose id cannot be read ends the collection with
    the exception of that read, and the ids collected are lost. *)
Lemma collect_ids_raise message_ids vs1 v vs2 e :
  Forall (λ u, is_ok (py_getitem u "id") = true) vs1 →
  py_getitem v "id" = Raise e →
  collect_ids message_ids (vs1 ++ v :: vs2) = Raise e.
Proof.
  intros Hvs1 Hv. revert message_ids.
  induction Hvs1 as [|u vs1 Hu _ IH]; intros message_ids; unfold collect_ids in *; simpl.
  - by rewrite Hv.
  - destruct (py_getitem u "id"); [|done..]. apply IH.
Qed.

(** The exceptions of the read of an id. *)
Lemma py_getitem_raises (v : pyval) k e :
  py_getitem v k = Raise e →
  e = KeyError k ∨ e = TypeError "indices must be integers" ∨
  e = TypeError "object is not subscriptable".
Proof.
  destruct v as [| | | | |d]; simpl; try (intros [= <-]; tauto).
  destruct (dict_lookup d k); [done|]. intros [= <-]. tauto.
Qed.

(** The ids of a well-formed page are strings. *)
Lemma message_ids_str ms :
  forallb message_ok ms = true →
  Forall (λ v, ∃ i, v = PStr i)
    (omap (λ m, match py_getitem m "id" with Ok v => Some v | _ => None end) ms).
Proof.
  induction ms as [|m ms IH]; [constructor|]. simpl.
  intros [Hm Hms]%andb_prop.
  apply message_ok_inv in Hm as (d & i & -> & Hi). simpl. rewrite Hi. simpl.
  constructor; [eauto | by apply IH].
Qed.

Lemma page_ids_str page :
  messages_list_ok page = true → Forall (λ v, ∃ i, v = PStr i) (page_ids page).
Proof.
  intros (ms & Hget & Hms)%messages_list_ok_inv. unfold page_ids. rewrite Hget.
  by apply message_ids_str.
Qed.

Section search_lemmas.
Context {P : Type} `{GmailApi P}.
Implicit Types (svc : service) (query : string) (w : world P) (fuel : nat).
Implicit Types (message_ids : list pyval) (req : request).

(** One iteration on a well-formed page. *)
Lemma search_page_ok svc req message_ids w page w1 :
  execute svc req w = (Ok page, w1) →
  messages_list_ok page = true →
  search_page svc req message_ids w =
  match list_next req page with
  | Ok next => (Ok (next, message_ids ++ page_ids page), w1)
  | Raise e => (Raise e, w1)
  | OutOfFuel => (OutOfFuel, w1)
  end.
Proof.
  intros E Hok. unfold search_page, page_ids. rewrite bind_run, E.
  destruct (messages_list_ok_inv _ Hok) as (ms & Hget & Hms).
  rewrite Hget, !lift_bind. simpl. rewrite !lift_bind, collect_ids_ok by done.
  by destruct (list_next req page).
Qed.

(** An error answer ends the iteration with that error, and the ids
    collected so far are not returned. *)
Lemma search_page_raise svc req message_ids w e w1 :
  execute svc req w = (Raise e, w1) →
  search_page svc req message_ids w = (Raise e, w1).
Proof. intros E. unfold search_page. by rewrite bind_run, E. Qed.

Lemma search_page_fuel svc req message_ids w :
  (search_page svc req message_ids w).1 ≠ OutOfFuel.
Proof.
  unfold search_page. rewrite bind_run.
  pose proof (execute_fuel svc req w) as Hx.
  destruct (execute svc req w) as [[response|e|] w1]; [|done..]. clear Hx.
  rewrite lift_bind. pose proof (py_get_fuel response "messages" (PList [])).
  destruct (py_get _ _ _) as [messages| |]; [|done..].
  rewrite lift_bind. pose proof (py_iter_fuel messages).
  destruct (py_iter _) as [items| |]; [|done..].
  rewrite lift_bind. pose proof (collect_ids_fuel message_ids items).
  destruct (collect_ids _ _) as [ids| |]; [|done..].
  rewrite lift_bind. pose proof (list_next_fuel req response).
  by destruct (list_next _ _).
Qed.

Lemma search_page_calls svc req message_ids w :
  w_calls (search_page svc req message_ids w).2 = w_calls w ++ [req] ∧
  w_console (search_page svc req message_ids w).2 = w_console w ∧
  w_files (search_page svc req message_ids w).2 = w_files w ∧
  w_remote (search_page svc req message_ids w).2
    = (gmail_execute (svc_credentials svc) req (w_remote w)).2.
Proof.
  unfold search_page. rewrite bind_run, execute_run.
  destruct (gmail_execute _ req _) as [[e|response] p1]; simpl; [done|].
  rewrite lift_bind. destruct (py_get _ _ _) as [messages| |]; [|done..].
  rewrite lift_bind. destruct (py_iter _) as [items| |]; [|done..].
  rewrite lift_bind. destruct (collect_ids _ _) as [ids| |]; [|done..].
  rewrite lift_bind. by destruct (list_next _ _).
Qed.

Lemma search_loop_done fuel svc message_ids w :
  search_loop fuel svc None message_ids w = (Ok message_ids, w).
Proof. by destruct fuel. Qed.

Lemma search_loop_step fuel svc req message_ids w :
  search_loop (S fuel) svc (Some req) message_ids w =
  match search_page svc req message_ids w with
  | (Ok (next, message_ids'), w1) => search_loop fuel svc next message_ids' w1
  | (Raise e, w1) => (Raise e, w1)
  | (OutOfFuel, w1) => (OutOfFuel, w1)
  end.
Proof. simpl. rewrite bind_run. by destruct search_page as [[[]| |]]. Qed.

End search_lemmas.

(** ** The requests of a run *)

Section search_frame.
Context {P : Type} `{GmailApi P}.
Context (R : relation (world P)) `{!Frame is_search_request is_search_line R}.
Implicit Types (svc : service) (w : world P) (fuel : nat).

Lemma search_page_frame svc req message_ids :
  is_search_request req = true → preserves R (search_page (P:=P) svc req message_ids).
Proof. intros HQ. unfold search_page. frame. Qed.

Lemma search_page_next svc req message_ids w r message_ids' w1 :
  search_page svc req message_ids w = (Ok (Some r, message_ids'), w1) →
  is_search_request r = true.
Proof.
  unfold search_page. intros E.
  do 5 apply bind_ok_inv in E as (? & ? & ? & E).
  injection E as -> _ _. unfold lift in *. simplify_eq. by eapply list_next_search.
Qed.

Lemma search_loop_frame fuel svc request message_ids :
  (∀ r, request = Some r → is_search_request r = true) →
  preserves R (search_loop (P:=P) fuel svc request message_ids).
Proof.
  revert request message_ids.
  induction fuel as [|fuel IH]; intros [req|] message_ids Hreq;
    [apply preserves_out_of_fuel|apply preserves_ret| |apply preserves_ret]; try tc_solve.
  change (search_loop (S fuel) svc (Some req) message_ids)
    with ('(next, message_ids') ← search_page svc req message_ids;
          search_loop fuel svc next message_ids').
  apply preserves_bind_ok; [tc_solve|apply search_page_frame; auto|].
  intros w [next ids] w1 E. apply IH. intros r ->. by eapply search_page_next.
Qed.

(** The function keeps every frame of the search requests. *)
Lemma search_messages_frame fuel svc query :
  preserves R (search_messages (P:=P) fuel svc query).
Proof.
  unfold search_messages. cbv zeta.
  apply preserves_bind; [tc_solve|by apply search_loop_frame; intros r [= <-]|].
  intros ?. frame.
Qed.

End search_frame.

(** Whatever it returns or raises, the function sends search requests
    only and leaves the files alone. *)
Lemma search_messages_sends `{GmailApi P} fuel svc query :
  preserves (sends is_search_request) (search_messages (P:=P) fuel svc query).
Proof. apply search_messages_frame; tc_solve. Qed.

#[export] Hint Resolve search_messages_frame : prog.

(** ** The number of requests *)

Section search_bound.
Context {P : Type} `{GmailApi P}.
Implicit Types (svc : service) (w : world P) (fuel : nat).

(** Whatever the provider answers, the loop sends at most one request
    per unit of fuel, and search requests only. *)
Lemma search_loop_emits fuel svc request message_ids :
  (∀ r, request = Some r → is_search_request r = true) →
  emits (at_most is_search_request fuel) (search_loop fuel svc request message_ids).
Proof.
  revert request message_ids.
  induction fuel as [|fuel IH]; intros [req|] message_ids Hreq w;
    try (exists []; rewrite ?search_loop_done, app_nil_r; by auto with prog).
  rewrite search_loop_step. destruct (search_page_calls svc req message_ids w) as (Hc & _).
  pose proof (search_page_next svc req message_ids w) as Hnext.
  pose proof (Hreq _ eq_refl) as Hq.
  destruct (search_page svc req message_ids w) as [[[next ids]|e|] w1]; simpl in Hc.
  - destruct (IH next ids) with (w := w1) as (new & Hnew & Hm);
      [intros r ->; by eapply Hnext|].
    exists (req :: new). rewrite Hnew, Hc, <-app_assoc. auto with prog.
  - exists [req]. split; [done|apply at_most_singleton; [done|lia]].
  - exists [req]. split; [done|apply at_most_singleton; [done|lia]].
Qed.

Lemma search_messages_emits fuel svc query :
  emits (at_most is_search_request fuel) (search_messages fuel svc query).
Proof.
  intros w.
  destruct (search_loop_emits fuel svc (Some (MessagesList "me" query None)) [] 
              ltac:(by intros r [= <-]) w) as (new & Hnew & Hm).
  exists new. split; [|done]. unfold search_messages. cbv zeta. rewrite bind_run.
  by destruct (search_loop _ _ _ _ _) as [[ids|e|] w1].
Qed.

End search_bound.

(** ** The types of the results *)

Section search_typed.
Context {P : Type} `{GmailSchema P}.
Implicit Types (svc : service) (w : world P) (fuel : nat) (message_ids : list pyval).

(** One iteration, against a provider whose answers have the
    documented shape: the ids stay strings, and what is raised is an
    answer of the provider. *)
Lemma search_page_typed svc req message_ids w :
  is_search_request req = true →
  Forall (λ v, ∃ i, v = PStr i) message_ids →
  match search_page svc req message_ids w with
  | (Ok (_, message_ids'), _) => Forall (λ v, ∃ i, v = PStr i) message_ids'
  | (Raise e, _) => provider_error (svc_credentials svc) e
  | (OutOfFuel, _) => False
  end.
Proof.
  intros Hreq Hids. destruct req as [| |u q pt|]; try done.
  destruct (execute svc (MessagesList u q pt) w) as [[page|e|] w1] eqn:E.
  - pose proof (execute_ok_schema _ _ _ _ _ E) as Hok. simpl in Hok.
    rewrite (search_page_ok _ _ _ _ _ _ E Hok), list_next_schema by done.
    apply Forall_app. split; [done|by apply page_ids_str].
  - rewrite (search_page_raise _ _ _ _ _ _ E). by eapply execute_raise.
  - by destruct (execute_fuel svc (MessagesList u q pt) w); rewrite E.
Qed.

Lemma search_loop_typed fuel svc request message_ids w :
  (∀ r, request = Some r → is_search_request r = true) →
  Forall (λ v, ∃ i, v = PStr i) message_ids →
  match search_loop fuel svc request message_ids w with
  | (Ok message_ids', _) => Forall (λ v, ∃ i, v = PStr i) message_ids'
  | (Raise e, _) => provider_error (svc_credentials svc) e
  | (OutOfFuel, _) => True
  end.
Proof.
  revert request message_ids w.
  induction fuel as [|fuel IH]; intros [req|] message_ids w Hreq Hids; try done.
  rewrite search_loop_step.
  pose proof (search_page_typed svc req message_ids w (Hreq _ eq_refl) Hids) as Hp.
  destruct (search_page svc req message_ids w) as [[[next ids]|e|] w1] eqn:E; try done.
  apply IH; [|done]. intros r ->. by eapply search_page_next.
Qed.

Lemma search_messages_raises fuel svc query w e w' :
  search_messages fuel svc query w = (Raise e, w') →
  provider_error (svc_credentials svc) e.
Proof.
  unfold search_messages. cbv zeta. rewrite bind_run.
  pose proof (search_loop_typed fuel svc (Some (MessagesList "me" query None)) [] w) as Hl.
  destruct (search_loop _ _ _ _ _) as [[ids|e1|] w1]; [done| |done].
  intros [= <- _]. apply Hl; first [by intros r [= <-]|by constructor].
Qed.

End search_typed.

(** ** The loop against a provider that serves pages *)

Section search_pages.
Context {P : Type} `{GmailApi P}.
Implicit Types (svc : service) (query : string) (w : world P) (fuel : nat).
Implicit Types (message_ids pages : list pyval) (req : request) (stop : option exn).
Implicit Types (c : credentials).

(** The outcome of a search that is served [pages] and then [stop]. *)
Definition search_outcome message_ids pages stop : result (list pyval) :=
  match stop with
  | None => Ok (message_ids ++ pages_ids pages)
  | Some e => Raise e
  end.

Lemma execute_answer svc req w :
  execute svc req w =
  (to_result (gmail_execute (svc_credentials svc) req (w_remote w)).1,
   set_remote (gmail_execute (svc_credentials svc) req (w_remote w)).2 (log_call req w)).
Proof. apply execute_run. Qed.

Lemma search_loop_serves fuel svc u q tok pages stop message_ids w :
  serves (svc_credentials svc) (MessagesList u q tok) (w_remote w) pages stop →
  length pages + match stop with Some _ => 1 | None => 0 end ≤ fuel →
  ∃ w',
    search_loop fuel svc (Some (MessagesList u q tok)) message_ids w =
      (search_outcome message_ids pages stop, w') ∧
    w_calls w' = w_calls w ++ page_requests (MessagesList u q tok) pages ∧
    w_remote w' = serve (svc_credentials svc) (w_remote w)
                    (page_requests (MessagesList u q tok) pages) ∧
    w_console w' = w_console w ∧ w_files w' = w_files w ∧ w_clock w' = w_clock w.
Proof.
  revert fuel tok message_ids w.
  induction pages as [|page rest IH]; intros fuel tok message_ids w Hs Hfuel.
  - destruct stop as [e|]; [|done]. simpl in Hs, Hfuel.
    destruct fuel as [|fuel]; [lia|]. rewrite search_loop_step.
    erewrite search_page_raise; [|by rewrite execute_answer, Hs].
    eexists. split; [done|]. by simpl.
  - destruct Hs as (Hx & Hok & Hnext). simpl in Hfuel.
    destruct fuel as [|fuel]; [lia|]. rewrite search_loop_step.
    erewrite search_page_ok; [|by rewrite execute_answer, Hx|done].
    rewrite list_next_schema by done. cbn [page_requests].
    destruct (next_page_token page) as [t|]; simpl.
    + destruct (IH fuel (Some t) (message_ids ++ page_ids page)
                  (set_remote (gmail_execute (svc_credentials svc)
                     (MessagesList u q tok) (w_remote w)).2
                     (log_call (MessagesList u q tok) w)))
        as (w' & Hrun & Hc & Hr & Hrest); [done|lia|].
      exists w'. rewrite Hrun. split.
      { unfold search_outcome, pages_ids. destruct stop; [done|].
        by rewrite fmap_cons, concat_cons, app_assoc. }
      simpl in Hc, Hr. by rewrite Hc, Hr, <-app_assoc.
    + destruct Hnext as [-> ->]. rewrite search_loop_done.
      eexists. split;
        [unfold search_outcome, pages_ids; simpl; by rewrite app_nil_r | by simpl].
Qed.

(** The loop through pages that lead to a request: it has collected
    their ids and is about to send that request. *)
Lemma search_loop_leads fuel svc u q tok pages req' p' message_ids w :
  leads (svc_credentials svc) (MessagesList u q tok) (w_remote w) pages req' p' →
  ∃ w',
    search_loop (length pages + fuel) svc (Some (MessagesList u q tok)) message_ids w =
      search_loop fuel svc (Some req') (message_ids ++ pages_ids pages) w' ∧
    w_remote w' = p' ∧
    w_calls w' ++ [req'] = w_calls w ++ page_requests (MessagesList u q tok) pages ∧
    w_console w' = w_console w.
Proof.
  revert tok message_ids w. induction pages as [|page rest IH]; intros tok message_ids w.
  - intros [-> ->]. exists w. unfold pages_ids. simpl. by rewrite app_nil_r.
  - intros (Hx & Hok & t & Ht & Hl). cbn [length Nat.add]. rewrite search_loop_step.
    erewrite search_page_ok; [|by rewrite execute_answer, Hx|done].
    rewrite list_next_schema, Ht by done. cbn [page_requests]. rewrite Ht.
    destruct (IH (Some t) (message_ids ++ page_ids page)
                (set_remote (gmail_execute (svc_credentials svc)
                   (MessagesList u q tok) (w_remote w)).2
                   (log_call (MessagesList u q tok) w)))
      as (w' & Hrun & Hr & Hc & Hl'); [done|].
    exists w'. cbn [fmap option_fmap option_map continue]. rewrite Hrun. unfold pages_ids.
    rewrite fmap_cons, concat_cons, app_assoc.
    split_and!; [done..| |done]. simpl in Hc. by rewrite Hc, <-app_assoc.
Qed.

(** One iteration on a page with a message whose id cannot be read. *)
Lemma search_page_malformed svc req message_ids w bad w1 messages vs1 v vs2 e :
  execute svc req w = (Ok bad, w1) →
  py_get bad "messages" (PList []) = Ok messages →
  py_iter messages = Ok (vs1 ++ v :: vs2) →
  Forall (λ u, is_ok (py_getitem u "id") = true) vs1 →
  py_getitem v "id" = Raise e →
  search_page svc req message_ids w = (Raise e, w1).
Proof.
  intros Hx Hget Hiter Hvs1 Hv. unfold search_page.
  by rewrite bind_run, Hx, lift_bind, Hget, lift_bind, Hiter, lift_bind,
    (collect_ids_raise _ _ _ _ _ Hvs1 Hv).
Qed.

(** One request per page, and one more when the pages end in an error. *)
Lemma serves_requests c req (p : P) pages stop :
  serves c req p pages stop →
  length (page_requests req pages) =
  length pages + match stop with Some _ => 1 | None => 0 end.
Proof.
  revert req p. induction pages as [|page rest IH]; intros req p Hs.
  - by destruct stop.
  - destruct Hs as (_ & _ & Hn). cbn [page_requests length].
    destruct (next_page_token page) as [t|].
    + rewrite (IH _ _ Hn). lia.
    + by destruct Hn as [-> ->].
Qed.

(** More fuel does not change a run that did not run out of it. *)
Lemma search_loop_fuel_mono fuel fuel' svc request message_ids w :
  fuel ≤ fuel' →
  (search_loop fuel svc request message_ids w).1 ≠ OutOfFuel →
  search_loop fuel' svc request message_ids w = search_loop fuel svc request message_ids w.
Proof.
  revert fuel' request message_ids w.
  induction fuel as [|fuel IH]; intros fuel' request message_ids w Hle Hrun.
  - destruct request as [req|]; [done|]. by rewrite !search_loop_done.
  - destruct request as [req|]; [|by rewrite !search_loop_done].
    destruct fuel' as [|fuel']; [lia|]. rewrite !search_loop_step in *.
    destruct (search_page svc req message_ids w) as [[[next ids]|e|] w1]; [|done..].
    apply IH; [lia|done].
Qed.

End search_pages.

(** ** The theorems *)

Section search_theorems.
Context {P : Type} `{GmailApi P}.
Implicit Types (svc : service) (query : string) (w : world P) (fuel : nat).
Implicit Types (message_ids pages : list pyval) (req : request).

(** [C3] Pagination.  When the provider serves the pages [pages] for
    the query, the last of them without a page token, and the fuel covers
    the number of pages, [search_messages] returns the ids of all the
    pages in page order, has sent one request per page, each continuation
    with the token of the page before it, and prints the number of ids. *)
Theorem search_messages_pages fuel svc query pages w :
  serves (svc_credentials svc) (MessagesList "me" query None) (w_remote w) pages None →
  length pages ≤ fuel →
  ∃ w',
    search_messages fuel svc query w = (Ok (pages_ids pages), w') ∧
    w_calls w' = w_calls w ++ page_requests (MessagesList "me" query None) pages ∧
    w_console w' = w_console w ++ [FoundMessages (length (pages_ids pages))] ∧
    w_remote w' = serve (svc_credentials svc) (w_remote w)
                    (page_requests (MessagesList "me" query None) pages).
Proof.
  intros Hs Hfuel.
  destruct (search_loop_serves fuel svc "me" query None pages None [] w)
    as (w1 & Hrun & Hc & Hr & Hl & _); [done|lia|].
  exists (put_line (FoundMessages (length (pages_ids pages))) w1).
  unfold search_messages. cbv zeta. rewrite bind_run, Hrun. simpl.
  by rewrite Hc, Hr, Hl.
Qed.

(** [C28] A failed page request ends the search with the provider's
    error: the ids of the pages before it are not returned, nothing is
    printed, and the failed request is the last one in the log. *)
Theorem search_messages_abort fuel svc query pages e w :
  serves (svc_credentials svc) (MessagesList "me" query None) (w_remote w) pages (Some e) →
  length pages < fuel →
  ∃ w',
    search_messages fuel svc query w = (Raise e, w') ∧
    w_calls w' = w_calls w ++ page_requests (MessagesList "me" query None) pages ∧
    length (page_requests (MessagesList "me" query None) pages) = S (length pages) ∧
    w_console w' = w_console w.
Proof.
  intros Hs Hfuel.
  destruct (search_loop_serves fuel svc "me" query None pages (Some e) [] w)
    as (w1 & Hrun & Hc & Hr & Hl & _); [done|lia|].
  exists w1. unfold search_messages. cbv zeta. rewrite bind_run, Hrun.
  repeat split; try done. rewrite (serves_requests _ _ _ _ _ Hs). lia.
Qed.

(** [C35] A malformed page.  When the provider has served the pages
    [pages] for the query and answers the next request with a page
    whose ["messages"] holds, after messages with an id, a value whose
    id cannot be read (a dict without ["id"], or a value that is not a
    dict), [search_messages] raises the exception of that read, one of
    three; the ids of the pages before and of the messages before are
    not returned, nothing is printed, and the request for that page is
    the last one in the log: no page after it is asked for. *)
Theorem search_messages_malformed fuel svc query pages req' p' bad messages vs1 v vs2 e w :
  leads (svc_credentials svc) (MessagesList "me" query None) (w_remote w) pages req' p' →
  (gmail_execute (svc_credentials svc) req' p').1 = inr bad →
  py_get bad "messages" (PList []) = Ok messages →
  py_iter messages = Ok (vs1 ++ v :: vs2) →
  Forall (λ u, is_ok (py_getitem u "id") = true) vs1 →
  py_getitem v "id" = Raise e →
  length pages < fuel →
  ∃ w',
    search_messages fuel svc query w = (Raise e, w') ∧
    w_calls w' = w_calls w ++ page_requests (MessagesList "me" query None) pages ∧
    w_console w' = w_console w ∧
    (e = KeyError "id" ∨ e = TypeError "indices must be integers" ∨
     e = TypeError "object is not subscriptable").
Proof.
  intros Hl Hx Hget Hiter Hvs1 Hv Hfuel.
  destruct (search_loop_leads (fuel - length pages) svc "me" query None pages req' p' [] w Hl)
    as (w1 & Hrun & Hr & Hc & Hcon).
  replace (length pages + (fuel - length pages)) with fuel in Hrun by lia.
  destruct (fuel - length pages) as [|fuel'] eqn:Hf; [lia|].
  rewrite search_loop_step in Hrun.
  erewrite search_page_malformed in Hrun; [|by rewrite execute_answer, Hr, Hx|done..].
  eexists. unfold search_messages. cbv zeta. rewrite bind_run, Hrun.
  split_and!; [done| |done|by eapply py_getitem_raises]. by rewrite <-Hc.
Qed.

(** Fuel.  A search that ends with some fuel, in a result or in
    an exception, ends in the same way with any larger fuel. *)
Theorem search_messages_fuel_mono fuel fuel' svc query w :
  fuel ≤ fuel' →
  (search_messages fuel svc query w).1 ≠ OutOfFuel →
  search_messages fuel' svc query w = search_messages fuel svc query w.
Proof.
  intros Hle Hrun. unfold search_messages in *. cbv zeta in *.
  rewrite !bind_run in *.
  rewrite (search_loop_fuel_mono fuel fuel'); [done|done|].
  by destruct (search_loop fuel _ _ _ _) as [[]].
Qed.

(** A provider that answers every request with a page that has a token. *)
Definition endless (P : Type) `{GmailApi P} : Prop :=
  ∀ c req (p : P), ∃ page t,
    (gmail_execute c req p).1 = inr page ∧ messages_list_ok page = true ∧
    next_page_token page = Some t.

Lemma search_loop_endless fuel svc u q tok message_ids w :
  endless P →
  (search_loop fuel svc (Some (MessagesList u q tok)) message_ids w).1 = OutOfFuel.
Proof.
  intros Hend. revert tok message_ids w.
  induction fuel as [|fuel IH]; intros tok message_ids w; [done|].
  rewrite search_loop_step.
  destruct (Hend (svc_credentials svc) (MessagesList u q tok) (w_remote w))
    as (page & t & Hx & Hok & Ht).
  erewrite search_page_ok; [|by rewrite execute_answer, Hx|done].
  rewrite list_next_schema, Ht by done. simpl. apply IH.
Qed.

(** [C32] The loop has no bound of its own.  Against a provider that
    hands out a page token with every page, [search_messages] runs out of
    any fuel: the termination of the search is the provider's to give. *)
Theorem search_messages_diverges fuel svc query w :
  endless P → (search_messages fuel svc query w).1 = OutOfFuel.
Proof.
  intros Hend. unfold search_messages. cbv zeta. rewrite bind_run.
  pose proof (search_loop_endless fuel svc "me" query None [] w Hend) as Hrun.
  by destruct (search_loop fuel _ _ _ _) as [[]].
Qed.

(** [C34] Against a provider whose answers have the documented shape,
    [search_messages] returns a list of strings or raises an answer of
    the provider: its own handling of the pages raises nothing. *)
Theorem search_messages_typed `{!GmailSchema P} fuel svc query w :
  match (search_messages fuel svc query w).1 with
  | Ok message_ids => Forall (λ v, ∃ i, v = PStr i) message_ids
  | Raise e => provider_error (svc_credentials svc) e
  | OutOfFuel => True
  end.
Proof.
  unfold search_messages. cbv zeta. rewrite bind_run.
  pose proof (search_loop_typed fuel svc (Some (MessagesList "me" query None)) [] w) as Hl.
  destruct (search_loop _ _ _ _ _) as [[ids|e|] w1]; simpl; [..|done];
    apply Hl; first [by intros r [= <-]|by constructor].
Qed.

End search_theorems.

(** ** The search against the reference mailbox *)

Section search_mailbox.
Implicit Types (mb : mailbox) (c : credentials) (q : string) (offset n fuel : nat).

(** The pages the mailbox serves from an offset, [n] of them at most. *)
Fixpoint mailbox_pages n mb q offset : list pyval :=
  match n with
  | 0 => []
  | S n' =>
      list_page mb q offset ::
      if decide (offset + page_size mb < length (matching mb q))
      then mailbox_pages n' mb q (offset + page_size mb) else []
  end.

Lemma page_ids_list_page mb q offset :
  page_ids (list_page mb q offset) =
  PStr <$> take (page_size mb) (drop offset (matching mb q)).
Proof.
  unfold page_ids. rewrite messages_list_page. by apply omap_fmap_Some.
Qed.

Lemma page_requests_listing u q tok pages :
  Forall (λ r, ∃ t, r = MessagesList u q t) (page_requests (MessagesList u q tok) pages).
Proof.
  revert tok. induction pages as [|page rest IH]; intros tok; simpl.
  - repeat constructor. eauto.
  - constructor; [eauto|]. destruct (next_page_token page); [apply IH|constructor].
Qed.

(** The requests of a search leave the mailbox as it is. *)
Lemma serve_listing c mb u q tok pages :
  serve c mb (page_requests (MessagesList u q tok) pages) = mb.
Proof.
  pose proof (page_requests_listing u q tok pages) as Hl.
  induction Hl as [|r rs [t ->] _ IH]; [done|].
  unfold serve in *. simpl. by rewrite mailbox_list_state.
Qed.

Lemma serves_mailbox c mb q n offset :
  authorized c mb = inr tt →
  length (matching mb q) - offset < n * page_size mb →
  serves c (MessagesList "me" q (page_token offset)) mb (mailbox_pages n mb q offset) None ∧
  pages_ids (mailbox_pages n mb q offset) = PStr <$> drop offset (matching mb q) ∧
  length (mailbox_pages n mb q offset) ≤ n.
Proof.
  intros Ha. revert offset. induction n as [|n IH]; intros offset Hn; [lia|].
  cbn [mailbox_pages serves].
  rewrite mailbox_execute_authorized, messages_list_page_token by done. simpl.
  rewrite messages_list_ok_list_page, next_page_token_list_page.
  unfold pages_ids. rewrite fmap_cons, concat_cons, page_ids_list_page.
  case_decide as Hlt.
  - destruct (IH (offset + page_size mb)) as (Hs & Hids & Hlen).
    { unfold page_size in *. simpl in Hn. lia. }
    rewrite page_token_pos in Hs by (unfold page_size; lia).
    repeat split; [done| |simpl; lia].
    unfold pages_ids in Hids. rewrite Hids, <-fmap_app. f_equal.
    by rewrite <-drop_drop, take_drop.
  - repeat split; [|simpl; lia]. simpl. rewrite app_nil_r. f_equal.
    apply take_ge. rewrite length_drop. lia.
Qed.

(** After the loop the function prints the number of ids and returns
    them. *)
Lemma search_messages_found fuel svc q (w : world mailbox) ids w1 :
  search_loop fuel svc (Some (MessagesList "me" q None)) [] w = (Ok ids, w1) →
  search_messages fuel svc q w = (Ok ids, put_line (FoundMessages (length ids)) w1).
Proof. intros Hrun. unfold search_messages. cbv zeta. by rewrite bind_run, Hrun. Qed.

(** The loop against the reference mailbox: all the matches, and the
    mailbox as it was. *)
Lemma search_loop_mailbox fuel svc q (w : world mailbox) :
  authorized (svc_credentials svc) (w_remote w) = inr tt →
  length (matching (w_remote w) q) < fuel * page_size (w_remote w) →
  ∃ w',
    search_loop fuel svc (Some (MessagesList "me" q None)) [] w
      = (Ok (PStr <$> matching (w_remote w) q), w') ∧
    sends is_search_request w w' ∧ length (w_calls w') ≤ length (w_calls w) + fuel ∧
    w_remote w' = w_remote w ∧ w_console w' = w_console w.
Proof.
  intros Ha Hfuel.
  destruct (serves_mailbox (svc_credentials svc) (w_remote w) q fuel 0 Ha)
    as (Hs & Hids & Hlen); [lia|].
  change (page_token 0) with (@None string) in Hs.
  destruct (search_loop_serves fuel svc "me" q None _ None [] w Hs)
    as (w' & Hrun & Hc & Hr & Hl & Hf & Hk); [simpl; lia|].
  simpl in Hrun. rewrite Hids, drop_0 in Hrun.
  exists w'. rewrite serve_listing in Hr. split_and!; try done.
  - pose proof (search_loop_frame (sends is_search_request) fuel svc
                  (Some (MessagesList "me" q None)) []) as Hp.
    specialize (Hp ltac:(by intros ? [= <-]) w). by rewrite Hrun in Hp.
  - rewrite Hc, length_app, (serves_requests _ _ _ _ _ Hs). simpl. lia.
Qed.

(** With any fuel the loop returns all the matches or runs out of
    fuel. *)
Lemma search_loop_all fuel svc q (w : world mailbox) :
  authorized (svc_credentials svc) (w_remote w) = inr tt →
  (search_loop fuel svc (Some (MessagesList "me" q None)) [] w).1 = OutOfFuel ∨
  ∃ w', search_loop fuel svc (Some (MessagesList "me" q None)) [] w
          = (Ok (PStr <$> matching (w_remote w) q), w') ∧
    sends is_search_request w w' ∧ w_remote w' = w_remote w.
Proof.
  intros Ha.
  destruct (decide ((search_loop fuel svc (Some (MessagesList "me" q None)) [] w).1
                    = OutOfFuel)) as [|Hrun]; [by left|right].
  destruct (search_loop_mailbox (fuel + S (length (matching (w_remote w) q))) svc q w Ha)
    as (w' & Hbig & Hs & _ & Hr & _); [unfold page_size; nia|].
  rewrite (search_loop_fuel_mono fuel) in Hbig by (done || lia). eauto.
Qed.

Lemma search_messages_all fuel svc q (w : world mailbox) :
  authorized (svc_credentials svc) (w_remote w) = inr tt →
  (search_messages fuel svc q w).1 = OutOfFuel ∨
  ∃ w', search_messages fuel svc q w = (Ok (PStr <$> matching (w_remote w) q), w') ∧
    sends is_search_request w w' ∧ w_remote w' = w_remote w.
Proof.
  intros Ha. destruct (search_loop_all fuel svc q w Ha) as [Hout|(w' & Hrun & Hs & Hr)].
  - left. unfold search_messages. cbv zeta. rewrite bind_run.
    by destruct (search_loop _ _ _ _ _) as [[ids|e|] w'].
  - right. rewrite (search_messages_found _ _ _ _ _ _ Hrun). eexists. split; [done|].
    split; [|done]. etransitivity; [done|]. by apply quiet_sends.
Qed.

(** [C10] Against the reference mailbox, with a credential it accepts
    and fuel for [len / page_size + 1] pages, [search_messages] returns
    the ids of all the messages that match the query, each once, in
    mailbox order, prints their number and leaves the mailbox as it was:
    no page is skipped or fetched twice. *)
Theorem search_messages_mailbox fuel svc q (w : world mailbox) :
  authorized (svc_credentials svc) (w_remote w) = inr tt →
  length (matching (w_remote w) q) < fuel * page_size (w_remote w) →
  ∃ w',
    search_messages fuel svc q w = (Ok (PStr <$> matching (w_remote w) q), w') ∧
    w_remote w' = w_remote w ∧
    w_console w' = w_console w ++ [FoundMessages (length (matching (w_remote w) q))] ∧
    length (w_calls w') ≤ length (w_calls w) + fuel.
Proof.
  intros Ha Hfuel.
  destruct (search_loop_mailbox fuel svc q w Ha Hfuel) as (w1 & Hrun & _ & Hn & Hr & Hl).
  exists (put_line (FoundMessages (length (matching (w_remote w) q))) w1).
  rewrite (search_messages_found _ _ _ _ _ _ Hrun), length_fmap. simpl.
  by rewrite Hl.
Qed.

End search_mailbox.

(** ** The test scenario of the specification *)

(** Three pages of 2, 2 and 1 ids, a token on the first two. *)
Definition three_pages : list pyval :=
  [page ["a"; "b"] (Some "t1"); page ["c"; "d"] (Some "t2"); page ["e"] None].

Example search_three_pages :
  let r := search_messages 3 (Service (Credentials (Some "t") None None []))
             "q" (init_world (Script (inr <$> three_pages))) in
  r.1 = Ok (PStr <$> ["a"; "b"; "c"; "d"; "e"]) ∧
  w_calls r.2 = [MessagesList "me" "q" None; MessagesList "me" "q" (Some "t1");
                 MessagesList "me" "q" (Some "t2")] ∧
  render <$> w_console r.2 = [Some "Found 5 messages matching the query."].
Proof. vm_compute. done. Qed.

Lemma search_messages_pages_witness :
  let svc := Service (Credentials (Some "t") None None []) in
  let w := init_world (Script (inr <$> three_pages)) in
  ∃ w',
    search_messages 3 svc "q" w = (Ok (pages_ids three_pages), w') ∧
    w_calls w' = w_calls w ++ page_requests (MessagesList "me" "q" None) three_pages ∧
    w_console w' = w_console w ++ [FoundMessages (length (pages_ids three_pages))] ∧
    w_remote w' = serve (svc_credentials svc) (w_remote w)
                    (page_requests (MessagesList "me" "q" None) three_pages).
Proof.
  intros svc w.
  apply (search_messages_pages 3 svc "q" three_pages w); [|simpl; lia].
  by vm_compute.
Defined.

Lemma search_messages_abort_witness :
  let svc := Service (Credentials (Some "t") None None []) in
  let pages := [page ["a"; "b"] (Some "t1")] in
  let w := init_world (Script [inr (page ["a"; "b"] (Some "t1")); inl (HttpError 503)]) in
  ∃ w',
    search_messages 5 svc "q" w = (Raise (HttpError 503), w') ∧
    w_calls w' = w_calls w ++ page_requests (MessagesList "me" "q" None) pages ∧
    length (page_requests (MessagesList "me" "q" None) pages) = S (length pages) ∧
    w_console w' = w_console w.
Proof.
  intros svc pages w.
  apply (search_messages_abort 5 svc "q" pages (HttpError 503) w); [|simpl; lia].
  by vm_compute.
Defined.

(** After a page of two ids the provider answers with a page whose
    second message has no id. *)
Lemma search_messages_malformed_witness :
  let svc := Service (Credentials (Some "t") None None []) in
  let bad := PDict [("messages", PList [PDict [("id", PStr "c")]; PDict [("threadId", PStr "d")]])] in
  let answers := [inr (page ["a"; "b"] (Some "t1")); inr bad] in
  let w := init_world (Script answers) in
  ∃ w',
    search_messages 5 svc "q" w = (Raise (KeyError "id"), w') ∧
    w_calls w' = w_calls w ++ page_requests (MessagesList "me" "q" None)
                                [page ["a"; "b"] (Some "t1")] ∧
    w_console w' = w_console w ∧
    (KeyError "id" = KeyError "id" ∨ KeyError "id" = TypeError "indices must be integers" ∨
     KeyError "id" = TypeError "object is not subscriptable").
Proof.
  intros svc bad answers w.
  apply (search_messages_malformed 5 svc "q" [page ["a"; "b"] (Some "t1")]
           (MessagesList "me" "q" (Some "t1")) (Script [inr bad]) bad
           (PList [PDict [("id", PStr "c")]; PDict [("threadId", PStr "d")]])
           [PDict [("id", PStr "c")]] (PDict [("threadId", PStr "d")]) [] (KeyError "id") w);
    [|done..|by repeat constructor|done|simpl; lia].
  simpl. split_and!; [done..|]. by exists "t1".
Defined.

Lemma search_messages_fuel_mono_witness :
  let svc := Service (Credentials (Some "t") None None []) in
  let w := init_world (Script (inr <$> three_pages)) in
  search_messages 7 svc "q" w = search_messages 3 svc "q" w.
Proof.
  intros svc w. apply (search_messages_fuel_mono 3 7 svc "q" w); [lia|by vm_compute].
Defined.

Lemma search_messages_diverges_witness :
  (search_messages 50 (Service (Credentials None None None [])) "q"
     (init_world Forever)).1 = OutOfFuel.
Proof.
  apply (search_messages_diverges 50 _ "q" (init_world Forever)).
  intros c req p. by exists (page ["m"] (Some "more")), "more".
Defined.

(** Three matches in pages of two: two requests. *)
Lemma search_messages_mailbox_witness :
  let w := init_world sample_mailbox in
  ∃ w',
    search_messages 2 sample_service "q" w = (Ok (PStr <$> matching sample_mailbox "q"), w') ∧
    w_remote w' = w_remote w ∧
    w_console w' = w_console w ++ [FoundMessages (length (matching sample_mailbox "q"))] ∧
    length (w_calls w') ≤ length (w_calls w) + 2.
Proof.
  intros w.
  apply (search_messages_mailbox 2 sample_service "q" w); [done|].
  vm_compute. lia.
Defined.

Lemma search_messages_typed_witness :
  match (search_messages 3 sample_service "q" (init_world sample_mailbox)).1 with
  | Ok message_ids => Forall (λ v, ∃ i, v = PStr i) message_ids
  | Raise e => provider_error (svc_credentials sample_service) e
  | OutOfFuel => True
  end.
Proof. apply (search_messages_typed (P:=mailbox)). Defined.
