(* ===== verification/Auth.v ===== *)
(** * Auth: get_gmail_service (src/label_rejections.py, lines 11-36)

    The function loads the credential stored in [token.json] when the
    file exists, uses it when it is valid, refreshes it when it has
    expired and carries a refresh token, and otherwise runs the
    interactive login with the client secrets of [credentials.json].  A
    credential that was refreshed or newly granted is written back to
    [token.json].  No exception is caught: a failed load, refresh or
    login ends the run. *)

From stdpp Require Import base tactics option list strings gmap.
From S2P Require Import Prelude PyData World Mock Mailbox.

(** ** The program *)

(** The scope the script asks for (line 11). *)
Definition SCOPES : list string := ["https://www.googleapis.com/auth/gmail.modify"].

(** [not creds or not creds.valid] (line 23) *)
Definition needs_login (creds : option credentials) (t : Z) : bool :=
  match creds with
  | None => true
  | Some c => negb (valid c t)
  end.

(** [creds and creds.expired and creds.refresh_token] (line 24) *)
Definition can_refresh (creds : option credentials) (t : Z) : bool :=
  match creds with
  | None => false
  | Some c => expired c t && has_refresh_token c
  end.

Section auth.
Context {P : Type} `{OAuth P}.
Implicit Types (w : world P) (c : credentials).

(** [Credentials.from_authorized_user_file(path, scopes)] (line 20) *)
Definition from_authorized_user_file (path : string) (sc : list string)
    : prog (world P) credentials :=
  info ← read_json (P:=P) path;
  t ← now (P:=P);
  lift (from_authorized_user_info info sc t).

(** [InstalledAppFlow.from_client_secrets_file(path, scopes)] (lines
    27-29): the flow is the client configuration and the scopes.  The
    file must hold an object with an ["installed"] or a ["web"] entry. *)
Definition from_client_secrets_file (path : string) (sc : list string)
    : prog (world P) (pyval * list string) :=
  config ← read_json (P:=P) path;
  match config with
  | PDict d =>
      if bool_decide (is_Some (dict_lookup d "installed"))
         || bool_decide (is_Some (dict_lookup d "web"))
      then mret (config, sc)
      else raise (ValueError "client secrets must be for a web or installed app")
  | _ => raise (ValueError "client secrets must be for a web or installed app")
  end.

(** The block under [if not creds or not creds.valid] (lines 24-33):
    refresh or log in, then save.  The branch [AttributeError] closes
    the [match] on [creds]: the guard [can_refresh] is false of [None],
    so it is not reached. *)
Definition renew (creds : option credentials) (t : Z) : prog (world P) credentials :=
  creds' ← (if can_refresh creds t then
              match creds with
              | Some c => refresh c
              | None => raise (AttributeError "refresh")
              end
            else
              flow ← from_client_secrets_file "credentials.json" SCOPES;
              run_local_server flow.1 flow.2);
  write_file "token.json" (to_json creds');;
  mret creds'.

(** The function (lines 14-36).  The last branch closes the [match] on
    [creds]: [needs_login] is true of [None] and [renew] yields a
    credential, so it is not reached. *)
Definition get_gmail_service : prog (world P) service :=
  let creds := None in
  present ← path_exists (P:=P) "token.json";
  creds ← (if (present : bool)
           then c ← from_authorized_user_file "token.json" SCOPES; mret (Some c)
           else mret creds);
  t ← now (P:=P);
  creds ← (if needs_login creds t then c ← renew creds t; mret (Some c) else mret creds);
  match creds with
  | Some c => mret (Service c)
  | None => raise (ValueError "no credentials")
  end.

End auth.

(** ** Lemmas: the library calls *)

Lemma needs_login_valid c t : valid c t = true → needs_login (Some c) t = false.
Proof. intros Hv. simpl. by rewrite Hv. Qed.

Lemma can_refresh_valid c t : valid c t = true → can_refresh (Some c) t = false.
Proof.
  unfold valid, can_refresh. intros [_ He%negb_true_iff]%andb_prop. by rewrite He.
Qed.

(** A stored credential is read back exactly when it has a refresh
    token: [to_json] leaves out the fields that are [None], and the
    loader insists on a [refresh_token]. *)
Lemma from_to_json c sc t :
  from_authorized_user_info (to_json c) sc t =
  match refresh_token c with
  | Some rt =>
      Ok (Credentials (token c) (Some rt)
            (Some (default t (expiry c))) sc)
  | None => Raise (ValueError "missing fields refresh_token")
  end.
Proof.
  destruct c as [[tok|] [rt|] [e|] scs]; reflexivity.
Qed.

(** ** Lemmas: the steps of the function *)

Section auth_lemmas.
Context {P : Type} `{OAuth P}.
Implicit Types (w : world P) (c : credentials) (creds : option credentials).

(** What is loaded from [token.json] (lines 16-20). *)
Definition loaded w : result (option credentials) :=
  match w_files w !! "token.json" with
  | None => Ok None
  | Some info => Some <$> from_authorized_user_info info SCOPES (w_clock w)
  end.

(** The function after the load. *)
Lemma get_gmail_service_loaded w :
  get_gmail_service w =
  match loaded w with
  | Ok creds =>
      if needs_login creds (w_clock w) then
        match renew creds (w_clock w) w with
        | (Ok c, w') => (Ok (Service c), w')
        | (Raise e, w') => (Raise e, w')
        | (OutOfFuel, w') => (OutOfFuel, w')
        end
      else
        match creds with
        | Some c => (Ok (Service c), w)
        | None => (Raise (ValueError "no credentials"), w)
        end
  | Raise e => (Raise e, w)
  | OutOfFuel => (OutOfFuel, w)
  end.
Proof.
  unfold get_gmail_service, loaded, from_authorized_user_file, path_exists, read_json, now.
  cbv zeta. unfold mbind, prog_bind, mret, prog_ret, lift, fmap, result_fmap, result_map,
    result_bind. simpl.
  destruct (w_files w !! "token.json") as [info|] eqn:E; simpl; rewrite ?E; simpl.
  - destruct (from_authorized_user_info info SCOPES (w_clock w)) as [c| |]; simpl; [|done..].
    destruct (valid c (w_clock w)); simpl; [done|].
    by destruct (renew (Some c) (w_clock w) w) as [[]].
  - by destruct (renew None (w_clock w) w) as [[]].
Qed.

(** The refresh branch of [renew]. *)
Lemma renew_refresh c w :
  can_refresh (Some c) (w_clock w) = true →
  renew (Some c) (w_clock w) w =
  match oauth_refresh (w_clock w) c (w_remote w) with
  | (inr c', p') => (Ok c', put_file "token.json" (to_json c') (set_remote p' w))
  | (inl e, p') => (Raise e, set_remote p' w)
  end.
Proof.
  intros Hc. unfold renew. rewrite Hc, bind_run. unfold refresh.
  by destruct (oauth_refresh _ _ _) as [[e|c'] p'].
Qed.

(** The login branch of [renew]. *)
Lemma renew_login creds w :
  can_refresh creds (w_clock w) = false →
  renew creds (w_clock w) w =
  match from_client_secrets_file "credentials.json" SCOPES w with
  | (Ok flow, _) =>
      match oauth_authorize (w_clock w) flow.1 flow.2 (w_remote w) with
      | (inr c', p') => (Ok c', put_file "token.json" (to_json c') (set_remote p' w))
      | (inl e, p') => (Raise e, set_remote p' w)
      end
  | (Raise e, _) => (Raise e, w)
  | (OutOfFuel, _) => (OutOfFuel, w)
  end.
Proof.
  intros Hc. unfold renew. rewrite Hc, !bind_run.
  unfold from_client_secrets_file, read_json. rewrite bind_run.
  destruct (w_files w !! "credentials.json") as [[| | | | |d]|]; simpl; try done.
  destruct (_ || _); simpl; [|done]. unfold run_local_server. simpl.
  by destruct (oauth_authorize _ _ _ _) as [[e|c'] p'].
Qed.

Lemma from_client_secrets_file_ok d w :
  w_files w !! "credentials.json" = Some (PDict d) →
  is_Some (dict_lookup d "installed") →
  from_client_secrets_file "credentials.json" SCOPES w = (Ok (PDict d, SCOPES), w).
Proof.
  intros Hf Hi. unfold from_client_secrets_file, read_json. rewrite bind_run, Hf.
  by rewrite bool_decide_eq_true_2.
Qed.

(** What the load of the client secrets raises. *)
Lemma from_client_secrets_file_raises w e w' :
  from_client_secrets_file "credentials.json" SCOPES w = (Raise e, w') →
  e = FileNotFoundError "credentials.json" ∨
  e = ValueError "client secrets must be for a web or installed app".
Proof.
  unfold from_client_secrets_file, read_json. rewrite bind_run.
  destruct (w_files w !! "credentials.json") as [[| | | | |d]|]; simpl;
    try (intros [= <- _]; by eauto).
  destruct (_ || _); [done|]. intros [= <- _]. by right.
Qed.

(** What [renew] raises: the errors of the load of the client secrets
    and the answers of the authorization server.  The guard of the
    refresh branch makes its [AttributeError] unreachable. *)
Lemma renew_raises creds w e w' :
  renew creds (w_clock w) w = (Raise e, w') →
  e = FileNotFoundError "credentials.json" ∨
  e = ValueError "client secrets must be for a web or installed app" ∨
  (∃ c, creds = Some c ∧ (oauth_refresh (w_clock w) c (w_remote w)).1 = inl e) ∨
  (∃ config, (oauth_authorize (w_clock w) config SCOPES (w_remote w)).1 = inl e).
Proof.
  destruct (can_refresh creds (w_clock w)) eqn:Hc.
  - destruct creds as [c|]; [|done]. rewrite renew_refresh by done.
    destruct (oauth_refresh _ _ _) as [[e1|c1] p1] eqn:E; [|done].
    intros [= <- _]. right. right. left. exists c. by rewrite E.
  - rewrite renew_login by done.
    destruct (from_client_secrets_file _ _ _) as [[[config sc]|e1|] w1] eqn:E1; [| |done].
    + assert (sc = SCOPES) as ->.
      { unfold from_client_secrets_file in E1. apply bind_ok_inv in E1 as (v & w2 & _ & E1).
        destruct v as [| | | | |d]; try done. case_match; [|done].
        by injection E1 as _ ->. }
      simpl. destruct (oauth_authorize _ _ _ _) as [[e2|c2] p2] eqn:E; [|done].
      intros [= <- _]. do 3 right. exists config. by rewrite E.
    + intros [= <- _]. apply from_client_secrets_file_raises in E1. tauto.
Qed.

(** Whether the function reaches the authorization server: the
    credential has to be renewed, and it can be refreshed or the client
    secrets are there for the interactive login.  It depends on the
    files and on the time only. *)
Definition login_asks w : bool :=
  match loaded w with
  | Ok creds =>
      needs_login creds (w_clock w) &&
      (can_refresh creds (w_clock w) ||
       is_ok (from_client_secrets_file "credentials.json" SCOPES w).1)
  | _ => false
  end.

(** The number of calls of the function to the authorization server. *)
Definition login_calls w : nat := if login_asks w then 1 else 0.

(** A call that does not reach the authorization server changes
    nothing. *)
Lemma get_gmail_service_quiet w : login_asks w = false → (get_gmail_service w).2 = w.
Proof.
  rewrite get_gmail_service_loaded. unfold login_asks.
  destruct (loaded w) as [creds| |]; [|done..].
  destruct (needs_login creds (w_clock w)); [|by destruct creds]. simpl.
  intros [Hc Hs]%orb_false_elim. rewrite renew_login by done.
  by destruct (from_client_secrets_file _ _ w) as [[]].
Qed.

End auth_lemmas.

(** ** The theorems *)

Lemma expired_not_valid c t : expired c t = true → valid c t = false.
Proof. unfold valid. intros ->. by rewrite andb_false_r. Qed.

Section auth_theorems.
Context {P : Type} `{OAuth P}.
Implicit Types (w : world P) (c : credentials) (creds : option credentials).

(** A valid stored credential is used as it is: the function
    returns a service bound to it and changes nothing, neither the files
    nor the remote side. *)
Theorem get_gmail_service_cached w info c :
  w_files w !! "token.json" = Some info →
  from_authorized_user_info info SCOPES (w_clock w) = Ok c →
  valid c (w_clock w) = true →
  get_gmail_service w = (Ok (Service c), w).
Proof.
  intros Hf Hl Hv. rewrite get_gmail_service_loaded. unfold loaded.
  rewrite Hf, Hl. simpl. by rewrite Hv.
Qed.

(** An expired stored credential with a refresh token is
    refreshed, without the interactive login, and the refreshed
    credential replaces the content of [token.json]. *)
Theorem get_gmail_service_refresh w info c c' p' :
  w_files w !! "token.json" = Some info →
  from_authorized_user_info info SCOPES (w_clock w) = Ok c →
  expired c (w_clock w) = true →
  has_refresh_token c = true →
  oauth_refresh (w_clock w) c (w_remote w) = (inr c', p') →
  get_gmail_service w =
  (Ok (Service c'), put_file "token.json" (to_json c') (set_remote p' w)).
Proof.
  intros Hf Hl He Hr Hx. rewrite get_gmail_service_loaded. unfold loaded.
  rewrite Hf, Hl. simpl. rewrite (expired_not_valid _ _ He). simpl.
  rewrite renew_refresh by (simpl; by rewrite He, Hr). by rewrite Hx.
Qed.

(** [C38] A failed refresh ends the run with the error of the token
    endpoint: the interactive login is not tried and [token.json] is not
    rewritten. *)
Theorem get_gmail_service_refresh_fails w info c e p' :
  w_files w !! "token.json" = Some info →
  from_authorized_user_info info SCOPES (w_clock w) = Ok c →
  expired c (w_clock w) = true →
  has_refresh_token c = true →
  oauth_refresh (w_clock w) c (w_remote w) = (inl e, p') →
  get_gmail_service w = (Raise e, set_remote p' w).
Proof.
  intros Hf Hl He Hr Hx. rewrite get_gmail_service_loaded. unfold loaded.
  rewrite Hf, Hl. simpl. rewrite (expired_not_valid _ _ He). simpl.
  rewrite renew_refresh by (simpl; by rewrite He, Hr). by rewrite Hx.
Qed.

(** [C37] With no usable stored credential, the function runs the
    interactive login with the client secrets and the scope of the
    script, returns a service bound to the credential that was granted
    and writes it to [token.json]. *)
Theorem get_gmail_service_login w creds d c' p' :
  loaded w = Ok creds →
  needs_login creds (w_clock w) = true →
  can_refresh creds (w_clock w) = false →
  w_files w !! "credentials.json" = Some (PDict d) →
  is_Some (dict_lookup d "installed") →
  oauth_authorize (w_clock w) (PDict d) SCOPES (w_remote w) = (inr c', p') →
  get_gmail_service w =
  (Ok (Service c'), put_file "token.json" (to_json c') (set_remote p' w)).
Proof.
  intros Hl Hn Hc Hf Hi Hx. rewrite get_gmail_service_loaded, Hl, Hn.
  rewrite renew_login by done. rewrite (from_client_secrets_file_ok d) by done.
  simpl. by rewrite Hx.
Qed.

(** When a login is needed and [credentials.json] is missing,
    the function raises [FileNotFoundError] and leaves the world as it
    was. *)
Theorem get_gmail_service_no_secrets w creds :
  loaded w = Ok creds →
  needs_login creds (w_clock w) = true →
  can_refresh creds (w_clock w) = false →
  w_files w !! "credentials.json" = None →
  get_gmail_service w = (Raise (FileNotFoundError "credentials.json"), w).
Proof.
  intros Hl Hn Hc Hf. rewrite get_gmail_service_loaded, Hl, Hn.
  rewrite renew_login by done.
  unfold from_client_secrets_file, read_json. by rewrite bind_run, Hf.
Qed.

(** [C39] The scopes stored in [token.json] play no part.  A stored
    credential that is valid is accepted whatever scopes the file
    records, and the service is bound to a credential that claims the
    scope of the script: the login is not run again for a credential
    that was granted other scopes. *)
Theorem get_gmail_service_ignores_stored_scopes w tok rt e stored :
  w_files w !! "token.json"
    = Some (to_json (Credentials (Some tok) (Some rt) (Some e) stored)) →
  (w_clock w < e)%Z →
  get_gmail_service w = (Ok (Service (Credentials (Some tok) (Some rt) (Some e) SCOPES)), w).
Proof.
  intros Hf He. rewrite get_gmail_service_loaded. unfold loaded.
  rewrite Hf, from_to_json. simpl. unfold valid, expired. simpl.
  by rewrite bool_decide_eq_false_2 by lia.
Qed.

(** [C40] A credential without a refresh token cannot be loaded back:
    [to_json] leaves the missing field out and the loader requires it, so
    with such a [token.json] the function raises [ValueError] before
    anything else happens. *)
Theorem get_gmail_service_reload_fails w c :
  w_files w !! "token.json" = Some (to_json c) →
  refresh_token c = None →
  get_gmail_service w = (Raise (ValueError "missing fields refresh_token"), w).
Proof.
  intros Hf Hr. rewrite get_gmail_service_loaded. unfold loaded.
  by rewrite Hf, from_to_json, Hr.
Qed.

Context `{!OAuthLawful P}.

Lemma renew_post creds w c w' :
  (∀ c0, creds = Some c0 → scopes c0 = SCOPES) →
  renew creds (w_clock w) w = (Ok c, w') →
  valid c (w_clock w) = true ∧ scopes c = SCOPES ∧
  w_calls w' = w_calls w ∧ w_console w' = w_console w ∧ w_clock w' = w_clock w ∧
  w_files w' = <["token.json" := to_json c]> (w_files w).
Proof.
  intros Hsc. destruct (can_refresh creds (w_clock w)) eqn:Hc.
  - destruct creds as [c0|]; [|done]. rewrite renew_refresh by done.
    destruct (oauth_refresh _ _ _) as [[e|c'] p'] eqn:Hx; [done|].
    intros [= <- <-]. split; [by eapply refresh_valid|].
    split; [|done]. erewrite refresh_scopes by done. by apply Hsc.
  - rewrite renew_login by done.
    destruct (from_client_secrets_file _ _ w) as [[[cfg sc]| |] w1] eqn:Hfl; [|done..].
    assert (sc = SCOPES) as ->.
    { unfold from_client_secrets_file, read_json in Hfl. rewrite bind_run in Hfl.
      destruct (w_files w !! "credentials.json") as [[| | | | |d]|]; simpl in Hfl; try done.
      destruct (_ || _); simpl in Hfl; [|done]. by injection Hfl as _ <- _. }
    simpl. destruct (oauth_authorize _ _ _ _) as [[e|c'] p'] eqn:Hx; [done|].
    intros [= <- <-]. split; [by eapply authorize_valid|].
    split; [by eapply authorize_scopes|done].
Qed.

(** [C5] What the rest of the script can rely on.  When
    [get_gmail_service] returns, the credential of the service is valid at
    the time of the call and claims the scope of the script; no API
    request was sent and nothing was printed; and [token.json] either was
    not touched or holds that credential. *)
Theorem get_gmail_service_post w svc w' :
  get_gmail_service w = (Ok svc, w') →
  valid (svc_credentials svc) (w_clock w) = true ∧
  scopes (svc_credentials svc) = SCOPES ∧
  w_calls w' = w_calls w ∧ w_console w' = w_console w ∧
  (w' = w ∨ w_files w' = <["token.json" := to_json (svc_credentials svc)]> (w_files w)).
Proof.
  rewrite get_gmail_service_loaded.
  destruct (loaded w) as [creds| |] eqn:Hl; [|done..].
  assert (∀ c0, creds = Some c0 → scopes c0 = SCOPES) as Hsc.
  { intros c0 ->. unfold loaded in Hl.
    destruct (w_files w !! "token.json") as [[| | | | |d]|]; try done.
    simpl in Hl. destruct (dict_lookup d "refresh_token"); [|done].
    by injection Hl as <-. }
  destruct (needs_login creds (w_clock w)) eqn:Hn.
  - destruct (renew creds (w_clock w) w) as [[c| |] w1] eqn:Hr; [|done..].
    intros [= <- <-]. apply renew_post in Hr as (?&?&?&?&?&?); [|done].
    simpl. auto 10.
  - destruct creds as [c|]; [|done]. intros [= <- <-]. simpl.
    simpl in Hn. apply negb_false_iff in Hn. auto 10.
Qed.

(** [C22] The credential the function saves is the credential the next
    call loads.  After a call that returns a credential with a refresh
    token and an expiry, whether it was found in [token.json], refreshed
    or newly granted, a second call at the same time returns the same
    service from [token.json], without a call to the authorization
    server and without writing anything. *)
Theorem get_gmail_service_again w svc w' :
  get_gmail_service w = (Ok svc, w') →
  is_Some (refresh_token (svc_credentials svc)) → is_Some (expiry (svc_credentials svc)) →
  get_gmail_service w' = (Ok svc, w').
Proof.
  rewrite !get_gmail_service_loaded.
  destruct (loaded w) as [creds| |] eqn:Hl; [|done..].
  destruct (needs_login creds (w_clock w)) eqn:Hn;
    [|destruct creds as [c|]; [|done]; intros [= <- <-] _ _; by rewrite Hl, Hn].
  destruct (renew creds (w_clock w) w) as [[c| |] w1] eqn:Hr; [|done..].
  intros [= <- <-] [rt Hrt] [e He]. simpl in Hrt, He.
  apply renew_post in Hr as (Hv & Hsc & _ & _ & Hclock & Hfiles).
  - assert (loaded w1 = Ok (Some c)) as ->.
    { unfold loaded. rewrite Hfiles, lookup_insert_eq, from_to_json, Hrt, He.
      destruct c. simpl in *. by subst. }
    by rewrite Hclock, (needs_login_valid _ _ Hv).
  - intros c0 ->. unfold loaded in Hl.
    destruct (w_files w !! "token.json") as [[| | | | |d]|]; try done.
    simpl in Hl. destruct (dict_lookup d "refresh_token"); [|done].
    by injection Hl as <-.
Qed.

(** What [get_gmail_service] raises: the error of the load of
    [token.json], the errors of the load of [credentials.json], or an
    answer of the authorization server.  The function raises nothing of
    its own: the service is never built without a credential. *)
Theorem get_gmail_service_raises w e w' :
  get_gmail_service w = (Raise e, w') →
  loaded w = Raise e ∨
  e = FileNotFoundError "credentials.json" ∨
  e = ValueError "client secrets must be for a web or installed app" ∨
  (∃ c, loaded w = Ok (Some c) ∧ (oauth_refresh (w_clock w) c (w_remote w)).1 = inl e) ∨
  (∃ config, (oauth_authorize (w_clock w) config SCOPES (w_remote w)).1 = inl e).
Proof.
  rewrite get_gmail_service_loaded.
  destruct (loaded w) as [creds|e1|] eqn:Hl; [|intros [= <- _]; by left|done].
  destruct (needs_login creds (w_clock w)) eqn:Hn.
  - destruct (renew creds (w_clock w) w) as [[c|e1|] w1] eqn:Hr; [done| |done].
    intros [= <- _]. right.
    destruct (renew_raises _ _ _ _ Hr) as [?|[?|[(c & -> & ?)|?]]]; eauto 6.
  - by destruct creds.
Qed.

End auth_theorems.

(** ** The scenarios *)

Definition secrets : pyval := PDict [("installed", PDict [("client_id", PStr "app")])].

(** A first run on a machine with the client secrets only. *)
Definition first_run_world : world mailbox :=
  World {["credentials.json" := secrets]} 1000 fresh_mailbox [] [].

(** A later run, the stored credential still valid. *)
Definition cached_world : world mailbox :=
  World {["credentials.json" := secrets; "token.json" := to_json sample_credentials]}
    1000 sample_mailbox [] [].

(** A run after the stored credential has expired. *)
Definition expired_world : world mailbox :=
  World {["credentials.json" := secrets; "token.json" := to_json sample_credentials]}
    9000 sample_mailbox [] [].

Lemma get_gmail_service_cached_witness :
  get_gmail_service cached_world =
  (Ok (Service (Credentials (Some "ya29.0") (Some "1//0") (Some 5000%Z) SCOPES)),
   cached_world).
Proof.
  by apply (get_gmail_service_cached cached_world (to_json sample_credentials)).
Defined.

Lemma get_gmail_service_refresh_witness :
  let c := Credentials (Some "ya29.0") (Some "1//0") (Some 5000%Z) SCOPES in
  let r := oauth_refresh 9000 c sample_mailbox in
  ∃ c', r.1 = inr c' ∧
    get_gmail_service expired_world =
    (Ok (Service c'), put_file "token.json" (to_json c') (set_remote r.2 expired_world)).
Proof.
  intros c r. eexists. split; [reflexivity|].
  by apply (get_gmail_service_refresh expired_world (to_json sample_credentials) c).
Defined.

Lemma get_gmail_service_refresh_fails_witness :
  let revoked := with_grants (mb_grants sample_mailbox) [] 1 sample_mailbox in
  let w := World {["token.json" := to_json sample_credentials]} 9000 revoked [] [] in
  get_gmail_service w = (Raise RefreshError, set_remote revoked w).
Proof.
  intros revoked w.
  by apply (get_gmail_service_refresh_fails w (to_json sample_credentials)
              (Credentials (Some "ya29.0") (Some "1//0") (Some 5000%Z) SCOPES)).
Defined.

Lemma get_gmail_service_login_witness :
  let r := oauth_authorize 1000 secrets SCOPES fresh_mailbox in
  ∃ c', r.1 = inr c' ∧
    get_gmail_service first_run_world =
    (Ok (Service c'), put_file "token.json" (to_json c') (set_remote r.2 first_run_world)).
Proof.
  intros r. eexists. split; [reflexivity|].
  by apply (get_gmail_service_login first_run_world None
              [("installed", PDict [("client_id", PStr "app")])]).
Defined.

Lemma get_gmail_service_no_secrets_witness :
  let w := World ∅ 1000 fresh_mailbox [] [] in
  get_gmail_service w = (Raise (FileNotFoundError "credentials.json"), w).
Proof. intros w. by apply (get_gmail_service_no_secrets w None). Defined.

Lemma get_gmail_service_ignores_stored_scopes_witness :
  let stored := Credentials (Some "ya29.ro") (Some "1//0") (Some 5000%Z)
                  ["https://www.googleapis.com/auth/gmail.readonly"] in
  let w := World {["token.json" := to_json stored]} 1000 sample_mailbox [] [] in
  get_gmail_service w =
  (Ok (Service (Credentials (Some "ya29.ro") (Some "1//0") (Some 5000%Z) SCOPES)), w).
Proof.
  intros stored w.
  by apply (get_gmail_service_ignores_stored_scopes w "ya29.ro" "1//0" 5000%Z
              ["https://www.googleapis.com/auth/gmail.readonly"]).
Defined.

Lemma get_gmail_service_reload_fails_witness :
  let c := Credentials (Some "ya29.0") None (Some 5000%Z) SCOPES in
  let w := World {["token.json" := to_json c]} 1000 sample_mailbox [] [] in
  get_gmail_service w = (Raise (ValueError "missing fields refresh_token"), w).
Proof. intros c w. by apply (get_gmail_service_reload_fails w c). Defined.

Lemma get_gmail_service_post_witness :
  let r := get_gmail_service first_run_world in
  ∃ svc, r.1 = Ok svc ∧
    valid (svc_credentials svc) (w_clock first_run_world) = true ∧
    scopes (svc_credentials svc) = SCOPES ∧
    w_calls r.2 = w_calls first_run_world ∧ w_console r.2 = w_console first_run_world ∧
    (r.2 = first_run_world ∨
     w_files r.2 = <["token.json" := to_json (svc_credentials svc)]> (w_files first_run_world)).
Proof.
  intros r. eexists. split; [by vm_compute|].
  apply (get_gmail_service_post first_run_world _ r.2).
  by vm_compute.
Defined.

(** ** The effects of a run *)

(** The function keeps every frame of the login. *)
Lemma get_gmail_service_frame `{OAuth P} (R : relation (world P)) `{!LoginFrame R} :
  preserves R (get_gmail_service (P:=P)).
Proof.
  unfold get_gmail_service, renew, from_authorized_user_file, from_client_secrets_file.
  frame.
Qed.

(** Whatever it returns or raises, the function sends no request to the
    mailbox and prints nothing. *)
Lemma get_gmail_service_local `{OAuth P} : preserves local (get_gmail_service (P:=P)).
Proof. apply get_gmail_service_frame; tc_solve. Qed.

#[export] Hint Resolve get_gmail_service_frame : prog.

(** The function returns or raises: it has no loop. *)
Lemma total_get_gmail_service `{OAuth P} : total (get_gmail_service (P:=P)).
Proof.
  unfold get_gmail_service, renew, from_authorized_user_file, from_client_secrets_file.
  totality.
Qed.

#[export] Hint Resolve total_get_gmail_service : prog.

(** The credential refreshed by a run after the expiry is found by the
    next call. *)
Lemma get_gmail_service_again_witness :
  let w' := (get_gmail_service expired_world).2 in
  get_gmail_service w' =
  (Ok (Service (Credentials (Some "ya29.1") (Some "1//0") (Some 12600%Z) SCOPES)), w').
Proof.
  intros w'.
  apply (get_gmail_service_again expired_world
           (Service (Credentials (Some "ya29.1") (Some "1//0") (Some 12600%Z) SCOPES)) w').
  - reflexivity.
  - by eexists.
  - by eexists.
Defined.

Lemma get_gmail_service_raises_witness :
  loaded (World ∅ 0 sample_mailbox [] []) = Raise (FileNotFoundError "credentials.json") ∨
  FileNotFoundError "credentials.json" = FileNotFoundError "credentials.json" ∨
  FileNotFoundError "credentials.json"
    = ValueError "client secrets must be for a web or installed app" ∨
  (∃ c, loaded (World ∅ 0 sample_mailbox [] []) = Ok (Some c) ∧
     (oauth_refresh 0 c sample_mailbox).1 = inl (FileNotFoundError "credentials.json")) ∨
  (∃ config, (oauth_authorize 0 config SCOPES sample_mailbox).1
             = inl (FileNotFoundError "credentials.json")).
Proof.
  apply (get_gmail_service_raises (World ∅ 0 sample_mailbox [] [])
           (FileNotFoundError "credentials.json") (World ∅ 0 sample_mailbox [] [])).
  reflexivity.
Defined.
