(* ===== verification/Pipeline.v ===== *)
(** * Pipeline: main (src/label_rejections.py, lines 108-139)

    [main] runs the four functions in sequence and prints a last line;
    [run_module] is the entry point.  The phases of a run are the states
    of a small machine, [step]; a run of [main] is a path of this machine
    from [Start] to [Done] or to [Failed], and the order in which the
    run talks to the provider is an invariant of the machine.  [budget]
    bounds the requests of a run, whatever its outcome.  The console of
    a run is followed the same way: the last line is printed exactly
    when the run returns, and every line printed has a text. *)

From Stdlib Require Import Ascii.
From stdpp Require Import base tactics option list strings relations sorting gmap.
From S2P Require Import Prelude PyData World Mock Mailbox Batch Labels Search Auth.

(** ** The program *)

(** A phrase between double quotes. *)
Definition quoted (s : string) : string :=
  String "034"%char EmptyString +:+ s +:+ String "034"%char EmptyString.

(** The search query (lines 117-126): the adjacent literals, concatenated. *)
Definition query : string :=
  "in:inbox (" +:+
  quoted "we regret to inform you" +:+ " OR " +:+
  quoted "we are unable to move forward" +:+ " OR " +:+
  quoted "we have decided not to move forward" +:+ " OR " +:+
  quoted "you were not selected" +:+ " OR " +:+
  quoted "Thank you for your interest in" +:+ " OR " +:+
  quoted "Thank you for applying to" +:+
  ")".

Section pipeline.
Context {P : Type} `{GmailApi P} `{OAuth P}.
Implicit Types (svc : service) (w : world P) (fuel : nat).

(** The body of [main] after the service is built (lines 111-135). *)
Definition label_rejections svc fuel : prog (world P) unit :=
  let label_name := "rejections" in
  label_id ← get_or_create_label svc label_name;
  message_ids ← search_messages fuel svc query;
  add_label_to_messages svc message_ids label_id;;
  print AllDone.

(** [main] (lines 108-135). *)
Definition main fuel : prog (world P) unit :=
  service ← get_gmail_service;
  label_rejections service fuel.

(** The entry point (lines 138-139): the module runs [main] when it is
    executed as a script, and nothing when it is imported; [name] is the
    value of [__name__]. *)
Definition run_module (name : string) fuel : prog (world P) unit :=
  if decide (name = "__main__") then main fuel else mret tt.

(** The exit status of the interpreter after the module has run: the
    script catches no exception and does not call [sys.exit], so the
    status is 0 when the module has run to its end and 1 after an
    uncaught exception.  A run that is out of fuel has not ended. *)
Definition exit_status (r : result unit) : option Z :=
  match r with
  | Ok _ => Some 0%Z
  | Raise _ => Some 1%Z
  | OutOfFuel => None
  end.

(** ** The phases of a run *)

Inductive phase : Type :=
| Start
| Authenticated (svc : service)
| LabelResolved (svc : service) (label_id : pyval)
| MessagesFound (svc : service) (label_id : pyval) (message_ids : list pyval)
| MessagesLabeled
| Done
| Failed (e : exn).

(** One function of the script per step; a function that raises takes
    the run to [Failed]. *)
Inductive step (fuel : nat) : phase * world P → phase * world P → Prop :=
| step_auth w svc w' :
    get_gmail_service w = (Ok svc, w') →
    step fuel (Start, w) (Authenticated svc, w')
| step_auth_fail w e w' :
    get_gmail_service w = (Raise e, w') →
    step fuel (Start, w) (Failed e, w')
| step_label svc w label_id w' :
    get_or_create_label svc "rejections" w = (Ok label_id, w') →
    step fuel (Authenticated svc, w) (LabelResolved svc label_id, w')
| step_label_fail svc w e w' :
    get_or_create_label svc "rejections" w = (Raise e, w') →
    step fuel (Authenticated svc, w) (Failed e, w')
| step_search svc label_id w message_ids w' :
    search_messages fuel svc query w = (Ok message_ids, w') →
    step fuel (LabelResolved svc label_id, w) (MessagesFound svc label_id message_ids, w')
| step_search_fail svc label_id w e w' :
    search_messages fuel svc query w = (Raise e, w') →
    step fuel (LabelResolved svc label_id, w) (Failed e, w')
| step_apply svc label_id message_ids w w' :
    add_label_to_messages svc message_ids label_id w = (Ok tt, w') →
    step fuel (MessagesFound svc label_id message_ids, w) (MessagesLabeled, w')
| step_apply_fail svc label_id message_ids w e w' :
    add_label_to_messages svc message_ids label_id w = (Raise e, w') →
    step fuel (MessagesFound svc label_id message_ids, w) (Failed e, w')
| step_done w :
    step fuel (MessagesLabeled, w) (Done, put_line AllDone w).

(** The final phases. *)
Definition terminal (ph : phase) : bool :=
  match ph with Done | Failed _ => true | _ => false end.

(** The phase a finished run of [main] is in. *)
Definition result_of (ph : phase) : result unit :=
  match ph with Failed e => Raise e | _ => Ok tt end.

(** The place of a request in the order of the pipeline, and the
    highest place a phase may have reached. *)
Definition request_rank (req : request) : nat :=
  match req with
  | LabelsList _ | LabelsCreate _ _ => 1
  | MessagesList _ _ _ => 2
  | MessagesBatchModify _ _ => 3
  end.

Definition phase_rank (ph : phase) : nat :=
  match ph with
  | Start | Authenticated _ => 0
  | LabelResolved _ _ => 1
  | MessagesFound _ _ _ => 2
  | MessagesLabeled | Done | Failed _ => 3
  end.

(** [ordered ph w0 w]: since [w0] the requests went out in the order of
    the pipeline, none of them ahead of phase [ph]. *)
Definition ordered (ph : phase) (w0 w : world P) : Prop :=
  ∃ new, w_calls w = w_calls w0 ++ new ∧
    Forall (λ req, request_rank req ≤ phase_rank ph) new ∧
    StronglySorted le (request_rank <$> new).

End pipeline.

(** ** The machine *)

Section machine.
Context {P : Type} `{GmailApi P} `{OAuth P}.
Implicit Types (svc : service) (w : world P) (fuel : nat) (ph : phase).
Implicit Types (cfg : phase * world P).

Lemma step_deterministic fuel cfg cfg1 cfg2 :
  step fuel cfg cfg1 → step fuel cfg cfg2 → cfg1 = cfg2.
Proof. intros [] Hs; inversion Hs; congruence. Qed.

Lemma terminal_nf fuel ph w : terminal ph = true → nf (step fuel) (ph, w).
Proof. intros Ht [cfg Hs]. by inversion Hs; subst. Qed.

(** The machine is stuck in a phase that is not final only when the
    search runs out of fuel. *)
Lemma step_stuck fuel ph w :
  nf (step fuel) (ph, w) →
  terminal ph = true ∨
  ∃ svc label_id, ph = LabelResolved svc label_id ∧
    (search_messages fuel svc query w).1 = OutOfFuel.
Proof.
  intros Hnf. destruct ph as [|svc|svc id|svc id ids| | |e]; [| | | | |by left..].
  - pose proof (total_get_gmail_service w) as Ht.
    destruct (get_gmail_service w) as [[svc|e|] w'] eqn:E; [| |done];
      destruct Hnf; eexists; by constructor.
  - pose proof (total_get_or_create_label svc "rejections" w) as Ht.
    destruct (get_or_create_label svc "rejections" w) as [[id|e|] w'] eqn:E; [| |done];
      destruct Hnf; eexists; by constructor.
  - destruct (search_messages fuel svc query w) as [[ids|e|] w'] eqn:E;
      [destruct Hnf; eexists; by constructor..|].
    right. exists svc, id. by rewrite E.
  - pose proof (total_add_label_to_messages svc ids id w) as Ht.
    destruct (add_label_to_messages svc ids id w) as [[[]|e|] w'] eqn:E; [| |done];
      destruct Hnf; eexists; by constructor.
  - destruct Hnf. eexists. constructor.
Qed.

(** [main] walks the machine: to [Done] when it returns, to [Failed]
    when it raises, and up to the search when the search runs out of
    fuel. *)
Lemma main_steps fuel w :
  match main fuel w with
  | (Ok _, w') => rtc (step fuel) (Start, w) (Done, w')
  | (Raise e, w') => rtc (step fuel) (Start, w) (Failed e, w')
  | (OutOfFuel, _) =>
      ∃ svc label_id w1, rtc (step fuel) (Start, w) (LabelResolved svc label_id, w1) ∧
        (search_messages fuel svc query w1).1 = OutOfFuel
  end.
Proof.
  unfold main, label_rejections. cbv zeta. rewrite bind_run.
  pose proof (total_get_gmail_service w) as T1.
  destruct (get_gmail_service w) as [[svc|e|] w1] eqn:E1;
    [|by apply rtc_once; constructor|done].
  rewrite bind_run. pose proof (total_get_or_create_label svc "rejections" w1) as T2.
  destruct (get_or_create_label _ _ _) as [[id|e|] w2] eqn:E2;
    [|by do 2 (econstructor; [by constructor|])|done].
  rewrite bind_run.
  destruct (search_messages _ _ _ _) as [[ids|e|] w3] eqn:E3;
    [|by do 3 (econstructor; [by constructor|])|].
  2: { exists svc, id, w2. rewrite E3. split; [|done].
       by do 2 (econstructor; [by constructor|]). }
  rewrite bind_run. pose proof (total_add_label_to_messages svc ids id w3) as T4.
  destruct (add_label_to_messages _ _ _ _) as [[[]|e|] w4] eqn:E4;
    [|by do 4 (econstructor; [by constructor|])|done].
  do 4 (econstructor; [by constructor|]). apply rtc_once. constructor.
Qed.

End machine.

(** ** The order of the requests *)

Section order.
Context {P : Type} `{GmailApi P} `{OAuth P}.
Implicit Types (svc : service) (w : world P) (fuel : nat) (ph : phase).

Lemma ordered_start w : ordered Start w w.
Proof. exists []. rewrite app_nil_r. repeat constructor. Qed.

(** A step that sends requests of one place [k], between the place of
    the phase it leaves and the place of the phase it enters, keeps the
    order. *)
Lemma ordered_extend k Q ph ph' w0 w w' :
  ordered ph w0 w → sends Q w w' →
  (∀ req, Q req = true → request_rank req = k) →
  phase_rank ph ≤ k ≤ phase_rank ph' →
  ordered ph' w0 w'.
Proof.
  intros (new & E & Hb & Hs) [(new' & E' & HQ) _] Hk [Hlo Hhi].
  rewrite forallb_forall in HQ. setoid_rewrite <-list_elem_of_In in HQ.
  rewrite Forall_forall in Hb.
  exists (new ++ new'). split; [by rewrite E', E, app_assoc|]. split.
  - apply Forall_app. rewrite !Forall_forall. split.
    + intros r Hr. specialize (Hb r Hr). simpl in Hb. lia.
    + intros r Hr. rewrite (Hk r) by auto. lia.
  - rewrite fmap_app. apply StronglySorted_app_2; [|done|].
    + intros ?? (r1 & -> & H1)%list_elem_of_fmap (r2 & -> & H2)%list_elem_of_fmap.
      specialize (Hb r1 H1). simpl in Hb. rewrite (Hk r2) by auto. lia.
    + clear E'. induction new' as [|r rs IH]; [constructor|].
      simpl. constructor; [apply IH; intros; apply HQ; by right|].
      apply Forall_fmap, Forall_forall. intros r' Hr'. simpl.
      rewrite (Hk r), (Hk r'); [done|apply HQ; by right|apply HQ; by left].
Qed.

(** A step that sends nothing keeps the order. *)
Lemma ordered_local ph ph' w0 w w' :
  ordered ph w0 w → w_calls w' = w_calls w → phase_rank ph ≤ phase_rank ph' →
  ordered ph' w0 w'.
Proof.
  intros (new & E & Hb & Hs) E' Hle. exists new. rewrite E'. split_and!; [done| |done].
  eapply Forall_impl; [exact Hb|]. simpl. lia.
Qed.

Lemma ordered_step fuel ph w ph' w' w0 :
  step fuel (ph, w) (ph', w') → ordered ph w0 w → ordered ph' w0 w'.
Proof.
  intros Hs Ho. inversion Hs; subst;
    match goal with
    | E : get_gmail_service _ = _ |- _ =>
        pose proof (get_gmail_service_local w) as [Hc _]; rewrite E in Hc;
        eapply ordered_local; [done..|simpl; lia]
    | E : get_or_create_label ?svc ?n _ = _ |- _ =>
        pose proof (get_or_create_label_sends svc n w) as Hc; rewrite E in Hc;
        eapply (ordered_extend 1); [done..| |simpl; lia]; by intros []
    | E : search_messages ?f ?svc ?q _ = _ |- _ =>
        pose proof (search_messages_sends f svc q w) as Hc; rewrite E in Hc;
        eapply (ordered_extend 2); [done..| |simpl; lia]; by intros []
    | E : add_label_to_messages ?svc ?ids ?id _ = _ |- _ =>
        pose proof (add_label_to_messages_sends svc ids id w) as Hc; rewrite E in Hc;
        eapply (ordered_extend 3); [done..| |simpl; lia]; by intros []
    | _ => eapply ordered_local; [done..|simpl; lia]
    end.
Qed.

(** The invariant of the machine: in every state a run reaches the
    requests sent so far are in the order of the pipeline, and none is
    ahead of the phase. *)
Lemma reachable_ordered fuel w0 ph w :
  rtc (step fuel) (Start, w0) (ph, w) → ordered ph w0 w.
Proof.
  intros Hr.
  apply (rtc_ind_r (λ cfg, ordered cfg.1 w0 cfg.2) (Start, w0)) in Hr;
    [done|apply ordered_start|].
  intros [ph1 w1] [ph2 w2] _ Hs IH. by eapply ordered_step.
Qed.

End order.

(** ** Frames *)

Definition any_request (req : request) : bool := true.
Definition any_line (l : line) : bool := true.

(** After the login the script keeps every frame of all the requests
    and lines. *)
Lemma label_rejections_frame `{GmailApi P} (R : relation (world P))
    `{!Frame any_request any_line R} svc fuel :
  preserves R (label_rejections (P:=P) svc fuel).
Proof.
  pose proof (frame_weaken any_request is_label_request any_line is_label_line R
                ltac:(done) ltac:(done) _).
  pose proof (frame_weaken any_request is_search_request any_line is_search_line R
                ltac:(done) ltac:(done) _).
  pose proof (frame_weaken any_request is_batch_request any_line is_batch_line R
                ltac:(done) ltac:(done) _).
  unfold label_rejections. frame. by apply (frame_print (Q:=any_request) (L:=any_line)).
Qed.

#[export] Hint Resolve label_rejections_frame : prog.

(** The script keeps every frame of the login and of the requests. *)
Lemma main_frame `{GmailApi P} `{OAuth P} (R : relation (world P))
    `{!Frame any_request any_line R} `{!LoginFrame R} fuel :
  preserves R (main (P:=P) fuel).
Proof. unfold main. frame. Qed.

(** ** The last line and the fuel of a run *)

Section completes.
Context {P : Type} `{GmailApi P} `{OAuth P}.
Implicit Types (svc : service) (w : world P) (fuel : nat).

(** The three functions print lines of progress; the script prints its
    last line exactly when it returns. *)
Lemma label_rejections_completes svc fuel : completes (label_rejections (P:=P) svc fuel).
Proof.
  unfold label_rejections. cbv zeta.
  apply completes_bind; [apply get_or_create_label_frame, prints_frame_weaken; by intros []|].
  intros label_id.
  apply completes_bind; [apply search_messages_frame, prints_frame_weaken; by intros []|].
  intros message_ids.
  apply completes_bind; [apply add_label_to_messages_frame, prints_frame_weaken; by intros []|].
  intros _. apply completes_print.
Qed.

Lemma main_completes fuel : completes (main (P:=P) fuel).
Proof.
  unfold main. apply completes_bind; [|intros svc; apply label_rejections_completes].
  apply (preserves_weaken local); [apply local_prints|apply get_gmail_service_local].
Qed.

(** More fuel does not change a run that did not run out of it. *)
Lemma label_rejections_fuel_mono fuel fuel' svc w :
  fuel ≤ fuel' → (label_rejections svc fuel w).1 ≠ OutOfFuel →
  label_rejections svc fuel' w = label_rejections svc fuel w.
Proof.
  intros Hle. unfold label_rejections, search_messages. cbv zeta. rewrite !bind_run.
  destruct (get_or_create_label _ _ _) as [[l|e|] w1]; [|done..]. rewrite !bind_run.
  intros Hrun. rewrite (search_loop_fuel_mono fuel fuel'); [done|done|].
  by destruct (search_loop fuel _ _ _ _) as [[]].
Qed.

End completes.

(** ** The requests of a run *)

(** [budget fuel new]: at most two requests on labels, then at most
    [fuel] searches, then batch modifications of 1 to 1000 ids each. *)
Definition budget (fuel : nat) (new : list request) : Prop :=
  ∃ ls ss bs, new = ls ++ ss ++ bs ∧
    at_most is_label_request 2 ls ∧ at_most is_search_request fuel ss ∧
    forallb (within 1 1000) bs = true.

Lemma label_rejections_budget `{GmailApi P} svc fuel :
  emits (P:=P) (budget fuel) (label_rejections svc fuel).
Proof.
  unfold label_rejections. cbv zeta.
  eapply (emits_bind _ (λ new, ∃ ss bs, new = ss ++ bs ∧
            at_most is_search_request fuel ss ∧ forallb (within 1 1000) bs = true));
    [apply get_or_create_label_emits|intros label_id|exists [], []; auto with prog|].
  - eapply (emits_bind _ (λ bs, forallb (within 1 1000) bs = true));
      [apply search_messages_emits|intros message_ids|done|by eauto].
    eapply (emits_bind _ (λ new, new = []));
      [apply add_label_to_messages_emits|by intros []; apply emits_print|done|].
    intros bs ? [Hbs _] ->. by rewrite app_nil_r.
  - intros ls ? Hls (ss & bs & -> & Hss & Hbs). by exists ls, ss, bs.
Qed.

Lemma main_budget `{GmailApi P} `{OAuth P} fuel : emits (P:=P) (budget fuel) (main fuel).
Proof.
  unfold main.
  eapply (emits_bind (λ new, new = []));
    [|intros svc; apply label_rejections_budget|exists [], [], []; auto with prog|by intros ? ? ->].
  apply emits_silent; [done|]. intros w. apply get_gmail_service_local.
Qed.

(** ** The entry point *)

Lemma run_module_script `{GmailApi P} `{OAuth P} fuel (w : world P) :
  run_module "__main__" fuel w = main fuel w.
Proof. done. Qed.

(** Importing the module sends nothing, writes nothing and prints
    nothing. *)
Lemma run_module_imported `{GmailApi P} `{OAuth P} name fuel (w : world P) :
  name ≠ "__main__" → run_module name fuel w = (Ok tt, w).
Proof. intros Hn. unfold run_module. by rewrite decide_False. Qed.

Lemma run_module_budget `{GmailApi P} `{OAuth P} name fuel :
  emits (P:=P) (budget fuel) (run_module name fuel).
Proof.
  unfold run_module. case_decide; [apply main_budget|].
  apply emits_silent; [|done]. exists [], [], []. auto with prog.
Qed.

(** ** The run of the script *)

Section runs.
Context {P : Type} `{GmailApi P} `{OAuth P}.
Implicit Types (svc : service) (w : world P) (fuel : nat) (ph : phase).

(** [C6] The script and the machine agree: [main] returns in world [w']
    exactly when the machine goes from [Start] to [Done] with [w'], and
    raises [e] exactly when the machine goes to [Failed e]; the five
    functions run in the order of the phases and the first that raises
    ends the run. *)
Theorem main_run fuel w ph w' :
  terminal ph = true →
  rtc (step fuel) (Start, w) (ph, w') ↔ main fuel w = (result_of ph, w').
Proof.
  intros Ht. pose proof (main_steps fuel w) as Hm. split.
  - intros Hr.
    assert (∀ cfg, rtc (step fuel) (Start, w) cfg → nf (step fuel) cfg → (ph, w') = cfg)
      as Hu by eauto using rtc_nf_unique, step_deterministic, terminal_nf.
    destruct (main fuel w) as [[[]|e|] w1].
    + by injection (Hu _ Hm (terminal_nf fuel Done w1 eq_refl)) as -> ->.
    + by injection (Hu _ Hm (terminal_nf fuel (Failed e) w1 eq_refl)) as -> ->.
    + destruct Hm as (svc & id & w2 & Hr2 & Ho).
      assert ((ph, w') = (LabelResolved svc id, w2)) as [= -> ->]; [|done].
      apply Hu; [done|]. intros [cfg Hs].
      inversion Hs as [| | | |? ? ? ? ? E|? ? ? ? ? E| | |]; simplify_eq; by rewrite E in Ho.
  - intros E. rewrite E in Hm. by destruct ph.
Qed.

(** [C8] Whenever [main] returns or raises, the requests it has sent are
    in the order of the pipeline: the requests on labels, then the
    searches, then the batch modifications. *)
Theorem main_call_order fuel w r w' :
  main fuel w = (r, w') → r ≠ OutOfFuel →
  ∃ new, w_calls w' = w_calls w ++ new ∧ StronglySorted le (request_rank <$> new).
Proof.
  intros E Hr. pose proof (main_steps fuel w) as Hm. rewrite E in Hm.
  destruct r as [[]|e|]; [| |done];
    apply reachable_ordered in Hm as (new & ? & _ & ?); eauto.
Qed.

(** [C30] Whatever [main] returns or raises, the only file it may have
    written is [token.json]: [credentials.json] and every other file are
    as they were. *)
Theorem main_writes_token_only fuel w path :
  path ≠ "token.json" → w_files (main fuel w).2 !! path = w_files w !! path.
Proof. intros Hp. by apply (main_frame (writes_only "token.json")). Qed.

(** [C11] Whatever the provider and the authorization server answer and
    whatever [main] returns or raises, the requests of the run stay
    within bounds: at most two requests on labels, then at most one
    search per page allowed, then batch modifications that carry between
    1 and 1000 message ids each, the limit of [batchModify]. *)
Theorem main_bounds fuel w :
  ∃ ls ss bs, w_calls (main fuel w).2 = w_calls w ++ ls ++ ss ++ bs ∧
    (forallb is_label_request ls = true ∧ length ls ≤ 2) ∧
    (forallb is_search_request ss = true ∧ length ss ≤ fuel) ∧
    forallb (within 1 1000) bs = true.
Proof.
  destruct (main_budget fuel w) as (new & Hnew & ls & ss & bs & -> & Hb). eauto.
Qed.

(** [C31] Against a provider whose answers have the documented shape,
    what [main] raises was raised by the login or is an error the
    provider answers to some request made with the credential of the
    run: the script's own handling of the answers raises no
    exception. *)
Theorem main_raises `{!GmailSchema P} fuel w e w' :
  main fuel w = (Raise e, w') →
  (∃ w1, get_gmail_service w = (Raise e, w1)) ∨
  (∃ svc w1, get_gmail_service w = (Ok svc, w1) ∧ provider_error (svc_credentials svc) e).
Proof.
  unfold main, label_rejections. cbv zeta. rewrite bind_run.
  destruct (get_gmail_service w) as [[svc|e1|] w1]; [|intros [= <- _]; eauto|done].
  intros Hrun. right. exists svc, w1. split; [done|]. revert Hrun. rewrite bind_run.
  destruct (get_or_create_label _ _ _) as [[id|e2|] w2] eqn:E2;
    [|intros [= <- _]; by eapply get_or_create_label_raises|done].
  rewrite bind_run.
  destruct (search_messages _ _ _ _) as [[ids|e3|] w3] eqn:E3;
    [|intros [= <- _]; by eapply search_messages_raises|done].
  rewrite bind_run.
  destruct (add_label_to_messages _ _ _ _) as [[[]|e4|] w4] eqn:E4;
    [done|intros [= <- _]; by eapply add_label_to_messages_raises|done].
Qed.

(** The lines of a run have a text. *)
Lemma main_prints `{!GmailSchema P} fuel : preserves (prints renders) (main (P:=P) fuel).
Proof.
  unfold main, label_rejections. cbv zeta.
  apply preserves_bind; [tc_solve| |intros svc].
  { apply (preserves_weaken local); [apply local_prints|apply get_gmail_service_local]. }
  apply preserves_bind; [tc_solve|apply get_or_create_label_renders|intros label_id].
  apply preserves_bind; [tc_solve| |intros message_ids].
  { apply search_messages_frame, prints_frame_weaken. by intros []. }
  apply preserves_bind; [tc_solve| |intros _; by apply (frame_print (Q:=any_request))].
  apply add_label_to_messages_frame, prints_frame_weaken. by intros [].
Qed.

(** [C33] Against a provider whose answers have the documented shape,
    every line [main] prints has a text: the ids the f-strings of
    [get_or_create_label] format are strings, whether the run returns
    or raises. *)
Theorem main_renders `{!GmailSchema P} fuel w :
  ∃ new texts, w_console (main fuel w).2 = w_console w ++ new ∧
    render <$> new = Some <$> texts.
Proof.
  destruct (main_prints fuel w) as (new & Hc & [texts Ht]%forallb_renders).
  by exists new, texts.
Qed.

End runs.

(** ** A run on the sample mailbox *)

Lemma main_run_witness :
  rtc (step 3) (Start, cached_world) (Done, (main 3 cached_world).2) ↔
  main 3 cached_world = (result_of Done, (main 3 cached_world).2).
Proof. apply (main_run 3 cached_world Done). reflexivity. Defined.

Lemma main_call_order_witness :
  ∃ new, w_calls (main 3 cached_world).2 = w_calls cached_world ++ new ∧
    StronglySorted le (request_rank <$> new).
Proof.
  apply (main_call_order 3 cached_world (main 3 cached_world).1).
  - by destruct (main 3 cached_world).
  - by vm_compute.
Defined.

Lemma main_writes_token_only_witness :
  w_files (main 3 first_run_world).2 !! "credentials.json"
  = w_files first_run_world !! "credentials.json".
Proof. apply (main_writes_token_only 3 first_run_world "credentials.json"). done. Defined.

(** A run after the stored credential has expired and the grants were
    revoked. *)
Definition revoked_world : world mailbox :=
  World (w_files expired_world) 9000 (with_grants [] [] 0 sample_mailbox) [] [].

Lemma main_raises_witness :
  (∃ w1, get_gmail_service revoked_world = (Raise RefreshError, w1)) ∨
  (∃ svc w1, get_gmail_service revoked_world = (Ok svc, w1) ∧
     provider_error (svc_credentials svc) RefreshError).
Proof. apply (main_raises (P:=mailbox) 3 revoked_world RefreshError revoked_world). reflexivity. Defined.

Lemma main_renders_witness :
  ∃ new texts, w_console (main 3 cached_world).2 = w_console cached_world ++ new ∧
    render <$> new = Some <$> texts.
Proof. apply (main_renders (P:=mailbox) 3 cached_world). Defined.

(** ** The end-to-end scenario of the specification *)

(** A mock provider that has the label [Rejections] with id [L1],
    answers the search with one page of two ids and accepts the batch
    request: the script sends the three requests in this order, labels
    the two messages with [L1] and prints its four lines. *)
Example label_rejections_scenario :
  let svc := Service (Credentials (Some "t") None None []) in
  let answers := [inr (label_list [("INBOX", "INBOX"); ("Rejections", "L1")]);
                  inr (page ["a"; "b"] None); inr (PStr "")] in
  let r := label_rejections svc 1 (init_world (Script answers)) in
  r.1 = Ok tt ∧
  w_calls r.2 =
    [LabelsList "me"; MessagesList "me" query None;
     MessagesBatchModify "me"
       (PDict [("ids", PList [PStr "a"; PStr "b"]); ("addLabelIds", PList [PStr "L1"]);
               ("removeLabelIds", PList [])])] ∧
  render <$> w_console r.2 =
    [Some "Found existing label 'rejections' with ID: L1";
     Some "Found 2 messages matching the query.";
     Some "Labeled 2 messages in this batch.";
     Some "Done! All matching emails have been labeled as 'rejections'."].
Proof. vm_compute. done. Qed.
