(* ===== verification/Gate.v ===== *)
(** * Gate: a provider that fails

    The script has no retry and no rollback: a request the provider does
    not answer ends the run, and what the requests before it have done
    stays done.  To state what that leaves behind, this file puts a
    provider behind a gate: a machine that decides, call by call,
    whether the provider answers, whether the call is refused (it is
    not applied and an error comes back), or whether its answer is lost
    (it is applied and an error comes back).  [Gate] is the interface of
    such machines; a quota of requests and a schedule of faults are its
    instances.

    The relation [behind] compares a program run behind a gate with the
    same program run without: the same run while the gate lets the
    requests pass, a prefix of it when the gate stops one.  It is proved
    for each function of the script by following its structure, and for
    [main].  The calls of the login to the authorization server go
    through the gate as the requests do: a login that a fault stops
    raises the error of the fault and writes no file
    ([login_fault]). *)

From stdpp Require Import base tactics option list strings.
From S2P Require Import Prelude PyData World Mock Mailbox Batch Labels Search Auth Pipeline.

(** ** Faults and gates *)

(** What happens to a call the provider does not answer. *)
Inductive fault : Type :=
| Refused (e : exn)      (* the call is not applied *)
| Lost (e : exn).        (* the call is applied, its answer is lost *)

#[export] Instance fault_eq_dec : EqDecision fault.
Proof. solve_decision. Defined.

(** The error the client sees. *)
Definition fault_exn (f : fault) : exn :=
  match f with Refused e | Lost e => e end.

(** The number of requests applied when the fault hits request [n + 1]. *)
Definition applied (f : fault) (n : nat) : nat :=
  match f with Refused _ => n | Lost _ => S n end.

(** A gate decides the fate of the next call and moves on. *)
Class Gate (G : Type) : Type := gate_step : G → option fault * G.

(** The gate after [n] calls it lets pass, if it lets them pass. *)
Fixpoint gate_pass `{Gate G} (n : nat) (g : G) : option G :=
  match n with
  | 0 => Some g
  | S n =>
      match gate_step g with
      | (None, g') => gate_pass n g'
      | (Some _, _) => None
      end
  end.

(** A quota is the number of calls still answered.  A call uses one
    unit of it, whatever the answer is; with no quota left every call
    is refused with [429 Too Many Requests]. *)
#[export] Instance quota_gate : Gate nat := λ n,
  match n with
  | 0 => (Some (Refused (HttpError 429)), 0)
  | S n => (None, n)
  end.

(** A schedule is the fate of the coming calls, one entry each: [None]
    for a call that is answered.  After the last entry every call is
    answered. *)
Definition schedule : Type := list (option fault).

#[export] Instance schedule_gate : Gate schedule := λ fs,
  match fs with
  | [] => (None, [])
  | f :: fs => (f, fs)
  end.

(** ** The provider behind a gate *)

Record gated (G P : Type) : Type := Gated { gate : G; inner : P }.
Arguments Gated {G P} gate inner.
Arguments gate {G P} g.
Arguments inner {G P} g.

Section gated.
Context {G P : Type} `{Gate G}.
Implicit Types (c : credentials) (req : request) (reqs : list request).
Implicit Types (g : G) (p : P) (n k : nat) (f : fault).

(** A call [h] to the provider, behind the gate: the gate decides
    whether the answer of the provider comes back, whether the call
    does not reach it, or whether it is applied and an error comes
    back. *)
Definition gated_call {A} (h : P → (exn + A) * P) (gp : gated G P)
    : (exn + A) * gated G P :=
  let '(r, p') := h (inner gp) in
  match gate_step (gate gp) with
  | (None, g') => (r, Gated g' p')
  | (Some (Refused e), g') => (inl e, Gated g' (inner gp))
  | (Some (Lost e), g') => (inl e, Gated g' p')
  end.

(** The Gmail requests go through the gate. *)
Definition gated_execute `{GmailApi P} c req : gated G P → (exn + pyval) * gated G P :=
  gated_call (gmail_execute c req).

#[export] Instance gated_api `{GmailApi P} : GmailApi (gated G P) := gated_execute.

(** So do the calls to the two OAuth endpoints. *)
#[export] Instance gated_oauth `{OAuth P} : OAuth (gated G P) := {|
  oauth_refresh now c := gated_call (oauth_refresh now c);
  oauth_authorize now config sc := gated_call (oauth_authorize now config sc);
|}.

(** What a fault leaves of the provider, [p] before the call and [p']
    after it. *)
Definition fault_remote (f : fault) (p p' : P) : P :=
  match f with Refused _ => p | Lost _ => p' end.

Lemma gated_call_run {A} (h : P → (exn + A) * P) g p :
  gated_call h (Gated g p) =
  match gate_step g with
  | (None, g') => ((h p).1, Gated g' (h p).2)
  | (Some f, g') => (inl (fault_exn f), Gated g' (fault_remote f p (h p).2))
  end.
Proof.
  unfold gated_call. simpl. destruct (h p) as [r p'], (gate_step g) as [[[e|e]|] g']; done.
Qed.

(** ** The answers *)

Lemma gated_execute_pass `{GmailApi P} c req g g' p :
  gate_step g = (None, g') →
  gmail_execute c req (Gated g p) =
  ((gmail_execute c req p).1, Gated g' (gmail_execute c req p).2).
Proof.
  intros Hg. unfold gmail_execute at 1, gated_api, gated_execute.
  by rewrite gated_call_run, Hg.
Qed.

Lemma gated_execute_fault `{GmailApi P} c req g f g' p :
  gate_step g = (Some f, g') →
  gmail_execute c req (Gated g p) =
  (inl (fault_exn f), Gated g' (serve c p (take (applied f 0) [req]))).
Proof.
  intros Hg. unfold gmail_execute at 1, gated_api, gated_execute.
  rewrite gated_call_run, Hg. by destruct f.
Qed.

(** The answers that are not errors are answers of [P]. *)
#[export] Instance gated_schema `{GmailSchema P} : GmailSchema (gated G P).
Proof.
  intros c req [g p] v gp'. destruct (gate_step g) as [[f|] g'] eqn:Hg.
  - by rewrite (gated_execute_fault _ _ _ _ _ _ Hg).
  - rewrite (gated_execute_pass _ _ _ _ _ Hg). intros [= Hv _].
    destruct (gmail_execute c req p) as [r p'] eqn:E. simpl in Hv. subst r.
    by eapply gmail_schema.
Qed.

(** The credentials that come back are credentials of [P]. *)
Lemma gated_call_inr {A} (h : P → (exn + A) * P) gp (a : A) gp' :
  gated_call h gp = (inr a, gp') → (h (inner gp)).1 = inr a.
Proof.
  destruct gp as [g p]. rewrite gated_call_run.
  destruct (gate_step g) as [[f|] g']; [done|]. by intros [= Hr _].
Qed.

#[export] Instance gated_oauth_lawful `{OAuthLawful P} : OAuthLawful (gated G P).
Proof.
  split; intros now; simpl.
  - intros c gp c' gp' Hc%gated_call_inr.
    destruct (oauth_refresh now c (inner gp)) as [r p'] eqn:E. simpl in Hc. subst r.
    by eapply refresh_valid.
  - intros c gp c' gp' Hc%gated_call_inr.
    destruct (oauth_refresh now c (inner gp)) as [r p'] eqn:E. simpl in Hc. subst r.
    by eapply refresh_scopes.
  - intros cfg sc gp c' gp' Hc%gated_call_inr.
    destruct (oauth_authorize now cfg sc (inner gp)) as [r p'] eqn:E. simpl in Hc. subst r.
    by eapply authorize_valid.
  - intros cfg sc gp c' gp' Hc%gated_call_inr.
    destruct (oauth_authorize now cfg sc (inner gp)) as [r p'] eqn:E. simpl in Hc. subst r.
    by eapply authorize_scopes.
Qed.

(** ** Requests that pass *)

Lemma gate_pass_S n g g' : gate_step g = (None, g') → gate_pass (S n) g = gate_pass n g'.
Proof. intros Hg. simpl. by rewrite Hg. Qed.

Lemma gate_pass_add n k g : gate_pass (n + k) g = gate_pass n g ≫= gate_pass k.
Proof.
  revert g. induction n as [|n IH]; intros g; [done|]. simpl.
  by destruct (gate_step g) as [[f|] g'].
Qed.

Lemma gate_pass_add_Some n k g g' :
  gate_pass (n + k) g = Some g' →
  ∃ g1, gate_pass n g = Some g1 ∧ gate_pass k g1 = Some g'.
Proof.
  rewrite gate_pass_add. destruct (gate_pass n g) as [g1|]; [|done]. eauto.
Qed.

(** A gate that does not let [n] requests pass stops one of them. *)
Lemma gate_pass_None n g :
  gate_pass n g = None →
  ∃ k g1 f g2, k < n ∧ gate_pass k g = Some g1 ∧ gate_step g1 = (Some f, g2).
Proof.
  revert g. induction n as [|n IH]; intros g Hg; [done|]. simpl in Hg.
  destruct (gate_step g) as [[f|] g'] eqn:Hs.
  - exists 0, g, f, g'. split_and!; [lia|done..].
  - destruct (IH g' Hg) as (k & g1 & f & g2 & Hk & Hp & Hf).
    exists (S k), g1, f, g2. split_and!; [lia| |done]. by rewrite (gate_pass_S _ _ _ Hs).
Qed.

(** While the gate lets the requests pass the provider behind it is
    served as it would be alone, and what it accepts is accepted. *)
Lemma gated_serve `{GmailApi P} c reqs g g' p :
  gate_pass (length reqs) g = Some g' →
  serve c (Gated g p) reqs = Gated g' (serve c p reqs).
Proof.
  revert g p. induction reqs as [|req reqs IH]; intros g p Hg; [by injection Hg as ->|].
  simpl in Hg. destruct (gate_step g) as [[f|] g1] eqn:Hs; [done|].
  rewrite !serve_cons, (gated_execute_pass _ _ _ _ _ Hs). cbn [snd]. by apply IH.
Qed.

Lemma gated_accepts `{GmailApi P} c reqs g g' p :
  gate_pass (length reqs) g = Some g' →
  accepts c p reqs = true → accepts c (Gated g p) reqs = true.
Proof.
  revert g p. induction reqs as [|req reqs IH]; intros g p Hg Ha; [done|].
  simpl in Hg. destruct (gate_step g) as [[f|] g1] eqn:Hs; [done|].
  cbn [accepts] in *. rewrite (gated_execute_pass _ _ _ _ _ Hs).
  destruct (gmail_execute c req p) as [[e|v] p']; [done|by apply IH].
Qed.

(** The request the gate stops, after requests it has let pass. *)
Lemma gated_stops `{GmailApi P} c reqs req g g1 f g2 p :
  gate_pass (length reqs) g = Some g1 → gate_step g1 = (Some f, g2) →
  gmail_execute c req (serve c (Gated g p) reqs) =
  (inl (fault_exn f),
   Gated g2 (serve c p (take (applied f (length reqs)) (reqs ++ [req])))).
Proof.
  intros Hg Hs. rewrite (gated_serve _ _ _ _ _ Hg), (gated_execute_fault _ _ _ _ _ _ Hs).
  destruct f; cbn [applied].
  - by rewrite take_app_length.
  - rewrite (take_ge (reqs ++ [req])) by (rewrite length_app; simpl; lia).
    by rewrite serve_app.
Qed.

End gated.

(** ** Runs behind a gate *)

(** The world [w] with its provider behind the gate [g], and back. *)
Definition gate_at {G P} (g : G) (w : world P) : world (gated G P) :=
  World (w_files w) (w_clock w) (Gated g (w_remote w)) (w_calls w) (w_console w).

Definition ungate {G P} (w : world (gated G P)) : world P :=
  World (w_files w) (w_clock w) (inner (w_remote w)) (w_calls w) (w_console w).

(** The world [w] with its provider behind a quota of [n] requests. *)
Definition limit {P} (n : nat) (w : world P) : world (gated nat P) := gate_at n w.

Lemma gate_at_ungate {G P} (w : world (gated G P)) :
  gate_at (gate (w_remote w)) (ungate w) = w.
Proof. by destruct w as [? ? [] ? ?]. Qed.

Section behind.
Context {G P : Type} `{Gate G} `{GmailApi P}.
Implicit Types (cr : credentials) (svc : service) (req : request) (new : list request).
Implicit Types (w : world P) (g : G) (n : nat) (f : fault).

(** [behind cr cl c]: [cl] is [c] with the provider behind a gate.  With
    [new] the requests [c] sends with the credential [cr]: a gate that
    lets them pass changes nothing; a gate that lets [n] of them pass
    and stops the next makes [cl] raise the error of the fault at
    request [n + 1], the provider being as the first [n] requests of [c]
    have left it, or the first [n + 1] when the answer was lost. *)
Definition behind {A} cr (cl : prog (world (gated G P)) A) (c : prog (world P) A) : Prop :=
  ∀ w, ∃ new,
    w_calls (c w).2 = w_calls w ++ new ∧
    w_remote (c w).2 = serve cr (w_remote w) new ∧
    (∀ g g', gate_pass (length new) g = Some g' →
       cl (gate_at g w) = ((c w).1, gate_at g' (c w).2)) ∧
    (∀ n g g1 f g2,
       n < length new → gate_pass n g = Some g1 → gate_step g1 = (Some f, g2) →
       ∃ wl, cl (gate_at g w) = (Raise (fault_exn f), wl) ∧
         w_calls wl = w_calls w ++ take (S n) new ∧
         w_remote wl = Gated g2 (serve cr (w_remote w) (take (applied f n) new))).

(** A computation that sends nothing and leaves the provider alone. *)
Lemma behind_silent {A} cr (cl : prog (world (gated G P)) A) (c : prog (world P) A) :
  (∀ w, w_calls (c w).2 = w_calls w ∧ w_remote (c w).2 = w_remote w) →
  (∀ g w, cl (gate_at g w) = ((c w).1, gate_at g (c w).2)) →
  behind cr cl c.
Proof.
  intros Hc Hcl w. destruct (Hc w) as [Hcalls Hrem]. exists [].
  rewrite app_nil_r. split_and!; [done..| |simpl; lia].
  intros g g' [= <-]. apply Hcl.
Qed.

Lemma behind_ret {A} cr (a : A) : behind cr (mret a) (mret a).
Proof. by apply behind_silent. Qed.

Lemma behind_lift {A} cr (r : result A) : behind cr (lift r) (lift r).
Proof. by apply behind_silent. Qed.

Lemma behind_raise {A} cr e : behind (A:=A) cr (raise e) (raise e).
Proof. by apply behind_silent. Qed.

Lemma behind_out_of_fuel {A} cr : behind (A:=A) cr out_of_fuel out_of_fuel.
Proof. by apply behind_silent. Qed.

Lemma behind_print cr l : behind cr (print l) (print l).
Proof. by apply behind_silent. Qed.

(** A request is answered, refused or lost as the gate decides. *)
Lemma behind_execute svc req :
  behind (svc_credentials svc) (execute svc req) (execute svc req).
Proof.
  intros w. exists [req]. rewrite !execute_run. split_and!; [done..| |].
  - intros g g' Hg. simpl in Hg. destruct (gate_step g) as [[f|] g1] eqn:Hs; [done|].
    injection Hg as ->. rewrite execute_run. cbn [gate_at w_remote].
    by rewrite (gated_execute_pass _ _ _ _ _ Hs).
  - intros [|n] g g1 f g2 Hn; [|simpl in Hn; lia]. intros [= <-] Hs. eexists.
    rewrite execute_run. cbn [gate_at w_remote].
    by rewrite (gated_execute_fault _ _ _ _ _ _ Hs).
Qed.

(** The requests of a sequence are those of its first part, then those
    of its second part: the gate may stop a request of either. *)
Lemma behind_bind {A B} cr (cl : prog (world (gated G P)) A) (c : prog (world P) A)
    (fl : A → prog (world (gated G P)) B) (k : A → prog (world P) B) :
  behind cr cl c → (∀ a, behind cr (fl a) (k a)) → behind cr (cl ≫= fl) (c ≫= k).
Proof.
  intros Hc Hk w. destruct (Hc w) as (new1 & Hcalls1 & Hrem1 & Hin1 & Hout1).
  rewrite (bind_run c). destruct (c w) as [[a|e|] w1] eqn:E; simpl in *;
    [|exists new1; split_and!; [done..|intros g g' Hg; by rewrite bind_run, (Hin1 g g')|];
      intros n g g1 f g2 Hn Hg Hs; destruct (Hout1 n g g1 f g2 Hn Hg Hs) as (wl & Hrun & ?);
      exists wl; by rewrite bind_run, Hrun..].
  destruct (Hk a w1) as (new2 & Hcalls2 & Hrem2 & Hin2 & Hout2).
  exists (new1 ++ new2). split_and!.
  - by rewrite Hcalls2, Hcalls1, app_assoc.
  - by rewrite Hrem2, Hrem1, serve_app.
  - intros g g'. rewrite length_app. intros (g1 & Hg1 & Hg2)%gate_pass_add_Some.
    by rewrite bind_run, (Hin1 g g1), (Hin2 g1 g').
  - intros n g g1 f g2 Hn Hg Hs. rewrite length_app in Hn.
    destruct (decide (n < length new1)) as [Hlt|Hge].
    + destruct (Hout1 n g g1 f g2 Hlt Hg Hs) as (wl & Hrun & Hcl & Hrl). exists wl.
      rewrite bind_run, Hrun, !take_app_le by (destruct f; simpl; lia). done.
    + assert (∃ m, n = length new1 + m) as [m ->] by (exists (n - length new1); lia).
      apply gate_pass_add_Some in Hg as (gm & Hg1 & Hg2).
      destruct (Hout2 m gm g1 f g2) as (wl & Hrun & Hcl & Hrl); [lia|done..|]. exists wl.
      rewrite bind_run, (Hin1 g gm), Hrun, Hcl, Hrl, Hcalls1, Hrem1, <-app_assoc, <-serve_app
        by done.
      replace (applied f (length new1 + m)) with (length new1 + applied f m)
        by (destruct f; simpl; lia).
      by rewrite <-Nat.add_succ_r, !take_app_add.
Qed.

Lemma behind_for_each {A} cr (l : list A) (bodyl : A → prog (world (gated G P)) unit)
    (body : A → prog (world P) unit) :
  (∀ x, behind cr (bodyl x) (body x)) → behind cr (for_each l bodyl) (for_each l body).
Proof.
  intros Hb. induction l as [|x l IH]; [apply behind_ret|].
  apply behind_bind; [apply Hb|by intros _].
Qed.

End behind.

#[export] Hint Resolve behind_ret behind_lift behind_raise behind_out_of_fuel behind_print
  behind_execute behind_for_each : prog.

(** One step of a proof that a program runs behind a gate as it runs
    without: the rule of its head, or a case analysis on the value it
    branches on. *)
Ltac behind_step :=
  match goal with
  | |- behind _ (_ ≫= _) (_ ≫= _) => apply behind_bind; [|intros ?]
  | |- behind _ (match ?x with _ => _ end) _ => destruct x
  | |- behind _ (if ?b then _ else _) _ => destruct b
  | |- behind _ _ _ => solve [auto with prog]
  end.

Ltac behind := repeat behind_step.

(** ** The login behind a gate *)

(** The load of the client secrets reads a file: it does not go through
    the gate. *)
Lemma from_client_secrets_file_gated {G P} `{Gate G} `{OAuth P} path sc (g : G) (w : world P) :
  from_client_secrets_file path sc (gate_at g w) =
  ((from_client_secrets_file path sc w).1, gate_at g (from_client_secrets_file path sc w).2).
Proof.
  unfold from_client_secrets_file, read_json. rewrite !bind_run. simpl.
  destruct (w_files w !! path) as [[| | | | |d]|]; try done. by destruct (_ || _).
Qed.

Section login_behind.
Context {G P : Type} `{Gate G} `{OAuth P}.
Implicit Types (g : G) (w : world P) (f : fault) (creds : option credentials).

(** A login that a fault stops: the error of the fault is raised and
    [token.json] is not written; the provider has granted what was
    asked when the answer was lost. *)
Definition login_fault f g w : result service * world (gated G P) :=
  (Raise (fault_exn f),
   gate_at g (set_remote
                (fault_remote f (w_remote w) (w_remote (get_gmail_service w).2)) w)).

(** The renewal that reaches the authorization server makes one call,
    and saves the credential when the call is answered. *)
Lemma renew_gated creds g w :
  can_refresh creds (w_clock w)
  || is_ok (from_client_secrets_file "credentials.json" SCOPES w).1 = true →
  renew creds (w_clock w) (gate_at g w) =
  let r := renew creds (w_clock w) w in
  match gate_step g with
  | (None, g') => (r.1, gate_at g' r.2)
  | (Some f, g') =>
      (Raise (fault_exn f), gate_at g' (set_remote (fault_remote f (w_remote w) (w_remote r.2)) w))
  end.
Proof.
  intros Ha. cbv zeta. destruct (can_refresh creds (w_clock w)) eqn:Hc.
  - destruct creds as [c|]; [|done].
    rewrite (renew_refresh c w), (renew_refresh c (gate_at g w)) by done.
    cbn [gate_at w_remote w_clock oauth_refresh gated_oauth]. rewrite gated_call_run.
    by destruct (gate_step g) as [[[]|] g'], (oauth_refresh _ _ _) as [[] p'].
  - rewrite (renew_login creds w), (renew_login creds (gate_at g w)) by done.
    rewrite from_client_secrets_file_gated. simpl in Ha.
    destruct (from_client_secrets_file _ _ w) as [[flow| |] w1]; [|done..].
    cbn [fst snd gate_at w_remote w_clock oauth_authorize gated_oauth].
    rewrite gated_call_run.
    by destruct (gate_step g) as [[[]|] g'], (oauth_authorize _ _ _ _) as [[] p'].
Qed.

(** The renewal that fails before it reaches the server. *)
Lemma renew_gated_quiet creds g w :
  can_refresh creds (w_clock w)
  || is_ok (from_client_secrets_file "credentials.json" SCOPES w).1 = false →
  renew creds (w_clock w) (gate_at g w) =
  ((renew creds (w_clock w) w).1, gate_at g (renew creds (w_clock w) w).2).
Proof.
  intros [Hc Hs]%orb_false_elim.
  rewrite (renew_login creds w), (renew_login creds (gate_at g w)) by done.
  rewrite from_client_secrets_file_gated.
  by destruct (from_client_secrets_file _ _ w) as [[flow| |] w1].
Qed.

(** The login behind a gate: it goes through the gate when it reaches
    the authorization server, and then once. *)
Lemma get_gmail_service_gated g w :
  get_gmail_service (gate_at g w) =
  if login_asks w then
    match gate_step g with
    | (None, g') => ((get_gmail_service w).1, gate_at g' (get_gmail_service w).2)
    | (Some f, g') => login_fault f g' w
    end
  else ((get_gmail_service w).1, gate_at g (get_gmail_service w).2).
Proof.
  unfold login_fault, login_asks. rewrite !get_gmail_service_loaded.
  change (loaded (gate_at g w)) with (loaded w).
  destruct (loaded w) as [creds| |]; [|done..].
  change (w_clock (gate_at g w)) with (w_clock w).
  destruct (needs_login creds (w_clock w)); [|by destruct creds]. rewrite andb_true_l.
  destruct (_ || _) eqn:Ha.
  - rewrite (renew_gated creds g w Ha). cbv zeta.
    by destruct (gate_step g) as [[f|] g'], (renew creds (w_clock w) w) as [[] w1].
  - rewrite (renew_gated_quiet creds g w Ha).
    by destruct (renew creds (w_clock w) w) as [[] w1].
Qed.

(** The two cases of the login behind a gate. *)
Lemma get_gmail_service_pass g g' w :
  gate_pass (login_calls w) g = Some g' →
  get_gmail_service (gate_at g w) =
  ((get_gmail_service w).1, gate_at g' (get_gmail_service w).2).
Proof.
  rewrite get_gmail_service_gated. unfold login_calls.
  destruct (login_asks w); simpl; [|by intros [= ->]].
  by destruct (gate_step g) as [[f|] g1]; [|intros [= ->]].
Qed.

Lemma get_gmail_service_fault g f g' w :
  login_asks w = true → gate_step g = (Some f, g') →
  get_gmail_service (gate_at g w) = login_fault f g' w.
Proof. intros Ha Hg. by rewrite get_gmail_service_gated, Ha, Hg. Qed.

Lemma get_gmail_service_gated_cases g w :
  (∃ g', gate_pass (login_calls w) g = Some g') ∨
  (∃ f g', login_asks w = true ∧ gate_step g = (Some f, g')).
Proof.
  unfold login_calls. destruct (login_asks w); [|left; by exists g]. simpl.
  destruct (gate_step g) as [[f|] g']; [right|left]; by eauto.
Qed.

End login_behind.

(** ** The functions of the script behind a gate *)

Section script_behind.
Context {G P : Type} `{Gate G} `{GmailApi P}.
Implicit Types (svc : service) (fuel : nat).

Lemma find_label_behind cr labels label_name :
  behind (G:=G) (P:=P) cr (find_label labels label_name) (find_label labels label_name).
Proof. induction labels as [|label rest IH]; cbn [find_label]; behind. Qed.

Lemma get_or_create_label_behind svc label_name :
  behind (G:=G) (P:=P) (svc_credentials svc)
    (get_or_create_label svc label_name) (get_or_create_label svc label_name).
Proof. unfold get_or_create_label. pose proof find_label_behind. behind. Qed.

Lemma search_loop_behind fuel svc request message_ids :
  behind (G:=G) (P:=P) (svc_credentials svc)
    (search_loop fuel svc request message_ids) (search_loop fuel svc request message_ids).
Proof.
  revert request message_ids.
  induction fuel as [|fuel IH]; intros [req|] message_ids; cbn [search_loop];
    unfold search_page; behind.
Qed.

Lemma search_messages_behind fuel svc query :
  behind (G:=G) (P:=P) (svc_credentials svc)
    (search_messages fuel svc query) (search_messages fuel svc query).
Proof. unfold search_messages. cbv zeta. pose proof search_loop_behind. behind. Qed.

Lemma add_label_to_messages_behind svc message_ids label_id :
  behind (G:=G) (P:=P) (svc_credentials svc)
    (add_label_to_messages svc message_ids label_id)
    (add_label_to_messages svc message_ids label_id).
Proof.
  unfold add_label_to_messages, label_chunks. cbv zeta. behind.
  apply behind_for_each. intros i. unfold label_chunk. cbv zeta. behind.
Qed.

Lemma label_rejections_behind svc fuel :
  behind (G:=G) (P:=P) (svc_credentials svc)
    (label_rejections svc fuel) (label_rejections svc fuel).
Proof.
  unfold label_rejections. cbv zeta.
  pose proof get_or_create_label_behind. pose proof search_messages_behind.
  pose proof add_label_to_messages_behind. behind.
Qed.

End script_behind.

(** ** The script behind a gate *)

Section main_behind.
Context {G P : Type} `{Gate G} `{GmailApi P} `{OAuth P}.
Implicit Types (svc : service) (fuel n : nat) (w : world P) (g : G).

(** The script behind a gate that stops the login. *)
Lemma main_login_fault fuel g f g' w :
  login_asks w = true → gate_step g = (Some f, g') →
  main fuel (gate_at g w) = (Raise (fault_exn f), (login_fault f g' w).2).
Proof. intros Ha Hg. unfold main. by rewrite bind_run, (get_gmail_service_fault _ _ _ _ Ha Hg). Qed.

(** The script behind a gate that lets the login pass. *)
Lemma main_login_pass fuel g g' w :
  gate_pass (login_calls w) g = Some g' →
  main fuel (gate_at g w) =
  match get_gmail_service w with
  | (Ok svc, w1) => label_rejections svc fuel (gate_at g' w1)
  | (Raise e, w1) => (Raise e, gate_at g' w1)
  | (OutOfFuel, w1) => (OutOfFuel, gate_at g' w1)
  end.
Proof.
  intros Hg. unfold main. rewrite bind_run, (get_gmail_service_pass _ _ _ Hg).
  by destruct (get_gmail_service w) as [[] w1].
Qed.

(** The two cases of the script behind a gate. *)
Lemma main_gated_cases fuel g w :
  (∃ g', gate_pass (login_calls w) g = Some g' ∧
     main fuel (gate_at g w) =
     match get_gmail_service w with
     | (Ok svc, w1) => label_rejections svc fuel (gate_at g' w1)
     | (Raise e, w1) => (Raise e, gate_at g' w1)
     | (OutOfFuel, w1) => (OutOfFuel, gate_at g' w1)
     end) ∨
  (∃ f g', login_asks w = true ∧ gate_step g = (Some f, g') ∧
     main fuel (gate_at g w) = (Raise (fault_exn f), (login_fault f g' w).2)).
Proof.
  destruct (get_gmail_service_gated_cases g w) as [[g' Hg]|(f & g' & Ha & Hg)]; [left|right].
  - exists g'. split; [done|by apply main_login_pass].
  - exists f, g'. split_and!; [done..|by apply main_login_fault].
Qed.

(** The script behind a gate, after a login that succeeds. *)
Lemma main_behind fuel w svc w1 :
  get_gmail_service w = (Ok svc, w1) →
  ∃ new,
    w_calls (main fuel w).2 = w_calls w1 ++ new ∧
    w_remote (main fuel w).2 = serve (svc_credentials svc) (w_remote w1) new ∧
    (∀ g g', gate_pass (login_calls w + length new) g = Some g' →
       main fuel (gate_at g w) = ((main fuel w).1, gate_at g' (main fuel w).2)) ∧
    (∀ n g g0 g1 f g2,
       gate_pass (login_calls w) g = Some g0 →
       n < length new → gate_pass n g0 = Some g1 → gate_step g1 = (Some f, g2) →
       ∃ wl, main fuel (gate_at g w) = (Raise (fault_exn f), wl) ∧
         w_calls wl = w_calls w1 ++ take (S n) new ∧
         w_remote wl =
           Gated g2 (serve (svc_credentials svc) (w_remote w1) (take (applied f n) new))).
Proof.
  intros Hlogin. destruct (label_rejections_behind svc fuel w1) as (new & Hc & Hr & Hin & Hout).
  assert (main fuel w = label_rejections svc fuel w1) as ->
    by (unfold main; by rewrite bind_run, Hlogin).
  exists new. split_and!; [done..| |].
  - intros g g' (g0 & Hg0 & Hg)%gate_pass_add_Some.
    rewrite (main_login_pass _ _ _ _ Hg0), Hlogin. by apply Hin.
  - intros n g g0 g1 f g2 Hg0 Hn Hg Hs. rewrite (main_login_pass _ _ _ _ Hg0), Hlogin.
    by eapply Hout.
Qed.

(** A gate uses no fuel: behind a gate the script ends as it does
    without, or with the error of a fault. *)
Lemma behind_outcome {A} cr (cl : prog (world (gated G P)) A) (c : prog (world P) A) g w :
  behind cr cl c →
  (cl (gate_at g w)).1 = (c w).1 ∨ ∃ f, (cl (gate_at g w)).1 = Raise (fault_exn f).
Proof.
  intros Hb. destruct (Hb w) as (new & _ & _ & Hin & Hout).
  destruct (gate_pass (length new) g) as [g'|] eqn:Hg; [left; by rewrite (Hin g g' Hg)|].
  apply gate_pass_None in Hg as (k & g1 & f & g2 & Hk & Hg & Hs).
  destruct (Hout k g g1 f g2 Hk Hg Hs) as (wl & -> & _). right. by exists f.
Qed.

Lemma main_gated_outcome fuel g w :
  (main fuel (gate_at g w)).1 = (main fuel w).1 ∨
  ∃ f, (main fuel (gate_at g w)).1 = Raise (fault_exn f).
Proof.
  destruct (get_gmail_service_gated_cases g w) as [[g' Hg]|(f & g' & Ha & Hg)].
  - rewrite (main_login_pass _ _ _ _ Hg). unfold main. rewrite bind_run.
    destruct (get_gmail_service w) as [[svc|e|] w1]; [|by left..].
    apply (behind_outcome (svc_credentials svc)), label_rejections_behind.
  - right. exists f. by rewrite (main_login_fault _ _ _ _ _ Ha Hg).
Qed.

(** [C16] The script behind a gate, for every provider and every gate.
    The calls of a run to the provider are the call of the login to the
    authorization server, when it makes one, and then the requests
    [new].  When the gate lets them pass, the run behind it is the same
    run.  Otherwise the gate stops call [n + 1] for some [n] and the run
    raises the error of the fault.  When that call is the login's,
    nothing else has happened: no request was sent and [token.json] was
    not written.  When it is a request, the run has sent the requests
    up to that one, and the provider is as the requests before it leave
    it, with that one when its answer was lost: an interrupted run is a
    prefix of the complete run. *)
Theorem main_gated fuel g w svc w1 :
  get_gmail_service w = (Ok svc, w1) →
  let k := login_calls w in
  ∃ new, w_calls (main fuel w).2 = w_calls w1 ++ new ∧
    match gate_pass (k + length new) g with
    | Some g' => main fuel (gate_at g w) = ((main fuel w).1, gate_at g' (main fuel w).2)
    | None =>
        ∃ n g1 f g2 wl, n < k + length new ∧
          gate_pass n g = Some g1 ∧ gate_step g1 = (Some f, g2) ∧
          main fuel (gate_at g w) = (Raise (fault_exn f), wl) ∧
          if decide (n < k)
          then wl = gate_at g2 (set_remote (fault_remote f (w_remote w) (w_remote w1)) w)
          else w_calls wl = w_calls w1 ++ take (S (n - k)) new ∧
               w_remote wl =
                 Gated g2 (serve (svc_credentials svc) (w_remote w1)
                             (take (applied f (n - k)) new))
    end.
Proof.
  intros Hlogin k. destruct (main_behind fuel w svc w1 Hlogin) as (new & Hc & _ & Hin & Hout).
  exists new. split; [done|]. destruct (gate_pass (k + length new) g) as [g'|] eqn:Hg; [auto|].
  apply gate_pass_None in Hg as (n & g1 & f & g2 & Hn & Hg & Hs).
  exists n, g1, f, g2. case_decide as Hk.
  - assert (login_asks w = true ∧ n = 0) as [Ha ->].
    { subst k. unfold login_calls in *. destruct (login_asks w); split; (done || lia). }
    injection Hg as <-. eexists. split_and!; [done..| |].
    + by apply main_login_fault.
    + unfold login_fault. by rewrite Hlogin.
  - pose proof Hg as Hg'. replace n with (k + (n - k)) in Hg' by lia.
    apply gate_pass_add_Some in Hg' as (g0 & Hg0 & Hg').
    destruct (Hout (n - k) g g0 g1 f g2 Hg0 ltac:(lia) Hg' Hs) as (wl & Hrun & Hcl & Hrl).
    exists wl. by split_and!.
Qed.

End main_behind.

(** ** Runs that are stopped *)

(** The answer to the fourth call is lost. *)
Definition lost_fourth : schedule := [None; None; None; Some (Lost (HttpError 503))].

(** The authorization server does not answer the first call. *)
Definition no_login : schedule := [Some (Refused RefreshError)].

(** The run on the sample mailbox with an expired credential makes five
    calls: the refresh, the listing of the labels, two searches and a
    batch request. *)
Lemma main_gated_witness :
  let w := expired_world in
  let svc := Service (Credentials (Some "ya29.1") (Some "1//0") (Some 12600%Z) SCOPES) in
  let w1 := (get_gmail_service w).2 in
  let k := login_calls w in
  ∃ new, w_calls (main 3 w).2 = w_calls w1 ++ new ∧
    match gate_pass (k + length new) lost_fourth with
    | Some g' => main 3 (gate_at lost_fourth w) = ((main 3 w).1, gate_at g' (main 3 w).2)
    | None =>
        ∃ n g1 f g2 wl, n < k + length new ∧
          gate_pass n lost_fourth = Some g1 ∧ gate_step g1 = (Some f, g2) ∧
          main 3 (gate_at lost_fourth w) = (Raise (fault_exn f), wl) ∧
          if decide (n < k)
          then wl = gate_at g2 (set_remote (fault_remote f (w_remote w) (w_remote w1)) w)
          else w_calls wl = w_calls w1 ++ take (S (n - k)) new ∧
               w_remote wl =
                 Gated g2 (serve (svc_credentials svc) (w_remote w1)
                             (take (applied f (n - k)) new))
    end.
Proof. apply (main_gated 3 lost_fourth expired_world). reflexivity. Defined.

(** A quota of three requests stops the batch request, and no message
    is labelled.  When the answer to the batch request is lost, the
    run raises as well, but the messages are labelled as by the run
    without a fault.  When the refresh of the expired credential is not
    answered, no request is sent and the stored credential stays. *)
Example gated_scenario :
  let r := main 3 (limit 3 cached_world) in
  let r' := main 3 (gate_at lost_fourth cached_world) in
  let r'' := main 3 (gate_at no_login expired_world) in
  r.1 = Raise (HttpError 429) ∧ length (w_calls r.2) = 4 ∧
  inner (w_remote r.2) = sample_mailbox ∧
  r'.1 = Raise (HttpError 503) ∧ length (w_calls r'.2) = 4 ∧
  inner (w_remote r'.2) = w_remote (main 3 cached_world).2 ∧
  last (w_console r'.2) = Some (FoundMessages 3) ∧
  r''.1 = Raise RefreshError ∧ r''.2 = gate_at [] expired_world.
Proof. by vm_compute. Qed.
