(* ===== verification/Partial.v ===== *)
(** * Partial: what a batch that is stopped leaves behind

    [add_label_to_messages] sends one request per chunk of 1000 ids and
    stops at the first that fails.  Behind a gate ([Gate]) the reference
    mailbox shows the state such a run leaves: the messages of the
    chunks that passed carry the label, and so do those of the chunk
    whose answer was lost; the others do not; the console has a line for
    each chunk that passed.  Nothing is rolled back and nothing needs to
    be: labelling all the ids afterwards gives the mailbox of an
    uninterrupted run. *)

From stdpp Require Import base tactics option list strings pretty gmap.
From S2P Require Import Prelude PyData World Mock Mailbox Batch Labels Search Auth Pipeline.
From S2P Require Import Gate.

(** ** The loop of the batch behind a gate *)

(** The gate lets [n] requests pass, which the provider accepts, and
    stops the next: the loop raises the error of the fault, having
    printed a line for each chunk that passed. *)
Lemma label_chunks_gated `{Gate G} `{GmailApi P} svc message_ids label_id chunk_size n
    (g1 g2 : G) f (w : world (gated G P)) :
  let calls := batch_calls message_ids label_id chunk_size in
  0 < chunk_size → n < length calls →
  gate_pass n (gate (w_remote w)) = Some g1 → gate_step g1 = (Some f, g2) →
  accepts (svc_credentials svc) (inner (w_remote w)) (take n calls) = true →
  ∃ w', label_chunks svc message_ids label_id chunk_size w = (Raise (fault_exn f), w') ∧
    w_calls w' = w_calls w ++ take (S n) calls ∧
    w_console w' = w_console w ++ take n (batch_lines message_ids chunk_size) ∧
    w_remote w' =
      Gated g2 (serve (svc_credentials svc) (inner (w_remote w)) (take (applied f n) calls)).
Proof.
  intros calls Hpos Hn Hg Hs Hacc. destruct (w_remote w) as [g p] eqn:Hw. simpl in *.
  destruct (lookup_lt_is_Some_2 calls n Hn) as [req Hreq].
  assert (length (take n calls) = n) as Hlen by (rewrite length_take; lia).
  rewrite <-Hlen in Hg at 1.
  destruct (label_chunks_refused svc message_ids label_id chunk_size w n req (fault_exn f))
    as (w' & Hrun & Hc & Hl & Hr & _); [done..| | |].
  - rewrite Hw. by eapply gated_accepts.
  - fold calls. by rewrite Hw, (gated_stops _ _ _ _ _ _ _ _ Hg Hs).
  - exists w'. split_and!; [done..|]. fold calls in Hr.
    rewrite Hr, (take_S_r _ _ _ Hreq), serve_snoc, Hw, (gated_stops _ _ _ _ _ _ _ _ Hg Hs), Hlen.
    cbn [snd]. do 2 f_equal. destruct f; cbn [applied].
    + by rewrite take_app_le, take_take, Nat.min_id by lia.
    + by rewrite take_ge, <-(take_S_r _ _ _ Hreq) by (rewrite length_app, Hlen; simpl; lia).
Qed.

(** ** The batch when a request is stopped *)

(** The mailbox accepts the first [k] requests of the batch and labels
    the messages of their chunks. *)
Lemma serve_chunks_take c l ids mb k :
  authorized c mb = inr tt → l ∈ (mb_labels mb).*2 →
  let calls := batch_calls (PStr <$> ids) (PStr l) 1000 in
  accepts c mb (take k calls) = true ∧
  serve c mb (take k calls) = apply_label l (take (k * 1000) ids) mb.
Proof.
  intros Ha Hl calls. subst calls. rewrite batch_calls_strs.
  destruct (serve_chunk_requests c l (take k (chunks 1000 ids)) mb Ha Hl) as [Hacc Hserve];
    [apply Forall_take, chunks_bounds; lia|].
  rewrite concat_take_chunks in Hserve by lia.
  unfold chunk_requests in *. by rewrite fmap_take in Hacc, Hserve.
Qed.

Section partial.
Context {G : Type} `{Gate G}.
Implicit Types (svc : service) (l : string) (ids : list string) (n : nat).
Implicit Types (w : world (gated G mailbox)) (mb : mailbox) (f : fault).

(** [C27] No rollback and no loss: when the gate of the provider lets the
    requests for [n] chunks pass and stops the next, by a quota or by a
    fault, [add_label_to_messages] raises the error of the fault after
    [n + 1] requests and [n] lines; in the mailbox exactly the messages
    among the first [1000 * n] ids have received the label when the
    request was refused, and those among the first [1000 * (n + 1)] when
    its answer was lost; and labelling all the ids afterwards gives the
    mailbox an uninterrupted run gives. *)
Theorem add_label_to_messages_partial svc ids l n g1 g2 f w :
  let mb := inner (w_remote w) in
  authorized (svc_credentials svc) mb = inr tt → l ∈ (mb_labels mb).*2 →
  gate_pass n (gate (w_remote w)) = Some g1 → gate_step g1 = (Some f, g2) →
  n * 1000 < length ids →
  ∃ w', add_label_to_messages svc (PStr <$> ids) (PStr l) w = (Raise (fault_exn f), w') ∧
    w_remote w' = Gated g2 (apply_label l (take (applied f n * 1000) ids) mb) ∧
    length (w_calls w') = length (w_calls w) + S n ∧
    w_console w' = w_console w ++ replicate n (LabeledBatch 1000) ∧
    apply_label l ids (inner (w_remote w')) = apply_label l ids mb.
Proof.
  intros mb Ha Hl Hg Hs Hn. set (c := svc_credentials svc).
  pose proof (chunks_length_lt 1000 n ids ltac:(lia) Hn) as Hk.
  destruct (label_chunks_gated svc (PStr <$> ids) (PStr l) 1000 n g1 g2 f w)
    as (w' & Hrun & Hc & Hp & Hr); [lia| |done..|by apply serve_chunks_take|].
  { by rewrite batch_calls_length, chunks_fmap, length_fmap. }
  exists w'. destruct ids as [|i ids]; [simpl in Hn; lia|].
  subst c mb. split; [done|]. rewrite Hr, (proj2 (serve_chunks_take _ _ _ _ _ Ha Hl)).
  split_and!; [done| | |apply apply_label_take].
  - rewrite Hc, length_app, length_take, batch_calls_length, chunks_fmap, length_fmap. lia.
  - rewrite Hp, batch_lines_strs, <-fmap_take. f_equal.
    rewrite <-(fmap_replicate LabeledBatch), <-(take_chunks_full 1000 n (i :: ids)) by lia.
    by rewrite <-list_fmap_compose.
Qed.

End partial.

(** ** Runs that are stopped *)

(** Ids [m<n>], ..., [m1], from the highest. *)
Definition countdown (n : nat) : list string :=
  (λ i, "m" +:+ pretty i) <$> reverse (seq 1 n).

(** The answer to the second request is lost. *)
Definition lost_second : schedule := [None; Some (Lost (HttpError 503))].

(** 1001 ids, the last of them [m1], and the answer to the second
    request lost: both chunks are applied, one line is printed. *)
Lemma add_label_to_messages_partial_witness :
  let w := init_world (Gated lost_second sample_mailbox) in
  ∃ w', add_label_to_messages sample_service (PStr <$> countdown 1001) (PStr "Label_1") w
          = (Raise (HttpError 503), w') ∧
    w_remote w' =
      Gated [] (apply_label "Label_1" (take (2 * 1000) (countdown 1001)) sample_mailbox) ∧
    length (w_calls w') = length (w_calls w) + 2 ∧
    w_console w' = w_console w ++ replicate 1 (LabeledBatch 1000) ∧
    apply_label "Label_1" (countdown 1001) (inner (w_remote w'))
    = apply_label "Label_1" (countdown 1001) sample_mailbox.
Proof.
  intros w.
  apply (add_label_to_messages_partial sample_service (countdown 1001) "Label_1" 1
           [Some (Lost (HttpError 503))] [] (Lost (HttpError 503)) w).
  - reflexivity.
  - apply (bool_decide_unpack _). by vm_compute.
  - reflexivity.
  - reflexivity.
  - vm_compute. lia.
Defined.

(** In that run the messages [m1] to [m5] of the sample mailbox have all
    received the label, though the run has raised and the console
    reports one batch. *)
Example lost_scenario :
  let r := add_label_to_messages sample_service (PStr <$> countdown 1001) (PStr "Label_1")
             (init_world (Gated lost_second sample_mailbox)) in
  r.1 = Raise (HttpError 503) ∧
  w_console r.2 = [LabeledBatch 1000] ∧
  msg_id <$> filter (λ m, "Label_1" ∈ msg_labels m) (mb_messages (inner (w_remote r.2)))
  = ["m1"; "m2"; "m3"; "m4"; "m5"].
Proof. by vm_compute. Qed.

(** Behind a quota of one request the first chunk is applied and the
    second is refused: the messages [m2] to [m5] receive the label and
    [m1], in the chunk that is refused, does not. *)
Example quota_scenario :
  let r := add_label_to_messages sample_service (PStr <$> countdown 1001) (PStr "Label_1")
             (init_world (Gated 1 sample_mailbox)) in
  r.1 = Raise (HttpError 429) ∧
  gate (w_remote r.2) = 0 ∧
  filter (λ m, "Label_1" ∈ msg_labels m) (mb_messages (inner (w_remote r.2)))
  = [Message "m2" {["INBOX"; "Label_1"]}; Message "m3" {["INBOX"; "Label_1"]};
     Message "m4" {["INBOX"; "Label_1"]}; Message "m5" {["Label_1"]}].
Proof. by vm_compute. Qed.
