(* ===== verification/EndToEnd.v ===== *)
(** * EndToEnd: the script against the reference mailbox

    The functions of the script, run one after the other against
    [Mailbox]: what a run leaves in the mailbox and which requests it
    sends, that a second run changes nothing, that the invariant of the
    mailbox is kept, and what happens with a credential the mailbox does
    not accept. *)

From stdpp Require Import base tactics option list strings pretty relations gmap.
From S2P Require Import Prelude PyData World Mock Mailbox Batch Labels Search Auth Pipeline.

(** ** What a run leaves *)

(** The mailbox after a run: the label [rejections] is there, and the
    messages that match the query carry it. *)
Definition labelled (q : string) (mb : mailbox) : mailbox :=
  apply_label (ensure_label "rejections" mb).1 (matching mb q)
    (ensure_label "rejections" mb).2.

Section end_to_end.
Implicit Types (svc : service) (w : world mailbox) (mb : mailbox) (fuel : nat).

Lemma labelled_resolve q mb :
  resolve (mb_labels (labelled q mb)) "rejections"
  = Some (ensure_label "rejections" mb).1.
Proof. apply ensure_label_resolve. Qed.

Lemma labelled_matching q mb : matching (labelled q mb) q = matching mb q.
Proof. unfold labelled. by rewrite apply_label_matching, ensure_label_matching. Qed.

Lemma labelled_authorized c q mb : authorized c (labelled q mb) = authorized c mb.
Proof. apply ensure_label_authorized. Qed.

Lemma labelled_page_size q mb : page_size (labelled q mb) = page_size mb.
Proof. apply ensure_label_page_size. Qed.

(** A second run changes nothing. *)
Lemma labelled_idemp q mb : labelled q (labelled q mb) = labelled q mb.
Proof.
  unfold labelled at 1.
  rewrite (ensure_label_Some _ _ _ (labelled_resolve q mb)), labelled_matching.
  apply apply_label_idemp.
Qed.

Lemma labelled_wf q mb : mailbox_wf mb → mailbox_wf (labelled q mb).
Proof.
  intros Hwf. apply apply_label_wf; [by apply ensure_label_wf|apply ensure_label_elem].
Qed.

(** The messages of the mailbox a run leaves: those that match carry
    the label, the others are as they were. *)
Lemma labelled_messages q mb :
  mb_messages (labelled q mb) =
  (λ m, if mb_matches mb q (msg_id m)
        then Message (msg_id m) (msg_labels m ∪ {[(ensure_label "rejections" mb).1]})
        else m) <$> mb_messages mb.
Proof.
  unfold labelled. rewrite apply_label_messages, ensure_label_messages.
  apply list_fmap_ext. intros k m Hm.
  assert (msg_id m ∈ msg_id <$> mb_messages mb) as Hin.
  { apply list_elem_of_fmap. exists m. split; [done|]. by eapply list_elem_of_lookup_2. }
  pose proof (elem_of_matching mb q (msg_id m)) as Hiff.
  case_decide as Hd; destruct (mb_matches mb q (msg_id m)); try done; exfalso.
  - by apply Hiff in Hd as [_ ?].
  - by apply Hd, Hiff.
Qed.

(** The requests of a complete run on a mailbox: the listing of the
    labels and the creation of the label when it is not there, the
    searches [ss], and the batch requests for the messages that match. *)
Definition run_requests (q : string) (mb : mailbox) (ss : list request) : list request :=
  (LabelsList "me" ::
     match resolve (mb_labels mb) "rejections" with
     | Some _ => []
     | None => [LabelsCreate "me" (label_body "rejections")]
     end) ++ ss ++
  chunk_requests (ensure_label "rejections" mb).1 (chunks 1000 (matching mb q)).

(** The script after the login, with a credential the mailbox accepts
    and fuel for the pages of the search. *)
Lemma label_rejections_labelled fuel svc w :
  authorized (svc_credentials svc) (w_remote w) = inr tt →
  length (matching (w_remote w) query) < fuel * page_size (w_remote w) →
  ∃ w', label_rejections svc fuel w = (Ok tt, w') ∧
    w_remote w' = labelled query (w_remote w) ∧
    w_files w' = w_files w ∧
    w_console w' = w_console w ++
      [label_line "rejections" (w_remote w);
       FoundMessages (length (matching (w_remote w) query))] ++
      label_lines (matching (w_remote w) query) ++ [AllDone] ∧
    ∃ ss, forallb is_search_request ss = true ∧
      w_calls w' = w_calls w ++ run_requests query (w_remote w) ss.
Proof.
  intros Ha Hfuel. unfold label_rejections. cbv zeta.
  rewrite bind_run, get_or_create_label_ensure by done.
  set (w1 := put_line _ _).
  assert (w_remote w1 = (ensure_label "rejections" (w_remote w)).2) as Hr1 by done.
  destruct (search_loop_mailbox fuel svc query w1) as (w2 & Hrun & Hs2 & _ & Hr2 & Hc2).
  { by rewrite Hr1, ensure_label_authorized. }
  { by rewrite Hr1, ensure_label_matching, ensure_label_page_size. }
  rewrite bind_run, (search_messages_found _ _ _ _ _ _ Hrun).
  set (w3 := put_line _ w2).
  assert (w_remote w3 = w_remote w1) as Hr3 by done.
  destruct (add_label_to_messages_apply svc (matching (w_remote w1) query)
              (ensure_label "rejections" (w_remote w)).1 w3)
    as (w4 & Hrun4 & Hr4 & Hc4 & Hs4 & Hcalls4).
  { by rewrite Hr3, Hr1, ensure_label_authorized. }
  { rewrite Hr3, Hr1. apply ensure_label_elem. }
  rewrite bind_run, Hrun4. eexists. split; [done|].
  destruct Hs2 as ((ss & Hcalls2 & Hss) & Hf2 & _), Hs4 as (_ & Hf4 & _).
  unfold print, modify_state, put_line. cbn [snd w_remote w_files w_console w_calls].
  rewrite Hr4, Hc4, Hf4, Hcalls4, Hr3. subst w3. cbn [put_line w_files w_console w_calls].
  rewrite Hc2, Hf2, Hcalls2, length_fmap, Hr1, ensure_label_matching. subst w1.
  cbn [put_line w_files w_console w_calls set_remote].
  split_and!; [done..|by rewrite <-!app_assoc|].
  exists ss. split; [done|]. unfold run_requests. by rewrite <-!app_assoc.
Qed.

End end_to_end.

(** ** The whole script *)

Section main_mailbox.
Implicit Types (svc : service) (w : world mailbox) (mb : mailbox) (fuel : nat).

(** The script with a login that yields a credential the mailbox
    accepts. *)
Lemma main_labelled fuel w svc w1 :
  get_gmail_service w = (Ok svc, w1) →
  authorized (svc_credentials svc) (w_remote w1) = inr tt →
  length (matching (w_remote w1) query) < fuel * page_size (w_remote w1) →
  ∃ w', main fuel w = (Ok tt, w') ∧ w_remote w' = labelled query (w_remote w1) ∧
    w_files w' = w_files w1 ∧ last (w_console w') = Some AllDone.
Proof.
  intros Hauth Ha Hfuel.
  destruct (label_rejections_labelled fuel svc w1 Ha Hfuel) as (w' & Hrun & Hr & Hf & Hc & _).
  exists w'. unfold main. rewrite bind_run, Hauth, Hrun, Hc, !app_assoc, last_snoc. done.
Qed.

(** [C1] End to end.  When the login yields a credential the mailbox
    accepts and the fuel covers the pages of the search, [main] returns;
    the mailbox then has a label named [rejections], every message that
    matches the query carries it, the labels it carried before are kept,
    and the messages that do not match are as they were. *)
Theorem main_labels_matching fuel w svc w1 :
  get_gmail_service w = (Ok svc, w1) →
  authorized (svc_credentials svc) (w_remote w1) = inr tt →
  length (matching (w_remote w1) query) < fuel * page_size (w_remote w1) →
  ∃ w' l, main fuel w = (Ok tt, w') ∧
    resolve (mb_labels (w_remote w')) "rejections" = Some l ∧
    mb_messages (w_remote w') =
      (λ m, if mb_matches (w_remote w1) query (msg_id m)
            then Message (msg_id m) (msg_labels m ∪ {[l]}) else m)
        <$> mb_messages (w_remote w1).
Proof.
  intros Hauth Ha Hfuel.
  destruct (main_labelled fuel w svc w1 Hauth Ha Hfuel) as (w' & Hrun & Hr & _).
  exists w', (ensure_label "rejections" (w_remote w1)).1.
  by rewrite Hr, labelled_resolve, labelled_messages.
Qed.

(** The texts of the lines of a run. *)
Lemma render_label_line mb :
  render (label_line "rejections" mb) =
  Some (match resolve (mb_labels mb) "rejections" with
        | Some _ => "Found existing label 'rejections' with ID: "
        | None => "Created label 'rejections' with ID: "
        end +:+ (ensure_label "rejections" mb).1).
Proof. unfold label_line, ensure_label. by destruct (resolve _ _). Qed.

Lemma render_label_lines ids :
  render <$> label_lines ids =
  Some <$> match ids with
           | [] => ["No messages to label."]
           | _ => (λ chunk, "Labeled " +:+ pretty (length chunk) +:+ " messages in this batch.")
                    <$> chunks 1000 ids
           end.
Proof. destruct ids; [done|]. unfold label_lines. by rewrite <-!list_fmap_compose. Qed.

(** [C18] What a run reports.  When the login yields a credential the
    mailbox accepts and the fuel covers the pages of the search, the
    lines [main] prints, as texts, are: the line that says whether the
    label was found or created, with its id; the number of messages
    that match; one line for each batch of 1000, with the number of
    messages of the batch, or the line that says there is nothing to
    label; and the last line. *)
Theorem main_reports fuel w svc w1 :
  get_gmail_service w = (Ok svc, w1) →
  authorized (svc_credentials svc) (w_remote w1) = inr tt →
  length (matching (w_remote w1) query) < fuel * page_size (w_remote w1) →
  let mb := w_remote w1 in
  let ids := matching mb query in
  ∃ l, resolve (mb_labels (w_remote (main fuel w).2)) "rejections" = Some l ∧
    render <$> w_console (main fuel w).2 =
    (render <$> w_console w) ++ (Some <$>
      [match resolve (mb_labels mb) "rejections" with
       | Some _ => "Found existing label 'rejections' with ID: "
       | None => "Created label 'rejections' with ID: "
       end +:+ l;
       "Found " +:+ pretty (length ids) +:+ " messages matching the query."] ++
      match ids with
      | [] => ["No messages to label."]
      | _ => (λ chunk, "Labeled " +:+ pretty (length chunk) +:+ " messages in this batch.")
               <$> chunks 1000 ids
      end ++
      ["Done! All matching emails have been labeled as 'rejections'."]).
Proof.
  intros Hlogin Ha Hfuel mb ids. subst mb ids.
  destruct (label_rejections_labelled fuel svc w1 Ha Hfuel) as (w' & Hrun & Hr & _ & Hc & _).
  pose proof (get_gmail_service_local w) as (_ & Hcon & _). rewrite Hlogin in Hcon.
  exists (ensure_label "rejections" (w_remote w1)).1.
  unfold main. rewrite bind_run, Hlogin, Hrun. cbn [snd].
  split; [rewrite Hr; apply labelled_resolve|]. simpl in Hcon.
  rewrite Hc, Hcon, !fmap_app, render_label_lines. cbn [fmap list_fmap].
  by rewrite render_label_line.
Qed.

(** [C9] A second run changes nothing in the mailbox: it finds the
    label the first run left, and the messages it labels carry the label
    already. *)
Theorem label_rejections_idempotent fuel svc w w' :
  authorized (svc_credentials svc) (w_remote w) = inr tt →
  length (matching (w_remote w) query) < fuel * page_size (w_remote w) →
  label_rejections svc fuel w = (Ok tt, w') →
  ∃ w'', label_rejections svc fuel w' = (Ok tt, w'') ∧ w_remote w'' = w_remote w' ∧
    ∃ l, label_line "rejections" (w_remote w') = FoundExistingLabel "rejections" (PStr l).
Proof.
  intros Ha Hfuel Hrun.
  destruct (label_rejections_labelled fuel svc w Ha Hfuel) as (w0 & Hrun0 & Hr & _).
  rewrite Hrun in Hrun0. injection Hrun0 as <-.
  destruct (label_rejections_labelled fuel svc w') as (w'' & Hrun' & Hr' & _).
  { by rewrite Hr, labelled_authorized. }
  { by rewrite Hr, labelled_matching, labelled_page_size. }
  exists w''. rewrite Hr', Hr, labelled_idemp. split_and!; [done..|].
  unfold label_line. rewrite labelled_resolve. eauto.
Qed.

(** With a credential the mailbox refuses the first request fails and
    no other is sent. *)
Lemma label_rejections_refused fuel svc w e :
  authorized (svc_credentials svc) (w_remote w) = inl e →
  label_rejections svc fuel w = (Raise e, log_call (LabelsList "me") w).
Proof.
  intros Ha. unfold label_rejections, get_or_create_label. cbv zeta.
  rewrite !bind_run, execute_run.
  unfold gmail_execute, mailbox_api, mailbox_execute. rewrite Ha. simpl.
  by destruct w.
Qed.

(** A run of the script that returns has labelled the messages: the
    credential was accepted and the fuel was enough. *)
Lemma label_rejections_returns fuel svc w w' :
  label_rejections svc fuel w = (Ok tt, w') → w_remote w' = labelled query (w_remote w).
Proof.
  intros Hrun. destruct (authorized (svc_credentials svc) (w_remote w)) as [e|[]] eqn:Ha.
  { by rewrite (label_rejections_refused fuel svc w e Ha) in Hrun. }
  set (fuel' := fuel + S (length (matching (w_remote w) query))).
  destruct (label_rejections_labelled fuel' svc w Ha) as (w'' & Hrun' & Hr & _).
  { unfold page_size, fuel'. nia. }
  rewrite (label_rejections_fuel_mono fuel fuel') in Hrun'
    by (by rewrite ?Hrun || (unfold fuel'; lia)).
  congruence.
Qed.

(** [C29] With a credential the mailbox refuses, [main] raises the
    error of the first request, the listing of the labels, and the
    mailbox is as the login left it: no label is created and no message
    is labelled. *)
Theorem main_refused fuel w svc w1 e :
  get_gmail_service w = (Ok svc, w1) →
  authorized (svc_credentials svc) (w_remote w1) = inl e →
  main fuel w = (Raise e, log_call (LabelsList "me") w1).
Proof.
  intros Hauth Ha. unfold main, label_rejections, get_or_create_label. cbv zeta.
  rewrite bind_run, Hauth, !bind_run, execute_run.
  unfold gmail_execute, mailbox_api, mailbox_execute. rewrite Ha. simpl.
  by destruct w1.
Qed.

End main_mailbox.

(** ** The login and the mailbox *)

#[export] Instance labelled_proper q : Proper ((≡) ==> (≡)) (labelled q).
Proof.
  intros mb mb' Hmb. unfold labelled.
  destruct (ensure_label_proper "rejections" mb mb' Hmb) as [-> Hmb2].
  rewrite (matching_proper mb mb' Hmb q q eq_refl). by apply apply_label_proper.
Qed.

(** [same_remote w w']: the mailbox of [w'] is that of [w] up to the
    grants. *)
Definition same_remote (w w' : world mailbox) : Prop := w_remote w' ≡ w_remote w.

#[export] Instance same_remote_preorder : PreOrder same_remote.
Proof.
  split; [by intros w|]. intros w1 w2 w3 H12 H23. unfold same_remote in *.
  by rewrite H23.
Qed.

#[export] Instance same_remote_login : LoginFrame same_remote.
Proof.
  split; [apply _|intros c w|intros config sc w|by intros v w].
  - pose proof (mailbox_refresh_equiv (w_clock w) c (w_remote w)) as He.
    unfold same_remote, refresh, oauth_refresh, mailbox_oauth. by destruct mailbox_refresh.
  - pose proof (mailbox_authorize_equiv (w_clock w) config sc (w_remote w)) as He.
    unfold same_remote, run_local_server, oauth_authorize, mailbox_oauth.
    by destruct mailbox_authorize.
Qed.

(** The login leaves the labels and the messages alone. *)
Lemma get_gmail_service_same_mail (w : world mailbox) :
  w_remote (get_gmail_service w).2 ≡ w_remote w.
Proof. apply (get_gmail_service_frame same_remote). Qed.

(** With fuel for the pages of the search the script ends, whatever the
    login yields. *)
Lemma main_ends fuel (w : world mailbox) :
  length (matching (w_remote w) query) < fuel * page_size (w_remote w) →
  (main fuel w).1 ≠ OutOfFuel.
Proof.
  intros Hfuel. unfold main. rewrite bind_run.
  pose proof (total_get_gmail_service w) as Ht.
  destruct (get_gmail_service w) as [[svc|e|] w1] eqn:Hlogin; [|done..]. cbn [fst snd].
  destruct (authorized (svc_credentials svc) (w_remote w1)) as [e|[]] eqn:Ha.
  { by rewrite (label_rejections_refused fuel svc w1 e Ha). }
  destruct (label_rejections_labelled fuel svc w1 Ha) as (w' & -> & _); [|done].
  pose proof (get_gmail_service_same_mail w) as Hs. rewrite Hlogin in Hs. by rewrite Hs.
Qed.

(** ** The invariant of the mailbox *)

(** [keeps_wf w w']: the mailbox of [w'] is well-formed when that of
    [w] is. *)
Definition keeps_wf (w w' : world mailbox) : Prop :=
  mailbox_wf (w_remote w) → mailbox_wf (w_remote w').

#[export] Instance keeps_wf_preorder : PreOrder keeps_wf.
Proof. split; [by intros w ?|]. intros w1 w2 w3 H12 H23 ?. auto. Qed.

#[export] Instance keeps_wf_frame Q L : Frame Q L keeps_wf.
Proof.
  split; [apply _|intros svc req _ w Hwf|by intros l _ w ?].
  rewrite execute_run. by apply mailbox_execute_wf.
Qed.

#[export] Instance keeps_wf_login : LoginFrame keeps_wf.
Proof.
  split; [apply _|intros c w Hwf|intros config sc w Hwf|by intros v w ?].
  - pose proof (mailbox_refresh_wf (w_clock w) c _ Hwf) as Hwf'.
    unfold refresh, oauth_refresh, mailbox_oauth. by destruct mailbox_refresh.
  - pose proof (mailbox_authorize_wf (w_clock w) config sc _ Hwf) as Hwf'.
    unfold run_local_server, oauth_authorize, mailbox_oauth. by destruct mailbox_authorize.
Qed.

(** Whatever [main] does, returns or raises, and with whatever
    credential, a well-formed mailbox stays well-formed: label ids and
    names stay unique, message ids too, and every label on a message is
    a label of the mailbox. *)
Theorem main_wf fuel (w : world mailbox) :
  mailbox_wf (w_remote w) → mailbox_wf (w_remote (main fuel w).2).
Proof. apply (main_frame keeps_wf). Qed.

(** ** The first run *)

(** [C20] The first run.  With no [token.json], client secrets in
    [credentials.json], a user who consents and fuel for the pages of the
    search, [main] logs in, saves a credential that can be loaded back,
    and labels the messages that match. *)
Theorem main_first_run fuel (w : world mailbox) d :
  w_files w !! "token.json" = None →
  w_files w !! "credentials.json" = Some (PDict d) →
  is_Some (dict_lookup d "installed") →
  mb_consent (w_remote w) = true →
  length (matching (w_remote w) query) < fuel * page_size (w_remote w) →
  ∃ w' l c, main fuel w = (Ok tt, w') ∧
    w_files w' !! "token.json" = Some (to_json c) ∧ is_Some (refresh_token c) ∧
    resolve (mb_labels (w_remote w')) "rejections" = Some l ∧
    mb_messages (w_remote w') =
      (λ m, if mb_matches (w_remote w) query (msg_id m)
            then Message (msg_id m) (msg_labels m ∪ {[l]}) else m)
        <$> mb_messages (w_remote w).
Proof.
  intros Ht Hs Hi Hc Hfuel.
  destruct (mailbox_authorize_consent (w_clock w) (PDict d) SCOPES (w_remote w) Hc)
    as (c & mb' & Hx & Ha & Hrt & Hmb); [by left|].
  apply with_grants_labelled in Hmb as (Hl & Hn & Hm & Hq & Hp).
  assert (get_gmail_service w =
          (Ok (Service c), put_file "token.json" (to_json c) (set_remote mb' w))) as Hauth.
  { rewrite get_gmail_service_loaded. unfold loaded. rewrite Ht. simpl.
    rewrite (renew_login None) by done.
    rewrite (from_client_secrets_file_ok d) by done. simpl.
    unfold oauth_authorize, mailbox_oauth. by rewrite Hx. }
  assert (matching mb' query = matching (w_remote w) query) as Hmatch.
  { unfold matching. by rewrite Hm, Hq. }
  destruct (main_labelled fuel w _ _ Hauth) as (w' & Hrun & Hr & Hf & _); [done|..].
  { simpl. unfold page_size. by rewrite Hmatch, Hp. }
  exists w', (ensure_label "rejections" mb').1, c. split_and!; [done| |done|..].
  - rewrite Hf. simpl. apply lookup_insert_eq.
  - rewrite Hr. apply labelled_resolve.
  - rewrite Hr, labelled_messages. simpl. by rewrite Hm, Hq.
Qed.

(** ** Runs on the sample mailbox *)

(** A stored credential whose token was granted the read-only scope. *)
Definition readonly_world : world mailbox :=
  World {["token.json" :=
            to_json (Credentials (Some "ya29.ro") (Some "1//0") (Some 5000%Z)
                       ["https://www.googleapis.com/auth/gmail.readonly"])]}
    1000 sample_mailbox [] [].

Lemma main_labels_matching_witness :
  ∃ w' l, main 3 cached_world = (Ok tt, w') ∧
    resolve (mb_labels (w_remote w')) "rejections" = Some l ∧
    mb_messages (w_remote w') =
      (λ m, if mb_matches sample_mailbox query (msg_id m)
            then Message (msg_id m) (msg_labels m ∪ {[l]}) else m)
        <$> mb_messages sample_mailbox.
Proof.
  apply (main_labels_matching 3 cached_world
           (Service (Credentials (Some "ya29.0") (Some "1//0") (Some 5000%Z) SCOPES))
           cached_world); [reflexivity..|].
  vm_compute. lia.
Defined.

(** The four lines of the run on the sample mailbox. *)
Lemma main_reports_witness :
  let mb := sample_mailbox in
  let ids := matching mb query in
  ∃ l, resolve (mb_labels (w_remote (main 3 cached_world).2)) "rejections" = Some l ∧
    render <$> w_console (main 3 cached_world).2 =
    (render <$> w_console cached_world) ++ (Some <$>
      [match resolve (mb_labels mb) "rejections" with
       | Some _ => "Found existing label 'rejections' with ID: "
       | None => "Created label 'rejections' with ID: "
       end +:+ l;
       "Found " +:+ pretty (length ids) +:+ " messages matching the query."] ++
      match ids with
      | [] => ["No messages to label."]
      | _ => (λ chunk, "Labeled " +:+ pretty (length chunk) +:+ " messages in this batch.")
               <$> chunks 1000 ids
      end ++
      ["Done! All matching emails have been labeled as 'rejections'."]).
Proof.
  apply (main_reports 3 cached_world
           (Service (Credentials (Some "ya29.0") (Some "1//0") (Some 5000%Z) SCOPES))
           cached_world); [reflexivity..|].
  vm_compute. lia.
Defined.

Example reports_scenario :
  render <$> w_console (main 3 cached_world).2 =
  [Some "Found existing label 'rejections' with ID: Label_1";
   Some "Found 3 messages matching the query.";
   Some "Labeled 3 messages in this batch.";
   Some "Done! All matching emails have been labeled as 'rejections'."] ∧
  render <$> w_console (main 3 first_run_world).2 =
  [Some "Created label 'rejections' with ID: Label_1";
   Some "Found 3 messages matching the query.";
   Some "Labeled 3 messages in this batch.";
   Some "Done! All matching emails have been labeled as 'rejections'."].
Proof. by vm_compute. Qed.

Lemma label_rejections_idempotent_witness :
  ∃ w'', label_rejections sample_service 3
           (label_rejections sample_service 3 (init_world fresh_mailbox)).2 = (Ok tt, w'') ∧
    w_remote w'' = w_remote (label_rejections sample_service 3 (init_world fresh_mailbox)).2 ∧
    ∃ l, label_line "rejections"
           (w_remote (label_rejections sample_service 3 (init_world fresh_mailbox)).2)
         = FoundExistingLabel "rejections" (PStr l).
Proof.
  apply (label_rejections_idempotent 3 sample_service (init_world fresh_mailbox)).
  - reflexivity.
  - vm_compute. lia.
  - by vm_compute.
Defined.

Lemma main_refused_witness :
  main 3 readonly_world = (Raise (HttpError 403), log_call (LabelsList "me") readonly_world).
Proof.
  apply (main_refused 3 readonly_world
           (Service (Credentials (Some "ya29.ro") (Some "1//0") (Some 5000%Z) SCOPES))).
  - reflexivity.
  - reflexivity.
Defined.

Lemma main_wf_witness : mailbox_wf (w_remote (main 3 cached_world).2).
Proof. apply (main_wf 3 cached_world). apply sample_mailbox_wf. Defined.

Lemma main_first_run_witness :
  ∃ w' l c, main 3 first_run_world = (Ok tt, w') ∧
    w_files w' !! "token.json" = Some (to_json c) ∧ is_Some (refresh_token c) ∧
    resolve (mb_labels (w_remote w')) "rejections" = Some l ∧
    mb_messages (w_remote w') =
      (λ m, if mb_matches fresh_mailbox query (msg_id m)
            then Message (msg_id m) (msg_labels m ∪ {[l]}) else m)
        <$> mb_messages fresh_mailbox.
Proof.
  apply (main_first_run 3 first_run_world [("installed", PDict [("client_id", PStr "app")])]).
  - reflexivity.
  - reflexivity.
  - by eexists.
  - reflexivity.
  - vm_compute. lia.
Defined.

(** ** A run after the token has expired *)

(** [C21] With an expired credential in [token.json] whose refresh token
    is still granted the modify scope, [main] refreshes the credential
    without the interactive login, saves it, and labels the messages
    that match. *)
Theorem main_after_expiry fuel (w : world mailbox) c rt sc :
  loaded w = Ok (Some c) →
  expired c (w_clock w) = true →
  has_refresh_token c = true → refresh_token c = Some rt →
  assoc rt (mb_refresh_grants (w_remote w)) = Some sc → modify_scope ∈ sc →
  length (matching (w_remote w) query) < fuel * page_size (w_remote w) →
  ∃ w' l c', main fuel w = (Ok tt, w') ∧
    w_files w' !! "token.json" = Some (to_json c') ∧ refresh_token c' = Some rt ∧
    resolve (mb_labels (w_remote w')) "rejections" = Some l ∧
    mb_messages (w_remote w') =
      (λ m, if mb_matches (w_remote w) query (msg_id m)
            then Message (msg_id m) (msg_labels m ∪ {[l]}) else m)
        <$> mb_messages (w_remote w).
Proof.
  intros Hl He Hh Hrt Hg Hsc Hfuel.
  destruct (mailbox_refresh_granted (w_clock w) c rt sc (w_remote w) Hrt Hg Hsc)
    as (c' & mb' & Hx & Ha & Hrt' & Hmb).
  apply with_grants_labelled in Hmb as (_ & _ & Hm & Hq & Hp).
  assert (get_gmail_service w =
          (Ok (Service c'), put_file "token.json" (to_json c') (set_remote mb' w))) as Hauth.
  { rewrite get_gmail_service_loaded, Hl. simpl. rewrite (expired_not_valid _ _ He).
    simpl. rewrite renew_refresh by (unfold can_refresh; by rewrite He, Hh).
    unfold oauth_refresh, mailbox_oauth. by rewrite Hx. }
  assert (matching mb' query = matching (w_remote w) query) as Hmatch.
  { unfold matching. by rewrite Hm, Hq. }
  destruct (main_labelled fuel w _ _ Hauth) as (w' & Hrun & Hr & Hf & _); [done|..].
  { simpl. unfold page_size. by rewrite Hmatch, Hp. }
  exists w', (ensure_label "rejections" mb').1, c'. split_and!; [done| |done|..].
  - rewrite Hf. simpl. apply lookup_insert_eq.
  - rewrite Hr. apply labelled_resolve.
  - rewrite Hr, labelled_messages. simpl. by rewrite Hm, Hq.
Qed.

Lemma main_after_expiry_witness :
  ∃ w' l c', main 3 expired_world = (Ok tt, w') ∧
    w_files w' !! "token.json" = Some (to_json c') ∧ refresh_token c' = Some "1//0" ∧
    resolve (mb_labels (w_remote w')) "rejections" = Some l ∧
    mb_messages (w_remote w') =
      (λ m, if mb_matches sample_mailbox query (msg_id m)
            then Message (msg_id m) (msg_labels m ∪ {[l]}) else m)
        <$> mb_messages sample_mailbox.
Proof.
  apply (main_after_expiry 3 expired_world
           (Credentials (Some "ya29.0") (Some "1//0") (Some 5000%Z) SCOPES)
           "1//0" [modify_scope]); try reflexivity.
  - by left.
  - vm_compute. lia.
Defined.
