(* ===== verification/Interrupted.v ===== *)
(** * Interrupted: a run that stops half way, and the run after it

    The script keeps no record of what it has done and undoes nothing.
    This file shows that it does not need to: on the reference mailbox
    every request of the script either fails and changes nothing or
    takes the mailbox one step towards the mailbox of a complete run, in
    whatever order the requests arrive.  Every run, whether it returns,
    is refused, runs out of fuel or is stopped by a gate ([Gate]),
    therefore leaves a mailbox from which a later run that completes
    reaches the mailbox an uninterrupted run reaches; and whatever the
    run has done, it has only added the label to messages that match.
    And a run tells the truth when it prints its last line: it prints
    it exactly when it returns, and then the messages are labelled.
    With fuel for the pages of the search the script ends, and the exit
    status of the process says the same as the last line. *)

From stdpp Require Import base tactics option list strings relations gmap.
From S2P Require Import Prelude PyData World Mock Mailbox Batch Labels Search Auth.
From S2P Require Import Pipeline Gate EndToEnd.

(** ** The requests of the script and the states they lead to *)

Section progress.
Implicit Types (mb ini : mailbox) (q : string) (cr : credentials).
Implicit Types (req : request) (reqs : list request).

(** The requests of the script for the query [q] on the mailbox [ini]:
    the listing of the labels, the creation of the label [rejections],
    the searches, and the batch requests that add the label to messages
    that match. *)
Definition scripted q ini req : Prop :=
  match req with
  | LabelsList _ | MessagesList _ _ _ => True
  | LabelsCreate _ body => body = label_body "rejections"
  | MessagesBatchModify _ body =>
      ∃ ids, ids ⊆ matching ini q ∧
        body = batch_body (PStr <$> ids) (PStr (ensure_label "rejections" ini).1)
  end.

(** [progress q ini mb]: [mb] is [ini], or [ini] with the label and
    with some of the messages that match labelled. *)
Definition progress q ini mb : Prop :=
  mb = ini ∨
  ∃ ids, ids ⊆ matching ini q ∧
    mb = apply_label (ensure_label "rejections" ini).1 ids (ensure_label "rejections" ini).2.

Lemma progress_start q ini : progress q ini ini.
Proof. by left. Qed.

(** What matters to a later run is the same in every state of
    progress. *)
Lemma progress_resolve q ini ids :
  resolve (mb_labels (apply_label (ensure_label "rejections" ini).1 ids
                        (ensure_label "rejections" ini).2)) "rejections"
  = Some (ensure_label "rejections" ini).1.
Proof. apply ensure_label_resolve. Qed.

Lemma progress_matching q ini mb : progress q ini mb → matching mb q = matching ini q.
Proof.
  intros [->|(ids & _ & ->)]; [done|].
  by rewrite apply_label_matching, ensure_label_matching.
Qed.

Lemma progress_page_size q ini mb : progress q ini mb → page_size mb = page_size ini.
Proof. intros [->|(ids & _ & ->)]; [done|]. apply ensure_label_page_size. Qed.

Lemma progress_authorized cr q ini mb :
  progress q ini mb → authorized cr mb = authorized cr ini.
Proof. intros [->|(ids & _ & ->)]; [done|]. apply ensure_label_authorized. Qed.

Lemma progress_wf q ini mb : mailbox_wf ini → progress q ini mb → mailbox_wf mb.
Proof.
  intros Hwf [->|(ids & _ & ->)]; [done|].
  apply apply_label_wf; [by apply ensure_label_wf|apply ensure_label_elem].
Qed.

(** Progress from a state of progress is progress. *)
#[export] Instance progress_preorder q : PreOrder (progress q).
Proof.
  split; [intros ini; apply progress_start|].
  intros ini mb mb' Hp [->|(ids' & Hids' & ->)]; [done|].
  rewrite (progress_matching _ _ _ Hp) in Hids'. right.
  destruct Hp as [->|(ids & Hids & ->)]; [by exists ids'|].
  exists (ids ++ ids'). split; [intros i [?|?]%elem_of_app; auto|].
  rewrite (ensure_label_Some _ _ _ (progress_resolve q ini ids)). cbn [fst snd].
  by rewrite apply_label_app.
Qed.

(** The grants are those of the start. *)
Lemma progress_grants q ini mb :
  progress q ini mb → mb_refresh_grants mb = mb_refresh_grants ini.
Proof.
  intros [->|(ids & _ & ->)]; [done|]. unfold ensure_label.
  by destruct (resolve _ _).
Qed.

(** Progress does not depend on the grants. *)
Lemma progress_equiv q mb0 mb mb' :
  mb0 ≡ mb → progress q mb mb' → ∃ mb1, mb1 ≡ mb' ∧ progress q mb0 mb1.
Proof.
  intros Hmb [->|(ids & Hids & ->)]; [by exists mb0|].
  destruct (ensure_label_proper "rejections" mb0 mb Hmb) as [Hl He].
  exists (apply_label (ensure_label "rejections" mb0).1 ids
            (ensure_label "rejections" mb0).2).
  split; [rewrite Hl; by apply apply_label_proper|].
  right. exists ids. by rewrite (matching_proper _ _ Hmb q q eq_refl).
Qed.

(** A complete run from a state of progress leaves the mailbox a
    complete run from the start leaves. *)
Lemma progress_labelled q ini mb : progress q ini mb → labelled q mb = labelled q ini.
Proof.
  intros Hp. pose proof (progress_matching q ini mb Hp) as Hm.
  destruct Hp as [->|(ids & Hids & ->)]; [done|].
  unfold labelled at 1. rewrite Hm.
  rewrite (ensure_label_Some _ _ _ (progress_resolve q ini ids)). cbn [fst snd].
  rewrite apply_label_app. apply apply_label_ext. intros i. rewrite elem_of_app.
  specialize (Hids i). tauto.
Qed.

(** The mailbox of a complete run is the last state of progress. *)
Lemma progress_complete q ini mb : progress q (labelled q ini) mb → mb = labelled q ini.
Proof.
  intros [->|(ids & Hids & ->)]; [done|]. rewrite labelled_matching in Hids.
  rewrite (ensure_label_Some _ _ _ (labelled_resolve q ini)). cbn [fst snd].
  unfold labelled. rewrite apply_label_app. apply apply_label_ext. intros i.
  rewrite elem_of_app. specialize (Hids i). tauto.
Qed.

(** What a state of progress holds: the labels of the start, with the
    label [rejections] after them when it was not there; the messages
    of the start, some of those that match with that label more. *)
Lemma progress_content q ini mb :
  progress q ini mb →
  (mb_labels mb = mb_labels ini ∨
   ∃ i, resolve (mb_labels ini) "rejections" = None ∧
     mb_labels mb = mb_labels ini ++ [("rejections", i)]) ∧
  ∃ ids l, ids ⊆ matching ini q ∧
    (ids ≠ [] → resolve (mb_labels mb) "rejections" = Some l) ∧
    mb_messages mb =
      (λ m, if decide (msg_id m ∈ ids) then Message (msg_id m) (msg_labels m ∪ {[l]}) else m)
        <$> mb_messages ini.
Proof.
  intros [->|(ids & Hids & ->)].
  - split; [by left|]. exists [], "". split_and!; [by intros ? ?%elem_of_nil|done|].
    by rewrite <-apply_label_messages, apply_label_nil.
  - split.
    + change (mb_labels (apply_label _ _ ?mb)) with (mb_labels mb).
      rewrite ensure_label_labels. destruct (resolve _ _) eqn:E; [left|right].
      * by rewrite app_nil_r.
      * by eexists.
    + exists ids, (ensure_label "rejections" ini).1. split_and!; [done| |].
      * intros _. apply (progress_resolve q).
      * by rewrite apply_label_messages, ensure_label_messages.
Qed.

(** The creation of the label in a state of progress. *)
Lemma progress_create q ini mb :
  progress q ini mb → progress q ini (labels_create (label_body "rejections") mb).2.
Proof.
  intros Hp. unfold labels_create, label_body.
  change (dict_lookup _ "name") with (Some (PStr "rejections")). cbv iota beta.
  destruct (resolve (mb_labels mb) "rejections") as [i|] eqn:E; [done|].
  destruct Hp as [->|(ids & _ & ->)]; [|by rewrite progress_resolve in E].
  right. exists []. split; [by intros ? ?%elem_of_nil|].
  rewrite apply_label_nil. unfold ensure_label. by rewrite E.
Qed.

(** A batch request of the script in a state of progress. *)
Lemma progress_batch q ini mb ids :
  mailbox_wf ini → ids ⊆ matching ini q → progress q ini mb →
  progress q ini
    (batch_modify (batch_body (PStr <$> ids) (PStr (ensure_label "rejections" ini).1)) mb).2.
Proof.
  intros Hwf Hids Hp. unfold batch_body. rewrite batch_modify_state.
  case_decide as Hd; [|done]. destruct Hd as [_ Hl]. right.
  destruct Hp as [->|(ids0 & Hids0 & ->)].
  - exists ids. split; [done|]. unfold ensure_label in *.
    destruct (resolve (mb_labels ini) "rejections") as [i|]; [done|].
    by destruct (wf_label_fresh ini Hwf (mb_next_label ini) ltac:(done)).
  - exists (ids0 ++ ids). rewrite apply_label_app. split; [|done].
    intros i [?|?]%elem_of_app; auto.
Qed.

(** Every request of the script, accepted or not, keeps the mailbox in
    a state of progress. *)
Lemma progress_execute cr q ini mb req :
  mailbox_wf ini → scripted q ini req → progress q ini mb →
  progress q ini (gmail_execute cr req mb).2.
Proof.
  intros Hwf Hreq Hp. destruct (mailbox_execute_state cr req mb) as [->| ->]; [done|].
  destruct req as [|u body| |u body]; simpl in Hreq; [done| |done|].
  - subst body. by apply progress_create.
  - destruct Hreq as (ids & Hids & ->). by apply progress_batch.
Qed.

Lemma progress_serve cr q ini mb reqs :
  mailbox_wf ini → Forall (scripted q ini) reqs → progress q ini mb →
  progress q ini (serve cr mb reqs).
Proof.
  intros Hwf Hreqs. revert mb.
  induction Hreqs as [|req reqs Hreq _ IH]; intros mb Hp; [done|].
  rewrite serve_cons. by apply IH, progress_execute.
Qed.

(** The requests of a complete run are requests of the script. *)
Lemma run_requests_scripted q ini ss :
  forallb is_search_request ss = true → Forall (scripted q ini) (run_requests q ini ss).
Proof.
  intros Hss. unfold run_requests. rewrite !Forall_app. split_and!.
  - destruct (resolve _ _); by repeat constructor.
  - apply Forall_forall. intros req Hreq.
    rewrite forallb_forall in Hss. specialize (Hss req).
    rewrite <-list_elem_of_In in Hss. specialize (Hss Hreq). by destruct req.
  - unfold chunk_requests. apply Forall_fmap, Forall_forall. intros chunk Hchunk.
    exists chunk. split; [|done]. intros i Hi.
    rewrite <-(concat_chunks 1000 (matching ini q)) by lia.
    apply list_elem_of_In, in_concat. exists chunk. by rewrite <-!list_elem_of_In.
Qed.

End progress.

(** ** The requests of every run *)

Section runs.
Implicit Types (svc : service) (w : world mailbox) (fuel n : nat).

(** Whatever the credential and the fuel, the requests of
    [label_rejections] on the mailbox are requests of the script: the
    ids it sends were found by the search, and the label it adds is the
    label [rejections]. *)
Lemma label_rejections_scripted fuel svc w :
  ∃ new, w_calls (label_rejections svc fuel w).2 = w_calls w ++ new ∧
    Forall (scripted query (w_remote w)) new.
Proof.
  destruct (authorized (svc_credentials svc) (w_remote w)) as [e|[]] eqn:Ha.
  { rewrite (label_rejections_refused fuel svc w e Ha). exists [LabelsList "me"].
    split; [done|by repeat constructor]. }
  unfold label_rejections. cbv zeta.
  rewrite bind_run, get_or_create_label_ensure by done. set (w1 := put_line _ _).
  pose proof (run_requests_scripted query (w_remote w)) as Hreqs. unfold run_requests in Hreqs.
  assert (w_remote w1 = (ensure_label "rejections" (w_remote w)).2) as Hr1 by done.
  assert (authorized (svc_credentials svc) (w_remote w1) = inr tt) as Ha1
    by (by rewrite Hr1, ensure_label_authorized).
  rewrite bind_run.
  destruct (search_messages_all fuel svc query w1 Ha1) as [Hout|(w2 & Hrun & Hs & Hr)].
  - destruct (search_messages_emits fuel svc query w1) as (ss & Hcalls & Hss & _).
    destruct (search_messages _ _ _ _) as [[ids|e|] w2]; [done..|]. eexists.
    cbn [snd] in *. rewrite Hcalls. subst w1. cbn [put_line set_remote w_calls].
    split; [by rewrite <-app_assoc|].
    specialize (Hreqs ss Hss). rewrite app_assoc in Hreqs.
    by apply Forall_app in Hreqs as [Hreqs _].
  - rewrite Hrun. destruct Hs as ((ss & Hcalls & Hss) & _).
    destruct (add_label_to_messages_apply svc (matching (w_remote w1) query)
                (ensure_label "rejections" (w_remote w)).1 w2)
      as (w4 & Hrun4 & _ & _ & _ & Hcalls4).
    { by rewrite Hr. }
    { rewrite Hr, Hr1. apply ensure_label_elem. }
    rewrite bind_run, Hrun4. eexists. split; [|apply (Hreqs ss Hss)].
    cbn [print modify_state put_line snd w_calls]. rewrite Hcalls4, Hcalls, Hr1. subst w1.
    cbn [put_line set_remote w_calls]. by rewrite ensure_label_matching, <-!app_assoc.
Qed.

(** Whatever the script does behind a gate after the login, it leaves
    the mailbox in a state of progress. *)
Lemma label_rejections_progress `{Gate G} fuel svc (g : G) w :
  mailbox_wf (w_remote w) →
  progress query (w_remote w) (inner (w_remote (label_rejections svc fuel (gate_at g w)).2)).
Proof.
  intros Hwf.
  destruct (label_rejections_behind (G:=G) svc fuel w) as (new & Hc & Hr & Hin & Hout).
  destruct (label_rejections_scripted fuel svc w) as (new' & Hc' & Hnew).
  rewrite Hc' in Hc. apply app_inv_head in Hc. subst new'.
  destruct (gate_pass (length new) g) as [g'|] eqn:Hg.
  - rewrite (Hin g g' Hg). cbn [snd gate_at w_remote inner]. rewrite Hr.
    by apply progress_serve.
  - apply gate_pass_None in Hg as (k & g1 & f & g2 & Hk & Hg & Hs).
    destruct (Hout k g g1 f g2 Hk Hg Hs) as (wl & Hrunl & _ & Hrl). rewrite Hrunl. cbn [snd].
    rewrite Hrl. cbn [inner]. apply progress_serve; [done|by apply Forall_take|done].
Qed.

(** A login that a fault stops leaves the labels and the messages
    alone. *)
Lemma login_fault_same_mail `{Gate G} f (g : G) w :
  inner (w_remote (login_fault f g w).2) ≡ w_remote w.
Proof. destruct f; [done|apply get_gmail_service_same_mail]. Qed.

(** Whatever a run behind a gate does, it leaves the mailbox in a state
    of progress from the mailbox it has found, up to the grants of the
    login. *)
Lemma main_progress `{Gate G} fuel (g : G) w :
  mailbox_wf (w_remote w) →
  ∃ ini, ini ≡ w_remote w ∧ mailbox_wf ini ∧
    progress query ini (inner (w_remote (main fuel (gate_at g w)).2)).
Proof.
  intros Hwf. pose proof (get_gmail_service_frame keeps_wf w Hwf) as Hwf1.
  destruct (main_gated_cases fuel g w) as [(g' & _ & ->)|(f & g' & _ & _ & ->)].
  - exists (w_remote (get_gmail_service w).2).
    split_and!; [apply get_gmail_service_same_mail|done|].
    destruct (get_gmail_service w) as [[svc|e|] w1]; [|done..].
    by apply label_rejections_progress.
  - eexists. split_and!; [apply (login_fault_same_mail f g')|by destruct f|done].
Qed.

(** A run behind a gate that returns has met no fault, was accepted and
    had fuel enough: it has labelled the messages. *)
Lemma main_returns `{Gate G} fuel (g : G) w :
  (main fuel (gate_at g w)).1 = Ok tt →
  inner (w_remote (main fuel (gate_at g w)).2) ≡ labelled query (w_remote w).
Proof.
  destruct (main_gated_cases fuel g w) as [(g0 & _ & ->)|(f & g0 & _ & _ & ->)]; [|done].
  pose proof (get_gmail_service_same_mail w) as Hsame.
  destruct (get_gmail_service w) as [[svc|e|] w1]; [|done..]. cbn [fst snd] in *.
  destruct (label_rejections_behind (G:=G) svc fuel w1) as (new & _ & _ & Hin & Hout).
  destruct (gate_pass (length new) g0) as [g'|] eqn:Hg.
  - rewrite (Hin g0 g' Hg). destruct (label_rejections svc fuel w1) as [r w'] eqn:Hrun.
    cbn [fst snd gate_at w_remote inner]. intros ->.
    by rewrite (label_rejections_returns _ _ _ _ Hrun), Hsame.
  - apply gate_pass_None in Hg as (k & g1 & f & g2 & Hk & Hg & Hs).
    by destruct (Hout k g0 g1 f g2 Hk Hg Hs) as (wl & -> & _).
Qed.

(** [C15] The last line tells the truth.  Whatever the credential, the
    fuel, and the faults of the provider: a run of [main] on the
    mailbox prints [Done! All matching emails have been labeled as
    'rejections'.] exactly when it returns, and when it has printed
    the line, the mailbox is the one a complete run leaves
    ([labelled]): every message that matches the query carries the
    label [rejections], and everything else is as it was. *)
Theorem main_done `{Gate G} fuel (g : G) w :
  let r := main fuel (gate_at g w) in
  ∃ new, w_console r.2 = w_console w ++ new ∧
    (AllDone ∈ new ↔ r.1 = Ok tt) ∧
    (AllDone ∈ new → inner (w_remote r.2) ≡ labelled query (w_remote w)).
Proof.
  intros r. subst r.
  destruct (main_completes (P:=gated G mailbox) fuel (gate_at g w)) as (new & Hc & Hdone).
  assert (∀ x : result unit, is_ok x = true ↔ x = Ok tt) as Hok by (by intros [[]| |]).
  rewrite Hok in Hdone. exists new. split_and!; [done..|].
  intros Hin%Hdone. by apply main_returns.
Qed.

(** [C17] The script ends, and its exit status tells the truth.  On the
    mailbox, with fuel for the pages of the search, whatever the
    credential and the faults of the provider, the script run as a
    program exits: with status 0 after it has printed its last line,
    and then the mailbox is the one a complete run leaves
    ([labelled]); with status 1, after an uncaught exception, without
    that line. *)
Theorem run_module_exits `{Gate G} fuel (g : G) w :
  length (matching (w_remote w) query) < fuel * page_size (w_remote w) →
  let r := run_module "__main__" fuel (gate_at g w) in
  ∃ new, w_console r.2 = w_console w ++ new ∧
    (exit_status r.1 = Some 0%Z ∧ AllDone ∈ new ∧
       inner (w_remote r.2) ≡ labelled query (w_remote w)
     ∨ exit_status r.1 = Some 1%Z ∧ AllDone ∉ new).
Proof.
  intros Hfuel r. subst r. rewrite run_module_script.
  destruct (main_completes (P:=gated G mailbox) fuel (gate_at g w)) as (new & Hc & Hdone).
  exists new. split; [done|]. pose proof (main_returns fuel g w) as Hret.
  pose proof (main_gated_outcome fuel g w) as Hout. pose proof (main_ends fuel w Hfuel) as He.
  destruct (main fuel (gate_at g w)).1 as [[]|e|]; cbn [exit_status is_ok] in *.
  - left. split_and!; [done|by apply Hdone|by apply Hret].
  - right. split; [done|]. by intros ?%Hdone.
  - destruct Hout as [Heq|[f ?]]; [by rewrite <-Heq in He|done].
Qed.

(** [C13] The script only adds, and only where it should.  Whatever a
    run of [main] does on a well-formed mailbox, with whatever
    credential and fuel, behind whatever gate, and whether it returns,
    raises or is stopped half way: the mailbox stays well formed; its
    labels are those it had, with the label [rejections] after them
    when there was none; its messages are those it had, in the same
    order, and each of them carries the labels it carried, with the
    label [rejections] more on some of the messages that match the
    query.  No label is removed, no message that does not match is
    touched. *)
Theorem main_only_adds `{Gate G} fuel (g : G) w :
  mailbox_wf (w_remote w) →
  let mb := w_remote w in
  let mb' := inner (w_remote (main fuel (gate_at g w)).2) in
  mailbox_wf mb' ∧
  (mb_labels mb' = mb_labels mb ∨
   ∃ i, resolve (mb_labels mb) "rejections" = None ∧
     mb_labels mb' = mb_labels mb ++ [("rejections", i)]) ∧
  ∃ ids l, ids ⊆ matching mb query ∧
    (ids ≠ [] → resolve (mb_labels mb') "rejections" = Some l) ∧
    mb_messages mb' =
      (λ m, if decide (msg_id m ∈ ids) then Message (msg_id m) (msg_labels m ∪ {[l]}) else m)
        <$> mb_messages mb.
Proof.
  intros Hwf mb mb'. subst mb mb'.
  destruct (main_progress fuel g w Hwf) as (ini & Hini & Hwfi & Hp).
  split; [by eapply progress_wf|]. apply progress_content in Hp.
  rewrite (matching_proper _ _ Hini query query eq_refl) in Hp.
  destruct Hini as (Hl & _ & Hm & _). by rewrite Hl, Hm in Hp.
Qed.

(** [C12] The run after any run.  Whatever a run of [main] has done on a
    well-formed mailbox, behind any gate: failed to log in, been
    refused, been stopped at any request by a quota or by a fault that
    lost the answer, run out of fuel, or returned; a later run on the
    mailbox it has left, with a login that yields an accepted credential
    and fuel for the pages of the search, returns, and leaves the
    mailbox a complete run on the first mailbox leaves ([labelled]):
    the label [rejections] is there once, every message that matches
    carries it, and everything else is as it was.  No message is
    missed and no duplicate label is created: the script needs neither
    a rollback nor a record of what it has done. *)
Theorem main_resumes `{Gate G} fuel (g : G) w fuel' w2 svc2 w3 :
  mailbox_wf (w_remote w) →
  w_remote w2 = inner (w_remote (main fuel (gate_at g w)).2) →
  get_gmail_service w2 = (Ok svc2, w3) →
  authorized (svc_credentials svc2) (w_remote w3) = inr tt →
  length (matching (w_remote w) query) < fuel' * page_size (w_remote w) →
  ∃ w', main fuel' w2 = (Ok tt, w') ∧ w_remote w' ≡ labelled query (w_remote w).
Proof.
  intros Hwf Hw2 Hlogin2 Ha2 Hfuel.
  destruct (main_progress fuel g w Hwf) as (ini & Hini & _ & Hp). rewrite <-Hw2 in Hp.
  assert (w_remote w3 ≡ w_remote w2) as Hw3.
  { pose proof (get_gmail_service_same_mail w2) as Hs. by rewrite Hlogin2 in Hs. }
  destruct (main_labelled fuel' w2 svc2 w3 Hlogin2 Ha2) as (w' & Hrun2 & Hr2 & _).
  { by rewrite Hw3, (progress_matching _ _ _ Hp), (progress_page_size _ _ _ Hp), Hini. }
  exists w'. split; [done|].
  by rewrite Hr2, Hw3, (progress_labelled _ _ _ Hp), Hini.
Qed.

End runs.

(** ** A run on the sample mailbox that the quota stops *)

(** The sample mailbox with its stored credential, after a run that a
    quota of three requests has stopped. *)
Definition stopped_world : world mailbox :=
  World (w_files cached_world) 1000 (inner (w_remote (main 3 (limit 3 cached_world)).2)) [] [].

Lemma main_resumes_witness :
  ∃ w', main 3 stopped_world = (Ok tt, w') ∧ w_remote w' ≡ labelled query sample_mailbox.
Proof.
  apply (main_resumes 3 (3 : nat) cached_world 3 stopped_world (Service sample_credentials)
           stopped_world).
  - apply sample_mailbox_wf.
  - reflexivity.
  - by vm_compute.
  - by vm_compute.
  - vm_compute. lia.
Defined.

(** The run on the sample mailbox that a quota of three requests stops
    does not print the last line. *)
Lemma main_done_witness :
  let r := main 3 (limit 3 cached_world) in
  ∃ new, w_console r.2 = w_console cached_world ++ new ∧
    (AllDone ∈ new ↔ r.1 = Ok tt) ∧
    (AllDone ∈ new → inner (w_remote r.2) ≡ labelled query sample_mailbox).
Proof. apply (main_done 3 (3 : nat) cached_world). Defined.

(** The run on the sample mailbox that loses the answer to its batch
    request. *)
Lemma main_only_adds_witness :
  let mb := sample_mailbox in
  let mb' := inner (w_remote (main 3 (gate_at lost_fourth cached_world)).2) in
  mailbox_wf mb' ∧
  (mb_labels mb' = mb_labels mb ∨
   ∃ i, resolve (mb_labels mb) "rejections" = None ∧
     mb_labels mb' = mb_labels mb ++ [("rejections", i)]) ∧
  ∃ ids l, ids ⊆ matching mb query ∧
    (ids ≠ [] → resolve (mb_labels mb') "rejections" = Some l) ∧
    mb_messages mb' =
      (λ m, if decide (msg_id m ∈ ids) then Message (msg_id m) (msg_labels m ∪ {[l]}) else m)
        <$> mb_messages mb.
Proof. apply (main_only_adds 3 lost_fourth cached_world), sample_mailbox_wf. Defined.

(** The script run as a program on the sample mailbox, behind a quota
    of four requests. *)
Lemma run_module_exits_witness :
  let r := run_module "__main__" 3 (limit 4 cached_world) in
  ∃ new, w_console r.2 = w_console cached_world ++ new ∧
    (exit_status r.1 = Some 0%Z ∧ AllDone ∈ new ∧
       inner (w_remote r.2) ≡ labelled query sample_mailbox
     ∨ exit_status r.1 = Some 1%Z ∧ AllDone ∉ new).
Proof. apply (run_module_exits 3 (4 : nat) cached_world). vm_compute. lia. Defined.

(** A quota of four requests is enough for the run and the status is 0;
    a quota of three stops the batch request and the status is 1; run
    with fuel for one page of the two, the script does not end. *)
Example exit_scenario :
  exit_status (run_module "__main__" 3 (limit 4 cached_world)).1 = Some 0%Z ∧
  exit_status (run_module "__main__" 3 (limit 3 cached_world)).1 = Some 1%Z ∧
  exit_status (run_module "__main__" 1 (limit 4 cached_world)).1 = None ∧
  exit_status (run_module "label_rejections" 3 (limit 0 cached_world)).1 = Some 0%Z.
Proof. by vm_compute. Qed.

(** The quota of three requests covers the listing of the labels and
    the two pages of the search; the batch request is refused and no
    message is labelled.  The run after it sends the same three requests
    and the batch request, and labels the three messages that match. *)
Example stopped_scenario :
  let r := main 3 (limit 3 cached_world) in
  let r' := main 3 stopped_world in
  r.1 = Raise (HttpError 429) ∧
  length (w_calls r.2) = 4 ∧
  inner (w_remote r.2) = sample_mailbox ∧
  r'.1 = Ok tt ∧
  length (w_calls r'.2) = 4 ∧
  w_remote r'.2 = w_remote (main 3 cached_world).2 ∧
  msg_id <$> filter (λ m, "Label_1" ∈ msg_labels m) (mb_messages (w_remote r'.2))
  = ["m1"; "m3"; "m4"].
Proof. by vm_compute. Qed.
