(* ===== verification/Faults.v ===== *)
(** * Faults: the script run again after a run that failed

    The script does not retry.  What its user does when a run fails is
    to run it again.  This file shows that this is enough against a
    provider with transient faults: a schedule says, for each of the
    coming calls, a request or a call of the login to the authorization
    server, whether the provider answers it, refuses it, or applies it
    and loses the answer; after the schedule every call is answered.  With a stored credential the mailbox honours, or with
    the client secrets and a user who consents to the first login,
    each run that fails uses up a fault of the schedule, the mailbox
    stays in a state of progress ([Interrupted]), and a run that meets
    no fault completes the work.  So at most as many runs fail as the
    schedule has faults, the run after them returns, and from then on
    the mailbox is the mailbox of a complete run, whatever later runs
    meet. *)

From stdpp Require Import base tactics option list strings gmap.
From S2P Require Import Prelude PyData World Mock Mailbox Batch Labels Search Auth.
From S2P Require Import Pipeline Gate EndToEnd Interrupted.

(** ** Schedules of faults *)

(** The number of faults still to come. *)
Fixpoint faults_left (fs : schedule) : nat :=
  match fs with
  | [] => 0
  | None :: fs => faults_left fs
  | Some _ :: fs => S (faults_left fs)
  end.

(** The calls that pass use up no fault; the call that is stopped uses
    up one. *)
Lemma schedule_pass n (fs fs' : schedule) :
  gate_pass n fs = Some fs' → faults_left fs' = faults_left fs.
Proof.
  revert fs. induction n as [|n IH]; intros fs Hp; [by injection Hp as ->|].
  destruct fs as [|[f|] fs]; [|done|]; simpl in Hp; by rewrite (IH _ Hp).
Qed.

Lemma schedule_stop (fs fs' : schedule) f :
  gate_step fs = (Some f, fs') → faults_left fs = S (faults_left fs').
Proof. destruct fs as [|[f'|] fs]; [done| |done]. by intros [= _ ->]. Qed.

(** ** Runs, one after the other *)

(** The world when the clock shows [t]. *)
Definition at_time {P} (t : Z) (w : world P) : world P :=
  World (w_files w) t (w_remote w) (w_calls w) (w_console w).

(** The world after [k] runs of the script, whatever their results, when
    run number [i], [i + 1], ... starts at the time [time i],
    [time (i + 1)], ... *)
Fixpoint rerun `{GmailApi P} `{OAuth P} (fuel : nat) (time : nat → Z) (i k : nat)
    (w : world P) : world P :=
  match k with
  | 0 => w
  | S k => rerun fuel time (S i) k (main fuel (at_time (time i) w)).2
  end.

(** ** The stored credential *)

(** [stored rt w]: [token.json] holds a credential with an access token
    the mailbox accepts, an expiry, and the refresh token [rt], which
    the mailbox still honours with the modify scope. *)
Definition stored (rt : string) (w : world mailbox) : Prop :=
  ∃ c sc, w_files w !! "token.json" = Some (to_json c) ∧
    is_Some (token c) ∧ is_Some (expiry c) ∧ refresh_token c = Some rt ∧ rt ≠ "" ∧
    authorized c (w_remote w) = inr tt ∧
    assoc rt (mb_refresh_grants (w_remote w)) = Some sc ∧ modify_scope ∈ sc.

(** A new access token leaves the tokens that are accepted accepted. *)
Lemma mint_keeps_authorized now c sc (mb : mailbox) c0 :
  modify_scope ∈ sc → authorized c0 mb = inr tt → authorized c0 (mint now c sc mb).2 = inr tt.
Proof.
  intros Hsc. unfold authorized, mint. destruct (token c0) as [tok|]; [|done]. simpl.
  case_decide; [by rewrite decide_True|done].
Qed.

(** [stored] looks at the files and at the grants of the mailbox. *)
Lemma stored_grants rt (w w' : world mailbox) :
  w_files w' = w_files w →
  (∀ c, authorized c (w_remote w) = inr tt → authorized c (w_remote w') = inr tt) →
  mb_refresh_grants (w_remote w') = mb_refresh_grants (w_remote w) →
  stored rt w → stored rt w'.
Proof.
  intros Hf Ha Hr (c & sc & ? & ? & ? & ? & ? & ? & ? & ?). exists c, sc.
  rewrite Hf, Hr. split_and!; by auto.
Qed.

(** The login at any time with a stored credential: the credential is
    used when it is still valid and refreshed when it is not; no
    interactive login is needed, the credential that comes out is
    accepted, and it is the one the next run finds.  The mailbox
    honours what it has honoured before. *)
Lemma stored_login rt t (w : world mailbox) :
  stored rt w →
  ∃ c1 w1, get_gmail_service (at_time t w) = (Ok (Service c1), w1) ∧
    stored rt w1 ∧ authorized c1 (w_remote w1) = inr tt ∧
    (∀ c, authorized c (w_remote w) = inr tt → authorized c (w_remote w1) = inr tt) ∧
    mb_refresh_grants (w_remote w1) = mb_refresh_grants (w_remote w).
Proof.
  intros (c & sc & Hf & [tok Htok] & [e He] & Hrt & Hne & Ha & Hg & Hsc).
  destruct c as [? ? ? scs]. simpl in Htok, He, Hrt. subst.
  set (c0 := Credentials (Some tok) (Some rt) (Some e) SCOPES).
  assert (loaded (at_time t w) = Ok (Some c0)) as Hl.
  { unfold loaded. cbn [at_time w_files w_clock]. by rewrite Hf, from_to_json. }
  rewrite get_gmail_service_loaded, Hl. cbn [at_time w_clock].
  destruct (valid c0 t) eqn:Hv.
  - rewrite (needs_login_valid _ _ Hv). exists c0, (at_time t w).
    split_and!; [done| |done..]. by exists (Credentials (Some tok) (Some rt) (Some e) scs), sc.
  - assert (expired c0 t = true) as Hx.
    { unfold valid in Hv. rewrite bool_decide_true in Hv by (by eexists).
      by destruct (expired c0 t). }
    assert (has_refresh_token c0 = true) as Hh.
    { unfold has_refresh_token. simpl. by rewrite (proj2 (String.eqb_neq rt "")). }
    unfold needs_login. rewrite Hv. cbn [negb].
    rewrite (renew_refresh c0 (at_time t w)) by (unfold can_refresh; simpl; by rewrite Hx, Hh).
    cbn [at_time w_clock w_remote oauth_refresh mailbox_oauth]. unfold mailbox_refresh.
    cbn [refresh_token c0]. rewrite Hg. set (m := mint t c0 sc (w_remote w)).
    pose proof (mint_authorized t c0 sc (w_remote w) Hsc) as Ha'. fold m in Ha'.
    replace (let '(c', mb') := m in (inr c', mb')) with (inr (B:=credentials) (A:=exn) m.1, m.2)
      by (by destruct m).
    exists m.1, (put_file "token.json" (to_json m.1) (set_remote m.2 (at_time t w))).
    split_and!; [done| |done| |done].
    + exists m.1, sc. split_and!; [apply lookup_insert_eq|by eexists|by eexists|done..].
    + intros c. by apply mint_keeps_authorized.
Qed.

(** [fresh w]: no credential is stored yet, the client secrets are in
    [credentials.json], and the user consents to what the login asks. *)
Definition fresh (w : world mailbox) : Prop :=
  w_files w !! "token.json" = None ∧
  (∃ d, w_files w !! "credentials.json" = Some (PDict d) ∧ is_Some (dict_lookup d "installed")) ∧
  mb_consent (w_remote w) = true.

(** The first login: interactive, and from then on the credential is
    stored. *)
Lemma fresh_login t (w : world mailbox) :
  fresh w →
  ∃ rt c1 w1, get_gmail_service (at_time t w) = (Ok (Service c1), w1) ∧
    stored rt w1 ∧ authorized c1 (w_remote w1) = inr tt ∧
    mb_consent (w_remote w1) = true.
Proof.
  intros (Ht & (d & Hs & Hi) & Hc). rewrite get_gmail_service_loaded. unfold loaded.
  cbn [at_time w_files w_clock]. rewrite Ht. cbn [needs_login].
  rewrite (renew_login None (at_time t w)), (from_client_secrets_file_ok d) by done.
  cbn [fst snd at_time w_clock w_remote oauth_authorize mailbox_oauth].
  unfold mailbox_authorize. rewrite Hc.
  set (rt := refresh_token_of _). set (mb1 := with_grants _ _ _ _).
  set (m := mint t (Credentials None (Some rt) None SCOPES) SCOPES mb1).
  pose proof (mint_authorized t (Credentials None (Some rt) None SCOPES) SCOPES mb1
                ltac:(by left)) as Ha. fold m in Ha.
  replace (let '(c', mb') := m in (inr c', mb')) with (inr (B:=credentials) (A:=exn) m.1, m.2)
    by (by destruct m).
  exists rt, m.1, (put_file "token.json" (to_json m.1) (set_remote m.2 (at_time t w))).
  split_and!; [done| |done..]. exists m.1, SCOPES.
  split_and!; [apply lookup_insert_eq|by eexists|by eexists|done|done|done| |by left].
  simpl. by rewrite decide_True.
Qed.

(** [can_login w]: a credential is stored, or the first login can be
    made. *)
Definition can_login (w : world mailbox) : Prop := (∃ rt, stored rt w) ∨ fresh w.

Lemma can_login_login t (w : world mailbox) :
  can_login w →
  ∃ rt c1 w1, get_gmail_service (at_time t w) = (Ok (Service c1), w1) ∧
    stored rt w1 ∧ authorized c1 (w_remote w1) = inr tt.
Proof.
  intros [[rt Hs]|Hf].
  - destruct (stored_login rt t w Hs) as (c1 & w1 & ? & ? & ? & _). by exists rt, c1, w1.
  - destruct (fresh_login t w Hf) as (rt & c1 & w1 & ? & ? & ? & _). by exists rt, c1, w1.
Qed.

(** A login that a fault stops leaves the script able to log in: the
    files are as they were, and the mailbox honours what it has
    honoured before. *)
Lemma can_login_fault `{Gate G} f (g : G) t (w : world mailbox) :
  can_login w → can_login (ungate (login_fault f g (at_time t w)).2).
Proof.
  intros Hw. destruct f as [e|e]; [done|]. destruct Hw as [[rt Hs]|Hf]; [left|right].
  - exists rt. destruct (stored_login rt t w Hs) as (c1 & w1 & Hl & _ & _ & Ha & Hr).
    apply (stored_grants rt w); [done|simpl; by rewrite Hl..|done].
  - destruct (fresh_login t w Hf) as (rt & c1 & w1 & Hl & _ & _ & Hc).
    destruct Hf as (? & ? & _). split_and!; [done..|]. simpl. by rewrite Hl.
Qed.

(** ** Runs of a script that can log in *)

Section ready.
Context (fuel : nat) (ini : mailbox).
Context (Hfuel : length (matching ini query) < fuel * page_size ini).
Implicit Types (w : world mailbox) (t : Z) (L : world mailbox → Prop).

(** [ready L w]: [L] holds of the stored credential, and the mailbox is
    well formed and, up to the grants, in a state of progress from
    [ini]. *)
Definition ready L w : Prop :=
  L w ∧ mailbox_wf (w_remote w) ∧ ∃ mb0, mb0 ≡ w_remote w ∧ progress query ini mb0.

(** A run behind a gate: the login is answered and the rest of the
    script runs with a credential the mailbox accepts, or a fault stops
    the login and the script can still log in. *)
Lemma ready_main `{Gate G} (g : G) t w :
  ready can_login w →
  (∃ g0 rt c1 w1,
     gate_pass (login_calls (at_time t w)) g = Some g0 ∧
     main fuel (at_time t (gate_at g w)) = label_rejections (Service c1) fuel (gate_at g0 w1) ∧
     ready (stored rt) w1 ∧ authorized c1 (w_remote w1) = inr tt ∧
     w_remote w1 ≡ w_remote w) ∨
  (∃ f g2,
     gate_step g = (Some f, g2) ∧
     main fuel (at_time t (gate_at g w))
     = (Raise (fault_exn f), (login_fault f g2 (at_time t w)).2) ∧
     ready can_login (ungate (login_fault f g2 (at_time t w)).2)).
Proof.
  intros (Hs & Hwfw & mb0 & Hmb0 & Hp).
  change (at_time t (gate_at g w)) with (gate_at g (at_time t w)).
  pose proof (get_gmail_service_frame keeps_wf (at_time t w) Hwfw) as Hwf1.
  pose proof (get_gmail_service_same_mail (at_time t w)) as Hsame.
  destruct (main_gated_cases fuel g (at_time t w)) as [(g0 & Hg0 & ->)|(f & g2 & _ & Hg & ->)].
  - left. destruct (can_login_login t w Hs) as (rt & c1 & w1 & Hlogin & Hs1 & Ha1).
    rewrite Hlogin in Hwf1, Hsame |- *. exists g0, rt, c1, w1.
    split_and!; [done..| |done|done]. split_and!; [done..|].
    exists mb0. split; [by rewrite Hsame|done].
  - right. exists f, g2. split_and!; [done..|]. split_and!.
    + by apply can_login_fault.
    + destruct f; [done|apply Hwf1].
    + exists mb0. split; [|done]. by rewrite (login_fault_same_mail f g2 (at_time t w)).
Qed.

(** What the script leaves behind a gate after the login. *)
Lemma ready_label_rejections `{Gate G} (g : G) rt c1 w :
  ready (stored rt) w →
  ready can_login (ungate (label_rejections (Service c1) fuel (gate_at g w)).2).
Proof.
  intros ((c & sc & Hf & Htok & He & Hrt & Hne & Ha & Hg & Hsc) & Hwfw & mb0 & Hmb0 & Hp).
  pose proof (label_rejections_frame (sends any_request) (Service c1) fuel (gate_at g w))
    as (_ & Hfiles & _).
  pose proof (label_rejections_progress fuel (Service c1) g w Hwfw) as Hp'.
  set (wl := (label_rejections _ _ _).2) in *. split_and!.
  - left. exists rt, c, sc. cbn [ungate w_files w_remote]. rewrite Hfiles.
    rewrite (progress_authorized _ _ _ _ Hp'), (progress_grants _ _ _ Hp'). by split_and!.
  - by eapply progress_wf.
  - destruct (progress_equiv _ _ _ _ Hmb0 Hp') as (mb1 & Hmb1 & Hp1).
    exists mb1. split; [done|by etrans].
Qed.

(** Whatever a run does behind a gate, at whatever time, the next run
    is ready. *)
Lemma ready_run `{Gate G} (g : G) t w :
  ready can_login w → ready can_login (ungate (main fuel (at_time t (gate_at g w))).2).
Proof.
  intros Hw.
  destruct (ready_main g t w Hw) as [(g0 & rt & c1 & w1 & _ & -> & Hw1 & _)|(f & g2 & _ & -> & ?)];
    [by eapply ready_label_rejections|done].
Qed.

(** A run behind a gate either meets no fault, returns and leaves the
    mailbox of a complete run, or raises the error of the first fault
    it meets. *)
Lemma ready_outcome `{Gate G} (g : G) t w :
  ready can_login w →
  let r := main fuel (at_time t (gate_at g w)) in
  (∃ n g', gate_pass n g = Some g' ∧
     r.1 = Ok tt ∧ gate (w_remote r.2) = g' ∧ inner (w_remote r.2) ≡ labelled query ini) ∨
  (∃ n g1 f g2, gate_pass n g = Some g1 ∧ gate_step g1 = (Some f, g2) ∧
     r.1 = Raise (fault_exn f) ∧ gate (w_remote r.2) = g2).
Proof.
  intros Hw r. subst r.
  destruct (ready_main g t w Hw)
    as [(g0 & rt & c1 & w1 & Hg0 & -> & (_ & _ & mb0 & Hmb0 & Hp) & Ha & _)|(f & g2 & Hs & -> & _)];
    [|right; by exists 0, g, f, g2].
  destruct (label_rejections_behind (G:=G) (Service c1) fuel w1) as (new & _ & _ & Hin & Hout).
  destruct (gate_pass (length new) g0) as [g'|] eqn:Hg.
  - left. exists (login_calls (at_time t w) + length new), g'.
    split; [by rewrite gate_pass_add, Hg0|]. rewrite (Hin g0 g' Hg).
    destruct (label_rejections_labelled fuel (Service c1) w1 Ha) as (w' & -> & Hr & _).
    { by rewrite <-Hmb0, (progress_matching _ _ _ Hp), (progress_page_size _ _ _ Hp). }
    cbn [fst snd gate_at w_remote gate inner].
    by rewrite Hr, <-Hmb0, (progress_labelled _ _ _ Hp).
  - right. apply gate_pass_None in Hg as (k & g1 & f & g2 & Hk & Hg & Hs).
    destruct (Hout k g0 g1 f g2 Hk Hg Hs) as (wl & -> & _ & Hrl).
    exists (login_calls (at_time t w) + k), g1, f, g2. cbn [fst snd].
    rewrite Hrl, gate_pass_add, Hg0. by split_and!.
Qed.

(** A run on the mailbox of a complete run leaves it as it is, up to
    the grants, whatever the run meets. *)
Lemma ready_complete `{Gate G} (g : G) t w :
  ready can_login w → w_remote w ≡ labelled query ini →
  inner (w_remote (main fuel (at_time t (gate_at g w))).2) ≡ labelled query ini.
Proof.
  intros Hw Hr.
  destruct (ready_main g t w Hw)
    as [(g0 & rt & c1 & w1 & _ & -> & (_ & Hwf1 & _) & _ & Hsame)|(f & g2 & _ & -> & _)].
  - pose proof (label_rejections_progress fuel (Service c1) g0 w1 Hwf1) as Hp.
    assert (labelled query ini ≡ w_remote w1) as He by (by rewrite Hsame, Hr).
    destruct (progress_equiv _ _ _ _ He Hp) as (mb1 & Hmb1 & Hp1).
    by rewrite <-Hmb1, (progress_complete _ _ _ Hp1).
  - by rewrite (login_fault_same_mail f g2 (at_time t w)).
Qed.

End ready.

(** ** The runs *)

Section reruns.
Context (fuel : nat) (time : nat → Z) (ini : mailbox).
Context (Hfuel : length (matching ini query) < fuel * page_size ini).
Implicit Types (w : world mailbox).

(** Once the mailbox is the mailbox of a complete run, it stays so
    through every later run, whatever the run meets. *)
Lemma rerun_complete `{Gate G} i k (g : G) w :
  ready ini can_login w → w_remote w ≡ labelled query ini →
  inner (w_remote (rerun fuel time i k (gate_at g w))) ≡ labelled query ini.
Proof.
  revert i g w. induction k as [|k IH]; intros i g w Hw Hr; [done|]. cbn [rerun].
  rewrite <-(gate_at_ungate (main _ _).2).
  apply IH; [by apply ready_run|by apply ready_complete].
Qed.

(** At most as many runs fail as the schedule has faults. *)
Lemma rerun_ready (fs : schedule) i w :
  ready ini can_login w →
  ∃ k, k ≤ faults_left fs ∧
    (main fuel (at_time (time (i + k)) (rerun fuel time i k (gate_at fs w)))).1 = Ok tt ∧
    ∀ j, k < j →
      inner (w_remote (rerun fuel time i j (gate_at fs w))) ≡ labelled query ini.
Proof.
  remember (faults_left fs) as n eqn:Hn. revert fs i w Hn.
  induction (lt_wf n) as [n _ IH]. intros fs i w -> Hw.
  pose proof (ready_run fuel ini fs (time i) w Hw) as Hw'.
  destruct (ready_outcome fuel ini Hfuel fs (time i) w Hw)
    as [(m & fs' & _ & Hok & _ & Hr)|(m & g1 & f & fs' & Hp & Hs & _ & Hg)].
  - exists 0. rewrite Nat.add_0_r. split_and!; [lia|done|]. intros [|j] Hj; [lia|].
    cbn [rerun]. rewrite <-(gate_at_ungate (main _ _).2). by apply rerun_complete.
  - destruct (IH (faults_left fs')) with (fs := fs') (i := S i)
      (w := ungate (main fuel (at_time (time i) (gate_at fs w))).2)
      as (k & Hk & Hok & Hrest); [|done..|].
    { rewrite <-(schedule_pass _ _ _ Hp), (schedule_stop _ _ _ Hs). lia. }
    rewrite <-Hg, gate_at_ungate in Hok, Hrest. exists (S k).
    rewrite <-Nat.add_succ_comm. split_and!; [|done|].
    + rewrite <-(schedule_pass _ _ _ Hp), (schedule_stop _ _ _ Hs). lia.
    + intros [|j] Hj; [lia|]. apply Hrest. lia.
Qed.

End reruns.

(** ** The theorem *)

(** [C14] Running the script again is enough.  On a well-formed mailbox,
    with a stored credential whose refresh token the mailbox honours,
    or with the client secrets and a user who consents to the first
    login, and with fuel for the pages of the search; against a provider
    that follows any schedule of faults (calls refused, answers lost,
    at the authorization server or at the Gmail API); the runs of
    [main] starting at any times, each from the files the run before
    has left ([rerun]): at most as many runs fail as the schedule has
    faults; the run after them returns; and after it the mailbox is
    the one a complete run leaves ([labelled]: every message that
    matches carries the label [rejections], everything else is as it
    was), and stays so through every later run, failed or not. *)
Theorem main_retried fuel (fs : schedule) (time : nat → Z) (w : world mailbox) :
  mailbox_wf (w_remote w) → can_login w →
  length (matching (w_remote w) query) < fuel * page_size (w_remote w) →
  ∃ k, k ≤ faults_left fs ∧
    (main fuel (at_time (time k) (rerun fuel time 0 k (gate_at fs w)))).1 = Ok tt ∧
    ∀ j, k < j →
      inner (w_remote (rerun fuel time 0 j (gate_at fs w))) ≡ labelled query (w_remote w).
Proof.
  intros Hwf Hs Hfuel. apply (rerun_ready fuel time (w_remote w) Hfuel fs 0 w).
  split_and!; [done..|]. by exists (w_remote w).
Qed.

(** ** Three runs on the sample mailbox *)

(** The listing of the labels of the first run is refused; the answer to
    the batch request of the second run is lost. *)
Definition sample_schedule : schedule :=
  [Some (Refused (HttpError 503)); None; None; None; Some (Lost (HttpError 500))].

(** The first two runs start while the stored credential is valid, the
    third after it has expired. *)
Definition sample_times (i : nat) : Z := if decide (i < 2) then 1000 else 9000.

Lemma main_retried_witness :
  ∃ k, k ≤ 2 ∧
    (main 3 (at_time (sample_times k)
               (rerun 3 sample_times 0 k (gate_at sample_schedule cached_world)))).1 = Ok tt ∧
    ∀ j, k < j →
      inner (w_remote (rerun 3 sample_times 0 j (gate_at sample_schedule cached_world)))
      ≡ labelled query sample_mailbox.
Proof.
  apply (main_retried 3 sample_schedule sample_times cached_world).
  - apply sample_mailbox_wf.
  - left. exists "1//0", sample_credentials, [modify_scope].
    split_and!; [by vm_compute|by eexists|by eexists|done|done|done|done|by left].
  - vm_compute. lia.
Defined.

(** The first run fails at its first request and changes nothing.  The
    second run sends its four requests and fails at the last, which has
    labelled the three messages that match.  The third run refreshes
    the credential, meets no fault, finds the label and the messages
    labelled, and returns. *)
Example retried_scenario :
  let w0 := gate_at sample_schedule cached_world in
  let run k := main 3 (at_time (sample_times k) (rerun 3 sample_times 0 k w0)) in
  let labelled_ids (w : world (gated schedule mailbox)) :=
    msg_id <$> filter (λ m, "Label_1" ∈ msg_labels m) (mb_messages (inner (w_remote w))) in
  (run 0).1 = Raise (HttpError 503) ∧ inner (w_remote (run 0).2) = sample_mailbox ∧
  (run 1).1 = Raise (HttpError 500) ∧ labelled_ids (run 1).2 = ["m1"; "m3"; "m4"] ∧
  (run 2).1 = Ok tt ∧ labelled_ids (run 2).2 = ["m1"; "m3"; "m4"] ∧
  w_files (run 2).2 !! "token.json"
  = Some (to_json (Credentials (Some "ya29.1") (Some "1//0") (Some 12600%Z) SCOPES)) ∧
  length (w_calls (run 2).2) = 9.
Proof. by vm_compute. Qed.

(** The answer of the authorization server to the first login is lost;
    the answer to the fourth call after it is lost as well. *)
Definition first_run_schedule : schedule :=
  [Some (Lost FlowError); None; None; None; Some (Lost (HttpError 500))].

(** Three runs when no credential is stored and the label does not
    exist yet.  The first run loses the answer to its login: the
    authorization server has granted the tokens, but the script has not
    seen them and stores nothing.  The second run logs in again, stores
    the credential, creates the label, and loses the answer to the
    first page of the search: nothing is labelled.  The third run
    refreshes the credential with the refresh token of the second
    login, finds the label the second run has created, and labels the
    three messages. *)
Example first_run_retried :
  fresh first_run_world ∧
  let w0 := gate_at first_run_schedule first_run_world in
  let run k := main 3 (at_time (sample_times k) (rerun 3 sample_times 0 k w0)) in
  let labelled_ids (w : world (gated schedule mailbox)) :=
    msg_id <$> filter (λ m, "Label_1" ∈ msg_labels m) (mb_messages (inner (w_remote w))) in
  (run 0).1 = Raise FlowError ∧ w_files (run 0).2 !! "token.json" = None ∧
  (mb_refresh_grants (inner (w_remote (run 0).2))).*1 = ["1//1"; "1//0"] ∧
  (run 1).1 = Raise (HttpError 500) ∧ labelled_ids (run 1).2 = [] ∧
  w_files (run 1).2 !! "token.json"
  = Some (to_json (Credentials (Some "ya29.2") (Some "1//2") (Some 4600%Z) SCOPES)) ∧
  mb_labels (inner (w_remote (run 1).2)) = [("INBOX", "INBOX"); ("rejections", "Label_1")] ∧
  (run 2).1 = Ok tt ∧ labelled_ids (run 2).2 = ["m1"; "m3"; "m4"] ∧
  w_files (run 2).2 !! "token.json"
  = Some (to_json (Credentials (Some "ya29.3") (Some "1//2") (Some 12600%Z) SCOPES)).
Proof.
  split; [|by vm_compute].
  split_and!; [by vm_compute| |done]. eexists. split; [by vm_compute|by eexists].
Qed.
